(* ===== verification/_CoqProject ===== *)
-Q . S2P
Prelude.v
RustStr.v
Json.v
Error.v
License.v
LicenseFile.v
LicenseIO.v
LicenseServer.v
LicenseExchange.v
LicenseLiveness.v
LicenseStore.v
Db.v
World.v
Sources.v
JobSource.v
Jobs.v
JobLifecycle.v
JobActions.v
JobStart.v
JobSignals.v
JobListing.v
RuleTypes.v
Templates.v
TemplateRules.v
TemplateTable.v
Secrets.v
SecretRules.v
Schedules.v
Batches.v
ScheduleRules.v
Sampling.v
SampleJson.v
SampleCsv.v
SampleXml.v
Net.v
Files.v
Specs.v
SpecRules.v
MasterKey.v
Suggest.v
SuggestRules.v
DryRun.v
LicenseRoutes.v
Sessions.v
InstallId.v
Admin.v
Settings.v
AdminMain.v
Startup.v
Tenancy.v
TenancyRules.v
Router.v
JobStream.v
Api.v
Traces.v
ApiRules.v
Interference.v
ApiWitness.v
WorkGate.v
AuditTrail.v
JobHistory.v
Secrecy.v
SerdeText.v
VendorHttp.v
TestKit.v
ConfLicense.v
ConfService.v
ConfRules.v
ConfSamples.v
