(* ===== verification/Prelude.v ===== *)
(** * Migration Platform API: a verification development

    The program is the Rust API of the migration platform
    ([src/apps/api/src]): an HTTP service over PostgreSQL that validates rule
    templates, registers sources, starts and steers migration jobs on a
    Temporal orchestrator through its HTTP bridge, and does work only under a
    license kept alive by a vendor license service, which is a second binary
    of the same crate.  The development translates its handlers into
    executable definitions and proves what they promise each other, their
    operators and their tenants.

    ** How the program is modelled

    Handlers are programs of a state and error monad ([stM], below), in the
    order of the source's statements, with its guards and early returns.
    There are these state types:
    - [World.World]: what an API handler sees: the database [Db.Db], a script
      of what other transactions do before each of its statements and which
      statement fails (before or after its effect), the bridge's replies, the
      requests sent, and the list of the handler's own database steps.  A
      theorem over all worlds is a theorem over all interleavings.
    - [LicenseIO.Proc]: the license globals of an API process, the files, the
      clock and the license server's replies.
    - [LicenseServer.Srv]: the license service's tables, its rate limiters
      and a script of failing SQL statements.
    - [Net.Net]: a [World] with the replies of the resolver, HTTP servers and
      the object store, and the requests sent to them, each hop of a followed
      redirect one of its own; handlers that may also panic stop with
      [Suggest.Stop].
    - [LicenseRoutes.Node]: a [Proc] and a [World].
    - [Api.System]: a [Proc] and a [Net], the state of the whole API process;
      [Api.serve] runs one request on it, from the Authorization header to the
      response.
    - [Sessions.Accounts]: organizations and users.
    - [InstallId.Shared]: the identity file and the program counters of the
      processes that race for it; [InstallId.Step] is one file operation.
    - [JobStream.Stream]: the forwarding task of a progress stream, its queue
      and what the client got; [LicenseStore.Vendor]: the license service's
      rows and SQLite schema; [Startup.Boot] and [AdminMain.Host]: what
      starting the API and running the administration tool change.
    Integers are [Z] with the source's bounds where it checks or wraps them,
    instants are nanoseconds (license side) or the database's [now()];
    strings are byte sequences with the character-wise operations of
    [RustStr].  Maps with an order that matters ([serde_json]'s objects) are
    sorted association lists, tables are [gmap]s from their primary key.

    Third-party code is a parameter: RSA, base64 ([Crypto]), the text of an
    instant ([Rfc3339]), JSON text ([JsonText]), AES-GCM and SHA-256
    ([MasterKey.Aead]), JSON web tokens ([Sessions.JwtCrate]), password
    hashing ([Sessions.Argon2]), the JSON Schema validator, the cron,
    humantime, date and URL parsers, the redaction's regular expressions, the
    splitting of CSV text into records and of XML text into events, the
    database's text order and CITEXT equality, tokio's broadcast queue
    ([JobStream.Broadcast]), fresh key pairs and fresh uuids.  The classes'
    laws are the documented ones; [bits_json], [shared_key], [decimal_time],
    [clear_aead], [bits_jwt], [clear_argon] and [list_broadcast] are
    instances, which the witnesses compute with; the tests run on
    [serde_text], [hex_key] and stand-ins for the readers.  JSON pointers,
    UTF-8 validation and the grammar of [str::parse::<f64>] are written out
    from their specifications.

    ** Parts

    - [Prelude], [RustStr], [Json]: results, the monad and its weakest
      precondition [wp], Rust's strings and integer texts, JSON values.
    - [Error] ([error.rs]): the error type and its HTTP response.
    - [License], [LicenseFile], [LicenseIO] ([security/license.rs]): validity
      and adoption of documents, signed files, and the process with start-up,
      heartbeat ticks, trial activation and the gate [require_licensed].
    - [LicenseServer] ([license_server.rs], [bin/license_server.rs]): the two
      endpoints, the rate limits, revoke and unrevoke.
      [LicenseExchange]: the two ends against each other;
      [LicenseLiveness]: the heartbeat loop of [main.rs] over a service that
      answers.  [LicenseStore]: opening the SQLite store, and the service's
      [main].  [VendorHttp]: the service's router, from a request's method,
      path, header and body text to the response.
    - [Db] ([db.rs], [migrations]): rows, tables, and their JSON forms.
      [World] ([temporal.rs], [middleware/auth.rs], [security/audit.rs]):
      statements, roles, audit log, bridge; and the two effect disciplines
      [writes] (what a program's own statements may do) and [silent] (it asks
      the bridge nothing), closed under the monad.
    - [Sources] ([sources.rs]), [JobSource] ([job_source.rs]).
    - [Jobs] ([routes/jobs.rs]), with its theorems in [JobLifecycle],
      [JobActions], [JobStart], [JobSignals] and [JobListing].
    - [RuleTypes] ([rule_template_types.rs]), [Templates]
      ([routes/templates.rs]), with [TemplateRules] on documents and
      [TemplateTable] on the stored versions.
    - [Secrets] ([routes/secrets.rs], [routes/connectors.rs], the stored
      configuration of [routes/llm.rs]), with [SecretRules].
    - [Schedules] ([routes/schedules.rs]), [Batches] ([routes/batches.rs]),
      with [ScheduleRules].
    - [Sampling] ([sampling/mod.rs], [type_infer.rs]): type inference and the
      columns of a sample; [SampleJson], [SampleCsv], [SampleXml]: the three
      samplers; [Files] ([routes/files.rs]): upload and sampling.
    - [Net]: the services outside; [Specs] ([routes/specs.rs]): OpenAPI
      documents, their import and operations, with [SpecRules].
    - [MasterKey] ([security/secrets.rs]): secret encryption; [Suggest]
      ([routes/llm.rs]): mapping suggestions, with [SuggestRules].
    - [DryRun] ([routes/dry_run.rs]): payload previews.
    - [LicenseRoutes] ([routes/license.rs], [routes/health.rs]): the status
      page, trials started by an administrator, the authorization of work.
    - [Sessions] ([routes/auth.rs], [security/jwt.rs],
      [security/passwords.rs]): login and tokens.
    - [InstallId] ([security/fingerprint.rs]): the installation's identity.
    - [Admin] ([bin/admin.rs]): licenses, organizations, users and secrets
      from the command line.
      [AdminMain]: its dispatch and key generation.
    - [Settings] ([config.rs], [middleware/request_id.rs],
      [middleware/security_headers.rs]); [Startup] ([main.rs], [state.rs],
      [TemporalClient::new], [JwtKeys::load]): how the process is set up.
    - [Tenancy]: all tables as one, the references between their rows, and
      what a request of one organization may do to them ([tenant]) among what
      any transaction may do ([lawful]).  [TenancyRules]: a rely-guarantee
      judgement for programs ([within]) and its proof for every handler.
    - [Router]: the route tables of all modules and their merge in [lib.rs];
      [JobStream] ([stream_updates], [publish_progress]); [Api]: a request as
      a handler with its arguments, [handle], [serve] and the response bodies.
      [ApiRules] and [Interference]: the theorems on [serve]; [ApiWitness]:
      two organizations on which they are evaluated.
    - [Traces]: a program logic for what a handler's own steps are and what it
      asks the bridge ([traces R K m]), with rules for every construct of the
      monads and a hint database that follows a program's text.  On it rest
      [WorkGate], which requests begin work and that an invalid license stops
      them all, [AuditTrail], that successful changes are logged, and
      [JobHistory], that every request's own steps follow the job life cycle.
      [Secrecy]: a relational logic ([coupled]) for two runs of one handler
      on databases that differ in what is encrypted.
    - [SerdeText]: an instance of [JsonText] with serde_json's compact printer
      and a parser, with their round trip.  [TestKit], [ConfLicense],
      [ConfService], [ConfRules], [ConfSamples]: the repository's own unit
      tests, translated function by function and run on the model; each file
      ends with the evaluation of its suite.

    ** What the theorems show

    - The API as a whole: whatever is asked, organizations are isolated in every
      table, the database stays well formed over any history, nothing happens
      without a valid token outside the seven public handlers, what other
      organizations' requests do cannot be seen, and every URL of the API
      reaches its own handler, which no other URL does.  While the license is
      not valid no request begins work; every change a request makes is in the
      audit log, uploads excepted; and what is kept encrypted shows in no answer
      and in no request to others, the organization's own language model
      provider excepted.
    - The process starts in one order, with the license checked and the
      migrations run before it listens.
    - The license gate is sound in every reachable process state of an
      installation that has not replaced the vendor's key, the service
      grants one trial per installation, never extends a license by a
      heartbeat and keeps revocations; the exchange of the two ends works;
      an unreachable server never takes a license away, no reply but the
      server's own verdict revokes, and as long as the service grants the
      heartbeats that are due, the installation stays licensed.  The license
      store's schema is completed from any earlier or interrupted state, and
      the vendor's tools work together without the deployment.  Without the
      activation token, the service's state cannot be touched over HTTP.
    - Jobs: every write of every request of the API, the deletion of a
      schedule included, follows the transition table of
      [docs/adr/0004-job-lifecycle.md] ([JobHistory]); outcomes survive every
      request under interference; starts are for committed jobs and recorded
      as far as they are known; actions follow the workflow's answer and change
      the one job they are asked for; retries respect
      unresolved rows; requests stay in the caller's organization and are
      audited; cursor paging is complete; a progress stream delivers its own
      job's messages in order and loses none while at most 256 wait.
    - Sources: resolution and watched locations stay in the organization,
      the default staging prefix of SFTP connectors excepted; stored
      references parse back.
    - Templates: validation accepts exactly the executable documents,
      published versions are frozen, the listing shows the newest versions.
    - Secrets: kinds are kept apart (absent a race on a free name, which
      [SecretRules.put_secret_race] evaluates), values are write-only,
      revocation erases.
    - Schedules and batches: a schedule's row never runs ahead of Temporal,
      creation is atomic, batches start registered archives, and no work
      request does anything without a license.
    - Samples: column types are those all values have; a CSV or JSON sample is a
      prefix of the file with an exact truncation mark; an array cut by the byte
      cap between two characters keeps its complete records; the XML decoder
      terminates on every event stream, and its records are the first of each
      child, attributes and text of the document; an upload registers only what
      it stored, and sampling reads only objects of the organization, within its
      bounds.
    - OpenAPI documents: what the importer's address guard does ensure (of
      the first request, not of the redirects it leads to), the
      guard's bit tests as address ranges, schema resolution as inlining cut
      at seven levels, and the operation list as the document's.
    - Suggestions: the provider asked is the organization's own, at most
      twice, with its own key, redacted rows only, and the answer is a valid
      template; a stored key comes back; redaction reaches every string.
    - Dry runs preview the payloads of the steps that run, filled from the
      rows.
    - The status page agrees with the gate, work needs the token and a
      license, and a trial never replaces a valid commercial license.
    - A login is a twelve-hour session of the user it names; created users can
      log in; signed licenses verify and are valid where they are bound.
    - Replicas that start concurrently agree on the installation's identity.
    Lemmas after these theorems show where the code does not do what it means
    to, on concrete inputs or runs: [SpecRules.mapped_addresses_pass],
    [SpecRules.redirects_are_not_guarded],
    [SpecRules.relative_server_joins_the_host],
    [SpecRules.cyclic_schema_expands], [SuggestRules.extract_json_panics],
    [SuggestRules.revoked_provider_key_panics],
    [InstallId.racing_replica_fails], [InstallId.empty_file_blocks],
    [Admin.missing_value_panics],
    [Admin.conflicting_address_keeps_its_organization],
    [SecretRules.recreated_connector_fails],
    [TemplateRules.watched_prefix_is_rejected],
    [Router.docs_redirect_is_unserved].

    ** Bounds and fuel

    Most recursive definitions are structural, on lists, strings or JSON
    values.  The others:
    - [JobListing.job_pages] and [row_pages] follow a listing's cursors under
      a fuel argument; their theorems hold for any fuel above the number of
      stored rows.
    - [SampleXml.decode_record] has one more unit of fuel than there are
      events, which [xml_decoder_terminates] shows to be enough.
    - [Specs.resolve_ref_in] and [resolve_schema_in] take the budget that the
      source's own depth guards leave (9 and 7 levels).
    - [Suggest.ask_model] has the source's two attempts.
    - [Net.http_get] follows at most as many redirects as it is given
      ([Specs.MAX_REDIRECTS], the source's three).
    - The byte and row caps of the samplers and the importer are the source's
      constants.

    ** Not modelled

    The extraction of an API handler's arguments from the request (serde, axum's
    extractors and their body limits; the license service's are in
    [VendorHttp]), the layers for CORS, tracing and time limits, HEAD requests,
    the object store's download body, metrics (except the values of the license
    gauges), logs and telemetry: they call libraries.  Floating point numbers in
    JSON texts are not parsed by [serde_text].  Generating RSA key pairs,
    running migrations, connecting to PostgreSQL, Redis and the object store are
    parameters with their outcomes; the column types of the SQLite schema are
    not kept.  The clients of the license service, of the bridge and of the
    language model provider follow reqwest's default redirects: here such an
    exchange is the request and its final answer.  The native stack is unbounded
    in the model, while the source's [decode_record] recurses once per nested
    XML element.  Redis texts with a carriage return, on which axum's
    [Event::data] panics, are not told apart; [publish_progress] prints JSON,
    which has none.  The heartbeat loop runs beside the requests in the code; in
    [LicenseLiveness] only its ticks change the license state.  Outside the
    crate: the Go orchestrator, of which the job theorems use the transitions
    that ADR 0004 allows it, the Python worker, the web interface, and the JSON
    Schema of rule templates (a parameter). *)
From stdpp Require Export base list list_numbers strings gmap sorting numbers countable.
#[export] Set Warnings "-register-all,-clear-no-such-hyp".
From Stdlib Require Export ZArith Lia.

#[global] Open Scope Z_scope.

(** Rust's [Result<A, E>], error type first so that [result E] is a monad. *)
Inductive result (E A : Type) : Type :=
  | Ok (a : A)
  | Err (e : E).
Arguments Ok {E A} a.
Arguments Err {E A} e.

#[global] Instance result_ret E : MRet (result E) := λ A a, Ok a.
#[global] Instance result_bind E : MBind (result E) := λ A B f m,
  match m with Ok a => f a | Err e => Err e end.
#[global] Instance result_fmap E : FMap (result E) := λ A B f m,
  match m with Ok a => Ok (f a) | Err e => Err e end.

#[global] Instance result_eq_dec `{EqDecision E, EqDecision A} : EqDecision (result E A).
Proof. solve_decision. Defined.

Definition map_err {E F A} (f : E → F) (m : result E A) : result F A :=
  match m with Ok a => Ok a | Err e => Err (f e) end.

Definition ok_or {E A} (o : option A) (e : E) : result E A :=
  match o with Some a => Ok a | None => Err e end.

Definition is_ok {E A} (m : result E A) : bool :=
  match m with Ok _ => true | Err _ => false end.

(** [Option<Result<A, E>>::transpose]. *)
Definition transpose {E A} (o : option (result E A)) : result E (option A) :=
  match o with
  | None => Ok None
  | Some (Ok a) => Ok (Some a)
  | Some (Err e) => Err e
  end.

Definition is_some {A} (o : option A) : bool := match o with Some _ => true | None => false end.

Definition opt_or {A} (o o' : option A) : option A :=
  match o with Some a => Some a | None => o' end.

Definition opt_filter {A} (f : A → bool) (o : option A) : option A :=
  match o with Some a => if f a then Some a else None | None => None end.

Create HintDb rust.
#[export] Hint Unfold mret mbind fmap result_ret result_bind result_fmap : rust.

Section ResultLemmas.
Context {E : Type}.

Lemma result_bind_ok {A B} (m : result E A) (f : A → result E B) b :
  (m ≫= f) = Ok b ↔ ∃ a, m = Ok a ∧ f a = Ok b.
Proof. destruct m; naive_solver. Qed.

Lemma result_bind_err {A B} (m : result E A) (f : A → result E B) e :
  (m ≫= f) = Err e ↔ m = Err e ∨ ∃ a, m = Ok a ∧ f a = Err e.
Proof. destruct m; naive_solver. Qed.

Lemma ok_or_Ok {A} (o : option A) (e : E) a : ok_or o e = Ok a ↔ o = Some a.
Proof. destruct o; naive_solver. Qed.

Lemma map_err_Ok {F A} (f : E → F) (m : result E A) a :
  map_err f m = Ok a ↔ m = Ok a.
Proof. destruct m; naive_solver. Qed.

Lemma map_err_Err {F A} (f : E → F) (m : result E A) e :
  map_err f m = Err e ↔ ∃ e', m = Err e' ∧ f e' = e.
Proof. destruct m; naive_solver. Qed.
End ResultLemmas.

Lemma opt_filter_Some {A} (f : A → bool) o a :
  opt_filter f o = Some a ↔ o = Some a ∧ f a = true.
Proof.
  destruct o as [b|]; simpl; [|naive_solver].
  destruct (f b) eqn:Hb; split; [naive_solver..|intros [[= <-] ?]; congruence].
Qed.

(** ** Tactics *)

(** Split every boolean connective and comparison of the context into its
    propositional meaning. *)
Ltac bool_prop :=
  repeat match goal with
  | H : (_ && _)%bool = true |- _ => apply andb_true_iff in H as [? ?]
  | H : (_ || _)%bool = false |- _ => apply orb_false_iff in H as [? ?]
  | H : (_ && _)%bool = false |- _ => apply andb_false_iff in H
  | H : (_ || _)%bool = true |- _ => apply orb_true_iff in H
  | H : negb _ = true |- _ => apply negb_true_iff in H
  | H : negb _ = false |- _ => apply negb_false_iff in H
  | H : (_ <=? _) = true |- _ => apply Z.leb_le in H
  | H : (_ <=? _) = false |- _ => apply Z.leb_gt in H
  | H : (_ <? _) = true |- _ => apply Z.ltb_lt in H
  | H : (_ <? _) = false |- _ => apply Z.ltb_ge in H
  | H : (_ =? _) = true |- _ => apply Z.eqb_eq in H
  | H : (_ =? _) = false |- _ => apply Z.eqb_neq in H
  | H : (_ =? _)%string = true |- _ => apply String.eqb_eq in H
  | H : (_ =? _)%string = false |- _ => apply String.eqb_neq in H
  | H : bool_decide _ = true |- _ => apply bool_decide_eq_true in H
  | H : bool_decide _ = false |- _ => apply bool_decide_eq_false in H
  end.

(** Case analysis on every match of the goal and the context. *)
Ltac cases := repeat (case_match || simplify_eq/=).

(** ** Lists *)

Fixpoint drop_while {A} (p : A → bool) (l : list A) : list A :=
  match l with
  | [] => []
  | a :: l' => if p a then drop_while p l' else l
  end.

Definition drop_while_end {A} (p : A → bool) (l : list A) : list A :=
  reverse (drop_while p (reverse l)).

Section DropWhile.
Context {A : Type} (p : A → bool).

Lemma drop_while_suffix l : ∃ k, l = k ++ drop_while p l ∧ Forall (λ a, p a = true) k.
Proof.
  induction l as [|a l (k & Hk & Hp)]; simpl; [by exists []|].
  destruct (p a) eqn:Ha; [|by exists []].
  exists (a :: k). rewrite Hk at 1. auto.
Qed.

Lemma drop_while_head l a l' : drop_while p l = a :: l' → p a = false.
Proof. induction l; simpl; [done|]. case_match; naive_solver. Qed.

Lemma drop_while_id l : (∀ a l', l = a :: l' → p a = false) → drop_while p l = l.
Proof. destruct l as [|a l]; simpl; [done|]. intros H. by rewrite (H a l eq_refl). Qed.

Lemma drop_while_idemp l : drop_while p (drop_while p l) = drop_while p l.
Proof. apply drop_while_id. intros a l'. apply drop_while_head. Qed.

Lemma drop_while_end_snoc l a :
  drop_while_end p (l ++ [a]) = if p a then drop_while_end p l else l ++ [a].
Proof.
  unfold drop_while_end. rewrite reverse_snoc. simpl.
  destruct (p a); [done|]. by rewrite reverse_cons, reverse_involutive.
Qed.

Lemma drop_while_end_prefix l : ∃ k, l = drop_while_end p l ++ k ∧ Forall (λ a, p a = true) k.
Proof.
  destruct (drop_while_suffix (reverse l)) as (k & Hk & Hp). exists (reverse k). split.
  - unfold drop_while_end. by rewrite <- reverse_app, <- Hk, reverse_involutive.
  - by apply Forall_reverse.
Qed.

Lemma drop_while_end_idemp l : drop_while_end p (drop_while_end p l) = drop_while_end p l.
Proof. unfold drop_while_end. by rewrite reverse_involutive, drop_while_idemp. Qed.

(** Trimming the end keeps a kept head, so the two trims commute enough for
    [trim] to be idempotent. *)
Lemma drop_while_end_head l a l' :
  drop_while_end p l = a :: l' → ∃ l'', l = a :: l''.
Proof. destruct (drop_while_end_prefix l) as (k & Hk & _). intros H. rewrite H in Hk. eauto. Qed.
End DropWhile.

Definition mem_str (s : string) (l : list string) : bool := existsb (String.eqb s) l.

Lemma mem_str_true s l : mem_str s l = true ↔ s ∈ l.
Proof.
  unfold mem_str. rewrite existsb_exists. setoid_rewrite String.eqb_eq.
  rewrite list_elem_of_In. naive_solver.
Qed.

Lemma mem_str_false s l : mem_str s l = false ↔ s ∉ l.
Proof. rewrite <- mem_str_true. by rewrite not_true_iff_false. Qed.

(** ** State and error monad

    A handler runs on a state and either returns a value or fails; the state
    changes made before a failure stay, as the statements already executed by
    the source stay executed. *)
Definition stM (S E A : Type) : Type := S → result E A * S.

#[global] Instance stM_ret S E : MRet (stM S E) := λ A a s, (Ok a, s).
#[global] Instance stM_bind S E : MBind (stM S E) := λ A B f m s,
  match m s with
  | (Ok a, s') => f a s'
  | (Err e, s') => (Err e, s')
  end.

Definition st_get {S E} : stM S E S := λ s, (Ok s, s).
Definition st_modify {S E} (f : S → S) : stM S E unit := λ s, (Ok tt, f s).
Definition throw {S E A} (e : E) : stM S E A := λ s, (Err e, s).
Definition lift {S E A} (r : result E A) : stM S E A := λ s, (r, s).
(** Catch the error of a computation; its state changes stay. *)
Definition attempt {S E F A} (m : stM S E A) : stM S F (result E A) :=
  λ s, let '(r, s') := m s in (Ok r, s').
(** [map_err] on the result. *)
Definition with_err {S E F A} (f : E → F) (m : stM S E A) : stM S F A :=
  λ s, let '(r, s') := m s in (map_err f r, s').
(** [if c { return Err(e) }]. *)
Definition guard_err {S E} (c : bool) (e : E) : stM S E unit :=
  λ s, (if c then Err e else Ok tt, s).

Section StateMonad.
Context {S E : Type}.

Lemma stM_bind_Ok {A B} (m : stM S E A) (f : A → stM S E B) s b s' :
  (m ≫= f) s = (Ok b, s') ↔ ∃ a s1, m s = (Ok a, s1) ∧ f a s1 = (Ok b, s').
Proof.
  unfold mbind, stM_bind. destruct (m s) as [[a|e] s1].
  - split; [intros H; by exists a, s1|intros (? & ? & [= <- <-] & H); done].
  - split; [done|intros (? & ? & ? & _); done].
Qed.

Lemma stM_bind_Err {A B} (m : stM S E A) (f : A → stM S E B) s e s' :
  (m ≫= f) s = (Err e, s') ↔
  m s = (Err e, s') ∨ ∃ a s1, m s = (Ok a, s1) ∧ f a s1 = (Err e, s').
Proof.
  unfold mbind, stM_bind. destruct (m s) as [[a|e'] s1].
  - split; [intros H; right; by exists a, s1|].
    intros [?|(? & ? & [= <- <-] & H)]; done.
  - split; [intros [= -> ->]; by left|].
    intros [[= -> ->]|(? & ? & ? & _)]; done.
Qed.

Lemma guard_err_Ok c (e : E) (s s' : S) u :
  guard_err c e s = (Ok u, s') ↔ c = false ∧ s' = s.
Proof.
  unfold guard_err. destruct c, u; split;
    [by intros [=]|by intros [??]|by intros [= <-]|by intros [_ ->]].
Qed.

Lemma lift_Ok {A} (r : result E A) (s s' : S) a :
  lift r s = (Ok a, s') ↔ r = Ok a ∧ s' = s.
Proof. unfold lift. naive_solver. Qed.
End StateMonad.

(** The weakest precondition of a computation: [Q] holds of its outcome and
    final state. *)
Definition wp {S E A} (m : stM S E A) (Q : result E A → S → Prop) (s : S) : Prop :=
  Q (m s).1 (m s).2.

Section Wp.
Context {S E : Type}.

Lemma wp_bind {A B} (m : stM S E A) (f : A → stM S E B) Q s :
  wp m (λ r s', match r with Ok a => wp (f a) Q s' | Err e => Q (Err e) s' end) s →
  wp (m ≫= f) Q s.
Proof. unfold wp, mbind, stM_bind. by destruct (m s) as [[a|e] s']. Qed.

Lemma wp_mono {A} (m : stM S E A) (Q Q' : result E A → S → Prop) s :
  wp m Q s → (∀ r s', Q r s' → Q' r s') → wp m Q' s.
Proof. intros H HQ. by apply HQ. Qed.

Lemma wp_and {A} (m : stM S E A) (Q Q' : result E A → S → Prop) s :
  wp m Q s → wp m Q' s → wp m (λ r s', Q r s' ∧ Q' r s') s.
Proof. by split. Qed.

Lemma wp_ret {A} (a : A) Q (s : S) : Q (Ok a) s → wp (mret a : stM S E A) Q s.
Proof. done. Qed.

Lemma wp_get Q (s : S) : Q (Ok s) s → wp (st_get : stM S E S) Q s.
Proof. done. Qed.

Lemma wp_modify f Q (s : S) : Q (Ok tt) (f s) → wp (st_modify f : stM S E unit) Q s.
Proof. done. Qed.

Lemma wp_throw {A} (e : E) Q (s : S) : Q (Err e) s → wp (throw e : stM S E A) Q s.
Proof. done. Qed.

Lemma wp_lift {A} (r : result E A) Q (s : S) : Q r s → wp (lift r) Q s.
Proof. done. Qed.

Lemma wp_guard (c : bool) (e : E) Q (s : S) :
  (c = true → Q (Err e) s) → (c = false → Q (Ok tt) s) → wp (guard_err c e) Q s.
Proof. unfold wp, guard_err. destruct c; auto. Qed.

Lemma wp_attempt {F A} (m : stM S E A) (Q : result F (result E A) → S → Prop) s :
  wp m (λ r s', Q (Ok r) s') s → wp (attempt m) Q s.
Proof. unfold wp, attempt. by destruct (m s). Qed.

Lemma wp_with_err {F A} (f : E → F) (m : stM S E A) (Q : result F A → S → Prop) s :
  wp m (λ r s', Q (map_err f r) s') s → wp (with_err f m) Q s.
Proof. unfold wp, with_err. by destruct (m s). Qed.
End Wp.

(** One step through the primitives of the monad. *)
Ltac wp_step :=
  match goal with
  | |- wp (let _ := _ in _) _ _ => cbv beta zeta
  | |- wp (_ ≫= _) _ _ => apply wp_bind
  | |- wp (mret _) _ _ => apply wp_ret
  | |- wp st_get _ _ => apply wp_get
  | |- wp (st_modify _) _ _ => apply wp_modify
  | |- wp (throw _) _ _ => apply wp_throw
  | |- wp (lift _) _ _ => apply wp_lift
  | |- wp (guard_err _ _) _ _ => apply wp_guard; intros ?
  | |- wp (attempt _) _ _ => apply wp_attempt
  | |- wp (with_err _ _) _ _ => apply wp_with_err
  end.
Ltac wp_steps := repeat (wp_step; cbv beta iota).

(** Open a successful run of a handler step by step. *)
Ltac inv_ok :=
  repeat match goal with
  | H : (_ ≫= _) _ = (Ok _, _) |- _ =>
      let a := fresh "a" in let s := fresh "s" in let H1 := fresh "Hrun" in
      apply stM_bind_Ok in H as (a & s & H1 & H)
  | H : guard_err _ _ _ = (Ok _, _) |- _ => apply guard_err_Ok in H as [H ->]
  | H : lift _ _ = (Ok _, _) |- _ => apply lift_Ok in H as [H ->]
  | H : throw _ _ = (Ok _, _) |- _ => discriminate H
  | H : st_get _ = (Ok _, _) |- _ => injection H as <- <-
  | H : st_modify _ _ = (Ok _, _) |- _ => injection H as <- <-
  | H : mret _ _ = (Ok _, _) |- _ => injection H as <- <-
  | H : (_ ≫= _) = Ok _ |- _ =>
      let a := fresh "a" in let H1 := fresh "Hres" in
      apply result_bind_ok in H as (a & H1 & H)
  | H : ok_or _ _ = Ok _ |- _ => apply ok_or_Ok in H
  | H : map_err _ _ = Ok _ |- _ => apply map_err_Ok in H
  | H : Ok _ = Ok _ |- _ => injection H as <-
  end.
