(* ===== verification/RustStr.v ===== *)
(** * Rust strings

    A Rust [str] is its UTF-8 byte sequence, held in a Rocq [string] (one
    [ascii] per byte).  The standard-library operations the sources call are
    defined on it: [chars] groups the bytes of one scalar value, so the
    Unicode-aware operations ([trim], [is_whitespace], [chars().take(n)]) see
    characters, while the ASCII operations work byte by byte. *)
From S2P Require Import Prelude.
From Stdlib Require Import Ascii Decimal DecimalString DecimalZ.

#[global] Arguments String.append !_ _ : simpl nomatch.

Definition byte_val (a : ascii) : Z := Z.of_N (N_of_ascii a).

Definition str_len (s : string) : Z := Z.of_nat (String.length s).

(** A UTF-8 continuation byte is [10xxxxxx]. *)
Definition is_cont (a : ascii) : bool := (128 <=? byte_val a) && (byte_val a <? 192).

(** The characters of a string, each as the string of its bytes: a new
    character starts at every byte that is not a continuation byte. *)
Fixpoint chars (s : string) : list string :=
  match s with
  | EmptyString => []
  | String a s' =>
      match chars s' with
      | (String b _ as c) :: cs =>
          if is_cont b then String a c :: cs else String a EmptyString :: c :: cs
      | cs => String a EmptyString :: cs
      end
  end.

Definition str_concat (l : list string) : string := foldr String.append EmptyString l.

Definition utf8 (l : list N) : string :=
  foldr (λ n s, String (ascii_of_N n) s) EmptyString l.

(** [char::is_whitespace]: the Unicode White_Space property. *)
Definition whitespace_chars : list string :=
  map utf8 [[9]; [10]; [11]; [12]; [13]; [32];
            [194; 133]; [194; 160]; [225; 154; 128];
            [226; 128; 128]; [226; 128; 129]; [226; 128; 130]; [226; 128; 131];
            [226; 128; 132]; [226; 128; 133]; [226; 128; 134]; [226; 128; 135];
            [226; 128; 136]; [226; 128; 137]; [226; 128; 138];
            [226; 128; 168]; [226; 128; 169]; [226; 128; 175]; [226; 129; 159];
            [227; 128; 128]]%N.

Definition char_is_whitespace (c : string) : bool := mem_str c whitespace_chars.

(** [char::is_control]: U+0000-U+001F and U+007F-U+009F. *)
Definition char_is_control (c : string) : bool :=
  match c with
  | String a EmptyString => (byte_val a <? 32) || (byte_val a =? 127)
  | String a (String b EmptyString) =>
      (byte_val a =? 194) && (128 <=? byte_val b) && (byte_val b <? 160)
  | _ => false
  end.

Definition byte_in (lo hi : Z) (a : ascii) : bool := (lo <=? byte_val a) && (byte_val a <=? hi).
Definition is_digit : ascii → bool := byte_in 48 57.
Definition dquote : ascii := ascii_of_N 34.

(** The longest run of digits, and the rest. *)
Fixpoint span_digits (s : string) : string * string :=
  match s with
  | String a s' => if is_digit a then let '(d, r) := span_digits s' in (String a d, r) else (EmptyString, s)
  | EmptyString => (EmptyString, EmptyString)
  end.

Definition is_upper : ascii → bool := byte_in 65 90.
Definition is_lower : ascii → bool := byte_in 97 122.
Definition is_alphanumeric (a : ascii) : bool := is_digit a || is_upper a || is_lower a.
Definition is_hexdigit (a : ascii) : bool := is_digit a || byte_in 65 70 a || byte_in 97 102 a.

Definition bytes (s : string) : list ascii := String.list_ascii_of_string s.
Definition of_bytes (l : list ascii) : string := String.string_of_list_ascii l.

(** [s.chars().all(|c| p(c))] for a predicate true of ASCII characters only:
    the bytes of a non-ASCII character are all at least 128. *)
Definition all_bytes (p : ascii → bool) (s : string) : bool := forallb p (bytes s).

Definition ascii_lower (a : ascii) : ascii :=
  if is_upper a then ascii_of_N (N_of_ascii a + 32) else a.
Definition ascii_upper (a : ascii) : ascii :=
  if is_lower a then ascii_of_N (N_of_ascii a - 32) else a.

Fixpoint map_bytes (f : ascii → ascii) (s : string) : string :=
  match s with EmptyString => EmptyString | String a s' => String (f a) (map_bytes f s') end.

Definition to_ascii_lowercase : string → string := map_bytes ascii_lower.
Definition to_ascii_uppercase : string → string := map_bytes ascii_upper.

Definition trim_start (s : string) : string :=
  str_concat (drop_while char_is_whitespace (chars s)).
Definition trim (s : string) : string :=
  str_concat (drop_while_end char_is_whitespace (drop_while char_is_whitespace (chars s))).

(** Trimming a single ASCII character. *)
Definition trim_start_char (c : ascii) (s : string) : string :=
  of_bytes (drop_while (Ascii.eqb c) (bytes s)).
Definition trim_end_char (c : ascii) (s : string) : string :=
  of_bytes (drop_while_end (Ascii.eqb c) (bytes s)).
Definition trim_char (c : ascii) (s : string) : string :=
  of_bytes (drop_while_end (Ascii.eqb c) (drop_while (Ascii.eqb c) (bytes s))).

(** [s.chars().take(n).collect()]. *)
Definition take_chars (n : nat) (s : string) : string := str_concat (take n (chars s)).

Definition is_empty (s : string) : bool :=
  match s with EmptyString => true | _ => false end.

Fixpoint strip_prefix (p s : string) : option string :=
  match p, s with
  | EmptyString, _ => Some s
  | String a p', String b s' => if Ascii.eqb a b then strip_prefix p' s' else None
  | _, EmptyString => None
  end.

Definition starts_with (p s : string) : bool :=
  match strip_prefix p s with Some _ => true | None => false end.
Definition ends_with (p s : string) : bool := starts_with (String.rev p) (String.rev s).

Fixpoint contains_char (c : ascii) (s : string) : bool :=
  match s with EmptyString => false | String a s' => Ascii.eqb a c || contains_char c s' end.

(** [str::contains] with a string pattern. *)
Fixpoint contains_str (p s : string) : bool :=
  starts_with p s || match s with EmptyString => false | String _ s' => contains_str p s' end.

(** [s.split(p)] for a predicate on ASCII characters: always at least one piece. *)
Fixpoint split_on (p : ascii → bool) (s : string) : list string :=
  match s with
  | EmptyString => [EmptyString]
  | String a s' =>
      if p a then EmptyString :: split_on p s'
      else match split_on p s' with
           | piece :: rest => String a piece :: rest
           | [] => [String a EmptyString]
           end
  end.
Definition split_char (c : ascii) : string → list string := split_on (λ a, Ascii.eqb a c).

(** [s.rsplit(p).next()]: the last piece. *)
Definition rsplit_next (p : ascii → bool) (s : string) : string :=
  List.last (split_on p s) EmptyString.

(** [s.rsplit_once(c)]: split at the last occurrence. *)
Fixpoint rsplit_once (c : ascii) (s : string) : option (string * string) :=
  match s with
  | EmptyString => None
  | String a s' =>
      match rsplit_once c s' with
      | Some (l, r) => Some (String a l, r)
      | None => if Ascii.eqb a c then Some (EmptyString, s') else None
      end
  end.

(** [s.replace(c, r)] for an ASCII character [c]. *)
Fixpoint replace_char (c : ascii) (r s : string) : string :=
  match s with
  | EmptyString => EmptyString
  | String a s' => (if Ascii.eqb a c then r else String a EmptyString) +:+ replace_char c r s'
  end.

Fixpoint join (sep : string) (l : list string) : string :=
  match l with
  | [] => EmptyString
  | [s] => s
  | s :: l' => s +:+ sep +:+ join sep l'
  end.

(** [s.split_whitespace().count()]. *)
Fixpoint count_words (in_word : bool) (l : list string) : Z :=
  match l with
  | [] => 0
  | c :: l' =>
      if char_is_whitespace c then count_words false l'
      else (if in_word then 0 else 1) + count_words true l'
  end.
Definition split_whitespace_count (s : string) : Z := count_words false (chars s).

(** ** Integers *)
Definition i64_min : Z := - 2 ^ 63.
Definition i64_max : Z := 2 ^ 63 - 1.
Definition u64_max : Z := 2 ^ 64 - 1.
Definition in_i64 (z : Z) : bool := (i64_min <=? z) && (z <=? i64_max).
Definition i32_max : Z := 2 ^ 31 - 1.

(** [i64::to_string] and [str::parse::<i64>]. *)
Definition show_Z (z : Z) : string := NilZero.string_of_int (Z.to_int z).

Definition parse_digits (s : string) : option Z :=
  match s with
  | EmptyString => None
  | _ => Z.of_uint <$> NilEmpty.uint_of_string s
  end.

Definition parse_i64 (s : string) : option Z :=
  z ← match s with
      | String "-" r => Z.opp <$> parse_digits r
      | String "+" r => parse_digits r
      | _ => parse_digits s
      end;
  if in_i64 z then Some z else None.

(** [str::parse::<u32>] *)
Definition parse_u32 (s : string) : option Z :=
  z ← match s with String "+" r => parse_digits r | _ => parse_digits s end;
  if z <? 2 ^ 32 then Some z else None.

(** [{:?}] of a string, with the escapes of ASCII characters. *)
Definition hex_digit (n : Z) : string :=
  of_bytes [ascii_of_N (Z.to_N (if n <? 10 then 48 + n else 87 + n))].
Definition escape_char (a : ascii) : string :=
  let n := byte_val a in
  if n =? 34 then String "\" (String (ascii_of_N 34) EmptyString)
  else if n =? 92 then "\\"
  else if n =? 10 then "\n" else if n =? 13 then "\r"
  else if n =? 9 then "\t" else if n =? 0 then "\0"
  else if n =? 127 then "\u{7f}"
  else if n <? 16 then "\u{" +:+ hex_digit n +:+ "}"
  else if n <? 32 then "\u{1" +:+ hex_digit (n - 16) +:+ "}"
  else String a EmptyString.
Definition quote : string := String (ascii_of_N 34) EmptyString.
Definition debug_str (s : string) : string :=
  quote +:+ str_concat (map escape_char (bytes s)) +:+ quote.

(** ** Lemmas *)

Lemma append_assoc (s t u : string) : (s +:+ t) +:+ u = s +:+ (t +:+ u).
Proof. induction s; cbn; [done|]. by f_equal. Qed.

Lemma append_nil_r (s : string) : s +:+ EmptyString = s.
Proof. induction s; cbn; [done|]. by f_equal. Qed.

Lemma length_append s t : String.length (s +:+ t) = (String.length s + String.length t)%nat.
Proof. induction s as [|a s IH]; cbn; [done|]. by rewrite IH. Qed.

Lemma str_concat_chars s : str_concat (chars s) = s.
Proof.
  induction s as [|a s IH]; [done|]. cbn [chars].
  destruct (chars s) as [|[|b c] cs] eqn:Hc; cbn in *; subst; [done..|].
  destruct (is_cont b); reflexivity.
Qed.

Lemma strip_prefix_Some p s r : strip_prefix p s = Some r ↔ s = p +:+ r.
Proof.
  revert s. induction p as [|a p IH]; intros s; cbn; [split; congruence|].
  destruct s as [|b s]; [split; [done|]; by destruct p|].
  destruct (Ascii.eqb_spec a b) as [->|Hne]; [|split; [done|by intros [= ->]]].
  rewrite IH. split; [by intros -> | by intros [= ->]].
Qed.

Lemma starts_with_spec p s : starts_with p s = true ↔ ∃ r, s = p +:+ r.
Proof.
  unfold starts_with. destruct (strip_prefix p s) as [r|] eqn:H.
  - apply strip_prefix_Some in H. naive_solver.
  - split; [done|]. intros [r ->].
    pose proof (proj2 (strip_prefix_Some p (p +:+ r) r) eq_refl). congruence.
Qed.

Lemma parse_digits_of_uint d : d ≠ Nil →
  parse_digits (NilZero.string_of_uint d) = Some (Z.of_uint d).
Proof.
  intros Hd. unfold parse_digits.
  assert (NilZero.string_of_uint d = NilEmpty.string_of_uint d) as -> by (by destruct d).
  pose proof (NilEmpty.usu d) as Hu.
  destruct (NilEmpty.string_of_uint d) as [|a s] eqn:Hs; [by destruct d|].
  by rewrite Hu.
Qed.

Lemma parse_i64_nonneg d :
  d ≠ Nil → parse_i64 (NilZero.string_of_uint d)
            = if in_i64 (Z.of_uint d) then Some (Z.of_uint d) else None.
Proof.
  intros Hd. pose proof (parse_digits_of_uint d Hd) as Hp. revert Hp.
  unfold parse_i64. destruct d; [done|..]; cbn [NilZero.string_of_uint NilEmpty.string_of_uint];
    intros ->; reflexivity.
Qed.

(** Printing then parsing an [i64] gives it back. *)
Lemma parse_show z : in_i64 z = true → parse_i64 (show_Z z) = Some z.
Proof.
  intros Hz. unfold show_Z. destruct z as [|p|p]; [done|..]; cbn [Z.to_int NilZero.string_of_int].
  - rewrite parse_i64_nonneg by apply DecimalPos.Unsigned.to_uint_nonnil.
    replace (Z.of_uint (Pos.to_uint p)) with (Z.pos p); [by rewrite Hz|].
    symmetry. exact (DecimalZ.of_to (Z.pos p)).
  - unfold parse_i64. rewrite parse_digits_of_uint by apply DecimalPos.Unsigned.to_uint_nonnil.
    cbn. replace (- Z.of_uint (Pos.to_uint p)) with (Z.neg p); [by rewrite Hz|].
    symmetry. exact (DecimalZ.of_to (Z.neg p)).
Qed.

Lemma parse_i64_range s z : parse_i64 s = Some z → in_i64 z = true.
Proof.
  unfold parse_i64. intros (y & _ & Hy)%bind_Some. destruct (in_i64 y) eqn:Hr; [|done].
  by injection Hy as <-.
Qed.

Lemma show_Z_inj y z : show_Z y = show_Z z → y = z.
Proof.
  unfold show_Z. intros H.
  assert (NilZero.int_of_string (NilZero.string_of_int (Z.to_int y)) = Some (Z.to_int y)) as Hy.
  { apply NilZero.isi; destruct y; cbn; try done;
      intros [= E]; by apply DecimalPos.Unsigned.to_uint_nonnil in E. }
  assert (NilZero.int_of_string (NilZero.string_of_int (Z.to_int z)) = Some (Z.to_int z)) as Hz.
  { apply NilZero.isi; destruct z; cbn; try done;
      intros [= E]; by apply DecimalPos.Unsigned.to_uint_nonnil in E. }
  rewrite H in Hy. assert (Z.to_int y = Z.to_int z) as E by congruence.
  by rewrite <- (DecimalZ.of_to y), <- (DecimalZ.of_to z), E.
Qed.

(** A string without whitespace characters is its own trim. *)
Lemma existsb_false_head {A} (p : A → bool) l a l' :
  existsb p l = false → l = a :: l' → p a = false.
Proof. intros H ->. cbn in H. by apply orb_false_iff in H as [? _]. Qed.

Lemma existsb_reverse {A} (p : A → bool) l : existsb p (reverse l) = existsb p l.
Proof.
  apply eq_bool_prop_intro. rewrite !Is_true_true, !existsb_exists.
  setoid_rewrite <- list_elem_of_In. by setoid_rewrite elem_of_reverse.
Qed.

Lemma trim_id s : existsb char_is_whitespace (chars s) = false → trim s = s.
Proof.
  intros H. unfold trim. rewrite drop_while_id; [|intros; by eapply existsb_false_head].
  unfold drop_while_end. rewrite drop_while_id.
  - by rewrite reverse_involutive, str_concat_chars.
  - intros a l' E. apply (existsb_false_head _ (reverse (chars s)) a l'); [|done].
    by rewrite existsb_reverse.
Qed.

Lemma byte_val_of_N n : (n < 256)%N → byte_val (ascii_of_N n) = Z.of_N n.
Proof. intros H. unfold byte_val. by rewrite N_ascii_embedding. Qed.

Lemma ascii_lower_idemp a : ascii_lower (ascii_lower a) = ascii_lower a.
Proof. destruct a as [[] [] [] [] [] [] [] []]; reflexivity. Qed.

Lemma map_bytes_idemp f s : (∀ a, f (f a) = f a) → map_bytes f (map_bytes f s) = map_bytes f s.
Proof. intros Hf. induction s; cbn; by rewrite ?Hf, ?IHs. Qed.

Lemma to_ascii_lowercase_idemp s :
  to_ascii_lowercase (to_ascii_lowercase s) = to_ascii_lowercase s.
Proof. apply map_bytes_idemp, ascii_lower_idemp. Qed.

Lemma length_map_bytes f s : String.length (map_bytes f s) = String.length s.
Proof. induction s; cbn; congruence. Qed.

Lemma rsplit_once_Some c s l r :
  rsplit_once c s = Some (l, r) → s = l +:+ String c r ∧ contains_char c r = false.
Proof.
  revert l r. induction s as [|a s IH]; intros l r; cbn; [done|].
  assert (rsplit_once c s = None → contains_char c s = false) as Hn.
  { clear. induction s as [|b s IH]; cbn; [done|].
    destruct (rsplit_once c s) as [[]|]; [done|]. destruct (Ascii.eqb b c); [done|].
    intros _. by apply IH. }
  destruct (rsplit_once c s) as [[l' r']|].
  - intros [= <- <-]. destruct (IH _ _ eq_refl) as [-> ?]. done.
  - destruct (Ascii.eqb_spec a c) as [->|]; [|done]. intros [= <- <-]. auto.
Qed.

Lemma bytes_append s t : bytes (s +:+ t) = bytes s ++ bytes t.
Proof. induction s; cbn; [done|]. by f_equal. Qed.

Lemma of_bytes_bytes s : of_bytes (bytes s) = s.
Proof. apply String.string_of_list_ascii_of_string. Qed.

Lemma bytes_of_bytes l : bytes (of_bytes l) = l.
Proof. apply String.list_ascii_of_string_of_list_ascii. Qed.
