(* ===== verification/Json.v ===== *)
(** * JSON values

    [serde_json::Value] as the sources use it: a tree whose objects are
    [BTreeMap]s, that is, association lists with strictly increasing keys.
    The accessors have serde_json's documented behaviour.  Text parsing and
    printing belong to serde_json and are an interface ([JsonText]) with the
    round trip it documents; [bits_json] is an instance, so the interface can
    hold. *)
From S2P Require Import Prelude RustStr.
From Stdlib Require Import Ascii.


(** [serde_json::Number]: an unsigned or negative integer, or an [f64] held
    by its bit pattern. *)
Inductive number : Type :=
  | PosInt (n : Z)
  | NegInt (n : Z)
  | Float (bits : Z).

Inductive value : Type :=
  | VNull
  | VBool (b : bool)
  | VNumber (n : number)
  | VString (s : string)
  | VArray (items : list value)
  | VObject (m : list (string * value)).

Abbreviation jmap := (list (string * value)).

#[global] Instance number_eq_dec : EqDecision number.
Proof. solve_decision. Defined.

(** Induction with the hypotheses for the elements of arrays and objects. *)
Lemma value_ind' (P : value → Prop) :
  P VNull → (∀ b, P (VBool b)) → (∀ n, P (VNumber n)) → (∀ s, P (VString s)) →
  (∀ l, Forall P l → P (VArray l)) →
  (∀ m, Forall (λ kv, P kv.2) m → P (VObject m)) → ∀ v, P v.
Proof.
  intros Hn Hb Hnum Hs Ha Ho. fix IH 1. intros [|b|n|s|l|m].
  - done.
  - apply Hb.
  - apply Hnum.
  - apply Hs.
  - apply Ha. induction l as [|v l IHl]; constructor; [apply IH|apply IHl].
  - apply Ho. induction m as [|[k v] m IHm]; constructor; [apply IH|apply IHm].
Qed.

(** ** A tree encoding, for decidable equality and the concrete codec *)
Definition atom : Type := option (bool + (Z * Z) + string).

Definition number_code (n : number) : Z * Z :=
  match n with PosInt z => (0, z) | NegInt z => (1, z) | Float z => (2, z) end.
Definition number_decode (c : Z * Z) : number :=
  if c.1 =? 0 then PosInt c.2 else if c.1 =? 1 then NegInt c.2 else Float c.2.

Fixpoint value_tree (v : value) : gen_tree atom :=
  match v with
  | VNull => GenLeaf None
  | VBool b => GenLeaf (Some (inl (inl b)))
  | VNumber n => GenLeaf (Some (inl (inr (number_code n))))
  | VString s => GenLeaf (Some (inr s))
  | VArray l => GenNode 0 (map value_tree l)
  | VObject m =>
      GenNode 1 (map (λ kv, match kv with
                            | (k, w) => GenNode 2 [GenLeaf (Some (inr k)); value_tree w]
                            end) m)
  end.

Fixpoint tree_value (t : gen_tree atom) : value :=
  match t with
  | GenLeaf None => VNull
  | GenLeaf (Some (inl (inl b))) => VBool b
  | GenLeaf (Some (inl (inr c))) => VNumber (number_decode c)
  | GenLeaf (Some (inr s)) => VString s
  | GenNode 0 l => VArray (map tree_value l)
  | GenNode _ l =>
      VObject (map (λ p, match p with
                         | GenNode _ [GenLeaf (Some (inr k)); t'] => (k, tree_value t')
                         | _ => (EmptyString, VNull)
                         end) l)
  end.

Lemma value_tree_inv v : tree_value (value_tree v) = v.
Proof.
  induction v as [|b|n|s|l IH|m IH] using value_ind'; cbn.
  - done.
  - done.
  - by destruct n.
  - done.
  - f_equal. induction IH; cbn; congruence.
  - f_equal. induction IH as [|[k w] m Hw _ IHm]; cbn in *; congruence.
Qed.

#[global] Instance value_eq_dec : EqDecision value.
Proof.
  intros v w. destruct (decide (value_tree v = value_tree w)) as [H|H].
  - left. by rewrite <- (value_tree_inv v), <- (value_tree_inv w), H.
  - right. congruence.
Defined.

#[global] Instance value_countable : Countable value :=
  inj_countable' value_tree tree_value value_tree_inv.

(** ** Objects *)

Fixpoint map_get (k : string) (m : jmap) : option value :=
  match m with
  | [] => None
  | (k', v) :: m' => if (k =? k')%string then Some v else map_get k m'
  end.

(** [BTreeMap::insert]: replace the value of a present key, keep the order. *)
Fixpoint map_insert (k : string) (v : value) (m : jmap) : jmap :=
  match m with
  | [] => [(k, v)]
  | (k', v') :: m' =>
      match String.compare k k' with
      | Eq => (k, v) :: m'
      | Lt => (k, v) :: m
      | Gt => (k', v') :: map_insert k v m'
      end
  end.

Definition map_contains (k : string) (m : jmap) : bool :=
  match map_get k m with Some _ => true | None => false end.

(** The [json!] macro on an object literal: entries are inserted in order. *)
Definition obj_entries (l : list (string * value)) : jmap :=
  fold_left (λ m kv, map_insert kv.1 kv.2 m) l [].
Definition json_obj (l : list (string * value)) : value := VObject (obj_entries l).

(** [json!] of an option serializes [None] as [null]. *)
Definition json_opt {A} (f : A → value) (o : option A) : value :=
  match o with Some a => f a | None => VNull end.
Definition json_int (z : Z) : value := VNumber (if z <? 0 then NegInt z else PosInt z).
Definition json_strs (l : list string) : value := VArray (map VString l).

(** [skip_serializing_if = "Option::is_none"]. *)
Definition skip_none {A} (k : string) (f : A → value) (o : option A) : list (string * value) :=
  match o with Some a => [(k, f a)] | None => [] end.

(** ** Accessors *)
Definition as_object (v : value) : option jmap :=
  match v with VObject m => Some m | _ => None end.
Definition as_array (v : value) : option (list value) :=
  match v with VArray l => Some l | _ => None end.
Definition as_str (v : value) : option string :=
  match v with VString s => Some s | _ => None end.
Definition as_bool (v : value) : option bool :=
  match v with VBool b => Some b | _ => None end.
Definition as_i64 (v : value) : option Z :=
  match v with
  | VNumber (PosInt n) => if n <=? i64_max then Some n else None
  | VNumber (NegInt n) => Some n
  | _ => None
  end.
Definition is_string (v : value) : bool := match v with VString _ => true | _ => false end.
Definition is_object (v : value) : bool := match v with VObject _ => true | _ => false end.

(** [Value::get] with a string index. *)
Definition vget (k : string) (v : value) : option value :=
  match v with VObject m => map_get k m | _ => None end.
Definition get_str (k : string) (v : value) : option string := vget k v ≫= as_str.

(** [v[k] = x] on an object ([Null] becomes an object first). *)
Definition index_assign (k : string) (x v : value) : value :=
  match v with
  | VObject m => VObject (map_insert k x m)
  | VNull => VObject [(k, x)]
  | _ => v
  end.

(** ** Well-formed values *)
Definition key_below (k : string) (m : jmap) : bool :=
  match m with [] => true | (k', _) :: _ => bool_decide (String.compare k k' = Lt) end.

Fixpoint keys_sorted (m : jmap) : bool :=
  match m with [] => true | (k, _) :: m' => key_below k m' && keys_sorted m' end.

Definition number_ok (n : number) : bool :=
  match n with
  | PosInt z => (0 <=? z) && (z <=? u64_max)
  | NegInt z => (i64_min <=? z) && (z <? 0)
  | Float _ => false
  end.

(** Sorted objects and integer numbers: the values whose text form serde_json
    parses back to the same value (floats need its [float_roundtrip] feature). *)
Fixpoint value_ok (v : value) : bool :=
  match v with
  | VNumber n => number_ok n
  | VArray l => forallb value_ok l
  | VObject m => keys_sorted m && forallb (λ kv, match kv with (_, w) => value_ok w end) m
  | _ => true
  end.

(** serde_json's text form. *)
Class JsonText := {
  to_json_string : value → string;
  to_json_pretty : value → string;
  from_json_str : string → option value;
  json_string_roundtrip : ∀ v, value_ok v = true → from_json_str (to_json_string v) = Some v;
  json_pretty_roundtrip : ∀ v, value_ok v = true → from_json_str (to_json_pretty v) = Some v;
}.

(** ** Lemmas *)
Create Rewrite HintDb json.

Lemma compare_refl k : String.compare k k = Eq.
Proof.
  pose proof (String.compare_antisym k k) as H.
  by destruct (String.compare k k).
Qed.

Lemma map_get_insert k v m : map_get k (map_insert k v m) = Some v.
Proof.
  induction m as [|[k' v'] m IH]; cbn.
  - by rewrite String.eqb_refl.
  - destruct (String.compare k k') eqn:Hc; cbn.
    + by rewrite String.eqb_refl.
    + by rewrite String.eqb_refl.
    + destruct (String.eqb_spec k k') as [->|]; [|done].
      by rewrite compare_refl in Hc.
Qed.

Lemma map_get_insert_ne k k' v m : k ≠ k' → map_get k' (map_insert k v m) = map_get k' m.
Proof.
  intros Hne. induction m as [|[k1 v1] m IH]; cbn.
  - by destruct (String.eqb_spec k' k) as [->|].
  - destruct (String.compare k k1) eqn:Hc; cbn.
    + apply String.compare_eq_iff in Hc as ->. by destruct (String.eqb_spec k' k1) as [->|].
    + by destruct (String.eqb_spec k' k) as [->|].
    + by rewrite IH.
Qed.

(** The value a literal gives a key: that of its last entry for the key. *)
Fixpoint assoc_last (k : string) (l : list (string * value)) : option value :=
  match l with
  | [] => None
  | (k', v) :: l' => opt_or (assoc_last k l') (if (k =? k')%string then Some v else None)
  end.

Lemma map_get_entries k l : map_get k (obj_entries l) = assoc_last k l.
Proof.
  unfold obj_entries.
  assert (∀ m, map_get k (fold_left (λ m kv, map_insert kv.1 kv.2 m) l m)
               = opt_or (assoc_last k l) (map_get k m)) as ->; [|by destruct (assoc_last k l)].
  induction l as [|[k' v] l IH]; intros m; cbn; [done|]. rewrite IH.
  destruct (assoc_last k l); cbn; [done|].
  destruct (String.eqb_spec k k') as [->|Hne]; cbn.
  - apply map_get_insert.
  - by apply map_get_insert_ne.
Qed.

Lemma vget_json_obj k l : vget k (json_obj l) = assoc_last k l.
Proof. apply map_get_entries. Qed.

Lemma map_insert_sorted k v m : keys_sorted m = true → keys_sorted (map_insert k v m) = true.
Proof.
  induction m as [|[k1 v1] m IH]; [done|]. cbn [keys_sorted map_insert].
  intros [H1 Hm]%andb_true_iff. destruct (String.compare k k1) eqn:Hc; cbn.
  - apply String.compare_eq_iff in Hc as ->. by rewrite H1, Hm.
  - by rewrite H1, Hm, bool_decide_true.
  - rewrite (IH Hm), andb_true_r.
    assert (String.compare k1 k = Lt) as Hlt by (by rewrite String.compare_antisym, Hc).
    destruct m as [|[k2 v2] m]; cbn in *; [by rewrite bool_decide_true|].
    destruct (String.compare k k2); cbn; [by rewrite bool_decide_true..|done].
Qed.

Lemma map_insert_Forall (P : string * value → Prop) k v m :
  P (k, v) → Forall P m → Forall P (map_insert k v m).
Proof.
  intros Hp. induction 1 as [|[k1 v1] m ? ? IH]; cbn; [by repeat constructor|].
  destruct (String.compare k k1); repeat constructor; done.
Qed.

Lemma value_ok_object m :
  value_ok (VObject m) = true ↔ keys_sorted m = true ∧ Forall (λ kv, value_ok kv.2 = true) m.
Proof.
  cbn. rewrite andb_true_iff, forallb_forall, Forall_forall.
  split; intros [Hs Hf]; (split; [done|]).
  - intros [k w] Hin. exact (Hf _ Hin).
  - intros [k w] Hin. exact (Hf _ Hin).
Qed.

Lemma json_obj_ok l : Forall (λ kv, value_ok kv.2 = true) l → value_ok (json_obj l) = true.
Proof.
  intros Hl. unfold json_obj, obj_entries. apply value_ok_object.
  assert (∀ m, keys_sorted m = true → Forall (λ kv, value_ok kv.2 = true) m →
    keys_sorted (fold_left (λ m kv, map_insert kv.1 kv.2 m) l m) = true ∧
    Forall (λ kv, value_ok kv.2 = true) (fold_left (λ m kv, map_insert kv.1 kv.2 m) l m)) as H.
  { induction Hl as [|kv l Hkv _ IH]; cbn; [done|]. intros m Hs Hm.
    apply IH; [by apply map_insert_sorted|]. destruct kv; by apply map_insert_Forall. }
  by apply H.
Qed.

#[export] Hint Rewrite map_get_entries vget_json_obj map_get_insert : json.

Lemma opt_or_None_r {A} (o : option A) : opt_or o None = o.
Proof. by destruct o. Qed.

Lemma assoc_last_app k l l' : assoc_last k (l ++ l') = opt_or (assoc_last k l') (assoc_last k l).
Proof.
  induction l as [|[k1 v1] l IH]; cbn; [by rewrite opt_or_None_r|]. rewrite IH.
  by destruct (assoc_last k l').
Qed.

Lemma assoc_last_skip {A} k k' (f : A → value) o :
  assoc_last k (skip_none k' f o) = if (k =? k')%string then f <$> o else None.
Proof. destruct o; cbn; by destruct (k =? k')%string. Qed.

(** ** Inserting sorted entries in their order changes nothing. *)
Lemma compare_lt_trans a b c :
  String.compare a b = Lt → String.compare b c = Lt → String.compare a c = Lt.
Proof.
  revert b c. induction a as [|x a IH]; intros [|y b] [|z c]; cbn; try done.
  unfold Ascii.compare. destruct (N.compare_spec (N_of_ascii x) (N_of_ascii y)) as [Hxy|Hxy|Hxy]; [|intros _|done].
  - rewrite Hxy. destruct (N.compare_spec (N_of_ascii y) (N_of_ascii z)); [|done..]. apply IH.
  - destruct (N.compare_spec (N_of_ascii y) (N_of_ascii z)) as [Hyz|Hyz|Hyz]; [intros _|intros _|done].
    + by rewrite (proj2 (N.compare_lt_iff _ _)) by lia.
    + by rewrite (proj2 (N.compare_lt_iff _ _)) by lia.
Qed.

Lemma keys_sorted_head k v m :
  keys_sorted ((k, v) :: m) = true → Forall (λ kv, String.compare k kv.1 = Lt) m ∧ keys_sorted m = true.
Proof.
  revert k v. induction m as [|[k1 v1] m IH]; intros k v; cbn; [done|].
  intros [Hk Hm]%andb_true_iff. apply bool_decide_eq_true in Hk. split; [|done]. constructor; [done|].
  destruct (IH k1 v1 Hm) as [Hall _]. eapply list.Forall_impl; [exact Hall|]. intros kv. by apply compare_lt_trans.
Qed.

Lemma map_insert_last k v m :
  Forall (λ kv, String.compare kv.1 k = Lt) m → map_insert k v m = m ++ [(k, v)].
Proof.
  induction 1 as [|[k1 v1] m Hk _ IH]; cbn; [done|]. cbn in Hk.
  by rewrite String.compare_antisym, Hk, IH.
Qed.

Lemma obj_entries_sorted m : keys_sorted m = true → obj_entries m = m.
Proof.
  unfold obj_entries. enough (∀ m', keys_sorted m = true →
    Forall (λ kv, Forall (λ kv', String.compare kv.1 kv'.1 = Lt) m) m' →
    fold_left (λ m kv, map_insert kv.1 kv.2 m) m m' = m' ++ m) as H by (intros; by apply (H [])).
  induction m as [|[k v] m IH]; intros m' Hs Hm'; cbn; [by rewrite app_nil_r|].
  apply keys_sorted_head in Hs as [Hk Hs].
  rewrite map_insert_last, (IH (m' ++ [(k, v)]) Hs), <- app_assoc.
  - done.
  - apply Forall_app. split; [|by constructor].
    eapply list.Forall_impl; [exact Hm'|]. intros kv H. by apply Forall_cons_iff in H as [_ ?].
  - eapply list.Forall_impl; [exact Hm'|]. intros kv H. by apply Forall_cons_iff in H as [? _].
Qed.

Lemma keys_sorted_map {A} (f : A → string * value) (l : list A) m :
  map fst (map f l) = map fst m → keys_sorted (map f l) = keys_sorted m.
Proof.
  revert m. induction l as [|a l IH]; intros [|[k v] m]; cbn; [done..|]. intros [= Hk Hm].
  destruct (f a) as [k' v']. cbn in Hk. subst k'. rewrite (IH m Hm). f_equal.
  destruct l as [|b l], m as [|[k2 v2] m]; cbn in *; [done..|]. destruct (f b). by injection Hm as ->.
Qed.

(** ** A concrete text form: the bits of the tree encoding *)
Fixpoint pos_bits (p : positive) : string :=
  match p with
  | xH => EmptyString
  | xO p' => String "0" (pos_bits p')
  | xI p' => String "1" (pos_bits p')
  end.
Fixpoint bits_pos (s : string) : option positive :=
  match s with
  | EmptyString => Some xH
  | String "0" s' => xO <$> bits_pos s'
  | String "1" s' => xI <$> bits_pos s'
  | _ => None
  end.

Lemma bits_pos_inv p : bits_pos (pos_bits p) = Some p.
Proof. induction p; cbn; by rewrite ?IHp. Qed.

Definition bits_print (v : value) : string := pos_bits (encode v).
Definition bits_parse (s : string) : option value := bits_pos s ≫= decode.

Lemma bits_roundtrip v : bits_parse (bits_print v) = Some v.
Proof. unfold bits_parse, bits_print. rewrite bits_pos_inv. cbn. apply decode_encode. Qed.

Definition bits_json : JsonText := {|
    to_json_string := bits_print; to_json_pretty := bits_print; from_json_str := bits_parse;
    json_string_roundtrip v _ := bits_roundtrip v;
    json_pretty_roundtrip v _ := bits_roundtrip v;
  |}.
