(* ===== verification/Error.v ===== *)
(** * API errors: [apps/api/src/error.rs]

    The error type of every handler and its HTTP response.  The payload of a
    wrapped error ([Database], [Json], [Io], [Internal]) is its text. *)
From S2P Require Import Prelude RustStr Json.

Inductive ApiError : Type :=
  | NotFound
  | Forbidden
  | LicenseRequired (msg : string)
  | Unauthorized
  | BadRequest (msg : string)
  | Conflict (msg : string)
  | ValidationFailed (msg : string)
  | Database (msg : string)
  | JsonError (msg : string)
  | Io (msg : string)
  | External (msg : string)
  | Internal (msg : string).

Abbreviation ApiResult := (result ApiError).

#[global] Instance ApiError_eq_dec : EqDecision ApiError.
Proof. solve_decision. Defined.

(** The [#[error(...)]] texts. *)
Definition error_display (e : ApiError) : string :=
  match e with
  | NotFound => "not found"
  | Forbidden => "forbidden"
  | LicenseRequired m => "license required: " +:+ m
  | Unauthorized => "unauthorized"
  | BadRequest m => "bad request: " +:+ m
  | Conflict m => "conflict: " +:+ m
  | ValidationFailed m => "validation failed: " +:+ m
  | Database _ => "database error"
  | JsonError _ => "json error"
  | Io _ => "io error"
  | External m => "external service error: " +:+ m
  | Internal _ => "internal error"
  end.

Definition status_and_code (e : ApiError) : Z * string :=
  match e with
  | NotFound => (404, "not_found")
  | Forbidden => (403, "forbidden")
  | LicenseRequired _ => (402, "license_required")
  | Unauthorized => (401, "unauthorized")
  | BadRequest _ => (400, "bad_request")
  | ValidationFailed _ => (422, "validation_failed")
  | Conflict _ => (409, "conflict")
  | Database _ | JsonError _ | Io _ | Internal _ => (500, "internal_error")
  | External _ => (502, "external_error")
  end.

Definition into_response (e : ApiError) : Z * value :=
  let '(status, code) := status_and_code e in
  let message :=
    match e with
    | Database _ | JsonError _ | Io _ | Internal _ => "An unexpected error occurred"
    | other => error_display other
    end in
  (status, json_obj [("error", json_obj [("code", VString code); ("message", VString message)])]).

(** The wrapped errors are the ones answered with a 500. *)
Definition is_internal (e : ApiError) : bool := (status_and_code e).1 =? 500.

(** A wrapped error never reaches the client: every 500 response has the
    same body, whatever the error was, and no other response carries 500. *)
Theorem internal_errors_are_redacted e e' :
  is_internal e = true → is_internal e' = true → into_response e = into_response e'.
Proof. destruct e, e'; done. Qed.

(** Every error maps to a client or server error status. *)
Lemma status_is_an_error e : 400 ≤ (status_and_code e).1 < 600.
Proof. destruct e; cbn; lia. Qed.
