(* ===== verification/License.v ===== *)
(** * License documents and their validity: [apps/api/src/security/license.rs]

    The pure part of the license subsystem: the signed document, the process
    license state, the validity check, the heartbeat schedule and the rule by
    which a changed store file is adopted.  An instant is a number of
    nanoseconds since the Unix epoch, a [chrono::Duration] a number of
    nanoseconds. *)
From S2P Require Import Prelude RustStr Json.
From Stdlib Require Import Ascii.

Definition seconds (n : Z) : Z := n * 10 ^ 9.
Definition hours (n : Z) : Z := seconds (n * 3600).

Definition HEARTBEAT_INTERVAL : Z := hours 24.
Definition HEARTBEAT_GRACE : Z := hours 72.
Definition HEARTBEAT_RETRY : Z := hours 1.

Inductive LicenseKind : Type := Trial | Commercial.
#[global] Instance LicenseKind_eq_dec : EqDecision LicenseKind.
Proof. solve_decision. Defined.

Record LicenseDoc : Type := mkLicenseDoc {
  licensee : string;
  expires_at : Z;
  features : list string;
  max_seats : option Z;
  issued_at : option Z;
  kind : LicenseKind;
  fingerprint : option string;
  requires_heartbeat : bool;
}.
#[global] Instance LicenseDoc_eq_dec : EqDecision LicenseDoc.
Proof. solve_decision. Defined.

Inductive LicenseProblem : Type :=
  | Expired | FingerprintMismatch | HeartbeatGraceExpired | MissingIssuedAt | Revoked.
#[global] Instance LicenseProblem_eq_dec : EqDecision LicenseProblem.
Proof. solve_decision. Defined.

Definition problem_as_str (p : LicenseProblem) : string :=
  match p with
  | Expired => "expired"
  | FingerprintMismatch => "fingerprint_mismatch"
  | HeartbeatGraceExpired => "heartbeat_grace_expired"
  | MissingIssuedAt => "missing_issued_at"
  | Revoked => "revoked"
  end.

(** [(SystemTime, u64)]: modification time and length of the store file. *)
Abbreviation stamp := (Z * Z)%type.

Record LicenseState : Type := mkLicenseState {
  doc : option LicenseDoc;
  raw : option string;
  revoked_reason : option string;
  last_heartbeat_attempt : option Z;
  last_heartbeat_error : option string;
  store_stamp : option stamp;
}.

Definition default_state : LicenseState := mkLicenseState None None None None None None.

Definition is_some {A} (o : option A) : bool := match o with Some _ => true | None => false end.

(** ** Validity *)

Definition validity (d : LicenseDoc) (local_fp : string) (now : Z) : result LicenseProblem unit :=
  if expires_at d <=? now then Err Expired
  else
    let mismatch :=
      match fingerprint d with
      | Some bound => negb (is_empty local_fp) && negb (bound =? local_fp)%string
      | None => false
      end in
    if mismatch then Err FingerprintMismatch
    else if requires_heartbeat d then
      match issued_at d with
      | None => Err MissingIssuedAt
      | Some issued => if HEARTBEAT_GRACE <? now - issued then Err HeartbeatGraceExpired else Ok tt
      end
    else Ok tt.

Definition err_opt {E A} (r : result E A) : option E :=
  match r with Ok _ => None | Err e => Some e end.

Definition problem_for (st : LicenseState) (local_fp : string) (now : Z) : option LicenseProblem :=
  if is_some (revoked_reason st) then Some Revoked
  else d ← doc st; err_opt (validity d local_fp now).

Definition is_licensed (st : LicenseState) (local_fp : string) (now : Z) : bool :=
  is_some (doc st) && negb (is_some (problem_for st local_fp now)).

Definition grace_until (d : LicenseDoc) : option Z :=
  if negb (requires_heartbeat d) then None
  else (λ t, t + HEARTBEAT_GRACE) <$> issued_at d.

(** [heartbeat_interval], over the value of LICENSE_HEARTBEAT_INTERVAL_SECS. *)
Definition heartbeat_interval (var : option string) : Z :=
  match opt_filter (λ s, 0 <? s) (var ≫= parse_i64) with
  | Some s => seconds s
  | None => HEARTBEAT_INTERVAL
  end.

Definition heartbeat_due (interval : Z) (st : LicenseState) (now : Z) : bool :=
  match doc st with
  | None => false
  | Some d =>
      if negb (requires_heartbeat d) then false
      else if is_some (revoked_reason st) then
        match last_heartbeat_attempt st with
        | Some last => HEARTBEAT_RETRY <=? now - last
        | None => true
        end
      else
        match issued_at d with
        | None => true
        | Some issued =>
            if interval <=? now - issued then
              match last_heartbeat_attempt st, last_heartbeat_error st with
              | Some last, Some _ => HEARTBEAT_RETRY <=? now - last
              | _, _ => true
              end
            else false
        end
  end.

(** [TimeDelta::num_seconds] truncates toward zero. *)
Definition num_seconds (d : Z) : Z := Z.quot d (10 ^ 9).

Definition days_remaining (d : LicenseDoc) (now : Z) : Z :=
  let secs := num_seconds (expires_at d - now) in
  if secs <=? 0 then 0 else Z.quot (secs + 86399) 86400.

(** The gauges [publish_gauges] sets, [t1] and [t2] being its two readings of
    the clock: validity, and the whole seconds of grace that remain. *)
Definition license_gauges (st : LicenseState) (local_fp : string) (t1 t2 : Z) : Z * Z :=
  (if is_licensed st local_fp t1 then 1 else 0,
   match doc st ≫= grace_until with Some t => Z.max 0 (num_seconds (t - t2)) | None => 0 end).

(** ** Adoption of a changed store file *)

Definition issued_or_epoch (d : LicenseDoc) : Z := default 0 (issued_at d).

Definition should_adopt (current : LicenseState) (candidate : LicenseDoc)
    (local_fp : string) (now : Z) : bool :=
  match doc current with
  | None => true
  | Some cur =>
      if bool_decide (cur = candidate) then false
      else
        let cur_ok := negb (is_some (problem_for current local_fp now)) in
        let cand_ok := is_ok (validity candidate local_fp now) in
        if negb cand_ok then false
        else if negb cur_ok then true
        else match kind cur, kind candidate with
             | Trial, Commercial => true
             | Commercial, Trial => false
             | _, _ => issued_or_epoch cur <? issued_or_epoch candidate
             end
  end.

(** ** The trial e-mail check *)

Definition is_domain_label (l : string) : bool :=
  negb (is_empty l) && all_bytes (λ a, is_alphanumeric a || Ascii.eqb a "-") l.

Definition validate_trial_email (raw : string) : result string string :=
  let email := to_ascii_lowercase (trim raw) in
  if (str_len email <? 6) || (254 <? str_len email) then
    Err "email must be between 6 and 254 characters"
  else if existsb (λ c, char_is_whitespace c || char_is_control c) (chars email) then
    Err "email must not contain whitespace"
  else
    match rsplit_once "@" email with
    | None => Err "email must contain '@'"
    | Some (local, domain) =>
        if is_empty local || is_empty domain || contains_char "@" local then
          Err "email has an empty local part or domain"
        else
          let labels := split_char "." domain in
          if (Z.of_nat (length labels) <? 2) || existsb (λ l, negb (is_domain_label l)) labels then
            Err "email domain must be a dotted hostname"
          else Ok email
    end.

(** [env_flag], over the value of the variable. *)
Definition env_flag (var : option string) : bool :=
  match var with
  | Some v => mem_str (to_ascii_lowercase (trim v)) ["true"; "1"; "yes"; "on"]
  | None => false
  end.

(** A verified license together with its raw signed file and store identity. *)
Record LoadedLicense : Type := mkLoaded {
  l_doc : LicenseDoc;
  l_raw : string;
  l_stamp : option stamp;
}.

(** The state update of [activate] (its metrics and log lines are not state). *)
Definition activate (l : LoadedLicense) (s : LicenseState) : LicenseState := {|
    doc := Some (l_doc l);
    raw := Some (l_raw l);
    revoked_reason := None;
    last_heartbeat_attempt := last_heartbeat_attempt s;
    last_heartbeat_error := None;
    store_stamp := l_stamp l;
  |}.

Definition adopt (local_fp : string) (now : Z) (s : LicenseState) (l : LoadedLicense) : LicenseState :=
  if should_adopt s (l_doc l) local_fp now then activate l s else s.

(** ** Lemmas and properties *)

Lemma validity_ok_iff d fp now :
  validity d fp now = Ok tt ↔
  now < expires_at d ∧
  (∀ b, fingerprint d = Some b → fp = EmptyString ∨ b = fp) ∧
  (requires_heartbeat d = true → ∃ t, issued_at d = Some t ∧ now ≤ t + HEARTBEAT_GRACE).
Proof.
  unfold validity. destruct (expires_at d <=? now) eqn:He; bool_prop.
  { split; [done|]. intros [? _]. lia. }
  assert (match fingerprint d with
          | Some bound => negb (is_empty fp) && negb (bound =? fp)%string
          | None => false end = false ↔
          (∀ b, fingerprint d = Some b → fp = EmptyString ∨ b = fp)) as Hfp.
  { destruct (fingerprint d) as [b|]; [|naive_solver].
    rewrite andb_false_iff, !negb_false_iff, String.eqb_eq.
    destruct fp; cbn; naive_solver. }
  destruct (match fingerprint d with Some _ => _ | None => _ end) eqn:Hm.
  { split; [done|]. intros (_ & H & _). apply Hfp in H. done. }
  destruct Hfp as [Hfp _]. specialize (Hfp eq_refl).
  destruct (requires_heartbeat d); [|naive_solver].
  destruct (issued_at d) as [t|]; [|naive_solver].
  destruct (HEARTBEAT_GRACE <? now - t) eqn:Hg; bool_prop.
  - split; [done|]. intros (_ & _ & H). destruct (H eq_refl) as (t' & [= <-] & ?). lia.
  - split; [|done]. intros _. split_and!; [lia|done|]. intros _. exists t. split; [done|lia].
Qed.

Lemma problem_none_iff st fp now :
  problem_for st fp now = None ↔
  revoked_reason st = None ∧ (∀ d, doc st = Some d → validity d fp now = Ok tt).
Proof.
  unfold problem_for, is_some. destruct (revoked_reason st); [naive_solver|].
  destruct (doc st) as [d|]; cbn; [|naive_solver].
  destruct (validity d fp now) as [[]|] eqn:H; cbn.
  - split; [|done]. intros _. split; [done|]. by intros d' [= <-].
  - split; [done|]. intros [_ Hv]. by rewrite (Hv d eq_refl) in H.
Qed.

Lemma is_licensed_iff st fp t d :
  doc st = Some d →
  (is_licensed st fp t = true ↔ revoked_reason st = None ∧ validity d fp t = Ok tt).
Proof.
  intros Hd. unfold is_licensed. rewrite Hd. cbn [is_some andb]. rewrite negb_true_iff.
  transitivity (problem_for st fp t = None); [by destruct (problem_for st fp t)|].
  rewrite problem_none_iff. split; intros [Hr Hv]; (split; [done|]); [by apply Hv|].
  intros d' Hd'. congruence.
Qed.

(** The instant from which a usable document stops being usable by the mere
    passage of time: its expiry or the end of the offline grace. *)
Definition lapses_at (d : LicenseDoc) : Z :=
  match grace_until d with
  | Some g => Z.min (expires_at d) (g + 1)
  | None => expires_at d
  end.

(** A usable license stays usable exactly until the earlier of its expiry
    and the end of the 72h offline grace counted from the signed [issued_at];
    nothing but time or a state change ends it. *)
Theorem licensed_exactly_until st fp d now t :
  doc st = Some d → is_licensed st fp now = true → now ≤ t →
  (is_licensed st fp t = true ↔ t < lapses_at d).
Proof.
  intros Hd Hl Hle. apply (is_licensed_iff _ _ _ d Hd) in Hl as [Hr Hv].
  rewrite (is_licensed_iff st fp t d Hd).
  apply validity_ok_iff in Hv as (He & Hf & Hh). rewrite validity_ok_iff.
  unfold lapses_at, grace_until. destruct (requires_heartbeat d) eqn:Hrh; cbn.
  - destruct (Hh eq_refl) as (i & Hi & Hg). rewrite Hi. cbn. split.
    + intros (_ & ? & _ & H). destruct (H eq_refl) as (? & [= <-] & ?). lia.
    + intros ?. split_and!; [done|lia|done|]. intros _. exists i. split; [done|lia].
  - split; [intros (_ & ? & _); lia|]. intros ?. split_and!; [done|lia|done|done].
Qed.

(** ** Adoption *)

Definition kind_rank (k : LicenseKind) : Z := match k with Trial => 0 | Commercial => 1 end.

(** Documents ordered by kind, then by the time of their attestation. *)
Definition outranked (d d' : LicenseDoc) : Prop :=
  kind_rank (kind d) < kind_rank (kind d') ∨
  kind d = kind d' ∧ issued_or_epoch d < issued_or_epoch d'.

(** The gauges tell the truth at the instant they are set: validity is the
    gate's, and while grace remains the grace is not what is missing. *)
Lemma gauges_agree st fp t d :
  doc st = Some d →
  ((license_gauges st fp t t).1 = 1 ↔ is_licensed st fp t = true) ∧
  (0 < (license_gauges st fp t t).2 → validity d fp t ≠ Err HeartbeatGraceExpired).
Proof.
  intros Hd. unfold license_gauges. rewrite Hd. cbn [fst snd mbind option_bind]. split; [by destruct (is_licensed _ _ _)|].
  unfold grace_until, validity, num_seconds. destruct (expires_at d <=? t); [done|].
  destruct (match fingerprint d with Some _ => _ | None => _ end); [done|].
  destruct (requires_heartbeat d); [|done]. destruct (issued_at d) as [i|]; [|done]. cbn [negb fmap option_fmap option_map].
  destruct (Z.ltb_spec HEARTBEAT_GRACE (t - i)); [|done]. intros Hg. exfalso.
  assert (Z.quot (i + HEARTBEAT_GRACE - t) (10 ^ 9) ≤ 0); [|lia].
  rewrite <- (Z.quot_0_l (10 ^ 9)) by lia. apply Z.quot_le_mono; lia.
Qed.

Lemma outranked_trans d1 d2 d3 : outranked d1 d2 → outranked d2 d3 → outranked d1 d3.
Proof.
  unfold outranked. intros [H1|[K1 H1]] [H2|[K2 H2]]; rewrite ?K1, ?K2 in *;
    rewrite <- ?K1, <- ?K2 in *; (left; lia) || (right; split; [congruence|lia]).
Qed.

Lemma outranked_irrefl d : ¬ outranked d d.
Proof. intros [?|[_ ?]]; lia. Qed.

Lemma should_adopt_usable st cur cand fp now :
  doc st = Some cur → problem_for st fp now = None →
  (should_adopt st cand fp now = true ↔ validity cand fp now = Ok tt ∧ outranked cur cand).
Proof.
  intros Hd Hp. unfold should_adopt. rewrite Hd, Hp. cbn.
  case_bool_decide as Heq.
  { subst. split; [done|]. by intros [_ []%outranked_irrefl]. }
  destruct (validity cand fp now) as [[]|p]; cbn; [|naive_solver].
  unfold outranked. destruct (kind cur), (kind cand); cbn; rewrite ?Z.ltb_lt; split.
  all: try (intros [_ [?|[? ?]]]); try done; try lia.
  all: intros; split; [done|]; (by left) || (right; split; [done|lia]).
Qed.

Lemma should_adopt_valid st cur cand fp now :
  doc st = Some cur → should_adopt st cand fp now = true → validity cand fp now = Ok tt.
Proof.
  unfold should_adopt. intros ->. case_bool_decide; [done|].
  by destruct (validity cand fp now) as [[]|].
Qed.

Lemma activate_usable l s fp now :
  validity (l_doc l) fp now = Ok tt → problem_for (activate l s) fp now = None.
Proof. intros H. apply problem_none_iff. split; [done|]. by intros d [= <-]. Qed.

(** Whatever documents the store shows, in whatever order, while the
    active license is usable: the license in force afterwards is still usable,
    is the old one or one that outranks it, and no valid document seen
    outranks it.  So a commercial license is never replaced by a trial, an
    older attestation never wins, and replicas that see the same documents end
    with documents of the same rank. *)
Theorem adoption_keeps_the_best fp now l st cur :
  doc st = Some cur → problem_for st fp now = None →
  ∃ fin, doc (fold_left (adopt fp now) l st) = Some fin ∧
    problem_for (fold_left (adopt fp now) l st) fp now = None ∧
    (fin = cur ∨ outranked cur fin) ∧
    ∀ c, c ∈ l → validity (l_doc c) fp now = Ok tt → ¬ outranked fin (l_doc c).
Proof.
  revert st cur. induction l as [|c l IH]; intros st cur Hd Hp; cbn [fold_left].
  { exists cur. split_and!; [done|done|by left|]. intros c Hc. by apply not_elem_of_nil in Hc. }
  pose proof (should_adopt_usable st cur (l_doc c) fp now Hd Hp) as Hsa.
  unfold adopt at 2 4. destruct (should_adopt st (l_doc c) fp now) eqn:Ha.
  - destruct Hsa as [[Hv Hr] _]; [done|].
    destruct (IH (activate c st) (l_doc c) eq_refl (activate_usable _ _ _ _ Hv))
      as (fin & Hf & Hu & Hor & Hmax).
    exists fin. split_and!; [done|done| |].
    + destruct Hor as [->|?]; right; [done|by eapply outranked_trans].
    + intros c' [->|Hin]%elem_of_cons Hv'; [|by apply Hmax].
      destruct Hor as [->|Hor]; [apply outranked_irrefl|].
      intros Hc. apply (outranked_irrefl fin). by eapply outranked_trans.
  - destruct (IH st cur Hd Hp) as (fin & Hf & Hu & Hor & Hmax).
    exists fin. split_and!; [done|done|done|].
    intros c' [->|Hin]%elem_of_cons Hv'; [|by apply Hmax].
    intros Hc. enough (false = true) by done. apply Hsa. split; [done|].
    destruct Hor as [->|Hor]; [done|by eapply outranked_trans].
Qed.

(** An accepted trial e-mail is in normal form: validating it again
    returns it unchanged, it is lower case, 6 to 254 bytes long, free of
    whitespace and control characters, and consists of a non-empty local part
    without [@] and a domain of at least two hostname labels. *)
Theorem trial_email_normal_form input e :
  validate_trial_email input = Ok e →
  validate_trial_email e = Ok e ∧
  6 ≤ str_len e ≤ 254 ∧ to_ascii_lowercase e = e ∧ trim e = e ∧
  ∃ local domain, e = local +:+ String "@" domain ∧
    local ≠ EmptyString ∧ contains_char "@" local = false ∧ contains_char "@" domain = false ∧
    2 ≤ Z.of_nat (length (split_char "." domain)) ∧
    forallb is_domain_label (split_char "." domain) = true.
Proof.
  unfold validate_trial_email. set (m := to_ascii_lowercase (trim input)).
  destruct ((str_len m <? 6) || (254 <? str_len m)) eqn:Hlen; [done|].
  destruct (existsb _ (chars m)) eqn:Hws; [done|].
  destruct (rsplit_once "@" m) as [[local domain]|] eqn:Hsp; [|done].
  destruct (is_empty local || is_empty domain || contains_char "@" local) eqn:Hp; [done|].
  destruct ((Z.of_nat _ <? 2) || existsb _ _) eqn:Hlab; [done|]. intros [= <-].
  assert (existsb char_is_whitespace (chars m) = false) as Hws'.
  { apply not_true_iff_false. intros (c & Hc & Hw)%existsb_exists.
    apply not_true_iff_false in Hws. apply Hws, existsb_exists. exists c. by rewrite Hw. }
  assert (to_ascii_lowercase m = m) as Hlow by apply to_ascii_lowercase_idemp.
  pose proof (trim_id m Hws') as Htrim.
  rewrite Htrim, Hlow, Hlen, Hws, Hsp, Hp, Hlab.
  apply rsplit_once_Some in Hsp as [Hm Hd]. bool_prop.
  split_and!; [done|lia..|done|done|].
  exists local, domain. split_and!; [done|by intros ->|done|done|lia|].
  apply forallb_forall. intros l Hl. apply not_false_iff_true. intros Hf.
  assert (existsb (λ l, negb (is_domain_label l)) (split_char "." domain) = true); [|congruence].
  apply existsb_exists. exists l. by rewrite Hf.
Qed.

Lemma trial_email_normal_form_witness :
  validate_trial_email "  Ops@Example.COM " = Ok "ops@example.com" ∧
  validate_trial_email "ops@example.com" = Ok "ops@example.com".
Proof.
  split; [vm_compute; reflexivity|].
  apply (trial_email_normal_form "  Ops@Example.COM "). vm_compute. reflexivity.
Defined.

(** ** Witnesses *)
Definition sample_trial : LicenseDoc :=
  mkLicenseDoc "acme" (hours 240) ["core"] None (Some 0) Trial (Some "fp") true.
Definition sample_commercial : LicenseDoc :=
  mkLicenseDoc "acme" (hours 9000) ["core"] None (Some (hours 5)) Commercial None false.
Definition sample_state : LicenseState := activate (mkLoaded sample_trial "raw" None) default_state.

Lemma licensed_exactly_until_witness :
  is_licensed sample_state "fp" (hours 72) = true ∧
  is_licensed sample_state "fp" (hours 73) = false.
Proof.
  pose proof (licensed_exactly_until sample_state "fp" sample_trial (hours 1)) as H.
  split.
  - by apply H.
  - apply not_true_iff_false. intros Hl. by apply H in Hl.
Defined.

Lemma adoption_keeps_the_best_witness :
  problem_for sample_state "fp" (hours 6) = None ∧
  ∃ fin, doc (fold_left (adopt "fp" (hours 6)) [mkLoaded sample_commercial "c" None] sample_state)
         = Some fin ∧ ¬ outranked fin sample_commercial.
Proof.
  split; [reflexivity|].
  destruct (adoption_keeps_the_best "fp" (hours 6) [mkLoaded sample_commercial "c" None]
              sample_state sample_trial) as (fin & Hf & _ & _ & Hm); [reflexivity..|].
  exists fin. split; [exact Hf|].
  apply (Hm (mkLoaded sample_commercial "c" None)); [by left|reflexivity].
Defined.
