(* ===== verification/LicenseFile.v ===== *)
(** * Signed license files

    Serialization of a license document (the serde derives of
    [security/license.rs]), signing and verification.  RSA, base64 and the
    RFC 3339 text of an instant belong to third-party crates: they are the
    interfaces [Crypto] and [Rfc3339], with the laws their documentation
    states. *)
From S2P Require Import Prelude RustStr Json License.

(** chrono: the text of an instant.  [dt_serde] is the serde form, [dt_rfc3339]
    is [to_rfc3339], [dt_display] is [Display]; [dt_parse] is the serde parser,
    [dt_parse_rfc3339] is [parse_from_rfc3339]. *)
Class Rfc3339 := {
  dt_serde : Z → string;
  dt_rfc3339 : Z → string;
  dt_display : Z → string;
  dt_parse : string → option Z;
  dt_parse_rfc3339 : string → option Z;
  dt_in_range : Z → bool;
  dt_parse_range : ∀ s t, dt_parse s = Some t → dt_in_range t = true;
  dt_serde_parse : ∀ t, dt_in_range t = true → dt_parse (dt_serde t) = Some t;
  dt_rfc3339_parse : ∀ t, dt_in_range t = true → dt_parse_rfc3339 (dt_rfc3339 t) = Some t;
}.

(** The [rsa] and [base64] crates.  Keys are PEM texts until parsed. *)
Class Crypto := {
  pubkey : Type;
  private_pem_ok : string → bool;
  public_of_private : string → pubkey;
  public_from_pem : string → option pubkey;
  rsa_sign : string → string → string;
  signature_ok : string → bool;
  rsa_verify : pubkey → string → string → bool;
  b64_encode : string → string;
  b64_decode : string → option string;
  b64_roundtrip : ∀ s, b64_decode (b64_encode s) = Some s;
  rsa_sign_ok : ∀ pem m, private_pem_ok pem = true → signature_ok (rsa_sign pem m) = true;
  rsa_sign_verify : ∀ pem m, private_pem_ok pem = true →
    rsa_verify (public_of_private pem) m (rsa_sign pem m) = true;
}.

(** ** serde *)

(** What a derived [Deserialize] accepts for a struct: an object, or a
    sequence of its fields in order. *)
Definition struct_fields (names : list string) (v : value) : option jmap :=
  match v with
  | VObject m => Some m
  | VArray l => if (length l <=? length names)%nat then Some (zip names l) else None
  | _ => None
  end.

(** An [Option] field: missing and [null] are [None]. *)
Definition opt_field {A} (f : value → option A) (k : string) (m : jmap) : option (option A) :=
  match map_get k m with
  | None | Some VNull => Some None
  | Some v => Some <$> f v
  end.

(** A field with [#[serde(default)]]. *)
Definition default_field {A} (d : A) (f : value → option A) (k : string) (m : jmap) : option A :=
  match map_get k m with None => Some d | Some v => f v end.

Definition as_u32 (v : value) : option Z :=
  match v with VNumber (PosInt n) => if (0 <=? n) && (n <? 2 ^ 32) then Some n else None | _ => None end.

Fixpoint map_opt {A B} (f : A → option B) (l : list A) : option (list B) :=
  match l with
  | [] => Some []
  | a :: l' => b ← f a; bs ← map_opt f l'; Some (b :: bs)
  end.

(** A unit variant of an enum: its name, or an object with the name and [null]. *)
Definition unit_variant (v : value) : option string :=
  match v with VString s | VObject [(s, VNull)] => Some s | _ => None end.

Definition kind_to_value (k : LicenseKind) : value :=
  VString match k with Trial => "trial" | Commercial => "commercial" end.
Definition kind_of_value (v : value) : option LicenseKind :=
  s ← unit_variant v;
  if (s =? "trial")%string then Some Trial
  else if (s =? "commercial")%string then Some Commercial else None.

Section Serde.
Context `{Rfc3339}.

Definition dt_of_value (v : value) : option Z := as_str v ≫= dt_parse.

Definition license_doc_to_value (d : LicenseDoc) : value :=
  json_obj ([("licensee", VString (licensee d));
             ("expires_at", VString (dt_serde (expires_at d)));
             ("features", json_strs (features d));
             ("max_seats", json_opt json_int (max_seats d));
             ("issued_at", json_opt (λ t, VString (dt_serde t)) (issued_at d));
             ("kind", kind_to_value (kind d))]
            ++ match fingerprint d with Some f => [("fingerprint", VString f)] | None => [] end
            ++ if requires_heartbeat d then [("requires_heartbeat", VBool true)] else []).

Definition license_doc_of_value (v : value) : option LicenseDoc :=
  m ← struct_fields ["licensee"; "expires_at"; "features"; "max_seats"; "issued_at";
                     "kind"; "fingerprint"; "requires_heartbeat"] v;
  li ← map_get "licensee" m ≫= as_str;
  ex ← map_get "expires_at" m ≫= dt_of_value;
  fe ← default_field [] (λ w, as_array w ≫= map_opt as_str) "features" m;
  ms ← opt_field as_u32 "max_seats" m;
  ia ← opt_field dt_of_value "issued_at" m;
  ki ← default_field Commercial kind_of_value "kind" m;
  fp ← opt_field as_str "fingerprint" m;
  rh ← default_field false as_bool "requires_heartbeat" m;
  Some (mkLicenseDoc li ex fe ms ia ki fp rh).
End Serde.

Record LicenseFile : Type := mkLicenseFile { lf_license : value; lf_signature : string }.

Definition license_file_to_value (f : LicenseFile) : value :=
  json_obj [("license", lf_license f); ("signature", VString (lf_signature f))].
Definition license_file_of_value (v : value) : option LicenseFile :=
  m ← struct_fields ["license"; "signature"] v;
  l ← map_get "license" m;
  s ← map_get "signature" m ≫= as_str;
  Some (mkLicenseFile l s).

(** ** Signing and verification *)
Section SignVerify.
Context `{JsonText} `{Rfc3339} `{Crypto}.

Definition canonical_bytes (license : value) : string := to_json_string license.

(** The text of an expiry refusal; the server recognises it by "expired". *)
Definition expired_message (d : LicenseDoc) : string :=
  "license for " +:+ debug_str (licensee d) +:+ " expired at " +:+ dt_display (expires_at d).

(** Errors carry the text [anyhow] displays, the outermost context. *)
Definition verify_license (now : Z) (raw : string) (key : pubkey) : result string LicenseDoc :=
  file ← ok_or (from_json_str raw ≫= license_file_of_value) "license file is not valid JSON";
  sig_bytes ← ok_or (b64_decode (lf_signature file)) "license signature is not valid base64";
  if negb (signature_ok sig_bytes) then Err "malformed signature"
  else if negb (rsa_verify key (canonical_bytes (lf_license file)) sig_bytes) then
    Err "license signature verification FAILED (tampered or wrong key)"
  else
    d ← ok_or (license_doc_of_value (lf_license file)) "license payload has an invalid shape";
    if expires_at d <=? now then Err (expired_message d) else Ok d.

Definition sign_license (d : LicenseDoc) (private_key_pem : string) : result string string :=
  if negb (private_pem_ok private_key_pem) then Err "parsing private key"
  else
    let license := license_doc_to_value d in
    let signature := rsa_sign private_key_pem (canonical_bytes license) in
    Ok (to_json_pretty (license_file_to_value (mkLicenseFile license (b64_encode signature)))).

(** The documents whose fields fit their Rust types. *)
Definition doc_ok (d : LicenseDoc) : bool :=
  dt_in_range (expires_at d)
  && match issued_at d with Some t => dt_in_range t | None => true end
  && match max_seats d with Some n => (0 <=? n) && (n <? 2 ^ 32) | None => true end.
End SignVerify.

(** A concrete instance of the two interfaces, used by the witnesses: instants
    are printed in decimal, the key pair is a shared text and a signature is
    the key followed by the message. *)
Definition decimal_time : Rfc3339 := {|
    dt_serde := show_Z; dt_rfc3339 := show_Z; dt_display := show_Z; dt_parse := parse_i64;
    dt_parse_rfc3339 := parse_i64;
    dt_in_range := in_i64;
    dt_parse_range := parse_i64_range;
    dt_serde_parse := λ t Ht, parse_show t Ht;
    dt_rfc3339_parse := λ t Ht, parse_show t Ht;
  |}.

Definition shared_key : Crypto := {|
    pubkey := string;
    private_pem_ok := λ pem, negb (is_empty pem);
    public_of_private := id;
    public_from_pem := λ pem, if is_empty pem then None else Some pem;
    rsa_sign := λ pem m, pem +:+ m;
    signature_ok := λ s, true;
    rsa_verify := λ k m s, (s =? k +:+ m)%string;
    b64_encode := id;
    b64_decode := Some;
    b64_roundtrip := λ s, eq_refl;
    rsa_sign_ok := λ pem m _, eq_refl;
    rsa_sign_verify := λ pem m _, String.eqb_refl _;
  |}.

Definition sample_license : LicenseDoc :=
  mkLicenseDoc "acme" (hours 48) ["core"] (Some 5) (Some (hours 1)) Trial (Some "fp-1") true.

(** ** Lemmas *)

Lemma map_opt_map {A B} (f : B → option A) (g : A → B) l :
  (∀ a, f (g a) = Some a) → map_opt f (map g l) = Some l.
Proof. intros Hfg. induction l as [|a l IH]; cbn; [done|]. by rewrite Hfg, IH. Qed.

Lemma license_file_value_roundtrip f : license_file_of_value (license_file_to_value f) = Some f.
Proof.
  unfold license_file_of_value, license_file_to_value, json_obj. cbn [struct_fields].
  unfold mbind at 1, option_bind. rewrite !map_get_entries. by destruct f.
Qed.

Section RoundTrip.
Context `{JsonText} `{Rfc3339} `{Crypto}.

Lemma license_doc_value_roundtrip d :
  doc_ok d = true → license_doc_of_value (license_doc_to_value d) = Some d.
Proof.
  unfold doc_ok. intros Hok. bool_prop.
  destruct d as [li ex fe ms ia ki fp rh]; cbn [expires_at issued_at max_seats] in *.
  unfold license_doc_of_value, license_doc_to_value, opt_field, default_field.
  cbn [struct_fields json_obj]. unfold mbind at 1, option_bind. rewrite !map_get_entries.
  destruct fp as [f|], rh, ia as [i|], ms as [n|], ki; bool_prop;
    cbn; rewrite ?dt_serde_parse by done; cbn; rewrite ?map_opt_map by done; cbn;
    unfold json_int; rewrite ?(proj2 (Z.ltb_ge n 0)) by lia;
    cbn; rewrite ?(proj2 (Z.leb_le 0 n)), ?(proj2 (Z.ltb_lt n _)) by lia; done.
Qed.

(** Whatever decodes to a document fits the Rust types. *)
Lemma license_doc_of_value_ok v d : license_doc_of_value v = Some d → doc_ok d = true.
Proof.
  unfold license_doc_of_value, doc_ok, opt_field.
  intros (m & _ & (li & _ & (ex & Hex & (fe & _ & (ms & Hms & (ia & Hia & (ki & _ &
    (fp & _ & (rh & _ & [= <-])%bind_Some)%bind_Some)%bind_Some)%bind_Some)%bind_Some)%bind_Some)
    %bind_Some)%bind_Some)%bind_Some. cbn.
  assert (∀ w t, dt_of_value w = Some t → dt_in_range t = true) as Hdt.
  { intros w t (s & _ & Ht)%bind_Some. by eapply dt_parse_range. }
  rewrite !andb_true_iff. split; [split|].
  - apply bind_Some in Hex as (w & _ & Hw). by eapply Hdt.
  - destruct ia as [t|]; [|done].
    destruct (map_get "issued_at" m) as [[]|]; try done;
      apply fmap_Some in Hia as (t' & Ht & [= <-]); by eapply Hdt.
  - destruct ms as [n|]; [|done].
    destruct (map_get "max_seats" m) as [[| |[n'| |]| | |]|]; try done;
      apply fmap_Some in Hms as (n'' & Hn & [= <-]); try done. cbn in Hn.
    destruct ((0 <=? n') && (n' <? 2 ^ 32)) eqn:Hc; [|done]. injection Hn as <-.
    exact Hc.
Qed.

Lemma license_doc_value_ok d : doc_ok d = true → value_ok (license_doc_to_value d) = true.
Proof.
  unfold doc_ok. intros Hok. bool_prop. apply json_obj_ok.
  assert (forallb value_ok (map VString (features d)) = true) as Hf.
  { apply forallb_forall. intros v (s & <- & _)%in_map_iff. done. }
  apply Forall_app. split; [|apply Forall_app; split].
  - repeat apply Forall_cons_2; try done; try exact Hf.
    + cbn [snd]. destruct (max_seats d) as [n|]; [|done]. bool_prop.
      unfold json_opt, json_int, u64_max. rewrite (proj2 (Z.ltb_ge n 0)) by lia.
      apply andb_true_iff. unfold u64_max. rewrite !Z.leb_le. lia.
    + by destruct (issued_at d).
  - destruct (fingerprint d); repeat constructor.
  - destruct (requires_heartbeat d); repeat constructor.
Qed.

Lemma sign_verify_ok d pem now :
  private_pem_ok pem = true → doc_ok d = true → now < expires_at d →
  ∃ raw, sign_license d pem = Ok raw ∧
         verify_license now raw (public_of_private pem) = Ok d.
Proof.
  intros Hpem Hok Hnow. unfold sign_license. rewrite Hpem. cbn [negb].
  set (v := license_doc_to_value d). set (sg := rsa_sign pem (canonical_bytes v)).
  eexists. split; [reflexivity|]. unfold verify_license.
  rewrite json_pretty_roundtrip.
  - cbn [mbind option_bind]. rewrite license_file_value_roundtrip.
    cbn [ok_or mbind result_bind lf_signature lf_license]. rewrite b64_roundtrip.
    cbn [ok_or mbind result_bind]. unfold sg. rewrite rsa_sign_ok, rsa_sign_verify by done.
    cbn [negb]. unfold v. rewrite license_doc_value_roundtrip by done.
    cbn [ok_or mbind result_bind]. by rewrite (proj2 (Z.leb_gt _ _)) by lia.
  - apply json_obj_ok. repeat apply Forall_cons_2; try done.
    by apply license_doc_value_ok.
Qed.

(** A document signed with a private key is accepted by the matching
    public key, and verification gives back exactly the signed document. *)
Theorem sign_verify_roundtrip d pem now :
  private_pem_ok pem = true → doc_ok d = true → now < expires_at d →
  ∃ raw, sign_license d pem = Ok raw ∧
         verify_license now raw (public_of_private pem) = Ok d.
Proof. apply sign_verify_ok. Qed.

(** Everything verification lets through: the text is a license file,
    its signature is valid for the canonical bytes of the payload under the
    given key, the document is the one in the payload, and it has not
    expired. *)
Theorem verify_license_sound now raw key d :
  verify_license now raw key = Ok d →
  ∃ file sig, (from_json_str raw ≫= license_file_of_value) = Some file ∧
    b64_decode (lf_signature file) = Some sig ∧
    rsa_verify key (canonical_bytes (lf_license file)) sig = true ∧
    license_doc_of_value (lf_license file) = Some d ∧ now < expires_at d.
Proof.
  unfold verify_license. intros Hv. inv_ok.
  destruct (negb (signature_ok a0)); [done|].
  destruct (negb (rsa_verify _ _ _)) eqn:Hs; [done|].
  inv_ok. destruct (expires_at a1 <=? now) eqn:He; [done|]. inv_ok. bool_prop.
  by exists a, a0.
Qed.

Lemma verified_doc_ok now raw key d : verify_license now raw key = Ok d → doc_ok d = true.
Proof.
  unfold verify_license. intros Hv. inv_ok. destruct (negb (signature_ok _)); [done|].
  destruct (negb (rsa_verify _ _ _)); [done|]. inv_ok.
  destruct (expires_at _ <=? now); [done|]. inv_ok. by eapply license_doc_of_value_ok.
Qed.

(** The text of a refusal contains "expired" exactly for an expired
    document, which is how the license server tells a 402 from a 400. *)
Lemma verify_license_err now raw key e :
  verify_license now raw key = Err e →
  contains_str "expired" e = false ∨ ∃ d, e = expired_message d ∧ expires_at d ≤ now.
Proof.
  unfold verify_license.
  repeat first
    [ match goal with |- (ok_or ?o _ ≫= _) = _ → _ => destruct o; cbn end
    | match goal with |- (if ?b then _ else _) = _ → _ => destruct b eqn:?; cbn end ];
    intros [= <-]; try (left; vm_compute; reflexivity).
  bool_prop. right. eauto.
Qed.
End RoundTrip.

Lemma sign_verify_roundtrip_witness :
  hours 2 < expires_at sample_license ∧
  ∃ raw, @sign_license bits_json decimal_time shared_key sample_license "vendor" = Ok raw ∧
         @verify_license bits_json decimal_time shared_key (hours 2) raw "vendor"
         = Ok sample_license.
Proof.
  split; [reflexivity|].
  apply (@sign_verify_roundtrip bits_json decimal_time shared_key sample_license "vendor");
    vm_compute; reflexivity.
Defined.

Lemma verify_license_sound_witness :
  ∃ raw file sig,
    (@from_json_str bits_json raw ≫= license_file_of_value) = Some file ∧
    lf_signature file = sig ∧ hours 2 < expires_at sample_license.
Proof.
  assert (@verify_license bits_json decimal_time shared_key (hours 2)
            (match @sign_license bits_json decimal_time shared_key sample_license "vendor" with
             | Ok raw => raw | Err e => e end) "vendor" = Ok sample_license) as H
    by (vm_compute; reflexivity).
  destruct (@verify_license_sound bits_json decimal_time shared_key _ _ _ _ H)
    as (file & sig & Hf & Hs & _ & _ & Hlt).
  eexists _, file, sig. split; [exact Hf|]. split; [by injection Hs as ->|exact Hlt].
Defined.
