(* ===== verification/LicenseIO.v ===== *)
(** * The license process state machine: [apps/api/src/security/license.rs]

    Start-up, trial activation, the heartbeat tick, the adoption of a changed
    store file and the run-time gate, over an explicit process state: the
    global [STATE] with [ENFORCE] and [FINGERPRINT], the file system, the clock
    and the replies of the license server.  The environment, the clock and the
    HTTP client's behaviour are arguments.  Metrics and log lines are not
    state. *)
From S2P Require Import Prelude RustStr Json Error License LicenseFile.
From Stdlib Require Import Ascii.

(** What one HTTP exchange yields: no reply, a status whose body cannot be
    read, or a full response. *)
Inductive http_reply : Type :=
  | NoReply (error : string)
  | BrokenBody (status : Z) (error : string)
  | Reply (status : Z) (text : string).

(** A file: its modification time and its text. *)
Definition file : Type := (Z * string)%type.

Record Proc : Type := mkProc {
  p_state : LicenseState;
  p_enforce : option bool;
  p_fp : option string;
  p_files : gmap string file;
  p_clock : nat;                     (** readings of the clock so far *)
  p_replies : list http_reply;       (** the server's next replies *)
  p_sent : list (string * value);    (** requests sent: URL and body *)
}.

Abbreviation io := (stM Proc string).

(** [with_state] *)
Definition with_state (f : LicenseState → LicenseState) : io unit :=
  st_modify (λ w, mkProc (f (p_state w)) (p_enforce w) (p_fp w) (p_files w) (p_clock w)
                         (p_replies w) (p_sent w)).
Definition snapshot : io LicenseState := w ← st_get; mret (p_state w).

(** [OnceLock::set] keeps the first value. *)
Definition set_once {A} (cell : option A) (a : A) : option A :=
  match cell with Some b => Some b | None => Some a end.
Definition set_enforce (b : bool) : io unit :=
  st_modify (λ w, mkProc (p_state w) (set_once (p_enforce w) b) (p_fp w) (p_files w) (p_clock w)
                         (p_replies w) (p_sent w)).
Definition set_fingerprint (f : string) : io unit :=
  st_modify (λ w, mkProc (p_state w) (p_enforce w) (set_once (p_fp w) f) (p_files w) (p_clock w)
                         (p_replies w) (p_sent w)).
Definition set_files (fs : gmap string file) (w : Proc) : Proc :=
  mkProc (p_state w) (p_enforce w) (p_fp w) fs (p_clock w) (p_replies w) (p_sent w).

Definition enforce_enabled (w : Proc) : bool := default false (p_enforce w).
Definition process_fingerprint (w : Proc) : string := default "unavailable" (p_fp w).

Definition set_attempt (t : Z) (s : LicenseState) : LicenseState :=
  mkLicenseState (doc s) (raw s) (revoked_reason s) (Some t) (last_heartbeat_error s) (store_stamp s).
Definition set_hb_error (e : string) (s : LicenseState) : LicenseState :=
  mkLicenseState (doc s) (raw s) (revoked_reason s) (last_heartbeat_attempt s) (Some e) (store_stamp s).
Definition set_revoked (r e : string) (s : LicenseState) : LicenseState :=
  mkLicenseState (doc s) (raw s) (Some r) (last_heartbeat_attempt s) (Some e) (store_stamp s).
Definition set_stamp (st : stamp) (s : LicenseState) : LicenseState :=
  mkLicenseState (doc s) (raw s) (revoked_reason s) (last_heartbeat_attempt s)
                 (last_heartbeat_error s) (Some st).
(** The update after a refreshed heartbeat: [stamp.or(s.store_stamp)]. *)
Definition set_refreshed (l : LoadedLicense) (st : option stamp) (s : LicenseState) : LicenseState :=
  mkLicenseState (Some (l_doc l)) (Some (l_raw l)) None (last_heartbeat_attempt s) None
                 (opt_or st (store_stamp s)).

Record LicenseServer : Type := mkServer { base_url : string; token : string }.

Inductive HeartbeatOutcome : Type :=
  | Refreshed (l : LoadedLicense)
  | Denied (status : Z) (reason : string)
  | Unavailable (err : string).

Definition DEFAULT_STORE_PATH : string := "/var/lib/migration/license.json".
Definition PRODUCT_NAME : string := "migration-platform".

Definition short_fingerprint (full : string) : string := take_chars 12 full.

(** [Path::parent] and [Path::with_extension], for a path that names a file. *)
Definition path_parent (p : string) : string :=
  match rsplit_once "/" p with
  | Some (d, _) => if is_empty d then "/" else d
  | None => EmptyString
  end.
Definition with_extension (ext p : string) : string :=
  let '(dir, name) := match rsplit_once "/" p with
                      | Some (d, n) => (d +:+ "/", n)
                      | None => (EmptyString, p)
                      end in
  let stem := match rsplit_once "." name with
              | Some (s, _) => if is_empty s then name else s
              | None => name
              end in
  dir +:+ stem +:+ "." +:+ ext.

Section Process.
Context `{JsonText} `{Rfc3339} `{Crypto}.
(** The environment, fixed for the life of the process; the embedded key;
    the clock; whether the HTTP client can be built; which paths the
    process may write; crate texts. *)
Context (env : string → option string) (embedded_pem : string) (clock : nat → Z)
      (client_builds : bool) (writable : string → bool)
      (product_version pid : string)
      (status_display : Z → string) (json_error : string → string).

(** [Utc::now()] *)
Definition now : io Z := λ w,
  (Ok (clock (p_clock w)),
   mkProc (p_state w) (p_enforce w) (p_fp w) (p_files w) (S (p_clock w))
          (p_replies w) (p_sent w)).

Definition read_to_string (path err : string) : io string :=
  w ← st_get; lift (ok_or (snd <$> p_files w !! path) err).
Definition write_file (path contents err : string) : io unit :=
  if writable path then
    t ← now; w ← st_get; st_modify (set_files (<[path := (t, contents)]> (p_files w)))
  else throw err.
Definition rename_file (from to err : string) : io unit :=
  w ← st_get;
  match p_files w !! from with
  | Some f =>
      if writable to then st_modify (set_files (<[to := f]> (delete from (p_files w))))
      else throw err
  | None => throw err
  end.
Definition file_stamp (path : string) : io (option stamp) :=
  w ← st_get; mret ((λ f : file, (f.1, str_len f.2)) <$> p_files w !! path).

(** One POST: the request is recorded and the next reply consumed. *)
Definition http_post (url : string) (body : value) : io http_reply := λ w,
  let '(r, rest) := match p_replies w with
                    | [] => (NoReply EmptyString, [])
                    | r :: rest => (r, rest)
                    end in
  (Ok r, mkProc (p_state w) (p_enforce w) (p_fp w) (p_files w) (p_clock w) rest
                (p_sent w ++ [(url, body)])).

Definition non_empty_var (k : string) : option string :=
  opt_filter (λ v, negb (is_empty v)) (env k).
Definition non_blank_var (k : string) : option string :=
  opt_filter (λ v, negb (is_empty (trim v))) (env k).

Definition store_path : string := default DEFAULT_STORE_PATH (non_empty_var "LICENSE_STORE_PATH").

(** [LicenseServer::from_env] *)
Definition from_env : option LicenseServer :=
  u ← non_blank_var "LICENSE_SERVER_URL";
  t ← non_blank_var "LICENSE_SERVER_TOKEN";
  Some (mkServer (trim_end_char "/" (trim u)) t).

Definition load_public_key : io pubkey :=
  pem ← match non_empty_var "LICENSE_PUBLIC_KEY_PATH" with
        | Some p => read_to_string p ("reading " +:+ p)
        | None => mret embedded_pem
        end;
  lift (ok_or (public_from_pem pem) "parsing license public key").

Definition verify (raw : string) (key : pubkey) : io LicenseDoc :=
  t ← now; lift (verify_license t raw key).

Definition load_and_verify_path (path : string) (key : pubkey) (fp : string) : io LoadedLicense :=
  raw ← read_to_string path ("reading license file " +:+ path);
  d ← verify raw key;
  _ ← match fingerprint d with
      | Some bound =>
          guard_err (negb (bound =? fp)%string)
            ("license fingerprint mismatch (license bound to " +:+ short_fingerprint bound
             +:+ ", this install is " +:+ short_fingerprint fp +:+ ")")
      | None => mret tt
      end;
  stmp ← if (path =? store_path)%string then file_stamp store_path else mret None;
  mret (mkLoaded d raw stmp).

Fixpoint first_valid (key : pubkey) (fp : string) (paths : list string)
    : io (option LoadedLicense) :=
  match paths with
  | [] => mret None
  | path :: rest =>
      r ← attempt (F:=string) (load_and_verify_path path key fp);
      match r with Ok l => mret (Some l) | Err _ => first_valid key fp rest end
  end.

Definition try_load_local (fp : string) : io (option LoadedLicense) :=
  w ← st_get;
  let candidates :=
    option_list (non_empty_var "LICENSE_FILE")
    ++ (if is_some (p_files w !! store_path) then [store_path] else []) in
  key ← load_public_key;
  first_valid key fp candidates.

Definition persist_license (raw : string) : io (option stamp) :=
  let path := store_path in
  let parent := path_parent path in
  _ ← guard_err (negb (writable parent)) ("creating license store dir " +:+ parent);
  let tmp := with_extension ("json." +:+ pid +:+ ".tmp") path in
  _ ← write_file tmp raw ("writing " +:+ tmp);
  _ ← rename_file tmp path ("persisting license to " +:+ path);
  file_stamp path.

Definition unwrap_license_response (raw : string) : string :=
  match from_json_str raw with
  | Some v =>
      if is_some (vget "license" v) && is_some (vget "signature" v) then raw
      else match vget "license_file" v with
           | Some inner => to_json_string inner
           | None => match get_str "license_json" v with Some s => s | None => raw end
           end
  | None => raw
  end.

Definition extract_error_message (text : string) : string :=
  match v ← from_json_str text; e ← vget "error" v;
        m ← opt_or (vget "message" e) (Some e); as_str m with
  | Some m => m
  | None => take_chars 200 (trim text)
  end.

(** The status range [StatusCode::is_success]. *)
Definition is_success (s : Z) : bool := (200 <=? s) && (s <? 300).

Definition activate_trial_phone_home (fp email : string) : io LoadedLicense :=
  email ← lift (validate_trial_email email);
  server ← lift (ok_or from_env
    "LICENSE_SERVER_URL and LICENSE_SERVER_TOKEN are required to start a trial");
  let url := base_url server +:+ "/v1/trial/start" in
  let body := json_obj [("fingerprint", VString fp); ("email", VString email);
                        ("product", VString PRODUCT_NAME); ("version", VString product_version)] in
  _ ← guard_err (negb client_builds) "building license HTTP client";
  resp ← http_post url body;
  '(status, raw) ← match resp with
                   | NoReply _ => throw ("calling license server " +:+ url)
                   | BrokenBody _ _ => throw "reading license server response"
                   | Reply s t => mret (s, t)
                   end;
  _ ← guard_err (negb (is_success status))
        ("license server returned " +:+ status_display status +:+ ": " +:+ raw);
  let raw_file := unwrap_license_response raw in
  key ← load_public_key;
  d ← verify raw_file key;
  _ ← guard_err (negb (bool_decide (kind d = Trial))) "license server returned a non-trial license";
  _ ← guard_err (negb (bool_decide (fingerprint d = Some fp)))
        "trial license fingerprint does not match this install";
  stmp ← persist_license raw_file;
  mret (mkLoaded d raw_file stmp).

(** The public [start_trial]. *)
Definition start_trial (email : string) : io LicenseDoc :=
  w ← st_get;
  let fp := process_fingerprint w in
  _ ← guard_err (fp =? "unavailable")%string
        "install fingerprint unavailable; license subsystem not initialised";
  l ← activate_trial_phone_home fp email;
  _ ← with_state (activate l);
  mret (l_doc l).

(** [install_fp] is the outcome of [install_fingerprint]. *)
Definition enforce_at_startup (install_fp : result string string) : io unit :=
  let enforce := env_flag (env "LICENSE_ENFORCE") in
  _ ← set_enforce enforce;
  fp ← lift (map_err (λ _, "loading durable installation ID; mount LICENSE_INSTALLATION_ID_PATH on shared durable storage") install_fp);
  _ ← set_fingerprint fp;
  loaded ← try_load_local fp;
  match loaded with
  | Some l => with_state (activate l)
  | None =>
      if enforce then
        match non_blank_var "LICENSE_TRIAL_EMAIL" with
        | Some email =>
            r ← attempt (F:=string) (activate_trial_phone_home fp email);
            match r with Ok l => with_state (activate l) | Err _ => mret tt end
        | None => mret tt
        end
      else mret tt
  end.

Definition heartbeat_once (server : LicenseServer) (fp raw_license : string) (key : pubkey)
    : io HeartbeatOutcome :=
  let url := base_url server +:+ "/v1/heartbeat" in
  match from_json_str raw_license with
  | None => mret (Unavailable ("stored license unreadable: " +:+ json_error raw_license))
  | Some license_file =>
      let body := json_obj [("fingerprint", VString fp); ("license_file", license_file);
                            ("product", VString PRODUCT_NAME);
                            ("version", VString product_version)] in
      if negb client_builds then mret (Unavailable "building license HTTP client")
      else
        resp ← http_post url body;
        match resp with
        | NoReply e => mret (Unavailable ("calling " +:+ url +:+ ": " +:+ e))
        | BrokenBody _ e => mret (Unavailable ("reading response: " +:+ e))
        | Reply status text =>
            if status =? 200 then
              let raw_file := unwrap_license_response text in
              r ← attempt (verify raw_file key);
              mret match r with
                   | Ok d =>
                       if bool_decide (fingerprint d = Some fp)
                       then Refreshed (mkLoaded d raw_file None)
                       else Unavailable "heartbeat response is bound to a different install"
                   | Err e => Unavailable ("heartbeat response rejected: " +:+ e)
                   end
            else if (status =? 402) || (status =? 403) then
              mret (Denied status (extract_error_message text))
            else mret (Unavailable ("license server returned " +:+ status_display status
                                    +:+ ": " +:+ text))
        end
  end.

Definition reload_store_if_changed : io unit :=
  let path := store_path in
  st ← file_stamp path;
  match st with
  | None => mret tt
  | Some stmp =>
      current ← snapshot;
      if bool_decide (store_stamp current = Some stmp) then mret tt
      else
        w ← st_get;
        let fp := process_fingerprint w in
        key ← attempt (F:=string) load_public_key;
        match key with
        | Err _ => mret tt
        | Ok key =>
            r ← attempt (F:=string) (load_and_verify_path path key fp);
            match r with
            | Ok l =>
                t ← now;
                if should_adopt current (l_doc l) fp t then with_state (activate l)
                else with_state (set_stamp stmp)
            | Err _ => with_state (set_stamp stmp)
            end
        end
  end.

Definition unconfigured_message : string :=
  "license requires heartbeat but LICENSE_SERVER_URL/LICENSE_SERVER_TOKEN are unset".

(** The part of [heartbeat_tick] that applies an outcome. *)
Definition apply_outcome (o : HeartbeatOutcome) : io unit :=
  match o with
  | Refreshed l =>
      r ← attempt (F:=string) (persist_license (l_raw l));
      with_state (set_refreshed l match r with Ok s => s | Err _ => None end)
  | Denied status reason =>
      with_state (set_revoked (show_Z status +:+ ": " +:+ reason) reason)
  | Unavailable err => with_state (set_hb_error err)
  end.

Definition heartbeat_attempt (raw : string) (t : Z) : io unit :=
  _ ← with_state (set_attempt t);
  match from_env with
  | None => with_state (set_hb_error unconfigured_message)
  | Some server =>
      key ← attempt (F:=string) load_public_key;
      match key with
      | Err _ => mret tt
      | Ok key =>
          w ← st_get;
          o ← heartbeat_once server (process_fingerprint w) raw key;
          apply_outcome o
      end
  end.

Definition heartbeat_tick : io unit :=
  _ ← reload_store_if_changed;
  state ← snapshot;
  t ← now;
  if negb (heartbeat_due (heartbeat_interval (env "LICENSE_HEARTBEAT_INTERVAL_SECS")) state t)
  then mret tt
  else match raw state, doc state with
       | Some r, Some _ => heartbeat_attempt r t
       | _, _ => mret tt
       end.

(** The hint of a refusal. *)
Definition license_hint (p : option LicenseProblem) : string :=
  match p with
  | Some HeartbeatGraceExpired =>
      "The license could not be re-attested with the license server for more than 72 hours. Restore connectivity to LICENSE_SERVER_URL or mount a commercial LICENSE_FILE."
  | Some Revoked =>
      "The license server revoked this license. Contact the vendor or mount a new LICENSE_FILE."
  | Some Expired => "The license has expired. Mount a renewed commercial LICENSE_FILE."
  | _ => "A valid license is required. Start a trial from Settings " +:+ utf8 [226; 134; 146]%N
       +:+ " License or mount a commercial LICENSE_FILE."
  end.

Definition require_licensed (w : Proc) (t : Z) : ApiResult unit :=
  if negb (enforce_enabled w) then Ok tt
  else
    let problem := problem_for (p_state w) (process_fingerprint w) t in
    if is_some (doc (p_state w)) && negb (is_some problem) then Ok tt
    else
      let reason := match problem with Some p => problem_as_str p | None => "missing" end in
      Err (LicenseRequired (license_hint problem +:+ " (reason: " +:+ reason +:+ ")")).
End Process.

(** ** Lemmas *)

(** A computation is quiet when it changes neither the license state, nor the
    process globals, nor the exchange with the server. *)
Definition quiet (w w' : Proc) : Prop :=
  p_state w' = p_state w ∧ p_enforce w' = p_enforce w ∧ p_fp w' = p_fp w ∧
  p_replies w' = p_replies w ∧ p_sent w' = p_sent w ∧ (p_clock w ≤ p_clock w')%nat.

Lemma quiet_refl w : quiet w w.
Proof. done. Qed.

Lemma quiet_trans w1 w2 w3 : quiet w1 w2 → quiet w2 w3 → quiet w1 w3.
Proof.
  intros (?&?&?&?&?&?) (?&?&?&?&?&?). unfold quiet. split_and!; try congruence. lia.
Qed.

(** A stable computation may talk to the server. *)
Definition stable (w w' : Proc) : Prop :=
  p_state w' = p_state w ∧ p_enforce w' = p_enforce w ∧ p_fp w' = p_fp w.

Lemma quiet_stable w w' : quiet w w' → stable w w'.
Proof. by intros (?&?&?&_). Qed.

Lemma stable_trans w1 w2 w3 : stable w1 w2 → stable w2 w3 → stable w1 w3.
Proof. intros (?&?&?) (?&?&?). unfold stable. split_and!; congruence. Qed.

Create HintDb license.
#[export] Hint Resolve quiet_refl quiet_trans quiet_stable stable_trans : license.

Section ProcessLemmas.
Context `{JsonText} `{Rfc3339} `{Crypto}.
Context (env : string → option string) (embedded_pem : string) (clock : nat → Z)
      (client_builds : bool) (writable : string → bool)
      (product_version pid : string)
      (status_display : Z → string) (json_error : string → string).

Lemma read_to_string_quiet path err w :
  wp (read_to_string path err) (λ _ w', w' = w) w.
Proof. unfold read_to_string. by wp_steps. Qed.

Lemma now_quiet w : wp (now clock) (λ r w', r = Ok (clock (p_clock w)) ∧ quiet w w' ∧
  (p_clock w < p_clock w')%nat) w.
Proof. unfold wp, quiet; cbn. split_and!; try done; lia. Qed.

Lemma verify_spec raw key w :
  wp (verify clock raw key) (λ r w', quiet w w' ∧ (p_clock w < p_clock w')%nat ∧
    r = verify_license (clock (p_clock w)) raw key) w.
Proof.
  unfold verify. wp_step. eapply wp_mono; [apply now_quiet|]. cbn.
  intros r w' (-> & Hq & Hlt). wp_steps. done.
Qed.

Lemma load_public_key_quiet w : wp (load_public_key env embedded_pem) (λ _ w', w' = w) w.
Proof.
  unfold load_public_key. wp_step. destruct (non_empty_var _ _).
  - eapply wp_mono; [apply read_to_string_quiet|]. cbn. intros [?|?] ? ->; [by wp_steps|done].
  - by wp_steps.
Qed.

Lemma file_stamp_quiet path w :
  wp (file_stamp path) (λ r w', w' = w ∧
    r = Ok ((λ f : file, (f.1, str_len f.2)) <$> p_files w !! path)) w.
Proof. unfold file_stamp. by wp_steps. Qed.

Lemma load_and_verify_path_spec path key fp w :
  wp (load_and_verify_path env clock path key fp)
     (λ r w', quiet w w' ∧ ∀ l, r = Ok l →
        (p_clock w < p_clock w')%nat ∧
        verify_license (clock (p_clock w)) (l_raw l) key = Ok (l_doc l) ∧
        ∀ b, fingerprint (l_doc l) = Some b → b = fp) w.
Proof.
  unfold load_and_verify_path. wp_step. eapply wp_mono; [apply read_to_string_quiet|].
  intros [raw|e] ? ->; [|split; [done|by intros ? [=]]]. cbv beta iota.
  wp_step. eapply wp_mono; [apply verify_spec|].
  intros [d|e] w1 (Hq & Hlt & Hv); [|split; [done|by intros ? [=]]]. cbv beta iota.
  wp_step. destruct (fingerprint d) as [b|] eqn:Hfp.
  - wp_step; [split; [done|by intros ? [=]]|]. bool_prop. subst b.
    wp_step. destruct (path =? _)%string; wp_steps.
    all: split; [done|]; intros l [= <-]; cbn; split_and!; [done|done|].
    all: intros b Hb; congruence.
  - wp_steps. destruct (path =? _)%string; wp_steps.
    all: split; [done|]; intros l [= <-]; cbn; split_and!; [done|done|].
    all: intros b Hb; congruence.
Qed.

(** The key that verifies licenses, when no rotation key is configured. *)
Context (key : pubkey) (Hkey : public_from_pem embedded_pem = Some key)
      (Hrot : non_empty_var env "LICENSE_PUBLIC_KEY_PATH" = None).

(** A document verified with the vendor's key, for this installation. *)
Definition genuine (fp : string) (d : LicenseDoc) (raw_text : string) : Prop :=
  ∃ t, verify_license t raw_text key = Ok d ∧ ∀ b, fingerprint d = Some b → b = fp.

Lemma load_public_key_spec w :
  wp (load_public_key env embedded_pem) (λ r w', w' = w ∧ r = Ok key) w.
Proof. unfold load_public_key. rewrite Hrot. wp_steps. by rewrite Hkey. Qed.

Lemma first_valid_spec fp paths w :
  wp (first_valid env clock key fp paths)
     (λ r w', quiet w w' ∧ ∀ l, r = Ok (Some l) → genuine fp (l_doc l) (l_raw l)) w.
Proof.
  revert w. induction paths as [|path rest IH]; intros w; cbn [first_valid].
  { wp_steps. split; [done|]. by intros ? [=]. }
  wp_steps. eapply wp_mono; [apply load_and_verify_path_spec|]. cbv beta.
  intros [l|e] w' (Hq & Hl); cbv beta iota.
  - wp_steps. split; [done|]. intros l' [= <-]. destruct (Hl l eq_refl) as (_ & ? & ?).
    eexists. by split.
  - eapply wp_mono; [apply IH|]. intros r w'' (Hq' & Hr). split; [by eapply quiet_trans|done].
Qed.

Lemma try_load_local_spec fp w :
  wp (try_load_local env embedded_pem clock fp)
     (λ r w', quiet w w' ∧ ∀ l, r = Ok (Some l) → genuine fp (l_doc l) (l_raw l)) w.
Proof.
  unfold try_load_local. wp_steps. eapply wp_mono; [apply load_public_key_spec|].
  intros ? ? [-> ->]. cbv beta iota. apply first_valid_spec.
Qed.

Lemma write_file_quiet path text err w :
  wp (write_file clock writable path text err) (λ _ w', quiet w w') w.
Proof.
  unfold write_file. destruct (writable path); [|by wp_steps]. wp_steps.
  eapply wp_mono; [apply now_quiet|]. intros ? w1 (-> & Hq & _). wp_steps. exact Hq.
Qed.

Lemma rename_file_quiet from to err w :
  wp (rename_file writable from to err) (λ _ w', quiet w w') w.
Proof.
  unfold rename_file. wp_steps. destruct (p_files w !! from); [|by wp_steps].
  destruct (writable to); by wp_steps.
Qed.

Lemma persist_license_quiet raw w :
  wp (persist_license env clock writable pid raw) (λ _ w', quiet w w') w.
Proof.
  unfold persist_license. wp_steps; [done|].
  eapply wp_mono; [apply write_file_quiet|]. intros [] w1 Hq1; [|done]. cbv beta iota. wp_step.
  eapply wp_mono; [apply rename_file_quiet|]. intros [] w2 Hq2; [|by eapply quiet_trans].
  cbv beta iota. eapply wp_mono; [apply file_stamp_quiet|]. intros ? ? [-> _].
  by eapply quiet_trans.
Qed.

Lemma http_post_stable url body w :
  wp (http_post url body) (λ r w', stable w w' ∧ p_clock w' = p_clock w ∧
     p_sent w' = p_sent w ++ [(url, body)] ∧
     r = Ok match p_replies w with [] => NoReply EmptyString | x :: _ => x end) w.
Proof.
  unfold wp, http_post, stable. by destruct (p_replies w); cbn.
Qed.

Lemma activate_trial_bound fp email w :
  wp (activate_trial_phone_home env embedded_pem clock client_builds writable product_version
        pid status_display fp email)
     (λ r w', stable w w' ∧ ∀ l, r = Ok l → genuine fp (l_doc l) (l_raw l) ∧
        kind (l_doc l) = Trial ∧ fingerprint (l_doc l) = Some fp) w.
Proof.
  assert (∀ w w' (e : string), stable w w' → stable w w' ∧
            ∀ l, @Err string LoadedLicense e = Ok l → genuine fp (l_doc l) (l_raw l) ∧
              kind (l_doc l) = Trial ∧ fingerprint (l_doc l) = Some fp) as Herr.
  { intros ????. split; [done|]. by intros ? [=]. }
  unfold activate_trial_phone_home. wp_steps.
  destruct (validate_trial_email email) as [em|]; [|by apply Herr]. wp_steps.
  destruct (from_env env) as [server|]; cbn [ok_or]; [|by apply Herr].
  wp_steps; [by apply Herr|]. eapply wp_mono; [apply http_post_stable|]. cbv beta.
  intros ? w1 (Hs & _ & _ & ->). destruct (p_replies w) as [|[e|st e|st text] rest]; cbv iota;
    wp_steps; try by apply Herr.
  eapply wp_mono; [apply load_public_key_spec|]. intros ? ? [-> ->]. cbv beta iota.
  wp_steps. eapply wp_mono; [apply verify_spec|]. cbv beta. intros [d|e] w2 (Hq & _ & Hv);
    cbv beta iota; [|apply Herr; eauto with license].
  wp_steps; [apply Herr; eauto with license..|].
  eapply wp_mono; [apply persist_license_quiet|]. cbv beta. intros [stm|e] w3 Hq3;
    cbv beta iota; wp_steps; [|apply Herr; eauto with license].
  split; [eauto with license|]. intros l [= <-]. cbn. bool_prop. split; [|done]. eexists. split; [done|].
  intros b Hb. congruence.
Qed.

Lemma activate_trial_spec fp email w :
  wp (activate_trial_phone_home env embedded_pem clock client_builds writable product_version
        pid status_display fp email)
     (λ r w', stable w w' ∧ ∀ l, r = Ok l → genuine fp (l_doc l) (l_raw l)) w.
Proof.
  eapply wp_mono; [apply activate_trial_bound|]. cbv beta. intros r w' [Hs Hl]. split; [done|].
  intros l Hr. by apply Hl.
Qed.

Lemma heartbeat_once_spec server fp raw_text w :
  wp (heartbeat_once clock client_builds product_version status_display json_error
        server fp raw_text key)
     (λ r w', stable w w' ∧ (p_clock w ≤ p_clock w')%nat ∧ ∃ o, r = Ok o ∧
        match o with
        | Refreshed l => genuine fp (l_doc l) (l_raw l) ∧
            ∃ text, head (p_replies w) = Some (Reply 200 text)
        | Denied st reason => (st = 402 ∨ st = 403) ∧
            ∃ text, head (p_replies w) = Some (Reply st text) ∧
                    reason = extract_error_message text ∧
                    ∃ body, p_sent w' = p_sent w ++ [(base_url server +:+ "/v1/heartbeat", body)]
        | Unavailable _ => True
        end) w.
Proof.
  unfold heartbeat_once. destruct (from_json_str raw_text) as [v|];
    [|by wp_steps; split_and!; [..|eexists]].
  cbv zeta. destruct (negb client_builds); [by wp_steps; split_and!; [..|eexists]|].
  wp_step. eapply wp_mono; [apply http_post_stable|]. cbv beta.
  intros ? w1 (Hs & Hc & Hsent & ->). cbv iota.
  destruct (p_replies w) as [|[e|st e|st text] rest];
    [by wp_steps; split_and!; [done|lia|eexists]..|].
  destruct (st =? 200) eqn:H200; bool_prop.
  - wp_steps. eapply wp_mono; [apply verify_spec|]. cbv beta. intros r w2 (Hq & Hlt & Hv).
    cbv beta iota. wp_steps. split; [eauto with license|]. split; [lia|].
    destruct r as [d|e]; [|by eexists]. case_bool_decide; [|by eexists].
    eexists; split; [reflexivity|]. cbn. split; [|subst st; eauto].
    eexists. split; [done|]. intros b Hb. congruence.
  - destruct ((st =? 402) || (st =? 403)) eqn:Hd; wp_steps; (split; [done|]); (split; [lia|]);
      [|by eexists]. bool_prop. eexists; split; [reflexivity|]. cbn. split; [lia|]. eauto 10.
Qed.

(** What a reload may do to the license state. *)
Definition same_license (s s' : LicenseState) : Prop :=
  doc s' = doc s ∧ raw s' = raw s ∧ revoked_reason s' = revoked_reason s.

Definition adopted (w w' : Proc) : Prop :=
  ∃ l n, p_state w' = activate l (p_state w) ∧ genuine (process_fingerprint w) (l_doc l) (l_raw l) ∧
    (p_clock w ≤ n < p_clock w')%nat ∧
    should_adopt (p_state w) (l_doc l) (process_fingerprint w) (clock n) = true.

Definition store_unchanged (w : Proc) : Prop :=
  ∀ f, p_files w !! store_path env = Some f →
       store_stamp (p_state w) = Some (f.1, str_len f.2).

Lemma reload_spec w :
  wp (reload_store_if_changed env embedded_pem clock)
     (λ r w', r = Ok tt ∧ p_enforce w' = p_enforce w ∧ p_fp w' = p_fp w ∧
        p_replies w' = p_replies w ∧ p_sent w' = p_sent w ∧ (p_clock w ≤ p_clock w')%nat ∧
        (same_license (p_state w) (p_state w') ∨ adopted w w') ∧
        (store_unchanged w → w' = w)) w.
Proof.
  unfold reload_store_if_changed, snapshot, with_state. wp_step.
  eapply wp_mono; [apply file_stamp_quiet|]. intros ? ? [-> ->]. cbv iota.
  destruct (p_files w !! store_path env) as [f|] eqn:Hf; cbn [fmap option_fmap option_map];
    [|wp_steps; split_and!; try done; by left].
  wp_steps. case_bool_decide as Hst; [wp_steps; split_and!; try done; by left|].
  assert (¬ store_unchanged w) as Hch by (intros Hu; apply Hst, (Hu f Hf)).
  wp_steps. eapply wp_mono; [apply load_public_key_spec|]. intros ? ? [-> ->]. cbv iota.
  wp_steps. eapply wp_mono; [apply load_and_verify_path_spec|]. cbv beta.
  intros r w1 ((Hs & He & Hfp & Hr & Hsent & Hc) & Hl).
  destruct r as [l|e]; cbv iota; wp_steps.
  - eapply wp_mono; [apply now_quiet|]. cbv beta.
    intros ? w2 (-> & (Hs2 & He2 & Hfp2 & Hr2 & Hsent2 & Hc2) & Hlt).
    destruct (Hl l eq_refl) as (_ & Hv & Hb).
    destruct (should_adopt _ _ _ _) eqn:Ha; wp_steps; cbn;
      (split_and!; [done|congruence..|lia| |done]).
    + right. exists l, (p_clock w1). cbn. split_and!; [congruence| |lia|lia|done].
      eexists. by split.
    + left. rewrite Hs2, Hs. done.
  - cbn. split_and!; try done. left. by rewrite Hs.
Qed.

(** What the exchange with the server may do to the license state. *)
Lemma heartbeat_attempt_spec raw_text t w :
  wp (heartbeat_attempt env embedded_pem clock client_builds writable product_version pid
        status_display json_error raw_text t)
     (λ r w', p_enforce w' = p_enforce w ∧ p_fp w' = p_fp w ∧
        (same_license (p_state w) (p_state w') ∨
         (∃ l text, doc (p_state w') = Some (l_doc l) ∧ raw (p_state w') = Some (l_raw l) ∧
           revoked_reason (p_state w') = None ∧
           genuine (process_fingerprint w) (l_doc l) (l_raw l) ∧
           head (p_replies w) = Some (Reply 200 text)) ∨
         (∃ server st text body,
           from_env env = Some server ∧ (st = 402 ∨ st = 403) ∧
           head (p_replies w) = Some (Reply st text) ∧
           p_sent w' = p_sent w ++ [(base_url server +:+ "/v1/heartbeat", body)] ∧
           doc (p_state w') = doc (p_state w) ∧ raw (p_state w') = raw (p_state w) ∧
           revoked_reason (p_state w')
           = Some (show_Z st +:+ ": " +:+ extract_error_message text)))) w.
Proof.
  unfold heartbeat_attempt, with_state. wp_steps. set (w0 := mkProc _ _ _ _ _ _ _).
  destruct (from_env env) as [server|] eqn:Hserver; [|by wp_steps; cbn; split_and!; [..|left]].
  wp_steps. eapply wp_mono; [apply load_public_key_spec|]. intros ? ? [-> ->]. cbv iota.
  wp_steps. eapply wp_mono; [apply heartbeat_once_spec|]. cbv beta.
  intros ? w1 ((Hs & He & Hfp) & _ & o & -> & Ho). cbv iota.
  destruct o as [l|st reason|e]; unfold apply_outcome, with_state; wp_steps.
  - destruct Ho as (Hg & text & Hh). eapply wp_mono; [apply persist_license_quiet|].
    cbv beta. intros r w2 (Hs2 & He2 & Hfp2 & _). cbv iota. wp_steps. cbn.
    split_and!; [by rewrite He2, He|by rewrite Hfp2, Hfp|]. right; left. by exists l, text.
  - destruct Ho as (Hst & text & Hh & -> & body & Hsent). cbn.
    split_and!; [done..|]. right; right. exists server, st, text, body. by rewrite Hs.
  - cbn. split_and!; [done..|]. left. by rewrite Hs.
Qed.

Local Abbreviation tick :=
  (heartbeat_tick env embedded_pem clock client_builds writable product_version pid
     status_display json_error).
Local Abbreviation trial :=
  (start_trial env embedded_pem clock client_builds writable product_version pid status_display).
Local Abbreviation startup :=
  (enforce_at_startup env embedded_pem clock client_builds writable product_version pid
     status_display).

(** Everything a process does between two requests, with the files and the
    server's replies changing arbitrarily in between. *)
Inductive process : Proc → Prop :=
  | process_boot w install_fp :
      p_state w = default_state → p_fp w = None → process (startup install_fp w).2
  | process_tick w : process w → process (tick w).2
  | process_trial email w : process w → process (trial email w).2
  | process_outside w files n replies : process w →
      process (mkProc (p_state w) (p_enforce w) (p_fp w) files (p_clock w + n) replies (p_sent w)).

Definition licenses_genuine (w : Proc) : Prop :=
  ∀ d, doc (p_state w) = Some d →
    ∃ r, raw (p_state w) = Some r ∧ genuine (process_fingerprint w) d r.

Lemma same_license_genuine w w' :
  licenses_genuine w → same_license (p_state w) (p_state w') → p_fp w' = p_fp w →
  licenses_genuine w'.
Proof.
  intros Hg (Hd & Hr & _) Hfp d Hd'. unfold process_fingerprint. rewrite Hfp.
  rewrite Hr. apply Hg. congruence.
Qed.

Lemma new_license_genuine w w' l :
  genuine (process_fingerprint w) (l_doc l) (l_raw l) → p_fp w' = p_fp w →
  doc (p_state w') = Some (l_doc l) → raw (p_state w') = Some (l_raw l) → licenses_genuine w'.
Proof.
  intros Hg Hfp Hd Hr d Hd'. exists (l_raw l). split; [done|].
  unfold process_fingerprint in *. rewrite Hfp. congruence.
Qed.

Lemma startup_genuine w install_fp :
  p_state w = default_state → p_fp w = None → licenses_genuine (startup install_fp w).2.
Proof.
  intros Hs Hfp. change (wp (startup install_fp) (λ _ w', licenses_genuine w') w).
  assert (∀ w', p_state w' = default_state → licenses_genuine w') as Hnone.
  { intros w' Hw' d. by rewrite Hw'. }
  unfold enforce_at_startup, set_enforce, set_fingerprint, with_state. wp_steps.
  destruct install_fp as [fp|e]; [|by apply Hnone].
  cbn [map_err]. cbv iota. wp_steps. cbn [p_fp]. rewrite Hfp. cbn [set_once].
  eapply wp_mono; [apply try_load_local_spec|]. cbv beta.
  intros [[l|]|e] w1 ((Hs1 & _ & Hf1 & _) & Hl); cbv iota; cbn in Hs1, Hf1;
    [wp_steps|..|by apply Hnone; rewrite Hs1].
  - specialize (Hl l eq_refl). intros d [= <-]. cbn. exists (l_raw l). split; [done|].
    unfold process_fingerprint. cbn. by rewrite Hf1.
  - assert (licenses_genuine w1) as Hg1 by (apply Hnone; by rewrite Hs1).
    destruct (env_flag _); [|by wp_steps]. destruct (non_blank_var _ _) as [email|]; [|by wp_steps].
    wp_steps. eapply wp_mono; [apply activate_trial_spec|]. cbv beta.
    intros [l|e] w2 ((Hs2 & _ & Hf2) & Hl2); cbv iota; wp_steps.
    + specialize (Hl2 l eq_refl). intros d [= <-]. cbn. exists (l_raw l). split; [done|].
      unfold process_fingerprint. cbn. by rewrite Hf2, Hf1.
    + apply Hnone. by rewrite Hs2, Hs1.
Qed.

Lemma trial_genuine w email : licenses_genuine w → licenses_genuine (trial email w).2.
Proof.
  intros Hg. change (wp (trial email) (λ _ w', licenses_genuine w') w).
  unfold start_trial, with_state. wp_steps; [done|].
  eapply wp_mono; [apply activate_trial_spec|]. cbv beta.
  intros [l|e] w2 ((Hs2 & _ & Hf2) & Hl2); cbv iota; wp_steps.
  - eapply (new_license_genuine w _ l); [by apply Hl2|done..].
  - eapply same_license_genuine; [done| |done]. by rewrite Hs2.
Qed.

Lemma tick_genuine w : licenses_genuine w → licenses_genuine (tick w).2.
Proof.
  intros Hg. change (wp tick (λ _ w', licenses_genuine w') w).
  unfold heartbeat_tick, snapshot. wp_step. eapply wp_mono; [apply reload_spec|]. cbv beta.
  intros ? w1 (-> & _ & Hfp & _ & _ & _ & Hcase & _). cbv iota.
  assert (licenses_genuine w1) as Hg1.
  { destruct Hcase as [Hsame|(l & n & Hst & Hgl & _ & _)].
    - by eapply same_license_genuine.
    - eapply (new_license_genuine w _ l); [done|done|by rewrite Hst..]. }
  wp_steps. eapply wp_mono; [apply now_quiet|]. cbv beta.
  intros ? w2 (-> & (Hs2 & _ & Hf2 & _) & _). cbv iota.
  assert (licenses_genuine w2) as Hg2.
  { eapply same_license_genuine; [exact Hg1| |done]. by rewrite Hs2. }
  destruct (negb _); [by wp_steps|].
  destruct (raw (p_state w1)) as [rt|]; [|by wp_steps]. destruct (doc (p_state w1)) as [dt|]; [|by wp_steps].
  eapply wp_mono; [apply heartbeat_attempt_spec|]. cbv beta.
  intros ? w3 (_ & Hf3 & [Hsame|[(l & text & Hd & Hr & _ & Hgl & _)|Hden]]).
  - by eapply same_license_genuine.
  - by eapply (new_license_genuine w2 _ l).
  - destruct Hden as (? & ? & ? & ? & _ & _ & _ & _ & Hd & Hr & _).
    intros d' Hd'. rewrite Hr. unfold process_fingerprint. rewrite Hf3. apply Hg2. congruence.
Qed.

Lemma process_genuine w : process w → licenses_genuine w.
Proof.
  induction 1; [by apply startup_genuine|by apply tick_genuine|by apply trial_genuine|done].
Qed.

(** Only the license server revokes: a tick that leaves the process
    revoked found it revoked, or the configured server answered the
    heartbeat with 402 or 403, in which case the reason is the server's.
    No transport failure, other status or unreadable reply denies. *)
Theorem only_the_server_revokes w reason :
  revoked_reason (p_state (tick w).2) = Some reason →
  revoked_reason (p_state w) = Some reason ∨
  ∃ server st text body,
    from_env env = Some server ∧ (st = 402 ∨ st = 403) ∧
    head (p_replies w) = Some (Reply st text) ∧
    p_sent (tick w).2 = p_sent w ++ [(base_url server +:+ "/v1/heartbeat", body)] ∧
    reason = show_Z st +:+ ": " +:+ extract_error_message text.
Proof.
  set (Q := λ (_ : result string unit) w', revoked_reason (p_state w') = Some reason →
    revoked_reason (p_state w) = Some reason ∨
    ∃ server st text body, from_env env = Some server ∧ (st = 402 ∨ st = 403) ∧
      head (p_replies w) = Some (Reply st text) ∧
      p_sent w' = p_sent w ++ [(base_url server +:+ "/v1/heartbeat", body)] ∧
      reason = show_Z st +:+ ": " +:+ extract_error_message text).
  change (wp tick Q w). unfold heartbeat_tick, snapshot. wp_step.
  eapply wp_mono; [apply reload_spec|]. cbv beta.
  intros ? w1 (-> & _ & _ & Hrep & Hsent & _ & Hcase & _). cbv iota.
  assert (revoked_reason (p_state w1) = Some reason → revoked_reason (p_state w) = Some reason) as Hrv.
  { destruct Hcase as [(_ & _ & ->)|(l & n & -> & _)]; [done|]. cbn. by intros [=]. }
  wp_steps. eapply wp_mono; [apply now_quiet|]. cbv beta.
  intros ? w2 (-> & (Hs2 & _ & _ & Hr2 & Hsent2 & _) & _). cbv iota.
  assert (Q (Ok tt) w2) as Hskip by (unfold Q; rewrite Hs2; auto).
  destruct (negb _); [by wp_steps|].
  destruct (raw (p_state w1)) as [rt|]; [|by wp_steps]. destruct (doc (p_state w1)) as [dt|]; [|by wp_steps].
  eapply wp_mono; [apply heartbeat_attempt_spec|]. cbv beta. unfold Q.
  intros ? w3 (_ & _ & [(_ & _ & ->)|[(l & text & _ & _ & -> & _)|Hden]]); [|by intros [=]|].
  { rewrite Hs2. intros Hr. left. by apply Hrv. }
  destruct Hden as (sv & st & text & body & Hsv & Hst & Hh & Hse & _ & _ & ->).
  intros [= <-]. right. exists sv, st, text, body. rewrite Hse, Hsent2, Hsent.
  rewrite Hr2, Hrep in Hh. done.
Qed.

(** The replies that say nothing about the license. *)
Definition unreachable (replies : list http_reply) : Prop :=
  ∀ st text, head replies = Some (Reply st text) → st ≠ 200 ∧ st ≠ 402 ∧ st ≠ 403.

Lemma tick_cases w :
  wp tick (λ _ w', p_fp w' = p_fp w ∧
    ∃ w1, (same_license (p_state w) (p_state w1) ∨ adopted w w1) ∧
      (store_unchanged w → w1 = w) ∧ p_sent w1 = p_sent w ∧
      (unreachable (p_replies w) → same_license (p_state w1) (p_state w')) ∧
      (heartbeat_due (heartbeat_interval (env "LICENSE_HEARTBEAT_INTERVAL_SECS"))
         (p_state w1) (clock (p_clock w1)) = false →
       p_state w' = p_state w1 ∧ p_sent w' = p_sent w1)) w.
Proof.
  unfold heartbeat_tick, snapshot. wp_step. eapply wp_mono; [apply reload_spec|]. cbv beta.
  intros ? w1 (-> & _ & Hfp & Hrep & Hsent & _ & Hcase & Hu). cbv iota.
  wp_steps. eapply wp_mono; [apply now_quiet|]. cbv beta.
  intros ? w2 (-> & (Hs2 & _ & Hf2 & Hr2 & Hse2 & _) & _). cbv iota.
  destruct (heartbeat_due _ _ _) eqn:Hdue; cbn [negb];
    [|wp_steps; split; [congruence|]; exists w1; unfold same_license; by rewrite Hs2].
  destruct (raw (p_state w1)) as [rt|];
    [|wp_steps; split; [congruence|]; exists w1; unfold same_license; by rewrite Hs2].
  destruct (doc (p_state w1)) as [dt|];
    [|wp_steps; split; [congruence|]; exists w1; unfold same_license; by rewrite Hs2].
  eapply wp_mono; [apply heartbeat_attempt_spec|]. cbv beta.
  intros ? w3 (_ & Hf3 & Hout). split; [congruence|]. exists w1. split_and!; [done..| |congruence].
  intros Hun. rewrite <- Hs2. rewrite Hr2, Hrep in Hout.
  destruct Hout as [?|[(? & ? & _ & _ & _ & _ & Hh)|(? & ? & ? & ? & _ & Hst & Hh & _)]]; [done|..];
    apply Hun in Hh; lia.
Qed.

(** Network failures never deny.  After a tick whose exchange got no
    authoritative reply (no answer, an unreadable one, any status other than
    200, 402 and 403), the license is the one before the tick, or one adopted
    from the store that was usable when it was adopted; with an unchanged
    store a licensed process stays licensed for as long as it would have been
    without the tick. *)
Theorem unreachable_server_never_denies w :
  unreachable (p_replies w) →
  let w' := (tick w).2 in
  (same_license (p_state w) (p_state w') ∨
   ∃ l n, doc (p_state w') = Some (l_doc l) ∧ revoked_reason (p_state w') = None ∧
     genuine (process_fingerprint w) (l_doc l) (l_raw l) ∧
     (doc (p_state w) = None ∨ validity (l_doc l) (process_fingerprint w) (clock n) = Ok tt)) ∧
  (store_unchanged w → ∀ t,
     is_licensed (p_state w') (process_fingerprint w') t
     = is_licensed (p_state w) (process_fingerprint w) t).
Proof.
  intros Hun w'. pose proof (tick_cases w) as Ht. unfold wp in Ht. fold w' in Ht.
  destruct Ht as (Hfp & w1 & Hcase & Hu & _ & Hsame & _).
  specialize (Hsame Hun). split.
  - destruct Hcase as [(Hd & Hr & Hrr)|(l & n & Hst & Hg & _ & Hsa)].
    + left. destruct Hsame as (Hd' & Hr' & Hrr'). unfold same_license. split_and!; congruence.
    + right. exists l, n. destruct Hsame as (Hd' & _ & Hrr'). rewrite Hd', Hrr', Hst.
      split_and!; [done..|]. destruct (doc (p_state w)) as [cur|] eqn:Hd; [right|by left].
      by eapply should_adopt_valid.
  - intros Hst t. rewrite (Hu Hst) in Hsame. destruct Hsame as (Hd' & _ & Hrr').
    unfold is_licensed, problem_for, process_fingerprint. by rewrite Hd', Hrr', Hfp.
Qed.

(** After a failed or refused attempt nothing is sent for an hour: while
    the store is unchanged, a tick whose clock reads less than
    [HEARTBEAT_RETRY] after the last attempt sends no request and changes
    nothing, for every license whose [issued_at] is known and for every
    revoked one. *)
Theorem retry_backs_off w d last :
  doc (p_state w) = Some d → last_heartbeat_attempt (p_state w) = Some last →
  revoked_reason (p_state w) ≠ None ∨
    issued_at d ≠ None ∧ last_heartbeat_error (p_state w) ≠ None →
  store_unchanged w → clock (p_clock w) < last + HEARTBEAT_RETRY →
  p_state (tick w).2 = p_state w ∧ p_sent (tick w).2 = p_sent w.
Proof.
  intros Hd Hl Hcase Hu Hc. pose proof (tick_cases w) as Ht. unfold wp in Ht.
  destruct Ht as (_ & w1 & _ & Hw1 & _ & _ & Hdue). rewrite (Hw1 Hu) in Hdue. apply Hdue.
  unfold heartbeat_due. rewrite Hd, Hl.
  assert ((HEARTBEAT_RETRY <=? clock (p_clock w) - last) = false) as -> by (apply Z.leb_gt; lia).
  destruct (requires_heartbeat d); [|done]. cbn [negb].
  destruct (revoked_reason (p_state w)); [done|]. cbn [is_some].
  destruct Hcase as [?|[Hi He]]; [done|].
  destruct (issued_at d); [|done]. destruct (last_heartbeat_error (p_state w)); [|done].
  by destruct (_ <=? _).
Qed.
End ProcessLemmas.

Section Gate.
Context `{JsonText} `{Rfc3339} `{Crypto}.
Context (env : string → option string) (embedded_pem : string) (clock : nat → Z)
      (client_builds : bool) (writable : string → bool)
      (product_version pid : string)
      (status_display : Z → string) (json_error : string → string).

(** C4: when the operator has not replaced the vendor's key (the override
    LICENSE_PUBLIC_KEY_PATH, which docs/install.md keeps for a rotation, is
    unset or empty) and the embedded key parses: under enforcement, in every
    state a process can reach (any order of start-up, heartbeats and trial
    activations, any files and any server replies), the gate lets work through
    only under a license that the embedded vendor's key signed, that is bound to
    this installation or to none, has not expired, is inside its offline grace
    when it needs heartbeats, and is not revoked.  With the override set, the
    key of that file takes the vendor's place and nothing is claimed. *)
Theorem gate_sound key w t :
  non_empty_var env "LICENSE_PUBLIC_KEY_PATH" = None → public_from_pem embedded_pem = Some key →
  process env embedded_pem clock client_builds writable product_version pid status_display json_error w →
  enforce_enabled w = true → require_licensed w t = Ok tt →
  ∃ d raw_text seen, raw (p_state w) = Some raw_text ∧
    verify_license seen raw_text key = Ok d ∧ doc (p_state w) = Some d ∧
    (∀ b, fingerprint d = Some b → b = process_fingerprint w) ∧ t < expires_at d ∧
    (requires_heartbeat d = true → ∃ i, issued_at d = Some i ∧ t ≤ i + HEARTBEAT_GRACE) ∧
    revoked_reason (p_state w) = None.
Proof.
  intros Hrot Hkey Hp He. pose proof (process_genuine _ _ _ _ _ _ _ _ _ _ Hkey Hrot w Hp) as Hg.
  unfold require_licensed. rewrite He. cbn [negb].
  destruct (doc (p_state w)) as [d|] eqn:Hd; [|done]. cbn [is_some andb].
  destruct (problem_for _ _ _) as [|] eqn:Hpr; [done|]. intros _.
  apply problem_none_iff in Hpr as [Hrev Hv]. specialize (Hv d Hd).
  apply validity_ok_iff in Hv as (Hx & _ & Hh).
  destruct (Hg d Hd) as (r & Hr & seen & Hs & Hb). by exists d, r, seen.
Qed.
End Gate.

(** ** Witnesses *)

Definition demo_env (k : string) : option string :=
  if (k =? "LICENSE_ENFORCE")%string then Some "yes"
  else if (k =? "LICENSE_FILE")%string then Some "/lic"
  else if (k =? "LICENSE_SERVER_URL")%string then Some "https://vendor.example/"
  else if (k =? "LICENSE_SERVER_TOKEN")%string then Some "secret"
  else None.
Definition demo_clock (n : nat) : Z := hours (1 + 30 * Z.of_nat n).
Definition demo_raw : string :=
  match @sign_license bits_json decimal_time shared_key sample_license "vendor" with
  | Ok r => r | Err e => e end.
Definition demo_boot (replies : list http_reply) : Proc :=
  mkProc default_state None None {["/lic" := (0, demo_raw)]} 0 replies [].
Definition demo_startup (replies : list http_reply) : Proc :=
  (@enforce_at_startup bits_json decimal_time shared_key demo_env "vendor" demo_clock true
     (λ _, true) "0.1" "1" show_Z (Ok "fp-1") (demo_boot replies)).2.
Definition demo_tick (w : Proc) : Proc :=
  (@heartbeat_tick bits_json decimal_time shared_key demo_env "vendor" demo_clock true
     (λ _, true) "0.1" "1" show_Z (λ _, EmptyString) w).2.

Lemma gate_sound_witness :
  require_licensed (demo_startup []) (hours 2) = Ok tt ∧
  ∃ d, doc (p_state (demo_startup [])) = Some d ∧ hours 2 < expires_at d.
Proof.
  assert (require_licensed (demo_startup []) (hours 2) = Ok tt) as Hok
    by (vm_compute; reflexivity).
  split; [exact Hok|].
  destruct (@gate_sound bits_json decimal_time shared_key demo_env "vendor" demo_clock true
     (λ _, true) "0.1" "1" show_Z (λ _, EmptyString) "vendor"
     (demo_startup []) (hours 2) eq_refl eq_refl) as (d & r & s & _ & _ & Hd & _ & Ht & _).
  - apply process_boot; reflexivity.
  - vm_compute; reflexivity.
  - exact Hok.
  - exists d. split; [exact Hd|exact Ht].
Defined.

Definition demo_refused : list http_reply := [Reply 403 (bits_print (json_obj [("error", VString "no")]))].

Lemma only_the_server_revokes_witness :
  revoked_reason (p_state (demo_tick (demo_startup demo_refused))) = Some "403: no" ∧
  ∃ st text, (st = 402 ∨ st = 403) ∧ head demo_refused = Some (Reply st text).
Proof.
  assert (revoked_reason (p_state (demo_tick (demo_startup demo_refused))) = Some "403: no") as Hr
    by (vm_compute; reflexivity).
  split; [exact Hr|].
  destruct (@only_the_server_revokes bits_json decimal_time shared_key demo_env "vendor" demo_clock true
     (λ _, true) "0.1" "1" show_Z (λ _, EmptyString) "vendor" eq_refl eq_refl
     (demo_startup demo_refused) "403: no" Hr) as [Hn|(sv & st & text & body & _ & Hst & Hh & _)].
  - vm_compute in Hn. discriminate Hn.
  - exists st, text. split; [exact Hst|]. vm_compute in Hh. exact Hh.
Defined.

Lemma unreachable_server_never_denies_witness :
  is_licensed (p_state (demo_tick (demo_startup [Reply 500 "oops"]))) "fp-1" (hours 40) = true.
Proof.
  destruct (@unreachable_server_never_denies bits_json decimal_time shared_key demo_env "vendor"
     demo_clock true (λ _, true) "0.1" "1" show_Z (λ _, EmptyString) "vendor" eq_refl eq_refl
     (demo_startup [Reply 500 "oops"])) as [_ Hl].
  - intros st text Hh. vm_compute in Hh. injection Hh as <- _. lia.
  - etransitivity; [apply (Hl ltac:(intros f Hf; vm_compute in Hf; discriminate Hf) (hours 40))|].
    vm_compute. reflexivity.
Defined.

Definition demo_failed : Proc :=
  let w := demo_tick (demo_startup [Reply 500 "oops"]) in
  mkProc (p_state w) (p_enforce w) (p_fp w) (p_files w) 1 [Reply 403 "x"] (p_sent w).

Lemma retry_backs_off_witness :
  last_heartbeat_attempt (p_state demo_failed) = Some (hours 31) ∧
  p_sent (demo_tick demo_failed) = p_sent demo_failed ∧ length (p_sent demo_failed) = 1%nat.
Proof.
  split_and!; [vm_compute; reflexivity| |vm_compute; reflexivity].
  apply (@retry_backs_off bits_json decimal_time shared_key demo_env "vendor"
     demo_clock true (λ _, true) "0.1" "1" show_Z (λ _, EmptyString) "vendor" eq_refl eq_refl
     demo_failed sample_license (hours 31)).
  - vm_compute; reflexivity.
  - vm_compute; reflexivity.
  - right. split; vm_compute; discriminate.
  - intros f Hf. vm_compute in Hf. discriminate Hf.
  - vm_compute. reflexivity.
Defined.
