(* ===== verification/LicenseServer.v ===== *)
(** * The license service: [apps/api/src/license_server.rs]

    Trial issuance and heartbeats over a SQLite store ([trials],
    [revocations]), the bearer check, the rate limiter, and the revocation
    commands of [bin/license_server.rs].  A handler runs under the store's
    mutex; every SQL statement may fail, as the script [s_faults] says.  The
    instants a handler reads from the clocks are its arguments. *)
From S2P Require Import Prelude RustStr Json License LicenseFile.
From Stdlib Require Import Ascii.

Definition DEFAULT_TRIAL_DAYS : Z := 10.
Definition PER_FINGERPRINT_INTERVAL : Z := seconds 5.
Definition GLOBAL_PER_SECOND : Z := 20.
Definition MIN_TOKEN_LEN : Z := 32.

Record ServerConfig : Type := mkConfig {
  signing_key_pem : string;
  activation_token : string;
  trial_days : Z;
}.

Record TrialRecord : Type := mkTrial {
  t_email : option string;
  t_started_at : string;
  t_expires_at : string;
  t_product : option string;
  t_version : option string;
  t_last_heartbeat_at : option string;
  t_heartbeat_count : Z;
  t_revoked_at : option string;
  t_revoked_reason : option string;
}.

Record Revocation : Type := mkRevocation { r_reason : option string; r_revoked_at : string }.

Record Srv : Type := mkSrv {
  trials : gmap string TrialRecord;
  revocations : gmap (string * string) Revocation;   (** by fingerprint and licensee *)
  per_fingerprint : gmap string Z;
  global_window : Z * Z;                             (** window start, requests in it *)
  s_faults : list bool;                              (** which next statements fail *)
}.

Record ServerError : Type := mkServerError { se_status : Z; se_code : string; se_message : string }.
#[global] Instance ServerError_eq_dec : EqDecision ServerError.
Proof. solve_decision. Defined.

Definition internal_error : ServerError := mkServerError 500 "internal_error" "internal error".

Definition server_error_response (e : ServerError) : Z * value :=
  (se_status e, json_obj [("error", json_obj [("code", VString (se_code e));
                                              ("message", VString (se_message e))])]).

Definition set_trials (t : gmap string TrialRecord) (s : Srv) : Srv :=
  mkSrv t (revocations s) (per_fingerprint s) (global_window s) (s_faults s).
Definition set_revocations (r : gmap (string * string) Revocation) (s : Srv) : Srv :=
  mkSrv (trials s) r (per_fingerprint s) (global_window s) (s_faults s).

(** One SQL statement: it fails with [e] when the script says so. *)
Definition stmt {E} (e : E) : stM Srv E unit := λ s,
  (match s_faults s with true :: _ => Err e | _ => Ok tt end,
   mkSrv (trials s) (revocations s) (per_fingerprint s) (global_window s) (tail (s_faults s))).

(** ** Requests and responses *)

Record TrialStart : Type := mkTrialStart {
  ts_fingerprint : string; ts_email : option string;
  ts_product : option string; ts_version : option string }.
Record HeartbeatRequest : Type := mkHeartbeatRequest {
  hr_fingerprint : string; hr_license_file : value;
  hr_product : option string; hr_version : option string }.
Record TrialResponse : Type := mkTrialResponse {
  tr_license_file : value; tr_expires_at : Z; tr_reused : bool }.
Record HeartbeatResponse : Type := mkHeartbeatResponse {
  hp_license_file : value; hp_expires_at : Z; hp_issued_at : Z }.

Definition trial_start_of_value (v : value) : option TrialStart :=
  m ← struct_fields ["fingerprint"; "email"; "product"; "version"] v;
  fp ← map_get "fingerprint" m ≫= as_str;
  em ← opt_field as_str "email" m;
  pr ← opt_field as_str "product" m;
  ve ← opt_field as_str "version" m;
  Some (mkTrialStart fp em pr ve).

Definition heartbeat_request_of_value (v : value) : option HeartbeatRequest :=
  m ← struct_fields ["fingerprint"; "license_file"; "product"; "version"] v;
  fp ← map_get "fingerprint" m ≫= as_str;
  lf ← map_get "license_file" m;
  pr ← opt_field as_str "product" m;
  ve ← opt_field as_str "version" m;
  Some (mkHeartbeatRequest fp lf pr ve).

(** ** Guards *)

(** The fold of [constant_time_eq] on the bytes' values. *)
Definition constant_time_eq (a b : string) : bool :=
  if negb (str_len a =? str_len b) then false
  else fold_left (λ acc xy, Z.lor acc (Z.lxor xy.1 xy.2))
         (zip (map byte_val (bytes a)) (map byte_val (bytes b))) 0 =? 0.

(** [header] is the Authorization header when it is present and printable. *)
Definition authorize (cfg : ServerConfig) (header : option string) : result ServerError unit :=
  let token := default EmptyString (header ≫= strip_prefix "Bearer ") in
  if constant_time_eq token (activation_token cfg) then Ok tt
  else Err (mkServerError 401 "unauthorized" "unauthorized").

Definition fingerprint_message : string :=
  "fingerprint must be 16" +:+ utf8 [226; 128; 147]%N +:+ "128 hex chars".

Definition normalize_fingerprint (raw : string) : result string string :=
  let fp := to_ascii_lowercase (trim raw) in
  if (str_len fp <? 16) || (128 <? str_len fp) || negb (all_bytes is_hexdigit fp)
  then Err fingerprint_message else Ok fp.

Definition rate_limited : ServerError := mkServerError 429 "rate_limited" "slow down".

Definition rate_limit (now : Z) (fp : string) : stM Srv ServerError unit := λ s,
  let g := if seconds 1 <=? now - (global_window s).1 then (now, 0) else global_window s in
  if GLOBAL_PER_SECOND <=? g.2 then
    (Err rate_limited, mkSrv (trials s) (revocations s) (per_fingerprint s) g (s_faults s))
  else
    let g := (g.1, g.2 + 1) in
    let limited := match per_fingerprint s !! fp with
                   | Some prev => now - prev <? PER_FINGERPRINT_INTERVAL
                   | None => false
                   end in
    if limited then
      (Err rate_limited, mkSrv (trials s) (revocations s) (per_fingerprint s) g (s_faults s))
    else
      let per := <[fp := now]> (per_fingerprint s) in
      let per := if 10000 <? Z.of_nat (size per)
                 then filter (λ kv : string * Z, now - kv.2 < seconds 300) per else per in
      (Ok tt, mkSrv (trials s) (revocations s) per g (s_faults s)).

(** [COALESCE]. *)
Definition coalesce {A} (o o' : option A) : option A := opt_or o o'.

Section Server.
Context `{JsonText} `{Rfc3339} `{Crypto}.
(** chrono's parser of [%Y-%m-%d %H:%M:%S], and which of two matching
    revocations a query with LIMIT 1 returns. *)
Context (naive_parse : string → option Z) (star_first : bool).

Definition config_validate (cfg : ServerConfig) : result string unit :=
  if str_len (activation_token cfg) <? MIN_TOKEN_LEN then
    Err "LICENSE_SERVER_TOKEN must contain at least 32 characters"
  else if negb ((1 <=? trial_days cfg) && (trial_days cfg <=? 30)) then
    Err "TRIAL_DAYS must be between 1 and 30"
  else if negb (private_pem_ok (signing_key_pem cfg)) then Err "parsing signing key"
  else Ok tt.

Definition parse_stored_ts (s : string) : option Z := opt_or (dt_parse_rfc3339 s) (naive_parse s).

(** ** Revocation commands *)

Definition revoke (now : Z) (fingerprint licensee reason : string) : stM Srv string unit :=
  fp ← lift (normalize_fingerprint fingerprint);
  let at_ := dt_rfc3339 now in
  _ ← stmt "database error";
  _ ← st_modify (λ s, set_revocations
        (<[(fp, licensee) := mkRevocation (Some reason) at_]> (revocations s)) s);
  _ ← stmt "database error";
  st_modify (λ s, set_trials (alter (λ t,
    mkTrial (t_email t) (t_started_at t) (t_expires_at t) (t_product t) (t_version t)
            (t_last_heartbeat_at t) (t_heartbeat_count t) (Some at_) (Some reason))
    fp (trials s)) s).

Definition matches_revocation (fp : string) (licensee : option string)
    (kv : string * string * Revocation) : bool :=
  (kv.1.1 =? fp)%string && match licensee with Some l => (kv.1.2 =? l)%string | None => true end.

Definition unrevoke (fingerprint : string) (licensee : option string) : stM Srv string Z :=
  fp ← lift (normalize_fingerprint fingerprint);
  _ ← stmt "database error";
  s ← st_get;
  let gone := filter (λ kv, matches_revocation fp licensee kv = true) (revocations s) in
  _ ← st_modify (set_revocations
        (filter (λ kv, matches_revocation fp licensee kv = false) (revocations s)));
  _ ← stmt "database error";
  _ ← st_modify (λ s, set_trials (alter (λ t,
    mkTrial (t_email t) (t_started_at t) (t_expires_at t) (t_product t) (t_version t)
            (t_last_heartbeat_at t) (t_heartbeat_count t) None None)
    fp (trials s)) s);
  mret (Z.of_nat (size gone)).

Context (cfg : ServerConfig).

Definition verify_key : pubkey := public_of_private (signing_key_pem cfg).

Definition sign (d : LicenseDoc) : result ServerError value :=
  match sign_license d (signing_key_pem cfg) with
  | Ok signed => ok_or (from_json_str signed) internal_error
  | Err _ => Err internal_error
  end.

(** ** POST /v1/trial/start: [inst] is the monotonic clock, [now] the wall clock *)

Definition trial_request (header : option string) (req : TrialStart)
    : result ServerError (string * string) :=
  _ ← authorize cfg header;
  fp ← map_err (mkServerError 400 "bad_request") (normalize_fingerprint (ts_fingerprint req));
  email ← match opt_filter (λ e, negb (is_empty e)) (trim <$> ts_email req) with
          | Some e => map_err (mkServerError 400 "invalid_email") (validate_trial_email e)
          | None => Err (mkServerError 400 "email_required"
                           "a contact email is required to start a trial")
          end;
  Ok (fp, email).

Definition new_trial (now expires : Z) (email : string) (req : TrialStart) : TrialRecord :=
  mkTrial (Some email) (dt_rfc3339 now) (dt_rfc3339 expires)
    (Some (default "migration-platform" (ts_product req)))
    (Some (default EmptyString (ts_version req)))
    (Some (dt_rfc3339 now)) 0 None None.

Definition days (n : Z) : Z := hours (24 * n).

(** The expiry, whether the trial is reused, and the licensee. *)
Definition trial_row (now : Z) (fp email : string) (req : TrialStart)
    : stM Srv ServerError (Z * bool * string) :=
  _ ← stmt internal_error;
  s ← st_get;
  match trials s !! fp with
  | Some row =>
      exp ← lift (ok_or (parse_stored_ts (t_expires_at row)) internal_error);
      match t_revoked_reason row with
      | Some reason =>
          throw (mkServerError 403 "revoked" ("trial for this install was revoked: " +:+ reason))
      | None =>
          _ ← guard_err (exp <=? now) (mkServerError 402 "trial_expired"
                ("trial for this install already expired at " +:+ dt_display exp));
          _ ← match t_email row with
              | None =>
                  _ ← stmt internal_error;
                  st_modify (set_trials (<[fp :=
                    mkTrial (Some email) (t_started_at row) (t_expires_at row) (t_product row)
                      (t_version row) (t_last_heartbeat_at row) (t_heartbeat_count row)
                      (t_revoked_at row) (t_revoked_reason row)]> (trials s)))
                  ≫= λ _, mret tt
              | Some _ => mret tt
              end;
          mret (exp, true, default email (t_email row))
      end
  | None =>
      let exp := now + days (trial_days cfg) in
      _ ← stmt internal_error;
      _ ← st_modify (λ s, set_trials (<[fp := new_trial now exp email req]> (trials s)) s);
      mret (exp, false, email)
  end.

Definition trial_license (now : Z) (fp licensee : string) (expires : Z) : LicenseDoc :=
  mkLicenseDoc licensee expires ["core"] (Some 5) (Some now) Trial (Some fp) true.

Definition trial_start (inst now : Z) (header : option string) (req : TrialStart)
    : stM Srv ServerError TrialResponse :=
  '(fp, email) ← lift (trial_request header req);
  _ ← rate_limit inst fp;
  '(expires, reused, licensee) ← trial_row now fp email req;
  license_file ← lift (sign (trial_license now fp licensee expires));
  mret (mkTrialResponse license_file expires reused).

(** ** POST /v1/heartbeat: [t_verify] is the clock read by [verify_license] *)

(** The reason of a matching revocation row. *)
Definition revocation_reason (s : Srv) (fp licensee : string) : option string :=
  let own := revocations s !! (fp, licensee) in
  let star := revocations s !! (fp, "*") in
  (λ r, default "revoked" (r_reason r)) <$> (if star_first then opt_or star own else opt_or own star).

Definition check_presented (t_verify : Z) (fp : string) (license_file : value)
    : result ServerError LicenseDoc :=
  d ← match verify_license t_verify (to_json_string license_file) verify_key with
      | Ok d => Ok d
      | Err e => if contains_str "expired" e then Err (mkServerError 402 "expired" e)
                 else Err (mkServerError 400 "invalid_license" "presented license is not valid")
      end;
  if bool_decide (License.fingerprint d = Some fp) then Ok d
  else Err (mkServerError 400 "fingerprint_mismatch"
              "license is not bound to the presenting install").

Definition record_heartbeat (now : Z) (req : HeartbeatRequest) (t : TrialRecord) : TrialRecord :=
  mkTrial (t_email t) (t_started_at t) (t_expires_at t)
    (coalesce (hr_product req) (t_product t)) (coalesce (hr_version req) (t_version t))
    (Some (dt_rfc3339 now)) (t_heartbeat_count t + 1) (t_revoked_at t) (t_revoked_reason t).

(** The server-side expiry of a trial, with its heartbeat recorded. *)
Definition trial_heartbeat (now : Z) (fp : string) (d : LicenseDoc) (req : HeartbeatRequest)
    : stM Srv ServerError Z :=
  _ ← stmt internal_error;
  s ← st_get;
  match trials s !! fp with
  | None => mret (expires_at d)
  | Some row =>
      match t_revoked_reason row with
      | Some reason => throw (mkServerError 403 "revoked" ("trial revoked: " +:+ reason))
      | None =>
          exp ← lift (ok_or (parse_stored_ts (t_expires_at row)) internal_error);
          _ ← guard_err (exp <=? now)
                (mkServerError 402 "trial_expired" ("trial expired at " +:+ dt_display exp));
          _ ← stmt internal_error;
          _ ← st_modify (λ s, set_trials (alter (record_heartbeat now req) fp (trials s)) s);
          mret exp
      end
  end.

Definition reattest (d : LicenseDoc) (expires now : Z) : LicenseDoc :=
  mkLicenseDoc (licensee d) expires (features d) (max_seats d) (Some now) (kind d)
    (License.fingerprint d) true.

Definition heartbeat (inst t_verify now : Z) (header : option string) (req : HeartbeatRequest)
    : stM Srv ServerError HeartbeatResponse :=
  _ ← lift (authorize cfg header);
  fp ← lift (map_err (mkServerError 400 "bad_request") (normalize_fingerprint (hr_fingerprint req)));
  _ ← rate_limit inst fp;
  d ← lift (check_presented t_verify fp (hr_license_file req));
  _ ← stmt internal_error;
  s ← st_get;
  _ ← match revocation_reason s fp (licensee d) with
      | Some reason => throw (mkServerError 403 "revoked" ("license revoked: " +:+ reason))
      | None => mret tt
      end;
  expires ← match kind d with
            | Trial => trial_heartbeat now fp d req
            | Commercial => mret (expires_at d)
            end;
  license_file ← lift (sign (reattest d expires now));
  mret (mkHeartbeatResponse license_file expires now).

Definition trial_response_to_value (r : TrialResponse) : value :=
  json_obj [("license_file", tr_license_file r); ("expires_at", VString (dt_serde (tr_expires_at r)));
            ("reused", VBool (tr_reused r))].
Definition heartbeat_response_to_value (r : HeartbeatResponse) : value :=
  json_obj [("license_file", hp_license_file r);
            ("expires_at", VString (dt_serde (hp_expires_at r)));
            ("issued_at", VString (dt_serde (hp_issued_at r)))].
End Server.

(** ** The revocation command line *)
Record RevokeFlags : Type := mkFlags {
  f_fingerprint : option string; f_licensee : option string; f_reason : string }.

Fixpoint revoke_flags (f : RevokeFlags) (args : list string) : result string RevokeFlags :=
  match args with
  | [] => Ok f
  | [flag] => Err (flag +:+ " requires a value")
  | flag :: value :: rest =>
      if (flag =? "--fingerprint")%string then
        revoke_flags (mkFlags (Some value) (f_licensee f) (f_reason f)) rest
      else if (flag =? "--licensee")%string then
        revoke_flags (mkFlags (f_fingerprint f) (Some value) (f_reason f)) rest
      else if (flag =? "--reason")%string then
        revoke_flags (mkFlags (f_fingerprint f) (f_licensee f) value) rest
      else Err ("unknown flag " +:+ flag)
  end.

(** ** Lemmas: guards *)

Lemma byte_val_inj a b : byte_val a = byte_val b → a = b.
Proof.
  unfold byte_val. intros Hab. apply N2Z.inj in Hab.
  rewrite <- (ascii_N_embedding a), <- (ascii_N_embedding b). by rewrite Hab.
Qed.

Lemma xor_fold_zero l acc :
  fold_left (λ acc (xy : Z * Z), Z.lor acc (Z.lxor xy.1 xy.2)) l acc = 0 ↔
  acc = 0 ∧ Forall (λ xy, xy.1 = xy.2) l.
Proof.
  revert acc. induction l as [|[x y] l IH]; intros acc; cbn [fold_left].
  { split; [by intros ->|by intros [? _]]. }
  rewrite IH, Z.lor_eq_0_iff, Forall_cons_iff. cbn. rewrite Z.lxor_eq_0_iff. tauto.
Qed.

(** The constant-time comparison is equality. *)
Lemma constant_time_eq_spec a b : constant_time_eq a b = true ↔ a = b.
Proof.
  unfold constant_time_eq, str_len. destruct (Z.eqb_spec (Z.of_nat (String.length a)) (Z.of_nat (String.length b))) as [Hl|Hl];
    cbn [negb].
  - apply Nat2Z.inj in Hl. rewrite Z.eqb_eq, xor_fold_zero. split; [|intros ->].
    + intros [_ Hf]. revert b Hl Hf.
      induction a as [|x a IH]; intros [|y b] Hl Hf; try done.
      cbn in Hl, Hf. apply Forall_cons_iff in Hf as [Hxy Hf]. apply byte_val_inj in Hxy as ->.
      f_equal. apply IH; [by injection Hl|done].
    + split; [done|]. clear. induction (bytes b) as [|x l IH]; constructor; [done|exact IH].
  - split; [done|]. intros ->. by destruct Hl.
Qed.

Lemma authorize_spec cfg header :
  authorize cfg header = Ok tt ↔
  default EmptyString (header ≫= strip_prefix "Bearer ") = activation_token cfg.
Proof.
  unfold authorize. rewrite <- constant_time_eq_spec. by destruct (constant_time_eq _ _).
Qed.

Lemma all_bytes_cons p a s : all_bytes p (String a s) = p a && all_bytes p s.
Proof. done. Qed.

Lemma chars_ascii s :
  all_bytes (λ a, byte_val a <? 128) s = true → chars s = map (λ a, String a EmptyString) (bytes s).
Proof.
  induction s as [|a s IH]; [done|]. rewrite all_bytes_cons. intros [Ha Hs]%andb_true_iff.
  cbn [chars bytes map String.list_ascii_of_string]. fold (bytes s). rewrite (IH Hs).
  destruct s as [|b s]; [done|]. cbn.
  rewrite all_bytes_cons in Hs. bool_prop. unfold is_cont.
  by rewrite (proj2 (Z.leb_gt 128 (byte_val b))) by lia.
Qed.

Lemma hexdigit_plain a :
  is_hexdigit a = true → (byte_val a <? 128) = true ∧ char_is_whitespace (String a EmptyString) = false.
Proof. destruct a as [[] [] [] [] [] [] [] []]; vm_compute; done. Qed.

Lemma trim_hex s : all_bytes is_hexdigit s = true → trim s = s.
Proof.
  intros Hs. apply trim_id. rewrite chars_ascii.
  - apply not_true_iff_false. intros (c & (a & <- & Ha)%in_map_iff & Hc)%existsb_exists.
    unfold all_bytes in Hs. rewrite forallb_forall in Hs. apply Hs, hexdigit_plain in Ha as [_ Ha].
    congruence.
  - unfold all_bytes in *. rewrite forallb_forall in *. intros a Ha. by apply hexdigit_plain, Hs.
Qed.

(** An accepted installation fingerprint is in normal form: 16 to 128
    lower-case hexadecimal bytes, the same for every spelling that differs in
    case or surrounding blanks, and normalizing it again changes nothing. *)
Theorem fingerprint_normal_form raw fp :
  normalize_fingerprint raw = Ok fp →
  normalize_fingerprint fp = Ok fp ∧ 16 ≤ str_len fp ≤ 128 ∧
  all_bytes is_hexdigit fp = true ∧ to_ascii_lowercase fp = fp ∧
  ∀ raw', to_ascii_lowercase (trim raw') = to_ascii_lowercase (trim raw) →
          normalize_fingerprint raw' = Ok fp.
Proof.
  unfold normalize_fingerprint at 1. set (m := to_ascii_lowercase (trim raw)).
  destruct (_ || _) eqn:Hc; [done|]. intros [= <-].
  assert (∀ raw', to_ascii_lowercase (trim raw') = m → normalize_fingerprint raw' = Ok m) as Hsame.
  { intros raw' Hr. unfold normalize_fingerprint. by rewrite Hr, Hc. }
  bool_prop. assert (to_ascii_lowercase m = m) as Hlow by apply to_ascii_lowercase_idemp.
  split_and!; [|lia..|done|done|exact Hsame]. apply Hsame. by rewrite trim_hex.
Qed.

Lemma fingerprint_normal_form_witness :
  normalize_fingerprint "  ABCDEF0123456789 " = Ok "abcdef0123456789" ∧
  normalize_fingerprint "abcdef0123456789" = Ok "abcdef0123456789".
Proof.
  split; [vm_compute; reflexivity|].
  refine (proj1 (fingerprint_normal_form "  ABCDEF0123456789 " _ _)). vm_compute. reflexivity.
Defined.

(** ** Lemmas: the store *)

(** How trial rows may change: the expiry never does, an e-mail once known
    stays, and no row disappears. *)
Definition row_extends (t t' : TrialRecord) : Prop :=
  t_expires_at t' = t_expires_at t ∧ (t_email t ≠ None → t_email t' = t_email t).

Definition trials_extend (s s' : Srv) : Prop :=
  ∀ fp t, trials s !! fp = Some t → ∃ t', trials s' !! fp = Some t' ∧ row_extends t t'.

Lemma row_extends_refl t : row_extends t t.
Proof. done. Qed.

Lemma trials_extend_same s s' : trials s' = trials s → trials_extend s s'.
Proof. intros Heq fp t Ht. rewrite Heq. by exists t. Qed.

Lemma trials_extend_trans s1 s2 s3 :
  trials_extend s1 s2 → trials_extend s2 s3 → trials_extend s1 s3.
Proof.
  intros H12 H23 fp t Ht. destruct (H12 fp t Ht) as (t2 & Ht2 & He2 & Hm2).
  destruct (H23 fp t2 Ht2) as (t3 & Ht3 & He3 & Hm3). exists t3. split; [done|].
  split; [congruence|]. intros Hn. rewrite Hm3; rewrite Hm2; done.
Qed.

Lemma trials_extend_alter (f : TrialRecord → TrialRecord) fp s s' :
  (∀ t, row_extends t (f t)) → trials s' = alter f fp (trials s) → trials_extend s s'.
Proof.
  intros Hf Heq fp' t Ht. rewrite Heq. destruct (decide (fp' = fp)) as [->|Hne].
  - rewrite lookup_alter_eq, Ht. cbn. eauto.
  - rewrite lookup_alter_ne by done. eauto using row_extends_refl.
Qed.

Lemma trials_extend_insert fp t' s s' :
  (∀ t, trials s !! fp = Some t → row_extends t t') →
  trials s' = <[fp := t']> (trials s) → trials_extend s s'.
Proof.
  intros Hf Heq fp' t Ht. rewrite Heq. destruct (decide (fp' = fp)) as [->|Hne].
  - rewrite lookup_insert_eq. eauto.
  - rewrite lookup_insert_ne by done. eauto using row_extends_refl.
Qed.

Lemma stmt_same {E} (e : E) s :
  wp (stmt e) (λ r s', trials s' = trials s ∧ revocations s' = revocations s ∧
                       (r = Ok tt ∨ r = Err e)) s.
Proof. unfold wp, stmt. cbn. split_and!; [done..|]. destruct (s_faults s) as [|[] ?]; auto. Qed.

Lemma rate_limit_same inst fp s :
  wp (rate_limit inst fp) (λ r s', trials s' = trials s ∧ revocations s' = revocations s ∧
                                   (r = Ok tt ∨ r = Err rate_limited)) s.
Proof. unfold wp, rate_limit. repeat case_match; cbn; auto. Qed.

Section ServerLemmas.
Context `{JsonText} `{Rfc3339} `{Crypto}.
Context (naive_parse : string → option Z) (star_first : bool) (cfg : ServerConfig).

Local Abbreviation parse_ts := (parse_stored_ts naive_parse).

Lemma trial_row_spec now fp email req s :
  wp (trial_row naive_parse cfg now fp email req) (λ r s',
    revocations s' = revocations s ∧ trials_extend s s' ∧
    ∀ expires reused lic, r = Ok (expires, reused, lic) →
      (∃ t', trials s' !! fp = Some t' ∧ t_email t' = Some lic ∧
         (reused = true → parse_ts (t_expires_at t') = Some expires) ∧
         (reused = false → t_expires_at t' = dt_rfc3339 expires)) ∧
      match trials s !! fp with
      | Some t => reused = true ∧ parse_ts (t_expires_at t) = Some expires ∧ now < expires ∧
                  t_revoked_reason t = None
      | None => reused = false ∧ expires = now + days (trial_days cfg) ∧ lic = email
      end) s.
Proof.
  unfold trial_row. wp_step. eapply wp_mono; [apply stmt_same|]. cbv beta.
  intros r s1 (Ht & Hr & [->| ->]); cbv iota;
    [|split_and!; [done|by apply trials_extend_same|by intros ??? [=]]].
  wp_steps. rewrite Ht.
  destruct (trials s !! fp) as [row|] eqn:Hrow.
  - wp_steps. destruct (parse_ts (t_expires_at row)) as [exp|] eqn:Hexp; cbn [ok_or];
      [|split_and!; [done|by apply trials_extend_same|by intros ??? [=]]].
    cbv iota.
    destruct (t_revoked_reason row) as [rsn|] eqn:Hrev; wp_steps;
      [split_and!; [done|by apply trials_extend_same|by intros ??? [=]]..|].
    bool_prop. destruct (t_email row) as [em|] eqn:Hem.
    + wp_steps. split_and!; [done|by apply trials_extend_same|].
      intros ??? [= <- <- <-]. split; [|done]. exists row. rewrite ?Ht. split_and!; done.
    + wp_steps. eapply wp_mono; [apply stmt_same|]. cbv beta.
      intros r s2 (Ht2 & Hr2 & [->| ->]); cbv iota;
        [|split_and!; [congruence|apply trials_extend_same; congruence|by intros ??? [=]]].
      wp_steps. cbn. split_and!; [congruence| |].
      * eapply trials_extend_insert; [|reflexivity].
        intros t Heq. rewrite Hrow in Heq. injection Heq as <-. split; [done|]. by rewrite Hem.
      * intros ??? [= <- <- <-]. rewrite lookup_insert_eq. split; [|done].
        eexists. split; [done|]. done.
  - wp_steps. eapply wp_mono; [apply stmt_same|]. cbv beta.
    intros r s2 (Ht2 & Hr2 & [->| ->]); cbv iota;
      [|split_and!; [congruence|apply trials_extend_same; congruence|by intros ??? [=]]].
    wp_steps. cbn. split_and!; [congruence| |].
    + eapply trials_extend_insert; [|cbn; rewrite Ht2, Ht; reflexivity].
      intros t Heq. by rewrite Hrow in Heq.
    + intros ??? [= <- <- <-]. rewrite lookup_insert_eq. split; [|done].
      eexists. split; [done|]. done.
Qed.

Lemma trial_request_spec header req fp email :
  trial_request cfg header req = Ok (fp, email) →
  authorize cfg header = Ok tt ∧ normalize_fingerprint (ts_fingerprint req) = Ok fp ∧
  ∃ e, ts_email req = Some e ∧ validate_trial_email (trim e) = Ok email.
Proof.
  unfold trial_request. destruct (authorize cfg header) as [[]|]; [|done]. cbn.
  destruct (normalize_fingerprint _) as [f|]; [|done]. cbn.
  destruct (ts_email req) as [e|]; [|done]. cbn. destruct (negb (is_empty (trim e))); [|done].
  cbn. destruct (validate_trial_email (trim e)) as [em|] eqn:Hem; [|done]. cbn.
  intros [= <- <-]. eauto.
Qed.

(** The whole of [trial_start]: what a success says, and what any outcome
    leaves in the store. *)
Lemma trial_start_spec inst now header req s :
  wp (trial_start naive_parse cfg inst now header req) (λ r s',
    revocations s' = revocations s ∧ trials_extend s s' ∧
    ∀ resp, r = Ok resp → ∃ fp email lic,
      authorize cfg header = Ok tt ∧ normalize_fingerprint (ts_fingerprint req) = Ok fp ∧
      (∃ e, ts_email req = Some e ∧ validate_trial_email (trim e) = Ok email) ∧
      sign cfg (trial_license now fp lic (tr_expires_at resp)) = Ok (tr_license_file resp) ∧
      (∃ t', trials s' !! fp = Some t' ∧ t_email t' = Some lic ∧
         (tr_reused resp = true → parse_ts (t_expires_at t') = Some (tr_expires_at resp)) ∧
         (tr_reused resp = false → t_expires_at t' = dt_rfc3339 (tr_expires_at resp))) ∧
      match trials s !! fp with
      | Some t => tr_reused resp = true ∧ parse_ts (t_expires_at t) = Some (tr_expires_at resp) ∧
                  now < tr_expires_at resp ∧ t_revoked_reason t = None
      | None => tr_reused resp = false ∧ tr_expires_at resp = now + days (trial_days cfg) ∧ lic = email
      end) s.
Proof.
  unfold trial_start. wp_steps. destruct (trial_request cfg header req) as [[fp email]|e] eqn:Hreq;
    [|split_and!; [done|by apply trials_extend_same|by intros ? [=]]].
  wp_step. eapply wp_mono; [apply rate_limit_same|]. cbv beta.
  intros r s1 (Ht & Hr & [->| ->]); cbv iota;
    [|split_and!; [done|by apply trials_extend_same|by intros ? [=]]].
  wp_step. eapply wp_mono; [apply trial_row_spec|]. cbv beta.
  intros [[[exp reused] lic]|e] s2 (Hr2 & Hext & Hok); cbv iota;
    [|split_and!; [congruence| |by intros ? [=]];
      eapply trials_extend_trans; [by apply trials_extend_same|done]].
  wp_steps. assert (trials_extend s s2) as Hs2
    by (eapply trials_extend_trans; [by apply trials_extend_same|done]).
  destruct (sign cfg _) as [lf|e] eqn:Hsign; wp_steps;
    [|split_and!; [congruence|done|by intros ? [=]]].
  split_and!; [congruence|done|]. intros resp [= <-]. cbn.
  rewrite Ht in Hok. destruct (Hok _ _ _ eq_refl) as [Hst Hcase].
  apply trial_request_spec in Hreq as (Ha & Hf & He). exists fp, email, lic. by split_and!.
Qed.

Lemma trial_heartbeat_spec now fp d req s :
  wp (trial_heartbeat naive_parse now fp d req) (λ r s',
    revocations s' = revocations s ∧ trials_extend s s' ∧
    ∀ e, r = Ok e →
      match trials s !! fp with
      | Some t => parse_ts (t_expires_at t) = Some e ∧ now < e ∧ t_revoked_reason t = None
      | None => e = expires_at d
      end) s.
Proof.
  unfold trial_heartbeat. wp_step. eapply wp_mono; [apply stmt_same|]. cbv beta.
  intros r s1 (Ht & Hr & [->| ->]); cbv iota;
    [|split_and!; [done|by apply trials_extend_same|by intros ? [=]]].
  wp_steps. rewrite Ht. destruct (trials s !! fp) as [row|] eqn:Hrow.
  - destruct (t_revoked_reason row) eqn:Hrev;
      [wp_steps; split_and!; [done|by apply trials_extend_same|by intros ? [=]]|].
    wp_steps. destruct (parse_ts (t_expires_at row)) as [exp|] eqn:Hexp; cbn [ok_or];
      [|split_and!; [done|by apply trials_extend_same|by intros ? [=]]].
    wp_steps; [split_and!; [done|by apply trials_extend_same|by intros ? [=]]|].
    bool_prop. eapply wp_mono; [apply stmt_same|]. cbv beta.
    intros r s2 (Ht2 & Hr2 & [->| ->]); cbv iota;
      [|split_and!; [congruence|apply trials_extend_same; congruence|by intros ? [=]]].
    wp_steps. cbn. split_and!; [congruence| |by intros ? [= <-]].
    eapply (trials_extend_alter (record_heartbeat now req) fp); [done|]. cbn. by rewrite Ht2, Ht.
  - wp_steps. split_and!; [done|by apply trials_extend_same|by intros ? [= <-]].
Qed.

Lemma check_presented_spec t fp lf d :
  check_presented cfg t fp lf = Ok d →
  verify_license t (to_json_string lf) (verify_key cfg) = Ok d ∧ License.fingerprint d = Some fp.
Proof.
  unfold check_presented. destruct (verify_license _ _ _) as [d'|e]; [|by destruct (contains_str _ _)].
  cbn. case_bool_decide; [|done]. by intros [= <-].
Qed.

(** No revocation row matches. *)
Definition not_revoked (s : Srv) (fp lic : string) : Prop :=
  revocations s !! (fp, lic) = None ∧ revocations s !! (fp, "*") = None.

Lemma revocation_reason_None s fp lic :
  revocation_reason star_first s fp lic = None ↔ not_revoked s fp lic.
Proof.
  unfold revocation_reason, not_revoked.
  destruct star_first, (revocations s !! (fp, lic)), (revocations s !! (fp, "*")); cbn; naive_solver.
Qed.

Local Abbreviation hb := (heartbeat naive_parse star_first cfg).

Lemma heartbeat_spec inst t_verify now header req s :
  wp (hb inst t_verify now header req) (λ r s',
    revocations s' = revocations s ∧ trials_extend s s' ∧
    ∀ resp, r = Ok resp → ∃ fp d,
      authorize cfg header = Ok tt ∧ normalize_fingerprint (hr_fingerprint req) = Ok fp ∧
      check_presented cfg t_verify fp (hr_license_file req) = Ok d ∧
      not_revoked s fp (licensee d) ∧ hp_issued_at resp = now ∧
      sign cfg (reattest d (hp_expires_at resp) now) = Ok (hp_license_file resp) ∧
      match kind d, trials s !! fp with
      | Trial, Some t => parse_ts (t_expires_at t) = Some (hp_expires_at resp) ∧
                         now < hp_expires_at resp ∧ t_revoked_reason t = None
      | _, _ => hp_expires_at resp = expires_at d
      end) s.
Proof.
  unfold heartbeat. wp_steps. destruct (authorize cfg header) as [[]|e] eqn:Hauth;
    [|split_and!; [done|by apply trials_extend_same|by intros ? [=]]]. wp_steps.
  destruct (normalize_fingerprint _) as [fp|e] eqn:Hfp; cbn [map_err];
    [|split_and!; [done|by apply trials_extend_same|by intros ? [=]]]. cbv iota.
  wp_step. eapply wp_mono; [apply rate_limit_same|]. cbv beta.
  intros r s1 (Ht & Hr & [->| ->]); cbv iota;
    [|split_and!; [done|by apply trials_extend_same|by intros ? [=]]].
  wp_steps. destruct (check_presented _ _ _ _) as [d|e] eqn:Hd;
    [|split_and!; [done|by apply trials_extend_same|by intros ? [=]]].
  wp_steps. eapply wp_mono; [apply stmt_same|]. cbv beta.
  intros r s2 (Ht2 & Hr2 & [->| ->]); cbv iota;
    [|split_and!; [congruence|apply trials_extend_same; congruence|by intros ? [=]]].
  assert (revocations s2 = revocations s ∧ trials s2 = trials s) as [Hrs Hts] by (split; congruence).
  wp_steps. destruct (revocation_reason star_first s2 fp (licensee d)) as [rsn|] eqn:Hrev;
    wp_steps; [split_and!; [done|by apply trials_extend_same|by intros ? [=]]|].
  assert (not_revoked s fp (licensee d)) as Hnr.
  { apply revocation_reason_None in Hrev. unfold not_revoked in *. by rewrite <- Hrs. }
  assert (wp (match kind d with
              | Trial => trial_heartbeat naive_parse now fp d req
              | Commercial => mret (expires_at d)
              end) (λ r s', revocations s' = revocations s ∧ trials_extend s s' ∧
            ∀ e, r = Ok e → match kind d, trials s !! fp with
              | Trial, Some t => parse_ts (t_expires_at t) = Some e ∧ now < e ∧ t_revoked_reason t = None
              | _, _ => e = expires_at d end) s2) as Hexp.
  { destruct (kind d); [|wp_steps; split_and!; [done|by apply trials_extend_same|by intros ? [= <-]]].
    eapply wp_mono; [apply trial_heartbeat_spec|]. cbv beta. rewrite Hts.
    intros r s3 (Hr3 & He3 & Hok). split_and!; [congruence| |done].
    eapply trials_extend_trans; [by apply trials_extend_same|done]. }
  eapply wp_mono; [exact Hexp|]. cbv beta. intros [exp|e] s3 (Hr3 & He3 & Hok); cbv iota;
    [|by split_and!; [..|intros ? [=]]].
  wp_steps. destruct (sign cfg _) as [lf|e] eqn:Hsign; wp_steps; [|by split_and!; [..|intros ? [=]]].
  split_and!; [done..|]. intros resp [= <-]. exists fp, d. cbn. split_and!; try done. by apply Hok.
Qed.

(** ** The service as a state machine *)

Inductive srv_op : Type :=
  | OpTrial (inst now : Z) (header : option string) (req : TrialStart)
  | OpHeartbeat (inst t_verify now : Z) (header : option string) (req : HeartbeatRequest)
  | OpRevoke (now : Z) (fingerprint licensee reason : string)
  | OpUnrevoke (fingerprint : string) (licensee : option string)
  | OpFaults (faults : list bool)
  | OpRestart (inst : Z).   (** the limiter's memory is lost *)

Definition srv_step (s : Srv) (o : srv_op) : Srv :=
  match o with
  | OpTrial inst now header req => (trial_start naive_parse cfg inst now header req s).2
  | OpHeartbeat inst tv now header req => (hb inst tv now header req s).2
  | OpRevoke now f l r => (revoke now f l r s).2
  | OpUnrevoke f l => (unrevoke f l s).2
  | OpFaults fs => mkSrv (trials s) (revocations s) (per_fingerprint s) (global_window s) fs
  | OpRestart inst => mkSrv (trials s) (revocations s) ∅ (inst, 0) (s_faults s)
  end.
Definition srv_run (ops : list srv_op) (s : Srv) : Srv := fold_left srv_step ops s.

Lemma revoke_spec now f l reason s :
  wp (revoke now f l reason) (λ r s', trials_extend s s' ∧
    (∀ k, revocations s !! k ≠ None → revocations s' !! k ≠ None) ∧
    (r = Ok tt → ∃ fp, normalize_fingerprint f = Ok fp ∧ revocations s' !! (fp, l) ≠ None)) s.
Proof.
  unfold revoke. wp_steps. destruct (normalize_fingerprint f) as [fp|e] eqn:Hfp; cbv iota;
    [|split_and!; [by apply trials_extend_same|done..]].
  wp_step. eapply wp_mono; [apply stmt_same|]. cbv beta. intros r s1 (Ht & Hr & [->| ->]); cbv iota;
    [|split_and!; [by apply trials_extend_same|by rewrite Hr|done]].
  wp_steps. set (s2 := set_revocations _ s1).
  assert (∀ k, revocations s !! k ≠ None → revocations s2 !! k ≠ None) as Hk.
  { intros k Hk. cbn. rewrite Hr. destruct (decide (k = (fp, l))) as [->|Hne];
      [by rewrite lookup_insert_eq|by rewrite lookup_insert_ne]. }
  eapply wp_mono; [apply stmt_same|]. cbv beta. intros r s3 (Ht3 & Hr3 & [->| ->]); cbv iota.
  - wp_steps. split_and!.
    + eapply trials_extend_alter; [|cbn; rewrite Ht3; cbn; by rewrite Ht]. done.
    + cbn. by rewrite Hr3.
    + intros _. exists fp. split; [done|]. cbn. rewrite Hr3. cbn. by rewrite lookup_insert_eq.
  - split_and!; [apply trials_extend_same; by rewrite Ht3|by rewrite Hr3|done].
Qed.

Lemma unrevoke_spec f l s :
  wp (unrevoke f l) (λ r s', trials_extend s s' ∧
    ∀ fp l', normalize_fingerprint f ≠ Ok fp →
      revocations s !! (fp, l') ≠ None → revocations s' !! (fp, l') ≠ None) s.
Proof.
  unfold unrevoke. wp_steps. destruct (normalize_fingerprint f) as [fp|e] eqn:Hfp; cbv iota;
    [|split; [by apply trials_extend_same|done]].
  wp_step. eapply wp_mono; [apply stmt_same|]. cbv beta. intros r s1 (Ht & Hr & [->| ->]); cbv iota;
    [|split; [by apply trials_extend_same|by rewrite Hr]].
  wp_steps. set (s2 := set_revocations _ s1).
  assert (∀ fp' l', Ok (E:=string) fp ≠ Ok fp' → revocations s !! (fp', l') ≠ None →
                    revocations s2 !! (fp', l') ≠ None) as Hk.
  { intros fp' l' Hne Hs. cbn. rewrite Hr. destruct (revocations s !! (fp', l')) as [x|] eqn:Hx; [|done].
    rewrite (map_lookup_filter_Some_2 _ _ _ x); [done|done|].
    unfold matches_revocation. cbn. destruct (fp' =? fp)%string eqn:He; [|done].
    apply String.eqb_eq in He. congruence. }
  eapply wp_mono; [apply stmt_same|]. cbv beta. intros r s3 (Ht3 & Hr3 & [->| ->]); cbv iota.
  - wp_steps. split; [|cbn; by rewrite Hr3].
    eapply trials_extend_alter; [|cbn; rewrite Ht3; cbn; by rewrite Ht]. done.
  - split; [apply trials_extend_same; by rewrite Ht3|by rewrite Hr3].
Qed.

Lemma srv_step_spec o s :
  trials_extend s (srv_step s o) ∧
  ∀ fp l', (∀ f l, o = OpUnrevoke f l → normalize_fingerprint f ≠ Ok fp) →
    revocations s !! (fp, l') ≠ None → revocations (srv_step s o) !! (fp, l') ≠ None.
Proof.
  destruct o as [inst now header req|inst tv now header req|now f l r|f l|fs|inst]; cbn [srv_step].
  - destruct (trial_start_spec inst now header req s) as (Hr & He & _). by rewrite Hr.
  - destruct (heartbeat_spec inst tv now header req s) as (Hr & He & _). by rewrite Hr.
  - destruct (revoke_spec now f l r s) as (He & Hk & _). split; [done|]. intros ????. by apply Hk.
  - destruct (unrevoke_spec f l s) as (He & Hk). split; [done|]. intros fp l' Hf. by apply Hk, (Hf f l).
  - by split; [apply trials_extend_same|].
  - by split; [apply trials_extend_same|].
Qed.

Lemma srv_run_extends ops s : trials_extend s (srv_run ops s).
Proof.
  revert s. induction ops as [|o ops IH]; intros s; [by apply trials_extend_same|].
  eapply trials_extend_trans; [apply srv_step_spec|apply IH].
Qed.

Definition leaves_revoked (fp : string) (o : srv_op) : Prop :=
  ∀ f l, o = OpUnrevoke f l → normalize_fingerprint f ≠ Ok fp.

Lemma srv_run_revoked fp l ops s :
  Forall (leaves_revoked fp) ops → revocations s !! (fp, l) ≠ None →
  revocations (srv_run ops s) !! (fp, l) ≠ None.
Proof.
  revert s. induction ops as [|o ops IH]; intros s Hops Hs; [done|].
  apply Forall_cons_iff in Hops as [Ho Hops]. apply IH; [done|]. by apply srv_step_spec.
Qed.

(** C6: one trial per installation: once a trial was granted, no sequence of
    requests, revocations, failures and restarts makes a later activation of
    the same installation anything but a reuse of the first one, with the
    same expiry and the same licensee. *)
Theorem one_trial_per_install i1 n1 h1 r1 s s1 resp1 ops i2 n2 h2 r2 s2 resp2 :
  trial_start naive_parse cfg i1 n1 h1 r1 s = (Ok resp1, s1) →
  trial_start naive_parse cfg i2 n2 h2 r2 (srv_run ops s1) = (Ok resp2, s2) →
  normalize_fingerprint (ts_fingerprint r2) = normalize_fingerprint (ts_fingerprint r1) →
  dt_in_range (tr_expires_at resp1) = true →
  tr_reused resp2 = true ∧ tr_expires_at resp2 = tr_expires_at resp1 ∧
  n2 < tr_expires_at resp1 ∧
  ∃ fp lic, sign cfg (trial_license n1 fp lic (tr_expires_at resp1)) = Ok (tr_license_file resp1) ∧
            sign cfg (trial_license n2 fp lic (tr_expires_at resp1)) = Ok (tr_license_file resp2).
Proof.
  intros Hrun1 Hrun2 Hfp Hrange.
  destruct (trial_start_spec i1 n1 h1 r1 s) as (_ & _ & Hok1). rewrite Hrun1 in Hok1.
  destruct (Hok1 resp1 eq_refl) as (fp & em & lic & _ & Hn1 & _ & Hs1 & (t1 & Ht1 & Hm1 & Hr & Hnr) & _).
  destruct (trial_start_spec i2 n2 h2 r2 (srv_run ops s1)) as (_ & Hext & Hok2). rewrite Hrun2 in Hok2, Hext.
  destruct (Hok2 resp2 eq_refl) as (fp2 & em2 & lic2 & _ & Hn2 & _ & Hs2 & (t2 & Ht2 & Hm2 & _) & Hcase).
  assert (fp2 = fp) as -> by congruence.
  destruct (srv_run_extends ops s1 fp t1 Ht1) as (t' & Ht' & He' & Hm').
  rewrite Ht' in Hcase. destruct Hcase as (Hre & Hp & Hlt & _).
  assert (parse_ts (t_expires_at t1) = Some (tr_expires_at resp1)) as Hp1.
  { destruct (tr_reused resp1); [by apply Hr|]. rewrite (Hnr eq_refl).
    unfold parse_stored_ts. by rewrite dt_rfc3339_parse. }
  assert (tr_expires_at resp2 = tr_expires_at resp1) as Heq by congruence.
  assert (lic2 = lic) as ->.
  { destruct (Hext fp t' Ht') as (t3 & Ht3 & _ & Hm3). rewrite Ht2 in Ht3. injection Ht3 as <-.
    assert (t_email t' = Some lic) as He3 by (rewrite Hm'; [done|by rewrite Hm1]).
    rewrite Hm3 in Hm2; congruence. }
  rewrite <- Heq at 2. split_and!; [done|done|lia|]. exists fp, lic. split; [done|]. by rewrite Heq in Hs2.
Qed.

(** C15: a revocation holds: after a completed [revoke], whatever happens
    short of an [unrevoke] of the same installation, no heartbeat of that
    installation succeeds for the revoked licensee, nor for anyone when the
    licensee is [*]. *)
Theorem revocation_holds now f lic reason s s1 ops inst tv n header req fp d :
  revoke now f lic reason s = (Ok tt, s1) → normalize_fingerprint f = Ok fp →
  Forall (leaves_revoked fp) ops →
  normalize_fingerprint (hr_fingerprint req) = Ok fp →
  check_presented cfg tv fp (hr_license_file req) = Ok d →
  lic = licensee d ∨ lic = "*" →
  is_ok (hb inst tv n header req (srv_run ops s1)).1 = false.
Proof.
  intros Hr Hf Hops Hreq Hd Hlic. destruct (revoke_spec now f lic reason s) as (_ & _ & Hrev).
  rewrite Hr in Hrev. destruct (Hrev eq_refl) as (fp' & Hf' & Hin). cbn in Hin.
  assert (fp' = fp) as -> by congruence.
  pose proof (srv_run_revoked fp lic ops s1 Hops Hin) as Hstill.
  destruct (heartbeat_spec inst tv n header req (srv_run ops s1)) as (_ & _ & Hok).
  destruct (hb _ _ _ _ _ _) as [[resp|e] s2]; [|done].
  destruct (Hok resp eq_refl) as (fp2 & d2 & _ & Hfp2 & Hd2 & [Hn1 Hn2] & _).
  assert (fp2 = fp) as -> by congruence. assert (d2 = d) as -> by congruence.
  destruct Hlic as [->| ->]; done.
Qed.

(** C12: a heartbeat re-attests and never extends: a successful heartbeat was
    authorized, presented a file the vendor's key signed for this very
    installation and that has not expired, and returns the same document
    with a fresh attestation time; the expiry is the one of the presented
    file or, for a trial the service knows, the one recorded when it
    started. *)
Theorem heartbeat_never_extends inst tv now header req s s' resp :
  hb inst tv now header req s = (Ok resp, s') →
  ∃ fp d, authorize cfg header = Ok tt ∧ normalize_fingerprint (hr_fingerprint req) = Ok fp ∧
    verify_license tv (to_json_string (hr_license_file req)) (verify_key cfg) = Ok d ∧
    License.fingerprint d = Some fp ∧ not_revoked s fp (licensee d) ∧
    sign cfg (reattest d (hp_expires_at resp) now) = Ok (hp_license_file resp) ∧
    hp_issued_at resp = now ∧
    match kind d, trials s !! fp with
    | Trial, Some t => parse_ts (t_expires_at t) = Some (hp_expires_at resp) ∧
                       now < hp_expires_at resp ∧ t_revoked_reason t = None
    | _, _ => hp_expires_at resp = expires_at d
    end.
Proof.
  intros Hh. destruct (heartbeat_spec inst tv now header req s) as (_ & _ & Hok). rewrite Hh in Hok.
  destruct (Hok resp eq_refl) as (fp & d & Ha & Hf & Hd & Hnr & Hi & Hsg & Hc).
  apply check_presented_spec in Hd as [Hv Hb]. by exists fp, d.
Qed.
End ServerLemmas.

(** ** The rate limiter *)

Definition limiter_run (calls : list (Z * string)) (s : Srv) : Srv :=
  fold_left (λ s c, (rate_limit c.1 c.2 s).2) calls s.

(** How many of the calls are let through. *)
Fixpoint accepted (calls : list (Z * string)) (s : Srv) : Z :=
  match calls with
  | [] => 0
  | c :: rest => let r := rate_limit c.1 c.2 s in
                 (if is_ok r.1 then 1 else 0) + accepted rest r.2
  end.

Definition seen_since (fp : string) (t t' : Z) (s : Srv) : Prop :=
  ∃ prev, per_fingerprint s !! fp = Some prev ∧ t ≤ prev ≤ t'.

Lemma rate_limit_remembers now fp' fp t t' s :
  t ≤ now ≤ t' → t' < t + PER_FINGERPRINT_INTERVAL →
  seen_since fp t t' s → seen_since fp t t' (rate_limit now fp' s).2.
Proof.
  intros Hnow Ht' (prev & Hp & Hr). unfold PER_FINGERPRINT_INTERVAL, seconds in Ht'.
  unfold rate_limit. set (g := if seconds 1 <=? _ then _ else _).
  destruct (GLOBAL_PER_SECOND <=? g.2); [by exists prev|].
  destruct (match per_fingerprint s !! fp' with Some _ => _ | None => _ end) eqn:Hlim; [by exists prev|].
  destruct (decide (fp' = fp)) as [->|Hne].
  { rewrite Hp in Hlim. apply Z.ltb_ge in Hlim. unfold PER_FINGERPRINT_INTERVAL, seconds in Hlim. lia. }
  exists prev. split; [|done]. cbn. destruct (10000 <? _).
  - apply map_lookup_filter_Some_2; [by rewrite lookup_insert_ne|]. cbn. unfold seconds. lia.
  - by rewrite lookup_insert_ne.
Qed.

Lemma limiter_run_remembers calls fp t t' s :
  Forall (λ c, t ≤ c.1 ≤ t') calls → t' < t + PER_FINGERPRINT_INTERVAL →
  seen_since fp t t' s → seen_since fp t t' (limiter_run calls s).
Proof.
  intros Hc Ht. revert s. induction calls as [|c calls IH]; intros s Hs; [done|].
  apply Forall_cons_iff in Hc as [Hc1 Hc]. cbn. apply IH; [done|]. by apply rate_limit_remembers.
Qed.

(** An installation is served at most once every five seconds: after an
    accepted call at [t], whatever calls come in between (evictions included),
    a call for the same installation before [t + 5s] is refused with 429. *)
Theorem per_install_limit t t' fp s s1 calls :
  rate_limit t fp s = (Ok tt, s1) → t ≤ t' → t' < t + PER_FINGERPRINT_INTERVAL →
  Forall (λ c, t ≤ c.1 ≤ t') calls →
  (rate_limit t' fp (limiter_run calls s1)).1 = Err rate_limited.
Proof.
  intros Hok Hle Ht' Hcalls.
  assert (seen_since fp t t' s1) as Hs1.
  { unfold rate_limit in Hok. set (g := if seconds 1 <=? _ then _ else _) in Hok.
    destruct (GLOBAL_PER_SECOND <=? g.2); [done|].
    destruct (match per_fingerprint s !! fp with Some _ => _ | None => _ end); [done|].
    injection Hok as <-. exists t. split; [|lia]. cbn. destruct (10000 <? _).
    - apply map_lookup_filter_Some_2; [apply lookup_insert_eq|]. cbn. unfold seconds. lia.
    - apply lookup_insert_eq. }
  destruct (limiter_run_remembers calls fp t t' s1 Hcalls Ht' Hs1) as (prev & Hp & Hr).
  unfold rate_limit. rewrite Hp. set (g := if seconds 1 <=? _ then _ else _).
  destruct (GLOBAL_PER_SECOND <=? g.2); [done|].
  by rewrite (proj2 (Z.ltb_lt _ _)) by lia.
Qed.

(** The window's counter stays within its bound. *)
Definition window_ok (s : Srv) : Prop := 0 ≤ (global_window s).2 ≤ GLOBAL_PER_SECOND.

(** Within a span shorter than a window at most one window starts. *)
Definition window_phase (t0 n : Z) (s : Srv) : Prop :=
  window_ok s ∧
  (t0 ≤ (global_window s).1 ∧ n ≤ GLOBAL_PER_SECOND + (global_window s).2 ∨
   n ≤ (global_window s).2).

Lemma rate_limit_phase now fp t0 n s :
  t0 ≤ now < t0 + seconds 1 → window_phase t0 n s →
  window_phase t0 (n + if is_ok (rate_limit now fp s).1 then 1 else 0) (rate_limit now fp s).2.
Proof.
  intros Hnow. unfold window_phase, window_ok, rate_limit, GLOBAL_PER_SECOND.
  destruct (global_window s) as [w c]; cbn [fst snd]. intros [Hc Hph].
  destruct (seconds 1 <=? now - w) eqn:Hw; bool_prop; cbn [fst snd].
  - destruct (match per_fingerprint s !! fp with Some _ => _ | None => _ end); cbn; lia.
  - destruct (20 <=? c) eqn:H20; bool_prop; cbn; [lia|].
    destruct (match per_fingerprint s !! fp with Some _ => _ | None => _ end); cbn; lia.
Qed.

(** The service answers at most forty requests in any second (two
    windows of twenty can touch it), whatever their installations. *)
Theorem global_limit t0 calls s :
  window_ok s → Forall (λ c, t0 ≤ c.1 < t0 + seconds 1) calls →
  accepted calls s ≤ 2 * GLOBAL_PER_SECOND.
Proof.
  intros Hs Hc.
  enough (∀ n, window_phase t0 n s → n + accepted calls s ≤ 2 * GLOBAL_PER_SECOND) as Hall.
  { specialize (Hall 0). rewrite Z.add_0_l in Hall. apply Hall. split; [done|].
    unfold window_ok in Hs. right. lia. }
  clear Hs. revert s. induction calls as [|c calls IH]; intros s n Hph; cbn [accepted].
  { unfold window_phase, window_ok in Hph. lia. }
  apply Forall_cons_iff in Hc as [Hc1 Hc]. rewrite Z.add_assoc. apply IH; [done|].
  by apply rate_limit_phase.
Qed.

(** ** Witnesses *)
Definition demo_cfg : ServerConfig := mkConfig "vendor" "0123456789abcdef0123456789abcdef" 10.
Definition empty_srv : Srv := mkSrv ∅ ∅ ∅ (0, 0) [].
Definition demo_fp : string := "00112233445566778899aabbccddeeff".
Definition demo_header : option string := Some ("Bearer " +:+ activation_token demo_cfg).
Definition demo_request : TrialStart := mkTrialStart demo_fp (Some "ops@example.com") None None.
Definition demo_trial (inst now : Z) (s : Srv) : result ServerError TrialResponse * Srv :=
  @trial_start bits_json decimal_time shared_key (λ _, None) demo_cfg inst now demo_header demo_request s.
Definition demo_file (now : Z) : value :=
  match (demo_trial 0 now empty_srv).1 with Ok r => tr_license_file r | Err _ => VNull end.
Definition demo_heartbeat (inst now : Z) (s : Srv) : result ServerError HeartbeatResponse * Srv :=
  @heartbeat bits_json decimal_time shared_key (λ _, None) true demo_cfg inst now now demo_header
    (mkHeartbeatRequest demo_fp (demo_file (hours 1)) None None) s.

Lemma one_trial_per_install_witness :
  ∃ resp1 resp2,
    (demo_trial 0 (hours 1) empty_srv).1 = Ok resp1 ∧
    (demo_trial (seconds 9) (hours 20) (demo_trial 0 (hours 1) empty_srv).2).1 = Ok resp2 ∧
    tr_expires_at resp2 = tr_expires_at resp1.
Proof.
  destruct (demo_trial 0 (hours 1) empty_srv) as [[resp1|e] s1] eqn:Hd1;
    [|vm_compute in Hd1; discriminate Hd1].
  destruct (demo_trial (seconds 9) (hours 20) s1) as [[resp2|e] s2] eqn:Hd2;
    [|vm_compute in Hd1; injection Hd1 as _ <-; vm_compute in Hd2; discriminate Hd2].
  exists resp1, resp2. split; [reflexivity|]. cbn [snd]. rewrite Hd2. split; [reflexivity|].
  apply (@one_trial_per_install bits_json decimal_time shared_key (λ _, None) true demo_cfg
           0 (hours 1) demo_header demo_request empty_srv s1 resp1 [] (seconds 9) (hours 20)
           demo_header demo_request s2 resp2 Hd1 Hd2 eq_refl).
  vm_compute in Hd1. injection Hd1 as <- _. reflexivity.
Defined.

Lemma heartbeat_never_extends_witness :
  ∃ resp, (demo_heartbeat (seconds 9) (hours 20) (demo_trial 0 (hours 1) empty_srv).2).1 = Ok resp ∧
          hp_issued_at resp = hours 20.
Proof.
  destruct (demo_heartbeat (seconds 9) (hours 20) (demo_trial 0 (hours 1) empty_srv).2)
    as [[resp|e] s2] eqn:Hd; [|vm_compute in Hd; discriminate Hd].
  exists resp. split; [reflexivity|].
  destruct (@heartbeat_never_extends bits_json decimal_time shared_key (λ _, None) true demo_cfg
     (seconds 9) (hours 20) (hours 20) demo_header _ _ _ _ Hd)
    as (fp & d & _ & _ & _ & _ & _ & _ & Hi & _).
  exact Hi.
Defined.

Lemma revocation_holds_witness :
  ∃ s1, @revoke decimal_time (hours 2) demo_fp "*" "fraud" (demo_trial 0 (hours 1) empty_srv).2 = (Ok tt, s1) ∧
        is_ok (demo_heartbeat (seconds 9) (hours 20) s1).1 = false.
Proof.
  destruct (@revoke decimal_time (hours 2) demo_fp "*" "fraud" (demo_trial 0 (hours 1) empty_srv).2)
    as [[[]|e] s1] eqn:Hr; [|vm_compute in Hr; discriminate Hr].
  exists s1. split; [reflexivity|].
  destruct (@check_presented bits_json decimal_time shared_key demo_cfg (hours 20) demo_fp (demo_file (hours 1)))
    as [d|e] eqn:Hd; [|vm_compute in Hd; discriminate Hd].
  apply (@revocation_holds bits_json decimal_time shared_key (λ _, None) true demo_cfg
     (hours 2) demo_fp "*" "fraud" _ s1 [] (seconds 9) (hours 20) (hours 20) demo_header
     (mkHeartbeatRequest demo_fp (demo_file (hours 1)) None None) demo_fp d Hr).
  - vm_compute. reflexivity.
  - constructor.
  - vm_compute. reflexivity.
  - exact Hd.
  - right. reflexivity.
Defined.

Lemma per_install_limit_witness :
  (rate_limit (seconds 4) demo_fp (limiter_run [(seconds 2, "aa")] (rate_limit 0 demo_fp empty_srv).2)).1
  = Err rate_limited.
Proof.
  apply (per_install_limit 0 (seconds 4) demo_fp empty_srv _ [(seconds 2, "aa")]);
    [vm_compute; reflexivity|vm_compute; discriminate|vm_compute; reflexivity|].
  repeat constructor; vm_compute; discriminate.
Defined.

Lemma global_limit_witness :
  accepted [(0, "aa"); (1, "bb"); (2, "aa")] empty_srv ≤ 40.
Proof.
  apply (global_limit 0); [split; vm_compute; discriminate|].
  repeat constructor; vm_compute; (reflexivity || discriminate).
Defined.

(** A revocation of an installation that has no trial yet does not stop it from
    starting one: [trial_start] reads [revoked_reason] of the trial row only. *)
Lemma revoked_install_starts_a_trial :
  let s := (@revoke decimal_time (hours 1) demo_fp "*" "fraud" empty_srv).2 in
  revocations s !! (demo_fp, "*") ≠ None ∧ is_ok (demo_trial (seconds 9) (hours 2) s).1 = true.
Proof. split; [vm_compute; discriminate|vm_compute; reflexivity]. Qed.
