(* ===== verification/LicenseExchange.v ===== *)
(** * Client and service together

    The two ends of the phone-home protocol composed: what
    [security/license.rs] sends is what [license_server.rs] reads, and what the
    service answers is what the client activates. *)
From S2P Require Import Prelude RustStr Json Error License LicenseFile LicenseIO LicenseServer.
From Stdlib Require Import Ascii.

Section Exchange.
Context `{JsonText} `{Rfc3339} `{Crypto}.
Context (cfg : ServerConfig) (Hpem : private_pem_ok (signing_key_pem cfg) = true).

Definition signed_file (d : LicenseDoc) : value :=
  license_file_to_value (mkLicenseFile (license_doc_to_value d)
    (b64_encode (rsa_sign (signing_key_pem cfg) (canonical_bytes (license_doc_to_value d))))).

Lemma signed_file_ok d : doc_ok d = true → value_ok (signed_file d) = true.
Proof.
  intros Hd. apply json_obj_ok. repeat apply Forall_cons_2; try done.
  by apply license_doc_value_ok.
Qed.

Lemma sign_spec d lf : doc_ok d = true → sign cfg d = Ok lf → lf = signed_file d.
Proof.
  intros Hd. unfold sign, sign_license. rewrite Hpem. cbn [negb].
  rewrite json_pretty_roundtrip by (by apply signed_file_ok). by intros [= <-].
Qed.

Lemma verify_signed_file t d :
  doc_ok d = true → t < expires_at d →
  verify_license t (to_json_string (signed_file d)) (verify_key cfg) = Ok d.
Proof.
  intros Hd Ht. unfold verify_license.
  rewrite json_string_roundtrip by (by apply signed_file_ok).
  cbn [mbind option_bind]. unfold signed_file at 1. rewrite license_file_value_roundtrip.
  cbn [ok_or mbind result_bind lf_signature lf_license]. rewrite b64_roundtrip.
  cbn [ok_or mbind result_bind]. unfold verify_key.
  rewrite rsa_sign_ok, rsa_sign_verify by done. cbn [negb].
  rewrite license_doc_value_roundtrip by done. cbn [ok_or mbind result_bind].
  by rewrite (proj2 (Z.leb_gt _ _)) by lia.
Qed.

(** The client finds the license file inside a response object. *)
Lemma unwrap_response v l inner :
  v = json_obj l → value_ok v = true →
  assoc_last "license" l = None → assoc_last "license_file" l = Some inner →
  unwrap_license_response (to_json_string v) = to_json_string inner.
Proof.
  intros -> Hok Hl Hf. unfold unwrap_license_response.
  rewrite json_string_roundtrip by done. by rewrite !vget_json_obj, Hl, Hf.
Qed.

Lemma reattest_ok d e now :
  doc_ok d = true → dt_in_range e = true → dt_in_range now = true →
  doc_ok (reattest d e now) = true.
Proof.
  unfold doc_ok. intros Hd He Hn. cbn. rewrite He, Hn. cbn. by apply andb_true_iff in Hd as [_ ?].
Qed.

Context (naive_parse : string → option Z) (star_first : bool).
Context (env : string → option string) (embedded_pem : string) (clock : nat → Z)
      (writable : string → bool) (product_version pid : string)
      (status_display : Z → string) (json_error : string → string).
Context (Hkey : public_from_pem embedded_pem = Some (verify_key cfg))
      (Hrot : non_empty_var env "LICENSE_PUBLIC_KEY_PATH" = None)
      (Hw : ∀ p, writable p = true).

Lemma persist_succeeds raw w :
  wp (persist_license env clock writable pid raw)
     (λ r w', quiet w w' ∧ ∃ st, r = Ok st) w.
Proof.
  unfold persist_license, write_file, rename_file. rewrite !Hw. cbn [negb].
  wp_steps; [done|]. eapply wp_mono; [apply now_quiet|]. cbv beta.
  intros ? w1 (-> & Hq & _). wp_steps. cbn. rewrite lookup_insert_eq. wp_steps.
  eapply wp_mono; [apply file_stamp_quiet|]. cbv beta. intros ? ? [-> ->].
  split; [exact Hq|by eexists].
Qed.

(** The trial protocol works end to end: the request the client sends
    decodes to the request the service handles, and when the service grants
    the trial, the client that gets its answer activates exactly the granted
    license and is licensed from then on, until the trial expires or 72 hours
    pass without a heartbeat. *)
Theorem trial_exchange inst now header email em s s' resp server w rest :
  let fp := process_fingerprint w in
  let req := mkTrialStart fp (Some em) (Some PRODUCT_NAME) (Some product_version) in
  from_env env = Some server → validate_trial_email email = Ok em →
  fp ≠ "unavailable" → normalize_fingerprint fp = Ok fp →
  trial_start naive_parse cfg inst now header req s = (Ok resp, s') →
  p_replies w = Reply 200 (to_json_string (trial_response_to_value resp)) :: rest →
  dt_in_range now = true → dt_in_range (tr_expires_at resp) = true →
  clock (p_clock w) < tr_expires_at resp →
  wp (start_trial env embedded_pem clock true writable product_version pid status_display email)
     (λ r w', (∃ body, p_sent w' = p_sent w ++ [(base_url server +:+ "/v1/trial/start", body)] ∧
                       trial_start_of_value body = Some req) ∧
       ∃ lic, let d := trial_license now fp lic (tr_expires_at resp) in
         r = Ok d ∧ doc (p_state w') = Some d ∧
         ∀ t, is_licensed (p_state w') fp t = true ↔
              t < tr_expires_at resp ∧ t ≤ now + HEARTBEAT_GRACE) w.
Proof.
  intros fp req Hserver Hem Hfp Hnorm Hrun Hrep Hnow Hexp Hclock.
  destruct (trial_start_spec naive_parse cfg inst now header req s) as (_ & _ & Hok).
  rewrite Hrun in Hok. destruct (Hok resp eq_refl) as (fp' & em' & lic & _ & Hn & _ & Hsign & _).
  cbn in Hn. rewrite Hnorm in Hn. injection Hn as <-.
  set (d := trial_license now fp lic (tr_expires_at resp)) in *.
  assert (doc_ok d = true) as Hd by (unfold doc_ok; cbn; by rewrite Hexp, Hnow).
  apply sign_spec in Hsign; [|done].
  assert (unwrap_license_response (to_json_string (trial_response_to_value resp))
          = to_json_string (signed_file d)) as Hun.
  { eapply unwrap_response; [reflexivity| |reflexivity|cbn; by rewrite Hsign].
    apply json_obj_ok. repeat apply Forall_cons_2; try done. cbn. rewrite Hsign.
    by apply signed_file_ok. }
  unfold start_trial, activate_trial_phone_home, with_state. wp_steps; [bool_prop; done|].
  fold fp. rewrite Hem, Hserver. cbn [ok_or]. wp_steps; [done|].
  eapply wp_mono; [apply http_post_stable|]. cbv beta. intros ? w1 (Hs1 & Hc1 & Hsent & ->).
  rewrite Hrep. cbv iota. wp_steps; [done|].
  eapply wp_mono; [by apply (load_public_key_spec _ _ (verify_key cfg))|]. cbv beta.
  intros ? ? [-> ->]. cbv iota. wp_step.
  eapply wp_mono; [apply verify_spec|]. cbv beta. rewrite Hun. intros r w2 (Hq2 & _ & ->).
  rewrite verify_signed_file by (try done; cbn; by rewrite Hc1). cbv iota.
  wp_steps; [by bool_prop|by bool_prop|].
  eapply wp_mono; [apply persist_succeeds|]. cbv beta. intros ? w3 (Hq3 & st & ->). cbv iota.
  wp_steps. cbn [p_sent p_state doc activate]. split.
  - eexists. split; [|shelve]. destruct Hq2 as (_ & _ & _ & _ & Hse2 & _).
    destruct Hq3 as (_ & _ & _ & _ & Hse3 & _). rewrite Hse3, Hse2, Hsent. reflexivity.
    Unshelve. reflexivity.
  - exists lic. split_and!; [done|done|]. intros t.
    rewrite (is_licensed_iff _ _ _ d) by done. rewrite validity_ok_iff. cbn. split.
    + intros (_ & Ht & _ & Hg). destruct (Hg eq_refl) as (i & [= <-] & Hi). done.
    + intros [Ht Hg]. split_and!; [done|done|intros b [= <-]; by right|]. intros _. by exists now.
Qed.

(** What the service answers to a heartbeat verifies at the client as the
    presented document with the time of the heartbeat as its attestation. *)
Lemma answer_verifies inst tv now header lf s s' resp fp :
  normalize_fingerprint fp = Ok fp →
  heartbeat naive_parse star_first cfg inst tv now header
    (mkHeartbeatRequest fp lf (Some PRODUCT_NAME) (Some product_version)) s = (Ok resp, s') →
  dt_in_range now = true → dt_in_range (hp_expires_at resp) = true →
  ∃ d, verify_license tv (to_json_string lf) (verify_key cfg) = Ok d ∧ fingerprint d = Some fp ∧
    ∀ t, t < hp_expires_at resp →
      verify_license t (unwrap_license_response (to_json_string (heartbeat_response_to_value resp)))
        (verify_key cfg) = Ok (reattest d (hp_expires_at resp) now).
Proof.
  intros Hnorm Hrun Hnow Hexp.
  destruct (heartbeat_spec naive_parse star_first cfg inst tv now header
    (mkHeartbeatRequest fp lf (Some PRODUCT_NAME) (Some product_version)) s) as (_ & _ & Hok).
  rewrite Hrun in Hok. destruct (Hok resp eq_refl) as (fp' & d & _ & Hn & Hd & _ & _ & Hsign & _).
  cbn in Hn. rewrite Hnorm in Hn. injection Hn as <-.
  apply check_presented_spec in Hd as [Hv Hb]. exists d. split_and!; [done|done|]. intros t Ht.
  assert (doc_ok (reattest d (hp_expires_at resp) now) = true) as Hre
    by (apply reattest_ok; [by eapply verified_doc_ok|done|done]).
  apply sign_spec in Hsign; [|done].
  assert (unwrap_license_response (to_json_string (heartbeat_response_to_value resp))
          = to_json_string (signed_file (reattest d (hp_expires_at resp) now))) as ->.
  { eapply unwrap_response; [reflexivity| |reflexivity|cbn; by rewrite Hsign].
    apply json_obj_ok. repeat apply Forall_cons_2; try done. cbn. rewrite Hsign.
    by apply signed_file_ok. }
  by apply verify_signed_file.
Qed.

(** The heartbeat protocol works end to end: the request the client
    sends presents its own license file, and when the service re-attests it,
    the client's outcome is the refreshed license: the presented document
    with the time of the heartbeat as its attestation. *)
Theorem heartbeat_exchange inst tv now header raw_license lf s s' resp server fp w rest :
  let req := mkHeartbeatRequest fp lf (Some PRODUCT_NAME) (Some product_version) in
  from_json_str raw_license = Some lf → normalize_fingerprint fp = Ok fp →
  heartbeat naive_parse star_first cfg inst tv now header req s = (Ok resp, s') →
  p_replies w = Reply 200 (to_json_string (heartbeat_response_to_value resp)) :: rest →
  dt_in_range now = true → dt_in_range (hp_expires_at resp) = true →
  clock (p_clock w) < hp_expires_at resp →
  wp (heartbeat_once clock true product_version status_display json_error server fp raw_license
        (verify_key cfg))
     (λ r w', (∃ body, p_sent w' = p_sent w ++ [(base_url server +:+ "/v1/heartbeat", body)] ∧
                       heartbeat_request_of_value body = Some req) ∧
       ∃ d l, verify_license tv (to_json_string lf) (verify_key cfg) = Ok d ∧
         r = Ok (Refreshed l) ∧ l_doc l = reattest d (hp_expires_at resp) now) w.
Proof.
  intros req Hraw Hnorm Hrun Hrep Hnow Hexp Hclock.
  destruct (answer_verifies inst tv now header lf s s' resp fp Hnorm Hrun Hnow Hexp)
    as (d & Hv & Hb & Hans).
  unfold heartbeat_once. rewrite Hraw. cbv zeta. cbn [negb]. wp_step.
  eapply wp_mono; [apply http_post_stable|]. cbv beta. intros ? w1 (Hs1 & Hc1 & Hsent & ->).
  rewrite Hrep. cbv iota. change (200 =? 200) with true. cbv iota. wp_steps.
  eapply wp_mono; [apply verify_spec|]. cbv beta. intros r w2 (Hq2 & _ & ->).
  rewrite Hans by (by rewrite Hc1). cbv iota. wp_steps. split.
  - eexists. split; [|shelve]. destruct Hq2 as (_ & _ & _ & _ & Hse2 & _).
    rewrite Hse2, Hsent. reflexivity.
    Unshelve. reflexivity.
  - exists d. eexists. split; [done|]. rewrite bool_decide_true by done. split; [reflexivity|done].
Qed.
End Exchange.

(** ** Witnesses *)
Definition demo_proc (reply : value) : Proc :=
  mkProc default_state (Some true) (Some demo_fp) ∅ 0 [Reply 200 (bits_print reply)] [].

(** The service's run on the request the client of [demo_proc] sends. *)
Definition demo_run : result ServerError TrialResponse * Srv :=
  @trial_start bits_json decimal_time shared_key (λ _, None) demo_cfg 0 (hours 1) demo_header
    (mkTrialStart demo_fp (Some "ops@example.com") (Some PRODUCT_NAME) (Some "0.1")) empty_srv.
Definition demo_grant : TrialResponse :=
  match demo_run.1 with Ok r => r | Err _ => mkTrialResponse VNull 0 false end.
Definition demo_grant_state : Srv := demo_run.2.

Definition demo_presented : HeartbeatRequest :=
  mkHeartbeatRequest demo_fp (tr_license_file demo_grant) (Some PRODUCT_NAME) (Some "0.1").
Definition demo_beat : result ServerError HeartbeatResponse * Srv :=
  @heartbeat bits_json decimal_time shared_key (λ _, None) true demo_cfg (seconds 9) (hours 20)
    (hours 20) demo_header demo_presented demo_grant_state.
Definition demo_reattest : HeartbeatResponse :=
  match demo_beat.1 with Ok r => r | Err _ => mkHeartbeatResponse VNull 0 0 end.

Lemma trial_exchange_witness :
  let w := demo_proc (@trial_response_to_value decimal_time demo_grant) in
  let r := @start_trial bits_json decimal_time shared_key demo_env "vendor" demo_clock true
             (λ _, true) "0.1" "1" show_Z "ops@example.com" w in
  is_ok r.1 = true ∧ is_licensed (p_state r.2) demo_fp (hours 73) = true.
Proof.
  cbv zeta.
  destruct (@trial_exchange bits_json decimal_time shared_key demo_cfg eq_refl (λ _, None)
    demo_env "vendor" demo_clock (λ _, true) "0.1" "1" show_Z eq_refl eq_refl (λ _, eq_refl)
    0 (hours 1) demo_header "ops@example.com" "ops@example.com" empty_srv demo_grant_state demo_grant
    (mkServer "https://vendor.example" "secret")
    (demo_proc (@trial_response_to_value decimal_time demo_grant)) []) as [_ (lic & Hr & _ & Hl)].
  1-2: vm_compute; reflexivity.
  1: vm_compute; discriminate.
  1-2: vm_compute; reflexivity.
  1: reflexivity.
  1-3: vm_compute; reflexivity.
  rewrite Hr. split; [reflexivity|]. apply Hl. vm_compute. split; [reflexivity|discriminate].
Defined.

Lemma heartbeat_exchange_witness :
  let w := demo_proc (@heartbeat_response_to_value decimal_time demo_reattest) in
  ∃ l, (@heartbeat_once bits_json decimal_time shared_key demo_clock true "0.1" show_Z
          (λ _, EmptyString) (mkServer "https://vendor.example" "secret") demo_fp
          (bits_print (tr_license_file demo_grant)) "vendor" w).1 = Ok (Refreshed l) ∧
       issued_at (l_doc l) = Some (hours 20).
Proof.
  cbv zeta.
  destruct (@heartbeat_exchange bits_json decimal_time shared_key demo_cfg eq_refl (λ _, None) true
    demo_clock "0.1" show_Z (λ _, EmptyString) (seconds 9) (hours 20) (hours 20) demo_header
    (bits_print (tr_license_file demo_grant)) (tr_license_file demo_grant)
    demo_grant_state demo_beat.2 demo_reattest (mkServer "https://vendor.example" "secret") demo_fp
    (demo_proc (@heartbeat_response_to_value decimal_time demo_reattest)) [])
    as [_ (d & l & _ & Hr & Hl)].
  1-3: vm_compute; reflexivity.
  1: reflexivity.
  1-3: vm_compute; reflexivity.
  exists l. split; [exact Hr|]. rewrite Hl. reflexivity.
Defined.
