(* ===== verification/LicenseLiveness.v ===== *)
(** * The heartbeat loop keeps a license alive: [main.rs] and [security/license.rs]

    The loop that [main.rs] starts calls [heartbeat_tick] forever.  Between two
    ticks other replicas and operators may rewrite the store file, requests
    read the clock, and the license service is asked only when a heartbeat is
    due.  Here the loop is a relation between the process before and after its
    ticks, and what the service must do for the license to stay usable is
    stated as what it answers to the heartbeats that are due. *)
From S2P Require Import Prelude RustStr Json Error License LicenseFile LicenseIO LicenseServer LicenseExchange.
From Stdlib Require Import Ascii.

Definition HEARTBEAT_TICK_SECS : Z := 60.

Section Liveness.
Context `{JsonText} `{Rfc3339} `{Crypto}.
Context (cfg : ServerConfig) (Hpem : private_pem_ok (signing_key_pem cfg) = true).
Context (naive_parse : string → option Z) (star_first : bool).
Context (env : string → option string) (embedded_pem : string) (clock : nat → Z)
      (writable : string → bool) (product_version pid : string)
      (status_display : Z → string) (json_error : string → string).
Context (Hkey : public_from_pem embedded_pem = Some (verify_key cfg))
      (Hrot : non_empty_var env "LICENSE_PUBLIC_KEY_PATH" = None)
      (server : LicenseServer) (Hserver : from_env env = Some server)
      (fp : string) (Hfp : normalize_fingerprint fp = Ok fp).

Local Abbreviation tick :=
  (heartbeat_tick env embedded_pem clock true writable product_version pid status_display
     json_error).
Local Abbreviation reload := (reload_store_if_changed env embedded_pem clock).
Local Abbreviation interval := (heartbeat_interval (env "LICENSE_HEARTBEAT_INTERVAL_SECS")).

(** The process when a tick has looked at the store, and the time it reads. *)
Definition reloaded (w : Proc) : Proc := (reload w).2.
Definition tick_time (w : Proc) : Z := clock (p_clock (reloaded w)).

(** The next reply is what the service answers to the process's heartbeat:
    it re-attests the license, its clock is not an interval behind, and the
    answer arrives before the license in it expires. *)
Definition granted (w : Proc) (t : Z) : Prop :=
  ∃ raw_text lf inst tv now header s resp s' rest,
    raw (p_state w) = Some raw_text ∧ from_json_str raw_text = Some lf ∧
    heartbeat naive_parse star_first cfg inst tv now header
      (mkHeartbeatRequest fp lf (Some PRODUCT_NAME) (Some product_version)) s = (Ok resp, s') ∧
    p_replies w = Reply 200 (to_json_string (heartbeat_response_to_value resp)) :: rest ∧
    dt_in_range now = true ∧ dt_in_range (hp_expires_at resp) = true ∧
    t - interval ≤ now ∧ clock (S (p_clock w)) < hp_expires_at resp.

(** The service does its part in a tick: a heartbeat that is due is granted. *)
Definition answered (w : Proc) : Prop :=
  heartbeat_due interval (p_state (reloaded w)) (tick_time w) = true →
  granted (reloaded w) (tick_time w).

(** What happens outside the license code: time passes, the files change and
    the server's replies come in. *)
Inductive outside (p : Proc) : Proc → Prop :=
  | outside_step files n replies :
      outside p (mkProc (p_state p) (p_enforce p) (p_fp p) files (p_clock p + n)%nat replies
                        (p_sent p)).

(** A license as [activate] leaves it: bound to this installation or to none,
    not revoked, and no heartbeat has failed since. *)
Definition loaded (p : Proc) : Prop :=
  ∃ d, doc (p_state p) = Some d ∧ is_some (raw (p_state p)) = true ∧
    revoked_reason (p_state p) = None ∧ last_heartbeat_error (p_state p) = None ∧
    p_fp p = Some fp ∧ ∀ b, fingerprint d = Some b → b = fp.

(** The loop: [ticked p t] when [p] is the process after a tick that read
    the time [t], all ticks so far having been answered. *)
Inductive ticked : Proc → Z → Prop :=
  | ticked_first q : loaded q → answered q → ticked (tick q).2 (tick_time q)
  | ticked_next p t q : ticked p t → outside p q → answered q → ticked (tick q).2 (tick_time q).

(** Loaded, and attested within the interval before [t]. *)
Definition attested (p : Proc) (t : Z) : Prop :=
  loaded p ∧ ∀ d, doc (p_state p) = Some d → requires_heartbeat d = true →
    ∃ i, issued_at d = Some i ∧ t - i ≤ interval.

Lemma outside_keeps p q : outside p q → p_state q = p_state p ∧ p_fp q = p_fp p.
Proof. by intros []. Qed.

Lemma outside_loaded p q : outside p q → loaded p → loaded q.
Proof. by intros []. Qed.

(** A reload does not bring back a heartbeat error. *)
Lemma reload_no_error w :
  last_heartbeat_error (p_state w) = None →
  wp reload (λ _ w', last_heartbeat_error (p_state w') = None) w.
Proof.
  intros He. unfold reload_store_if_changed, snapshot, with_state. wp_step.
  eapply wp_mono; [apply file_stamp_quiet|]. intros ? ? [-> ->]. cbv iota.
  destruct (_ <$> _) as [stmp|]; [|by wp_steps]. wp_steps.
  destruct (bool_decide _); [by wp_steps|]. wp_steps.
  eapply wp_mono; [by apply (load_public_key_spec _ _ (verify_key cfg))|]. intros ? ? [-> ->].
  cbv iota. wp_steps. eapply wp_mono; [apply load_and_verify_path_spec|]. cbv beta.
  intros [l|e] w1 [(Hs & _) _]; cbv iota; wp_steps; [|cbn; by rewrite Hs].
  eapply wp_mono; [apply now_quiet|]. cbv beta. intros ? w2 (-> & (Hs2 & _) & _). cbv iota.
  destruct (should_adopt _ _ _ _); wp_steps; cbn; [done|]. by rewrite Hs2, Hs.
Qed.

Lemma reload_loaded w :
  loaded w → wp reload (λ r w', r = Ok tt ∧ w' = reloaded w ∧ loaded w') w.
Proof.
  intros (d & Hd & Hr & Hrev & He & Hpf & Hb).
  assert (wp reload (λ _ w', w' = reloaded w) w) as Heq by done.
  pose proof (wp_and _ _ _ _ Heq (wp_and _ _ _ _ (reload_no_error w He)
    (reload_spec env embedded_pem clock _ Hkey Hrot w))) as Hall.
  eapply wp_mono; [exact Hall|]. cbv beta.
  intros r w' (-> & He' & Hok & _ & Hpf' & _ & _ & _ & Hcase & _). split; [done|]. split; [done|].
  destruct Hcase as [(Hd' & Hr' & Hrev')|(l & n & Hst & (t & _ & Hlb) & _)].
  - exists d. rewrite Hd', Hr', Hrev', Hpf'. done.
  - exists (l_doc l). rewrite Hst in *. cbn. split_and!; try done; [congruence|].
    intros b Hbl. apply Hlb in Hbl. unfold process_fingerprint in Hbl. by rewrite Hpf in Hbl.
Qed.

(** A granted heartbeat refreshes the license. *)
Lemma attempt_attests t w raw_text :
  raw (p_state w) = Some raw_text → p_fp w = Some fp →
  (∃ w0, p_clock w = S (p_clock w0) ∧ p_state w = p_state w0 ∧ p_replies w = p_replies w0 ∧
     granted w0 t) →
  wp (heartbeat_attempt env embedded_pem clock true writable product_version pid status_display
        json_error raw_text t) (λ _ w', attested w' t) w.
Proof.
  intros Hraw Hpf (w0 & Hc0 & Hs0 & Hr0 & Hg).
  destruct Hg as (raw' & lf & inst & tv & now & header & s & resp & s' & rest & Hraw' & Hlf & Hrun
                  & Hrep & Hnow & Hexp & Hi & Hclock).
  assert (raw' = raw_text) as -> by congruence.
  destruct (answer_verifies cfg Hpem naive_parse star_first product_version inst tv now header lf
              s s' resp fp Hfp Hrun Hnow Hexp) as (d & _ & Hb & Hans).
  unfold heartbeat_attempt, with_state. wp_steps. rewrite Hserver. wp_steps.
  eapply wp_mono; [by apply (load_public_key_spec _ _ (verify_key cfg))|]. intros ? ? [-> ->].
  cbv iota. wp_steps. unfold process_fingerprint at 1. cbn [p_fp]. rewrite Hpf. cbn [default].
  unfold heartbeat_once. rewrite Hlf. cbv zeta. cbn [negb]. wp_steps.
  eapply wp_mono; [apply http_post_stable|]. cbv beta. intros ? w1 (Hs1 & Hc1 & _ & ->). cbv iota.
  cbn [p_replies]. rewrite Hr0, Hrep. cbv iota. change (200 =? 200) with true. cbv iota. wp_steps.
  eapply wp_mono; [apply verify_spec|]. cbv beta. intros r w2 (Hq2 & _ & ->).
  rewrite Hans by (rewrite Hc1; cbn; by rewrite Hc0). cbv iota. wp_steps.
  rewrite bool_decide_true by done. unfold apply_outcome, with_state. wp_steps.
  eapply wp_mono; [apply persist_license_quiet|]. cbv beta. intros r w3 (Hs3 & _ & Hf3 & _).
  cbv iota. wp_steps. split.
  - exists (reattest d (hp_expires_at resp) now). split_and!; try done.
    + cbn. rewrite Hf3. destruct Hq2 as (_ & _ & -> & _). by destruct Hs1 as (_ & _ & ->).
    + cbn. intros b. congruence.
  - intros ? [= <-] _. exists now. split; [done|lia].
Qed.

(** A license that is not due for a heartbeat was attested recently. *)
Lemma not_due_attested w t :
  loaded w → heartbeat_due interval (p_state w) t = false → attested w t.
Proof.
  intros Hl Hdue. split; [done|]. destruct Hl as (d & Hd & _ & Hrev & He & _).
  intros d' Hd' Hreq. assert (d' = d) as -> by congruence.
  unfold heartbeat_due in Hdue. rewrite Hd, Hreq, Hrev, He in Hdue. cbn in Hdue.
  destruct (issued_at d) as [i|]; [|done]. exists i. split; [done|].
  destruct (interval <=? t - i) eqn:Hle; [by destruct (last_heartbeat_attempt _)|]. bool_prop. lia.
Qed.

Lemma tick_attests w : loaded w → answered w → wp tick (λ _ w', attested w' (tick_time w)) w.
Proof.
  intros Hl Hans. unfold heartbeat_tick, snapshot. wp_step.
  eapply wp_mono; [by apply reload_loaded|]. cbv beta. intros ? w1 (-> & -> & Hl1). cbv iota.
  wp_steps. assert (wp (now clock) (λ r w', r = Ok (tick_time w) ∧
    p_clock w' = S (p_clock (reloaded w)) ∧ quiet (reloaded w) w') (reloaded w)) as Hn.
  { unfold wp, quiet; cbn. split_and!; try done; lia. }
  eapply wp_mono; [exact Hn|]. cbv beta. intros ? w2 (-> & Hc2 & Hs2 & _ & Hf2 & Hr2 & _). cbv iota.
  assert (loaded w2) as Hl2.
  { destruct Hl1 as (d & ?). exists d. by rewrite Hs2, Hf2. }
  destruct (heartbeat_due _ _ _) eqn:Hdue; cbn [negb].
  - destruct Hl1 as (d & Hd & Hr & _ & _ & Hpf & _). rewrite Hd.
    destruct (raw (p_state (reloaded w))) as [rt|] eqn:Hraw; [|done].
    apply attempt_attests; [by rewrite Hs2|by rewrite Hf2|]. exists (reloaded w).
    split_and!; [done..|]. by apply Hans.
  - wp_steps. apply not_due_attested; [done|]. by rewrite Hs2.
Qed.

Lemma ticked_attested p t : ticked p t → attested p t.
Proof.
  induction 1 as [q Hl Ha|p t q _ [Hl _] Ho Ha]; [by apply tick_attests|].
  apply tick_attests; [by eapply outside_loaded|done].
Qed.

(** C8: the heartbeat loop keeps an installation licensed for as long as the
    license service answers: when the embedded key is the service's and no
    rotation key replaces it, in every run of the loop, of any length, with
    the store rewritten by others between the ticks, in which the service
    grants each heartbeat that is due, the installation stays licensed for
    72 hours less the heartbeat interval after the last tick, until the
    license in force expires. *)
Theorem kept_alive p t q t1 :
  ticked p t → outside p q → t1 ≤ t + (HEARTBEAT_GRACE - interval) →
  ∃ d, doc (p_state q) = Some d ∧
       (t1 < expires_at d → is_licensed (p_state q) (process_fingerprint q) t1 = true).
Proof.
  intros Ht [files n replies] Ht1. cbn.
  destruct (ticked_attested p t Ht) as [(d & Hd & _ & Hrev & _ & Hpf & Hb) Ha].
  exists d. split; [done|]. intros Hx. rewrite (is_licensed_iff _ _ _ d) by done.
  split; [done|]. rewrite validity_ok_iff. unfold process_fingerprint. cbn. rewrite Hpf. cbn.
  split_and!; [done|intros b Hbd; right; by apply Hb|].
  intros Hreq. destruct (Ha d Hd Hreq) as (i & Hi & Hle). exists i. split; [done|lia].
Qed.
End Liveness.

(** ** Witness *)

(** The trial of [demo_grant], thirty hours after it was granted. *)
Definition kept_raw : string := bits_print (tr_license_file demo_grant).
Definition kept_doc : LicenseDoc :=
  match @verify_license bits_json decimal_time shared_key (hours 2) kept_raw "vendor" with
  | Ok d => d | Err _ => sample_license end.
Definition kept_proc : Proc :=
  mkProc (activate (mkLoaded kept_doc kept_raw None) default_state) (Some true) (Some demo_fp) ∅ 1
    [Reply 200 (bits_print (@heartbeat_response_to_value decimal_time demo_reattest))] [].

(** The license of hour 1 would have lapsed in hour 73; the tick of hour 31
    keeps the installation licensed through the next loop intervals. *)
Lemma kept_alive_witness :
  ∃ d, doc (p_state (demo_tick kept_proc)) = Some d ∧
       is_licensed (p_state (demo_tick kept_proc)) demo_fp (hours 79) = true ∧
       is_licensed (p_state (demo_tick kept_proc)) demo_fp
         (hours 31 + seconds HEARTBEAT_TICK_SECS) = true.
Proof.
  assert (p_fp (demo_tick kept_proc) = Some demo_fp) as Hfp by (vm_compute; reflexivity).
  assert (@ticked bits_json decimal_time shared_key demo_cfg (λ _, None) true demo_env "vendor" demo_clock (λ _, true)
    "0.1" "1" show_Z (λ _, EmptyString) demo_fp (demo_tick kept_proc) (hours 31)) as Hticked.
  { replace (hours 31) with (@tick_time bits_json decimal_time shared_key demo_env "vendor" demo_clock kept_proc)
      by (vm_compute; reflexivity).
    unfold demo_tick. apply ticked_first.
    - exists kept_doc. split_and!; [vm_compute; reflexivity..|]. intros b Hb.
      vm_compute in Hb. injection Hb as <-. vm_compute. reflexivity.
    - intros _. exists kept_raw, (tr_license_file demo_grant), (seconds 9), (hours 20), (hours 20),
        demo_header, demo_grant_state, demo_reattest, demo_beat.2, [].
      split_and!; [reflexivity|vm_compute; reflexivity|vm_compute; reflexivity|reflexivity| | | |];
        vm_compute; (reflexivity || discriminate). }
  assert (∀ t1, t1 ≤ hours 31 + (HEARTBEAT_GRACE - hours 24) →
    ∃ d, doc (p_state (demo_tick kept_proc)) = Some d ∧ (t1 < expires_at d →
      is_licensed (p_state (demo_tick kept_proc)) demo_fp t1 = true)) as Hrun.
  { intros t1 Ht1.
    assert (∃ q, outside (demo_tick kept_proc) q) as [q Hq] by (eexists; exact (outside_step _ ∅ 5 [])).
    destruct (outside_keeps _ _ Hq) as [Hst Hpf].
    destruct (@kept_alive bits_json decimal_time shared_key demo_cfg eq_refl (λ _, None) true
      demo_env "vendor" demo_clock (λ _, true) "0.1" "1" show_Z (λ _, EmptyString) eq_refl eq_refl
      (mkServer "https://vendor.example" "secret") eq_refl demo_fp eq_refl
      _ _ q t1 Hticked Hq Ht1) as (d & Hd & Hl).
    rewrite Hst in Hd. exists d. split; [exact Hd|]. intros Hx. specialize (Hl Hx).
    unfold process_fingerprint in Hl. rewrite Hst, Hpf, Hfp in Hl. exact Hl. }
  destruct (Hrun (hours 79)) as (d & Hd & H79); [vm_compute; discriminate|].
  destruct (Hrun (hours 31 + seconds HEARTBEAT_TICK_SECS)) as (d' & Hd' & H31);
    [vm_compute; discriminate|].
  exists d. split_and!; [exact Hd|apply H79|apply H31].
  - vm_compute in Hd. injection Hd as <-. vm_compute. reflexivity.
  - vm_compute in Hd'. injection Hd' as <-. vm_compute. reflexivity.
Defined.
