(* ===== verification/LicenseStore.v ===== *)
(** * The license service's process: [open_db] and [AppState::new] of
    [license_server.rs], and [bin/license_server.rs]

    The SQLite schema is created and brought up to date by idempotent
    statements each time the store is opened, by the service and by the
    revocation commands alike.  A statement may fail, or the process die,
    between any two of them; the script [faults] says which. *)
From S2P Require Import Prelude RustStr Json License LicenseFile LicenseIO LicenseServer.
From Stdlib Require Import Ascii.

(** ** The schema *)

(** The tables with their columns. *)
Record Sqlite : Type := mkSqlite { tables : gmap string (list string); faults : list bool }.

Abbreviation StoreM := (stM Sqlite string).

Definition sql_stmt : StoreM unit := λ s,
  (match faults s with true :: _ => Err "database error" | _ => Ok tt end,
   mkSqlite (tables s) (tail (faults s))).

Definition create_table_if_not_exists (table : string) (columns : list string) : StoreM unit :=
  _ ← sql_stmt;
  st_modify (λ s, mkSqlite (if is_some (tables s !! table) then tables s
                            else <[table := columns]> (tables s)) (faults s)).

(** [PRAGMA table_info]: no rows for a table that is not there. *)
Definition table_info (table : string) : StoreM (list string) :=
  _ ← sql_stmt; s ← st_get; mret (default [] (tables s !! table)).

Definition add_column (table column : string) : StoreM unit :=
  _ ← sql_stmt;
  s ← st_get;
  match tables s !! table with
  | None => throw ("no such table: " +:+ table)
  | Some columns =>
      if mem_str column columns then throw ("duplicate column name: " +:+ column)
      else st_modify (λ s, mkSqlite (<[table := columns ++ [column]]> (tables s)) (faults s))
  end.

Definition ensure_column (table column : string) : StoreM unit :=
  columns ← table_info table;
  if mem_str column columns then mret tt else add_column table column.

Definition trials_columns : list string :=
  ["fingerprint"; "email"; "started_at"; "expires_at"; "product"; "version"; "created_at"].
Definition revocations_columns : list string := ["fingerprint"; "licensee"; "reason"; "revoked_at"].
Definition added_columns : list string :=
  ["last_heartbeat_at"; "heartbeat_count"; "revoked_at"; "revoked_reason"].

Section Store.
(** The file system: which directories can be created, which databases
    opened. *)
Context (mkdir sqlite_open : string → result string unit).

Definition open_db (path : string) : StoreM unit :=
  _ ← (if is_empty (path_parent path) then mret tt else lift (mkdir (path_parent path)));
  _ ← lift (map_err (λ _, "opening sqlite " +:+ path) (sqlite_open path));
  _ ← create_table_if_not_exists "trials" trials_columns;
  _ ← create_table_if_not_exists "revocations" revocations_columns;
  _ ← ensure_column "trials" "last_heartbeat_at";
  _ ← ensure_column "trials" "heartbeat_count";
  _ ← ensure_column "trials" "revoked_at";
  ensure_column "trials" "revoked_reason".
End Store.

(** ** The process *)

(** The database's rows with the limiter's memory, and its schema. *)
Record Vendor : Type := mkVendor { v_srv : Srv; v_sqlite : Sqlite }.

Definition on_srv {A} (m : stM Srv string A) : stM Vendor string A := λ v,
  let '(r, s) := m (v_srv v) in (r, mkVendor s (v_sqlite v)).
Definition on_sqlite {A} (m : StoreM A) : stM Vendor string A := λ v,
  let '(r, s) := m (v_sqlite v) in (r, mkVendor (v_srv v) s).

(** What a run of the binary comes to. *)
Inductive VendorRun : Type :=
  | Helped                                  (** the usage text *)
  | Done                                    (** a revocation command *)
  | Serving (cfg : ServerConfig) (bind : string).

Definition DEFAULT_BIND : string := "0.0.0.0:8090".
Definition DEFAULT_DB : string := "./data/trials.db".

Section Vendor.
Context `{Rfc3339} `{Crypto}.
Context (mkdir sqlite_open : string → result string unit).
(** The environment, the files it names, the parser and listener of socket
    addresses. *)
Context (env : string → option string) (read_to_string : string → option string)
        (parse_addr bind_addr : string → result string unit).

(** [AppState::new]: the limiter starts empty. *)
Definition new_state (inst : Z) (cfg : ServerConfig) : stM Vendor string unit :=
  _ ← lift (config_validate cfg);
  on_srv (st_modify (λ s, mkSrv (trials s) (revocations s) ∅ (inst, 0) (s_faults s))).

Definition revoke_cmd (now : Z) (db_path : string) (args : list string) (is_revoke : bool)
    : stM Vendor string unit :=
  f ← lift (revoke_flags (mkFlags None None "revoked by vendor") args);
  fp ← lift (ok_or (f_fingerprint f) "--fingerprint required (full hex install ID)");
  _ ← on_sqlite (open_db mkdir sqlite_open db_path);
  on_srv (if is_revoke then revoke now fp (default "*" (f_licensee f)) (f_reason f)
          else unrevoke fp (f_licensee f) ≫= λ _, mret tt).

Definition serve_command (inst : Z) (db_path : string) : stM Vendor string VendorRun :=
  key_path ← lift (ok_or (env "LICENSE_SIGNING_KEY_PATH")
    "LICENSE_SIGNING_KEY_PATH required (path to PKCS#8 PEM; keep offline in production)");
  pem ← lift (ok_or (read_to_string key_path) ("reading " +:+ key_path));
  activation ← lift (ok_or (env "LICENSE_SERVER_TOKEN") "LICENSE_SERVER_TOKEN is required");
  let cfg := LicenseServer.mkConfig pem activation
               (default DEFAULT_TRIAL_DAYS (env "TRIAL_DAYS" ≫= parse_i64)) in
  let bind := default DEFAULT_BIND (env "LICENSE_SERVER_BIND") in
  _ ← on_sqlite (open_db mkdir sqlite_open db_path);
  _ ← new_state inst cfg;
  _ ← lift (map_err (λ _, "LICENSE_SERVER_BIND") (parse_addr bind));
  _ ← lift (bind_addr bind);
  mret (Serving cfg bind).

(** [main] *)
Definition vendor_main (inst now : Z) (args : list string) : stM Vendor string VendorRun :=
  let db_path := default DEFAULT_DB (env "LICENSE_TRIAL_DB") in
  match args with
  | [] => serve_command inst db_path
  | cmd :: rest =>
      if (cmd =? "revoke")%string then _ ← revoke_cmd now db_path rest true; mret Done
      else if (cmd =? "unrevoke")%string then _ ← revoke_cmd now db_path rest false; mret Done
      else if mem_str cmd ["help"; "-h"; "--help"] then mret Helped
      else throw ("unknown subcommand " +:+ cmd +:+ "; run with --help")
  end.
End Vendor.

(** ** Lemmas: the schema *)

(** A table whose columns can only have been appended to. *)
Definition extends_table (t t' : option (list string)) : Prop :=
  ∀ cols, t = Some cols → ∃ more, t' = Some (cols ++ more).

Lemma extends_table_refl t : extends_table t t.
Proof. intros cols ->. exists []. by rewrite app_nil_r. Qed.

Lemma extends_table_trans t1 t2 t3 : extends_table t1 t2 → extends_table t2 t3 → extends_table t1 t3.
Proof.
  intros H12 H23 cols H1. destruct (H12 _ H1) as [m H2]. destruct (H23 _ H2) as [m' ->].
  exists (m ++ m'). by rewrite app_assoc.
Qed.

(** What every statement of [open_db] keeps. *)
Definition grows (s s' : Sqlite) : Prop :=
  (∀ t, extends_table (tables s !! t) (tables s' !! t)) ∧ (faults s = [] → faults s' = []).

#[global] Instance grows_refl : Reflexive grows.
Proof. intros s. split; [intros t; apply extends_table_refl|done]. Qed.
#[global] Instance grows_trans : Transitive grows.
Proof.
  intros s1 s2 s3 [H12 F12] [H23 F23]. split; [|auto].
  intros t. by eapply extends_table_trans.
Qed.

Definition has_column (s : Sqlite) (table column : string) : Prop :=
  ∃ cols, tables s !! table = Some cols ∧ column ∈ cols.

Lemma grows_column s s' t c : grows s s' → has_column s t c → has_column s' t c.
Proof.
  intros [Hg _] (cols & Ht & Hc). destruct (Hg t cols Ht) as [more Hm].
  exists (cols ++ more). split; [done|]. apply elem_of_app. by left.
Qed.

Lemma grows_table s s' t : grows s s' → is_some (tables s !! t) = true → is_some (tables s' !! t) = true.
Proof.
  intros [Hg _]. destruct (tables s !! t) as [cols|] eqn:Ht; [|done]. by destruct (Hg t cols Ht) as [m ->].
Qed.

Lemma sql_stmt_spec s :
  wp sql_stmt (λ r s', tables s' = tables s ∧ (faults s = [] → faults s' = [] ∧ r = Ok tt)) s.
Proof. unfold wp, sql_stmt. cbn. split; [done|]. by intros ->. Qed.

Lemma grows_same s s' : tables s' = tables s → (faults s = [] → faults s' = []) → grows s s'.
Proof. intros Ht Hf. split; [|done]. intros t. rewrite Ht. apply extends_table_refl. Qed.

(** [open_db]'s two kinds of statement: what they keep, what they achieve, and
    that without failures they succeed. *)
Lemma create_table_spec t cols s :
  wp (create_table_if_not_exists t cols) (λ r s', grows s s' ∧
    (r = Ok tt → is_some (tables s' !! t) = true) ∧
    (is_some (tables s !! t) = true → tables s' = tables s) ∧
    (faults s = [] → r = Ok tt)) s.
Proof.
  unfold create_table_if_not_exists. wp_step. eapply wp_mono; [apply sql_stmt_spec|]. cbv beta.
  intros [[]|e] s1 [Ht Hf]; cbv iota.
  2: { split_and!; [|done|done|by intros [_ ?]%Hf]. apply grows_same; [done|]. by intros [? _]%Hf. }
  wp_steps. rewrite Ht. destruct (tables s !! t) as [c|] eqn:Hc; cbn [is_some tables].
  - split_and!; [|by rewrite Hc|done|done]. apply grows_same; [done|]. by intros [? _]%Hf.
  - rewrite lookup_insert_eq. split_and!; [|done|done|done]. split; [|by intros [? _]%Hf].
    intros t' cols' Ht'. cbn [tables]. destruct (decide (t' = t)) as [->|]; [congruence|].
    rewrite lookup_insert_ne by done. exists []. by rewrite app_nil_r.
Qed.

Lemma add_column_spec t c cols s :
  tables s !! t = Some cols → mem_str c cols = false →
  wp (add_column t c) (λ r s', grows s s' ∧ (r = Ok tt → has_column s' t c) ∧
    (faults s = [] → r = Ok tt)) s.
Proof.
  intros Hcols Hc. unfold add_column. wp_step. eapply wp_mono; [apply sql_stmt_spec|]. cbv beta.
  intros [[]|e] s1 [Ht Hf]; cbv iota.
  2: { split_and!; [|done|by intros [_ ?]%Hf]. apply grows_same; [done|]. by intros [? _]%Hf. }
  wp_steps. rewrite Ht, Hcols, Hc. wp_steps. split_and!; [|intros _|done].
  - split; [|by intros [? _]%Hf]. intros t' cols' Ht'. cbn [tables].
    destruct (decide (t' = t)) as [->|]; [rewrite lookup_insert_eq|rewrite lookup_insert_ne by done].
    + rewrite Hcols in Ht'. injection Ht' as <-. by eexists.
    + exists []. rewrite app_nil_r. first [exact Ht'|by rewrite Ht].
  - exists (cols ++ [c]). cbn [tables]. rewrite lookup_insert_eq. split; [done|].
    apply elem_of_app. right. by apply list_elem_of_singleton.
Qed.

Lemma ensure_column_spec t c s :
  is_some (tables s !! t) = true →
  wp (ensure_column t c) (λ r s', grows s s' ∧ (r = Ok tt → has_column s' t c) ∧
    (has_column s t c → tables s' = tables s) ∧ (faults s = [] → r = Ok tt)) s.
Proof.
  intros Hs. destruct (tables s !! t) as [cols|] eqn:Hcols; [clear Hs|done].
  unfold ensure_column, table_info. wp_steps. eapply wp_mono; [apply sql_stmt_spec|].
  cbv beta. intros [[]|e] s1 [Ht1 Hf1]; cbv iota.
  2: { split_and!; [|done|done|by intros [_ ?]%Hf1]. apply grows_same; [done|]. by intros [? _]%Hf1. }
  assert (grows s s1) as Hg1 by (apply grows_same; [done|]; by intros [? _]%Hf1).
  wp_steps. rewrite Ht1, Hcols. change (default [] (Some cols)) with cols.
  destruct (mem_str c cols) eqn:Hc.
  - wp_steps. split; [exact Hg1|]. split_and!; [|done|done]. intros _. exists cols. rewrite Ht1.
    split; [done|]. by apply mem_str_true.
  - eapply wp_mono; [apply (add_column_spec t c cols); [by rewrite Ht1|done]|]. cbv beta.
    intros r s2 (Hg2 & Hok & Hno). split; [by etransitivity|]. split_and!; [done| |].
    + intros (cols' & Hc' & Hin%mem_str_true). rewrite Hcols in Hc'. injection Hc' as <-. congruence.
    + intros Hf. apply Hno. by destruct (Hf1 Hf).
Qed.

(** The tables there, and the columns later versions added. *)
Definition schema_migrated (s : Sqlite) : Prop :=
  (∀ c, c ∈ added_columns → has_column s "trials" c) ∧
  is_some (tables s !! "revocations") = true.

Lemma schema_migrated_column s c : schema_migrated s → c ∈ added_columns → has_column s "trials" c.
Proof. intros [Hs _]. apply Hs. Qed.

(** The columns the SQL of [license_server.rs] names: those of the first
    version, in its CREATE TABLEs and every statement on a trial or a
    revocation, and those of a trial's heartbeats and revocation. *)
Definition first_columns : list (string * list string) :=
  [("trials", ["fingerprint"; "email"; "started_at"; "expires_at"; "product"; "version"]);
   ("revocations", ["fingerprint"; "licensee"; "reason"; "revoked_at"])].
Definition used_columns : list (string * string) :=
  flat_map (λ p, map (pair p.1) p.2) first_columns ++
  map (pair "trials") ["last_heartbeat_at"; "heartbeat_count"; "revoked_at"; "revoked_reason"].

(** The schema the handlers' statements need. *)
Definition schema_ready (s : Sqlite) : Prop := ∀ t c, (t, c) ∈ used_columns → has_column s t c.

(** A store that some version has begun or finished: a table that is there has
    the columns of the first version. *)
Definition earlier (s : Sqlite) : Prop :=
  ∀ t base, (t, base) ∈ first_columns → ∀ cols, tables s !! t = Some cols → Forall (λ c, c ∈ cols) base.

(** All first columns of one table, decided. *)
Lemma first_columns_all t cols :
  forallb (λ p, negb (p.1 =? t)%string || forallb (λ c, mem_str c cols) p.2) first_columns = true →
  ∀ base, (t, base) ∈ first_columns → Forall (λ c, c ∈ cols) base.
Proof.
  rewrite forallb_forall. intros Hall base Hb%list_elem_of_In. specialize (Hall _ Hb). cbn in Hall.
  rewrite String.eqb_refl in Hall. cbn in Hall. apply list.Forall_forall. intros c Hc%list_elem_of_In.
  apply mem_str_true. rewrite forallb_forall in Hall. by apply Hall.
Qed.

Section StoreLemmas.
Context (mkdir sqlite_open : string → result string unit).

(** What a computation on the store that runs part of [open_db] does: the
    schema grows, reaching [P] when the run succeeds; nothing changes when
    [Q] held before; and nothing but a failing statement stops it. *)
Definition upgrades (P Q : Sqlite → Prop) (s : Sqlite) (r : result string unit) (s' : Sqlite) : Prop :=
  grows s s' ∧ (r = Ok tt → P s') ∧ (Q s → tables s' = tables s) ∧ (faults s = [] → r = Ok tt).

(** One more statement after a prefix. *)
Lemma upgrades_then (m k : StoreM unit) P P' Q s :
  wp m (upgrades P Q s) s →
  (∀ s1, P s1 → wp k (upgrades P' Q s1) s1) →
  (∀ s1 s2, tables s2 = tables s1 → Q s1 → Q s2) →
  wp (m ≫= λ _, k) (upgrades P' Q s) s.
Proof.
  intros Hm Hk HQ. wp_step. eapply wp_mono; [exact Hm|]. cbv beta.
  intros [[]|e] s1 (Hg & HP & Hsame & Hf); cbv iota.
  2: { split; [exact Hg|]. split_and!; [done|done|]. by intros ?%Hf. }
  eapply wp_mono; [by apply Hk, HP|]. cbv beta. intros r s2 (Hg2 & HP2 & Hsame2 & Hf2).
  split; [by etransitivity|]. split_and!; [done| |].
  - intros Hq. rewrite (Hsame2 (HQ s s1 (Hsame Hq) Hq)). by apply Hsame.
  - intros Hfs. by apply Hf2, Hg.
Qed.

(** The file system lets the store be opened. *)
Definition store_opens (path : string) : bool :=
  (is_empty (path_parent path) || is_ok (mkdir (path_parent path))) && is_ok (sqlite_open path).

Definition complete (s : Sqlite) : Prop := is_some (tables s !! "trials") = true ∧ schema_migrated s.

Lemma complete_tables s1 s2 : tables s2 = tables s1 → complete s1 → complete s2.
Proof. unfold complete, schema_migrated, has_column. by intros ->. Qed.

Lemma create_upgrades t cols P s :
  P s → (∀ s s', grows s s' → P s → P s') → (∀ s, complete s → is_some (tables s !! t) = true) →
  wp (create_table_if_not_exists t cols)
     (upgrades (λ s, P s ∧ is_some (tables s !! t) = true) complete s) s.
Proof.
  intros HP Hmono Hc. eapply wp_mono; [apply create_table_spec|]. cbv beta.
  intros r s' (Hg & Hok & Hsame & Hf). split; [exact Hg|]. split_and!; [|by intros ?%Hc%Hsame|done].
  intros Hr. split; [by eapply Hmono|by apply Hok].
Qed.

(** What the statements before have established, for a list of columns. *)
Definition columns_there (l : list string) (s : Sqlite) : Prop :=
  (is_some (tables s !! "trials") = true ∧ is_some (tables s !! "revocations") = true) ∧
  ∀ c, c ∈ l → has_column s "trials" c.

Lemma columns_there_grows l s s' : grows s s' → columns_there l s → columns_there l s'.
Proof.
  intros Hg [[Ht Hr] Hl]. split; [split; by eapply grows_table|].
  intros c Hc. by eapply grows_column, Hl.
Qed.

Lemma ensure_next c l s :
  c ∈ added_columns → columns_there l s →
  wp (ensure_column "trials" c) (upgrades (columns_there (c :: l)) complete s) s.
Proof.
  intros Hc Hl. eapply wp_mono; [apply ensure_column_spec; apply Hl|]. cbv beta.
  intros r s' (Hg & Hcol & Hsame & Hf). split; [exact Hg|]. split_and!; [|intros [_ Hr]|done].
  - intros Hr. destruct (columns_there_grows _ _ _ Hg Hl) as [Ht Hl']. split; [done|].
    intros c' [->|Hc']%elem_of_cons; [by apply Hcol|by apply Hl'].
  - by apply Hsame, schema_migrated_column.
Qed.

Lemma open_db_upgrades path s :
  store_opens path = true →
  wp (open_db mkdir sqlite_open path) (upgrades complete complete s) s.
Proof.
  intros [Hmk Hop]%andb_true_iff. unfold open_db. wp_step. assert (∀ Q, Q (Ok tt) s →
    wp (if is_empty (path_parent path) then mret tt else lift (mkdir (path_parent path))) Q s) as Hdir.
  { intros Q HQ. destruct (is_empty _); wp_steps; [done|].
    by destruct (mkdir (path_parent path)) as [[]|]. }
  apply Hdir. wp_steps. destruct (sqlite_open path) as [[]|]; [|done]. cbn [map_err]. cbv iota.
  eapply upgrades_then;
    [apply (create_upgrades _ _ (λ _, True)); [done|done|by intros ? [? _]]| |exact complete_tables].
  intros s1 [_ H1]. eapply upgrades_then;
    [apply (create_upgrades _ _ (λ s, is_some (tables s !! "trials") = true));
      [done|intros; by eapply grows_table|by intros ? [_ [_ ?]]]| |exact complete_tables].
  intros s2 [H2 H2']. assert (columns_there [] s2) as Hc by (split; [done|by intros c ?%not_elem_of_nil]).
  do 3 (eapply upgrades_then;
    [eapply ensure_next; [by apply mem_str_true|eassumption]| |exact complete_tables]; intros).
  eapply wp_mono; [eapply ensure_next; [by apply mem_str_true|eassumption]|]. cbv beta.
  intros r s' (Hg & HP & Hsame & Hf). split; [exact Hg|]. split_and!; [|done|done].
  intros Hr. destruct (HP Hr) as [[Ht Hrv] Hl]. split; [done|]. split; [|done].
  intros c Hcol. apply Hl. revert Hcol. unfold added_columns. set_solver.
Qed.

(** Attempts to open the store, each with its own failures. *)
Definition open_attempts (path : string) (scripts : list (list bool)) (s : Sqlite) : Sqlite :=
  fold_left (λ s fs, (open_db mkdir sqlite_open path (mkSqlite (tables s) fs)).2) scripts s.

Lemma open_attempts_grow path scripts s :
  store_opens path = true →
  ∀ t c, has_column s t c → has_column (open_attempts path scripts s) t c.
Proof.
  intros Hop. revert s. induction scripts as [|fs scripts IH]; intros s t c Hc; [done|].
  apply IH. destruct (open_db_upgrades path (mkSqlite (tables s) fs) Hop) as [Hg _].
  by eapply grows_column.
Qed.

(** Every statement of [open_db] keeps the stores of earlier versions. *)
Definition keeps_earlier {A} (m : StoreM A) : Prop := ∀ s, earlier s → earlier (m s).2.

Lemma keeps_earlier_bind {A B} (m : StoreM A) (k : A → StoreM B) :
  keeps_earlier m → (∀ a, keeps_earlier (k a)) → keeps_earlier (m ≫= k).
Proof.
  intros Hm Hk s Hs. specialize (Hm s Hs). unfold mbind, stM_bind. destruct (m s) as [[a|e] s1]; [|done]. by apply Hk.
Qed.
Lemma keeps_earlier_same {A} (m : StoreM A) : (∀ s, tables (m s).2 = tables s) → keeps_earlier m.
Proof. intros Hm s Hs t base Hb cols. rewrite Hm. by apply Hs. Qed.

Lemma create_keeps_earlier t cols :
  (∀ base, (t, base) ∈ first_columns → Forall (λ c, c ∈ cols) base) → keeps_earlier (create_table_if_not_exists t cols).
Proof.
  intros Hc. apply keeps_earlier_bind; [by apply keeps_earlier_same|intros []]. intros s Hs t' base Hb cols'. cbn.
  destruct (tables s !! t) eqn:Ht; cbn; [by apply Hs|].
  destruct (decide (t' = t)) as [->|Hne]; [rewrite lookup_insert_eq; intros [= <-]; by apply Hc|].
  rewrite lookup_insert_ne by done. by apply Hs.
Qed.

Lemma ensure_keeps_earlier t c : keeps_earlier (ensure_column t c).
Proof.
  unfold ensure_column, table_info.
  apply keeps_earlier_bind; [apply keeps_earlier_same; by intros [tb [|[] fs]]|intros cols].
  destruct (mem_str c cols); [by apply keeps_earlier_same|]. unfold add_column.
  apply keeps_earlier_bind; [by apply keeps_earlier_same|intros []].
  intros s Hs. unfold mbind, stM_bind, st_get. destruct (tables s !! t) as [cs|] eqn:Ht; [|exact Hs].
  destruct (mem_str c cs); [exact Hs|]. intros t' base Hb cols'. cbn.
  destruct (decide (t' = t)) as [->|Hne]; [rewrite lookup_insert_eq; intros [= <-]|by rewrite lookup_insert_ne by done; apply Hs].
  eapply list.Forall_impl; [by apply (Hs _ _ Hb)|]. intros x Hx. apply elem_of_app. by left.
Qed.

Lemma open_db_earlier path : keeps_earlier (open_db mkdir sqlite_open path).
Proof.
  unfold open_db. apply keeps_earlier_bind; [apply keeps_earlier_same; intros s; by destruct (is_empty (path_parent path))|intros ?].
  apply keeps_earlier_bind; [by apply keeps_earlier_same|intros ?].
  do 2 (apply keeps_earlier_bind; [apply create_keeps_earlier, first_columns_all; reflexivity|intros ?]).
  do 3 (apply keeps_earlier_bind; [apply ensure_keeps_earlier|intros ?]). apply ensure_keeps_earlier.
Qed.

Lemma open_attempts_earlier path scripts s : earlier s → earlier (open_attempts path scripts s).
Proof.
  revert s. induction scripts as [|fs scripts IH]; intros s Hs; [done|]. apply IH. by apply open_db_earlier.
Qed.

Lemma migrated_ready s : earlier s → complete s → schema_ready s.
Proof.
  intros He (Ht & Ha & Hr) t c Hin. unfold used_columns in Hin. apply elem_of_app in Hin as [Hin|Hin].
  - apply list_elem_of_In, in_flat_map in Hin as ([t' base] & Hb & Hin). apply in_map_iff in Hin as (c' & [= -> ->] & Hc).
    apply list_elem_of_In in Hb, Hc. assert (is_some (tables s !! t) = true) as Hs.
    { apply elem_of_cons in Hb as [[= -> _]|Hb]; [done|]. by apply list_elem_of_singleton in Hb as [= -> _]. }
    destruct (tables s !! t) as [cols|] eqn:Hcols; [|done]. exists cols. split; [done|].
    pose proof (He _ _ Hb _ Hcols) as Hall. rewrite list.Forall_forall in Hall. by apply Hall.
  - apply list_elem_of_In, in_map_iff in Hin as (c' & [= <- <-] & Hc). apply Ha. apply list_elem_of_In. exact Hc.
Qed.

(** C27: opening the license store completes any earlier schema: after any
    number of attempts that were cut short at any statement, on a store that is
    empty or of an earlier version (each of its tables has the columns of the
    first version), the next undisturbed attempt succeeds, every column of
    [trials] and [revocations] that the SQL of the handlers names is there and
    no column that was there is lost; opening it again changes nothing. *)
Theorem store_upgrades path scripts s :
  store_opens path = true → earlier s →
  let s1 := mkSqlite (tables (open_attempts path scripts s)) [] in
  let s2 := (open_db mkdir sqlite_open path s1).2 in
  (open_db mkdir sqlite_open path s1).1 = Ok tt ∧ schema_ready s2 ∧
  (∀ t c, has_column s t c → has_column s2 t c) ∧
  ∀ fs, tables (open_db mkdir sqlite_open path (mkSqlite (tables s2) fs)).2 = tables s2.
Proof.
  intros Hop He s1 s2. destruct (open_db_upgrades path s1 Hop) as (Hg & HP & _ & Hf).
  specialize (Hf eq_refl). specialize (HP Hf). split; [exact Hf|].
  split; [apply migrated_ready; [|exact HP]; by apply open_db_earlier, open_attempts_earlier|]. split.
  - intros t c Hc. eapply grows_column; [exact Hg|]. by apply (open_attempts_grow path scripts s).
  - intros fs. destruct (open_db_upgrades path (mkSqlite (tables s2) fs) Hop) as (_ & _ & Hsame & _).
    by apply Hsame.
Qed.
End StoreLemmas.

Definition old_store : Sqlite := mkSqlite {["trials" := trials_columns ++ ["revoked_at"]]} [].

Lemma store_upgrades_witness :
  ∃ s, open_db (λ _, Ok tt) (λ _, Ok tt) DEFAULT_DB (mkSqlite (tables old_store) []) = (Ok tt, s) ∧
       schema_ready s.
Proof.
  destruct (store_upgrades (λ _, Ok tt) (λ _, Ok tt) DEFAULT_DB [] old_store eq_refl)
    as (Hok & Hr & _).
  - intros t base Hb cols Hc. change (tables old_store) with ({["trials" := trials_columns ++ ["revoked_at"]]} : gmap string (list string)) in Hc.
    apply lookup_singleton_Some in Hc as [<- <-]. revert base Hb. apply first_columns_all. vm_compute. reflexivity.
  - eexists. split; [|exact Hr]. vm_compute. reflexivity.
Defined.

(** ** The process *)
Section Runs.
Context `{Rfc3339} `{Crypto}.
Context (mkdir sqlite_open : string → result string unit).

Lemma wp_on_srv {A} (m : stM Srv string A) Q v :
  wp m (λ r s, Q r (mkVendor s (v_sqlite v))) (v_srv v) → wp (on_srv m) Q v.
Proof. unfold wp, on_srv. by destruct (m (v_srv v)). Qed.

Lemma wp_on_sqlite {A} (m : StoreM A) Q v :
  wp m (λ r s, Q r (mkVendor (v_srv v) s)) (v_sqlite v) → wp (on_sqlite m) Q v.
Proof. unfold wp, on_sqlite. by destruct (m (v_sqlite v)). Qed.

Lemma open_db_ready path s :
  wp (open_db mkdir sqlite_open path) (λ r s', r = Ok tt → schema_migrated s') s.
Proof.
  destruct (store_opens mkdir sqlite_open path) eqn:Hop.
  { eapply wp_mono; [by apply open_db_upgrades|]. cbv beta. intros r s' (_ & HP & _) Hr. by apply HP. }
  unfold open_db, store_opens in *.
  destruct (is_empty (path_parent path)); cbn [orb] in Hop;
    [|destruct (mkdir (path_parent path)) as [[]|e] eqn:Hmk].
  all: wp_steps; rewrite ?Hmk; cbv iota; wp_steps; destruct (sqlite_open path) as [[]|]; done.
Qed.

Lemma serve_checked env read_to_string parse_addr bind_addr inst path v :
  wp (serve_command mkdir sqlite_open env read_to_string parse_addr bind_addr inst path)
     (λ r v', ∀ cfg bind, r = Ok (Serving cfg bind) →
        config_validate cfg = Ok tt ∧ schema_migrated (v_sqlite v') ∧
        trials (v_srv v') = trials (v_srv v) ∧ revocations (v_srv v') = revocations (v_srv v) ∧
        per_fingerprint (v_srv v') = ∅) v.
Proof.
  unfold serve_command, new_state. wp_steps. destruct (env "LICENSE_SIGNING_KEY_PATH") as [kp|]; [|done].
  cbn [ok_or]. cbv iota. wp_steps. destruct (read_to_string kp) as [pem|]; [|done]. cbn [ok_or].
  cbv iota. wp_steps. destruct (env "LICENSE_SERVER_TOKEN") as [tok|]; [|done]. cbn [ok_or]. cbv iota.
  wp_steps. apply wp_on_sqlite. eapply wp_mono; [apply open_db_ready|]. cbv beta.
  intros [[]|e] sq Hready; cbv iota; [|done]. wp_steps.
  destruct (config_validate _) as [[]|e] eqn:Hv; cbv iota; [|done]. apply wp_on_srv. wp_steps.
  destruct (parse_addr _) as [[]|e]; cbn [map_err]; cbv iota; [|done]. wp_steps.
  destruct (bind_addr _) as [[]|e]; cbv iota; [|done]. wp_steps.
  intros cfg bind [= <- <-]. cbn. split_and!; try done. by apply Hready.
Qed.

Lemma config_validate_ok cfg :
  config_validate cfg = Ok tt →
  32 ≤ str_len (activation_token cfg) ∧ 1 ≤ trial_days cfg ≤ 30 ∧
  private_pem_ok (signing_key_pem cfg) = true.
Proof.
  unfold config_validate, MIN_TOKEN_LEN. destruct (str_len _ <? 32) eqn:Ht; [done|].
  destruct (negb (_ && _)) eqn:Hd; [done|]. destruct (private_pem_ok _); [|done]. intros _.
  bool_prop. lia.
Qed.

(** The vendor's process is safe to start: it serves only with a token of
    at least 32 characters, trials of 1 to 30 days and a readable signing key,
    on a complete schema and with an empty limiter; the rows are untouched.
    The revocation commands need neither key nor token: whatever the
    environment says besides the store's path, they do the same. *)
Theorem vendor_starts_checked env read_to_string parse_addr bind_addr inst now args v cfg bind v' :
  vendor_main mkdir sqlite_open env read_to_string parse_addr bind_addr inst now args v
    = (Ok (Serving cfg bind), v') →
  args = [] ∧ 32 ≤ str_len (activation_token cfg) ∧ 1 ≤ trial_days cfg ≤ 30 ∧
  private_pem_ok (signing_key_pem cfg) = true ∧ schema_migrated (v_sqlite v') ∧
  trials (v_srv v') = trials (v_srv v) ∧ revocations (v_srv v') = revocations (v_srv v) ∧
  per_fingerprint (v_srv v') = ∅ ∧
  ∀ env', env' "LICENSE_TRIAL_DB" = env "LICENSE_TRIAL_DB" → ∀ cmd args',
    vendor_main mkdir sqlite_open env' (λ _, None) parse_addr bind_addr inst now (cmd :: args') v
    = vendor_main mkdir sqlite_open env read_to_string parse_addr bind_addr inst now (cmd :: args') v.
Proof.
  intros Hrun. destruct args as [|cmd args].
  - pose proof (serve_checked env read_to_string parse_addr bind_addr inst
      (default DEFAULT_DB (env "LICENSE_TRIAL_DB")) v) as Hs. unfold wp in Hs.
    unfold vendor_main in Hrun. rewrite Hrun in Hs.
    destruct (Hs cfg bind eq_refl) as (Hv & Hready & Ht & Hr & Hp).
    apply config_validate_ok in Hv as (? & ? & ?). split_and!; try done; try lia.
    intros env' He cmd args'. unfold vendor_main. by rewrite He.
  - exfalso. revert Hrun. unfold vendor_main.
    unfold mbind, stM_bind, mret, stM_ret, throw. intros Hrun.
    repeat case_match; simplify_eq.
Qed.
End Runs.

Definition vendor_env (k : string) : option string :=
  if (k =? "LICENSE_SIGNING_KEY_PATH")%string then Some "vendor.pem"
  else if (k =? "LICENSE_SERVER_TOKEN")%string then Some (activation_token demo_cfg) else None.
Definition vendor_sample : Vendor := mkVendor empty_srv old_store.

Lemma vendor_starts_checked_witness :
  ∃ cfg v', @vendor_main decimal_time shared_key (λ _, Ok tt) (λ _, Ok tt) vendor_env (λ _, Some "vendor")
     (λ _, Ok tt) (λ _, Ok tt) 0 0 [] vendor_sample = (Ok (Serving cfg DEFAULT_BIND), v') ∧
     1 ≤ trial_days cfg ≤ 30 ∧ schema_migrated (v_sqlite v').
Proof.
  destruct (@vendor_main decimal_time shared_key (λ _, Ok tt) (λ _, Ok tt) vendor_env
    (λ _, Some "vendor") (λ _, Ok tt) (λ _, Ok tt) 0 0 [] vendor_sample) as [[[| |cfg bind]|e] v'] eqn:Hr;
    try (vm_compute in Hr; discriminate Hr).
  exists cfg, v'.
  destruct (@vendor_starts_checked decimal_time shared_key _ _ _ _ _ _ _ _ _ _ _ _ _ Hr)
    as (_ & _ & Hd & _ & Hs & _).
  split; [|split; [exact Hd|exact Hs]]. vm_compute in Hr. injection Hr as <- <- <-. reflexivity.
Defined.
