(* ===== verification/Db.v ===== *)
(** * The database: [apps/api/src/db.rs] and [apps/api/migrations]

    The tables the API reads and writes, one record per row type with the
    source's columns, and the enum types with their text forms.  A table is a
    finite map from its primary key. *)
From S2P Require Import Prelude RustStr Json LicenseFile.

(** ** Enum types *)

(** [job_status] *)
Inductive JobStatus : Type := Pending | Running | Paused | Succeeded | Failed | Cancelled.
#[global] Instance JobStatus_eq_dec : EqDecision JobStatus.
Proof. solve_decision. Defined.

Definition job_statuses : list JobStatus := [Pending; Running; Paused; Succeeded; Failed; Cancelled].
Definition job_status_text (s : JobStatus) : string :=
  match s with
  | Pending => "pending" | Running => "running" | Paused => "paused"
  | Succeeded => "succeeded" | Failed => "failed" | Cancelled => "cancelled"
  end.
(** The cast [$n::job_status]: an error on any other text. *)
Definition job_status_parse (s : string) : option JobStatus :=
  List.find (λ st, (job_status_text st =? s)%string) job_statuses.

(** [row_status] *)
Inductive RowStatus : Type :=
  | RowPending | RowRunning | RowSucceeded | RowFailed | RowSkipped | RowUnresolved.
#[global] Instance RowStatus_eq_dec : EqDecision RowStatus.
Proof. solve_decision. Defined.

Definition row_statuses : list RowStatus :=
  [RowPending; RowRunning; RowSucceeded; RowFailed; RowSkipped; RowUnresolved].
Definition row_status_text (s : RowStatus) : string :=
  match s with
  | RowPending => "pending" | RowRunning => "running" | RowSucceeded => "succeeded"
  | RowFailed => "failed" | RowSkipped => "skipped" | RowUnresolved => "unresolved"
  end.
Definition row_status_parse (s : string) : option RowStatus :=
  List.find (λ st, (row_status_text st =? s)%string) row_statuses.

(** ** Rows *)

Record JobRow : Type := mkJob {
  j_id : Z; j_org_id : Z;
  j_rule_template_id : Z; j_rule_template_version : Z;
  j_schedule_id : option Z;
  j_source_ref : value;
  j_status : JobStatus;
  j_totals_json : value;
  j_temporal_workflow_id : option string; j_temporal_run_id : option string;
  j_started_at : option Z; j_paused_at : option Z; j_finished_at : option Z;
  j_created_by : option Z; j_created_at : Z; j_updated_at : Z;
  j_batch_id : option Z; j_batch_stage_id : option Z;
  j_results_ref : option value;
  j_last_error : option string;
  j_export_status : option string; j_export_error : option string;
}.

Record JobRowDetail : Type := mkJobRowDetail {
  jr_job_id : Z; jr_row_index : Z; jr_status : RowStatus; jr_attempts : Z;
  jr_last_error : option string; jr_idempotency_key : option string;
  jr_row_json : option value; jr_payload_json : option value; jr_response_json : option value;
  jr_updated_at : Z;
}.

Record JobRowStepDetail : Type := mkJobRowStep {
  js_job_id : Z; js_row_index : Z; js_step_index : Z; js_step_name : string;
  js_status : RowStatus; js_attempts : Z; js_request_url : option string;
  js_request_json : option value; js_response_status : option Z; js_response_json : option value;
  js_last_error : option string; js_updated_at : Z;
}.

Record RuleTemplateRow : Type := mkTemplate {
  rt_id : Z; rt_org_id : Z; rt_template_key : string; rt_version : Z; rt_name : string;
  rt_schema_json : value; rt_published : bool; rt_created_by : option Z; rt_created_at : Z;
}.

Record ConnectorRow : Type := mkConnector {
  cn_id : Z; cn_org_id : Z; cn_name : string; cn_connector_kind : string; cn_config_json : value;
  cn_secret_id : option Z; cn_created_by : option Z; cn_created_at : Z; cn_updated_at : Z;
}.

Record SourceRow : Type := mkSource {
  sr_id : Z; sr_org_id : Z; sr_bucket : string; sr_object_key : string;
  sr_sha256 : option string; sr_etag : option string; sr_size_bytes : option Z;
  sr_filename : option string; sr_format : option string; sr_provenance : string;
  sr_created_by : option Z;
}.

Record ScheduleRow : Type := mkSchedule {
  sc_id : Z; sc_org_id : Z; sc_name : string; sc_rule_template_id : Z;
  sc_rule_template_version : Z; sc_connector_id : Z; sc_spec_json : value; sc_timezone : string;
  sc_overlap_policy : string; sc_catchup_window_seconds : Z; sc_enabled : bool;
  sc_next_run_at : option Z; sc_last_run_at : option Z; sc_temporal_schedule_id : option string;
  sc_created_by : option Z; sc_created_at : Z; sc_updated_at : Z;
}.

Record ScheduleRun : Type := mkRun {
  ru_id : Z; ru_schedule_id : Z; ru_job_id : option Z; ru_scheduled_time : Z;
  ru_actual_start_time : option Z; ru_status : JobStatus;
}.

(** Migration 0001, with [kind] and [revoked_at] of migration 0009; the API
    never reads [kms_key_id]. *)
Record SecretRow : Type := mkSecret {
  se_id : Z; se_org_id : Z; se_name : string; se_ciphertext : string; se_nonce : string;
  se_kind : string; se_revoked_at : option Z; se_created_at : Z; se_updated_at : Z;
}.

Record BatchRow : Type := mkBatch {
  ba_id : Z; ba_org_id : Z; ba_schedule_id : option Z; ba_connector_id : option Z;
  ba_batch_key : option string; ba_source_ref : value; ba_status : string;
  ba_on_stage_failure : string; ba_manifest_json : option value;
  ba_temporal_workflow_id : option string; ba_temporal_run_id : option string;
  ba_error_message : option string; ba_quarantine_ref : option value;
  ba_started_at : option Z; ba_finished_at : option Z; ba_created_at : Z; ba_updated_at : Z;
}.

Record BatchStageRow : Type := mkStage {
  bs_id : Z; bs_batch_id : Z; bs_stage_index : Z; bs_stage_key : string; bs_file_path : string;
  bs_template_key : string; bs_rule_template_id : option Z; bs_rule_template_version : option Z;
  bs_job_id : option Z; bs_status : string; bs_on_stage_failure : option string;
  bs_error_message : option string; bs_depends_on : list string;
  bs_created_at : Z; bs_updated_at : Z;
}.

Record SpecRow : Type := mkSpec {
  sp_id : Z; sp_org_id : Z; sp_name : string; sp_source_url : option string; sp_spec_json : value;
  sp_created_by : option Z; sp_created_at : Z; sp_updated_at : Z;
}.

Record LlmConfig : Type := mkLlm {
  lc_org_id : Z; lc_provider : string; lc_base_url : string; lc_model : string;
  lc_secret_id : option Z; lc_redact_pii : bool; lc_enabled : bool; lc_updated_by : option Z;
  lc_updated_at : Z;
}.

Record AuditEntry : Type := mkAudit {
  au_org_id : Z; au_actor : string; au_entity : string; au_entity_id : option string;
  au_action : string; au_before : option value; au_after : option value; au_ts : Z;
}.

(** ** The database

    [db_seq] hands out the identifiers of all BIGSERIAL columns: a value is
    used once.  [db_now] is the server's [now()]. *)
Record Db : Type := mkDb {
  db_now : Z;
  db_seq : Z;
  jobs : gmap Z JobRow;
  job_rows : gmap (Z * Z) JobRowDetail;
  job_row_steps : gmap (Z * Z * Z) JobRowStepDetail;
  rule_templates : gmap Z RuleTemplateRow;
  connectors : gmap Z ConnectorRow;
  sources : gmap Z SourceRow;
  schedules : gmap Z ScheduleRow;
  schedule_runs : gmap Z ScheduleRun;
  secrets : gmap Z SecretRow;
  batches : gmap Z BatchRow;
  batch_stages : gmap Z BatchStageRow;
  openapi_specs : gmap Z SpecRow;
  org_llm_configs : gmap Z LlmConfig;
  audit_log : list AuditEntry;
}.

(** Replacing one component. *)
Definition set_seq (x : Z) (d : Db) : Db :=
  mkDb (db_now d) x (jobs d) (job_rows d) (job_row_steps d) (rule_templates d) (connectors d)
    (sources d) (schedules d) (schedule_runs d) (secrets d) (batches d) (batch_stages d)
    (openapi_specs d) (org_llm_configs d) (audit_log d).
Definition set_jobs (x : gmap Z JobRow) (d : Db) : Db :=
  mkDb (db_now d) (db_seq d) x (job_rows d) (job_row_steps d) (rule_templates d)
    (connectors d) (sources d) (schedules d) (schedule_runs d) (secrets d) (batches d)
    (batch_stages d) (openapi_specs d) (org_llm_configs d) (audit_log d).
Definition set_job_rows (x : gmap (Z * Z) JobRowDetail) (d : Db) : Db :=
  mkDb (db_now d) (db_seq d) (jobs d) x (job_row_steps d) (rule_templates d) (connectors d)
    (sources d) (schedules d) (schedule_runs d) (secrets d) (batches d) (batch_stages d)
    (openapi_specs d) (org_llm_configs d) (audit_log d).
Definition set_job_row_steps (x : gmap (Z * Z * Z) JobRowStepDetail) (d : Db) : Db :=
  mkDb (db_now d) (db_seq d) (jobs d) (job_rows d) x (rule_templates d) (connectors d)
    (sources d) (schedules d) (schedule_runs d) (secrets d) (batches d) (batch_stages d)
    (openapi_specs d) (org_llm_configs d) (audit_log d).
Definition set_rule_templates (x : gmap Z RuleTemplateRow) (d : Db) : Db :=
  mkDb (db_now d) (db_seq d) (jobs d) (job_rows d) (job_row_steps d) x (connectors d)
    (sources d) (schedules d) (schedule_runs d) (secrets d) (batches d) (batch_stages d)
    (openapi_specs d) (org_llm_configs d) (audit_log d).
Definition set_connectors (x : gmap Z ConnectorRow) (d : Db) : Db :=
  mkDb (db_now d) (db_seq d) (jobs d) (job_rows d) (job_row_steps d) (rule_templates d) x
    (sources d) (schedules d) (schedule_runs d) (secrets d) (batches d) (batch_stages d)
    (openapi_specs d) (org_llm_configs d) (audit_log d).
Definition set_sources (x : gmap Z SourceRow) (d : Db) : Db :=
  mkDb (db_now d) (db_seq d) (jobs d) (job_rows d) (job_row_steps d) (rule_templates d)
    (connectors d) x (schedules d) (schedule_runs d) (secrets d) (batches d)
    (batch_stages d) (openapi_specs d) (org_llm_configs d) (audit_log d).
Definition set_schedules (x : gmap Z ScheduleRow) (d : Db) : Db :=
  mkDb (db_now d) (db_seq d) (jobs d) (job_rows d) (job_row_steps d) (rule_templates d)
    (connectors d) (sources d) x (schedule_runs d) (secrets d) (batches d)
    (batch_stages d) (openapi_specs d) (org_llm_configs d) (audit_log d).
Definition set_schedule_runs (x : gmap Z ScheduleRun) (d : Db) : Db :=
  mkDb (db_now d) (db_seq d) (jobs d) (job_rows d) (job_row_steps d) (rule_templates d)
    (connectors d) (sources d) (schedules d) x (secrets d) (batches d) (batch_stages d)
    (openapi_specs d) (org_llm_configs d) (audit_log d).
Definition set_secrets (x : gmap Z SecretRow) (d : Db) : Db :=
  mkDb (db_now d) (db_seq d) (jobs d) (job_rows d) (job_row_steps d) (rule_templates d)
    (connectors d) (sources d) (schedules d) (schedule_runs d) x (batches d)
    (batch_stages d) (openapi_specs d) (org_llm_configs d) (audit_log d).
Definition set_batches (x : gmap Z BatchRow) (d : Db) : Db :=
  mkDb (db_now d) (db_seq d) (jobs d) (job_rows d) (job_row_steps d) (rule_templates d)
    (connectors d) (sources d) (schedules d) (schedule_runs d) (secrets d) x
    (batch_stages d) (openapi_specs d) (org_llm_configs d) (audit_log d).
Definition set_batch_stages (x : gmap Z BatchStageRow) (d : Db) : Db :=
  mkDb (db_now d) (db_seq d) (jobs d) (job_rows d) (job_row_steps d) (rule_templates d)
    (connectors d) (sources d) (schedules d) (schedule_runs d) (secrets d) (batches d) x
    (openapi_specs d) (org_llm_configs d) (audit_log d).
Definition set_openapi_specs (x : gmap Z SpecRow) (d : Db) : Db :=
  mkDb (db_now d) (db_seq d) (jobs d) (job_rows d) (job_row_steps d) (rule_templates d)
    (connectors d) (sources d) (schedules d) (schedule_runs d) (secrets d) (batches d)
    (batch_stages d) x (org_llm_configs d) (audit_log d).
Definition set_org_llm_configs (x : gmap Z LlmConfig) (d : Db) : Db :=
  mkDb (db_now d) (db_seq d) (jobs d) (job_rows d) (job_row_steps d) (rule_templates d)
    (connectors d) (sources d) (schedules d) (schedule_runs d) (secrets d) (batches d)
    (batch_stages d) (openapi_specs d) x (audit_log d).
Definition set_audit_log (x : list AuditEntry) (d : Db) : Db :=
  mkDb (db_now d) (db_seq d) (jobs d) (job_rows d) (job_row_steps d) (rule_templates d)
    (connectors d) (sources d) (schedules d) (schedule_runs d) (secrets d) (batches d)
    (batch_stages d) (openapi_specs d) (org_llm_configs d) x.

(** ** Serialization of rows returned to clients and kept in the audit log *)
Definition json_opt_str : option string → value := json_opt VString.
Definition json_opt_int : option Z → value := json_opt json_int.
Definition json_opt_val : option value → value := json_opt id.

Section Rows.
Context `{Rfc3339}.

Definition json_time (t : Z) : value := VString (dt_serde t).
Definition json_opt_time : option Z → value := json_opt json_time.

Definition job_to_value (j : JobRow) : value := json_obj
  [("id", json_int (j_id j)); ("org_id", json_int (j_org_id j));
   ("rule_template_id", json_int (j_rule_template_id j));
   ("rule_template_version", json_int (j_rule_template_version j));
   ("schedule_id", json_opt_int (j_schedule_id j)); ("source_ref", j_source_ref j);
   ("status", VString (job_status_text (j_status j))); ("totals_json", j_totals_json j);
   ("temporal_workflow_id", json_opt_str (j_temporal_workflow_id j));
   ("temporal_run_id", json_opt_str (j_temporal_run_id j));
   ("started_at", json_opt_time (j_started_at j)); ("paused_at", json_opt_time (j_paused_at j));
   ("finished_at", json_opt_time (j_finished_at j)); ("created_by", json_opt_int (j_created_by j));
   ("created_at", json_time (j_created_at j)); ("updated_at", json_time (j_updated_at j));
   ("batch_id", json_opt_int (j_batch_id j)); ("batch_stage_id", json_opt_int (j_batch_stage_id j));
   ("results_ref", json_opt_val (j_results_ref j)); ("last_error", json_opt_str (j_last_error j));
   ("export_status", json_opt_str (j_export_status j));
   ("export_error", json_opt_str (j_export_error j))].

Definition job_row_detail_to_value (r : JobRowDetail) : value := json_obj
  [("job_id", json_int (jr_job_id r)); ("row_index", json_int (jr_row_index r));
   ("status", VString (row_status_text (jr_status r))); ("attempts", json_int (jr_attempts r));
   ("last_error", json_opt_str (jr_last_error r));
   ("idempotency_key", json_opt_str (jr_idempotency_key r));
   ("row_json", json_opt_val (jr_row_json r)); ("payload_json", json_opt_val (jr_payload_json r));
   ("response_json", json_opt_val (jr_response_json r)); ("updated_at", json_time (jr_updated_at r))].

Definition job_row_step_to_value (r : JobRowStepDetail) : value := json_obj
  [("job_id", json_int (js_job_id r)); ("row_index", json_int (js_row_index r));
   ("step_index", json_int (js_step_index r)); ("step_name", VString (js_step_name r));
   ("status", VString (row_status_text (js_status r))); ("attempts", json_int (js_attempts r));
   ("request_url", json_opt_str (js_request_url r)); ("request_json", json_opt_val (js_request_json r));
   ("response_status", json_opt_int (js_response_status r));
   ("response_json", json_opt_val (js_response_json r));
   ("last_error", json_opt_str (js_last_error r)); ("updated_at", json_time (js_updated_at r))].

Definition template_to_value (t : RuleTemplateRow) : value := json_obj
  [("id", json_int (rt_id t)); ("org_id", json_int (rt_org_id t));
   ("template_key", VString (rt_template_key t)); ("version", json_int (rt_version t));
   ("name", VString (rt_name t)); ("schema_json", rt_schema_json t);
   ("published", VBool (rt_published t)); ("created_by", json_opt_int (rt_created_by t));
   ("created_at", json_time (rt_created_at t))].

Definition connector_to_value (c : ConnectorRow) : value := json_obj
  [("id", json_int (cn_id c)); ("org_id", json_int (cn_org_id c)); ("name", VString (cn_name c));
   ("connector_kind", VString (cn_connector_kind c)); ("config_json", cn_config_json c);
   ("secret_id", json_opt_int (cn_secret_id c)); ("created_by", json_opt_int (cn_created_by c));
   ("created_at", json_time (cn_created_at c)); ("updated_at", json_time (cn_updated_at c))].

Definition schedule_to_value (s : ScheduleRow) : value := json_obj
  [("id", json_int (sc_id s)); ("org_id", json_int (sc_org_id s)); ("name", VString (sc_name s));
   ("rule_template_id", json_int (sc_rule_template_id s));
   ("rule_template_version", json_int (sc_rule_template_version s));
   ("connector_id", json_int (sc_connector_id s)); ("spec_json", sc_spec_json s);
   ("timezone", VString (sc_timezone s)); ("overlap_policy", VString (sc_overlap_policy s));
   ("catchup_window_seconds", json_int (sc_catchup_window_seconds s));
   ("enabled", VBool (sc_enabled s)); ("next_run_at", json_opt_time (sc_next_run_at s));
   ("last_run_at", json_opt_time (sc_last_run_at s));
   ("temporal_schedule_id", json_opt_str (sc_temporal_schedule_id s));
   ("created_by", json_opt_int (sc_created_by s)); ("created_at", json_time (sc_created_at s));
   ("updated_at", json_time (sc_updated_at s))].
End Rows.

(** ** Selections *)

Definition key_le {A} (a b : Z * A) : Prop := a.1 ≤ b.1.
#[global] Instance key_le_dec {A} (a b : Z * A) : Decision (key_le a b) := Z_le_dec a.1 b.1.

(** The rows of a table in the order of their keys. *)
Definition by_id {A} (t : gmap Z A) : list (Z * A) := merge_sort key_le (map_to_list t).

(** [WHERE id = $1 AND org_id = $2]. *)
Definition owned {A} (org_of : A → Z) (org id : Z) (t : gmap Z A) : option A :=
  opt_filter (λ r, org_of r =? org) (t !! id).

Definition job_of (org id : Z) (d : Db) : option JobRow := owned j_org_id org id (jobs d).

(** An optional [AND column = $n]. *)
Definition opt_matches {A} `{EqDecision A} (o : option A) (a : A) : bool :=
  match o with Some b => bool_decide (a = b) | None => true end.

(** [LIMIT $n]: PostgreSQL refuses a negative count. *)
Definition sql_limit {A} (n : Z) (l : list A) : result string (list A) :=
  if n <? 0 then Err "LIMIT must not be negative" else Ok (take (Z.to_nat n) l).

(** ** Constraint violations *)
Definition unique_violation : string := "duplicate key value violates unique constraint".
Definition foreign_key_violation : string := "violates foreign key constraint".

Lemma owned_Some {A} (org_of : A → Z) org_id id t r :
  owned org_of org_id id t = Some r ↔ t !! id = Some r ∧ org_of r = org_id.
Proof. unfold owned. rewrite opt_filter_Some, Z.eqb_eq. done. Qed.

Lemma by_id_elem {A} (t : gmap Z A) k v : (k, v) ∈ by_id t ↔ t !! k = Some v.
Proof. unfold by_id. rewrite merge_sort_Permutation. apply elem_of_map_to_list. Qed.

