(* ===== verification/World.v ===== *)
(** * The API process and its surroundings

    A handler runs against the database and the orchestrator's bridge.  Other
    transactions run between any two statements of a handler and a statement
    may fail, before or after it took effect: the script [w_turns] says, for
    each next statement, what the others do first and whether the statement
    fails.  The bridge's replies are a script too.  [w_hist] is the ghost list
    of this handler's own database steps, [w_calls] the requests it sent.

    Modelled here: [temporal.rs], [security/audit.rs], [middleware/auth.rs]. *)
From S2P Require Import Prelude RustStr Json Error LicenseFile Db.
From Stdlib Require Import Ascii.

Record Turn : Type := mkTurn {
  t_env : Db → Db;                        (** other transactions *)
  t_fault : option (bool * string);       (** an error; [true]: after it took effect *)
}.

(** What a request to the bridge meets: a refused connection, another
    transport error, or a response with its body when it is JSON. *)
Inductive BridgeReply : Type :=
  | Refused
  | Lost
  | Answer (status : Z) (body : option value).

Record World : Type := mkWorld {
  w_db : Db;
  w_turns : list Turn;
  w_bridge : list BridgeReply;
  w_calls : list (string * value);
  w_hist : list (Db * Db);
}.

Abbreviation Api := (stM World ApiError).

Definition quiet_turn : Turn := mkTurn id None.

Definition next_turn (w : World) : Turn * list Turn :=
  match w_turns w with [] => (quiet_turn, []) | t :: ts => (t, ts) end.

(** One SQL statement: its effect on the database, or the server's error. *)
Definition sql {A} (f : Db → result string (A * Db)) : Api A := λ w,
  let '(t, ts) := next_turn w in
  let db := t_env t (w_db w) in
  let stay e := (Err (Database e), mkWorld db ts (w_bridge w) (w_calls w) (w_hist w)) in
  match t_fault t with
  | Some (false, e) => stay e
  | fault =>
      match f db with
      | Err e => stay e
      | Ok (a, db') =>
          (match fault with Some (_, e) => Err (Database e) | None => Ok a end,
           mkWorld db' ts (w_bridge w) (w_calls w) (w_hist w ++ [(db, db')]))
      end
  end.

(** A read. *)
Definition query {A} (f : Db → A) : Api A := sql (λ d, Ok (f d, d)).
Definition query_err {A} (f : Db → result string A) : Api A := sql (λ d, (λ a, (a, d)) <$> f d).
(** A statement that cannot fail on its own. *)
Definition update {A} (f : Db → A * Db) : Api A := sql (λ d, Ok (f d)).

(** A transaction whose statements read only what it wrote itself: one step,
    rolled back by an error. *)
Definition transaction {A} (f : Db → ApiResult (A * Db)) : Api A := λ w,
  let '(t, ts) := next_turn w in
  let db := t_env t (w_db w) in
  let stay e := (Err e, mkWorld db ts (w_bridge w) (w_calls w) (w_hist w)) in
  match t_fault t with
  | Some (false, e) => stay (Database e)
  | fault =>
      match f db with
      | Err e => stay e
      | Ok (a, db') =>
          (match fault with Some (_, e) => Err (Database e) | None => Ok a end,
           mkWorld db' ts (w_bridge w) (w_calls w) (w_hist w ++ [(db, db')]))
      end
  end.

(** ** Authentication and roles *)
Record Claims : Type := mkClaims { sub : string; org : Z; role : string }.

Definition require_role (c : Claims) (required : list string) : ApiResult unit :=
  if mem_str (role c) required then Ok tt else Err Forbidden.

(** How the extractor refuses: a plain text, or an API error. *)
Inductive Rejection : Type :=
  | PlainText (status : Z) (text : string)
  | AsError (e : ApiError).

(** [AuthUser::from_request_parts]: the Authorization header, when present and
    printable, and the verification of [security/jwt.rs]. *)
Definition auth_user (jwt_verify : string → option Claims) (header : option string)
    : result Rejection Claims :=
  match header with
  | None => Err (PlainText 401 "missing bearer token")
  | Some auth =>
      match trim <$> strip_prefix "Bearer " auth with
      | None => Err (PlainText 401 "invalid bearer scheme")
      | Some token => ok_or (jwt_verify token) (AsError Unauthorized)
      end
  end.

(** [map_err] of an INSERT: a unique violation becomes a conflict. *)
Definition on_unique (conflict : string) (e : ApiError) : ApiError :=
  match e with
  | Database m => if (m =? unique_violation)%string then Conflict conflict else e
  | _ => e
  end.

(** ** The audit log *)
Definition audit_entry (c : Claims) (entity : string) (entity_id : option string) (action : string)
    (before after : option value) (d : Db) : AuditEntry :=
  mkAudit (org c) (sub c) entity entity_id action before after (db_now d).

Definition record_audit (c : Claims) (entity : string) (entity_id : option string)
    (action : string) (before after : option value) : Api unit :=
  update (λ d, (tt, set_audit_log (audit_log d ++ [audit_entry c entity entity_id action before after d]) d)).

(** ** The Temporal bridge *)
Inductive BridgeError : Type :=
  | WorkflowAlreadyRunning (msg : string)
  | WorkflowNotFound (msg : string)
  | ConnectRefused (msg : string)
  | BridgeFailure (msg : string).

Definition bridge_text (e : BridgeError) : string :=
  match e with
  | WorkflowAlreadyRunning m | WorkflowNotFound m | ConnectRefused m | BridgeFailure m => m
  end.

(** A call of the bridge never raises an [ApiError] itself. *)
Abbreviation Bridge A := (Api (result BridgeError A)).

Definition bridge_error_text (default_ : string) (payload : value) : string :=
  default default_ (get_str "error" payload).

Section BridgeClient.
(** Whether a bridge URL is configured, and the text of a status code. *)
Context (configured : bool) (status_display : Z → string).

Definition interpret (path : string) (r : BridgeReply) : result BridgeError value :=
  match r with
  | Refused => Err (ConnectRefused ("bridge request " +:+ path))
  | Lost => Err (BridgeFailure ("bridge request " +:+ path))
  | Answer status body =>
      let payload := default (VObject []) body in
      if status =? 409 then
        Err (WorkflowAlreadyRunning (bridge_error_text "workflow is already running" payload))
      else if status =? 404 then
        Err (WorkflowNotFound (bridge_error_text "workflow not found" payload))
      else if negb ((200 <=? status) && (status <? 300)) then
        Err (BridgeFailure ("bridge " +:+ path +:+ " returned " +:+ status_display status +:+ ": "
                            +:+ bridge_error_text "unknown error" payload))
      else Ok payload
  end.

Definition post (path : string) (body : value) : Bridge value := λ w,
  if negb configured then (Ok (Ok (json_obj [("stub", VBool true)])), w)
  else
    let '(r, rest) := match w_bridge w with [] => (Lost, []) | r :: rs => (r, rs) end in
    (Ok (interpret path r),
     mkWorld (w_db w) (w_turns w) rest (w_calls w ++ [(path, body)]) (w_hist w)).

Definition post_unit (path : string) (body : value) : Bridge unit :=
  r ← post path body; mret (r ≫= λ _, Ok tt).

Definition start_workflow (workflow_id workflow_type : string) (input : value) : Bridge string :=
  r ← post "/v1/workflows/start" (json_obj
        [("workflowId", VString workflow_id); ("workflowType", VString workflow_type);
         ("taskQueue", VString "migration"); ("input", input)]);
  mret (r ≫= λ resp, Ok (default ("run-" +:+ workflow_id) (get_str "runId" resp))).

Definition start_migration_workflow (workflow_id : string) (input : value) : Bridge string :=
  start_workflow workflow_id "MigrationWorkflow" input.

Definition signal_workflow (workflow_id signal : string) (payload : value) : Bridge unit :=
  post_unit "/v1/workflows/signal" (json_obj
    [("workflowId", VString workflow_id); ("signal", VString signal); ("payload", payload)]).

Definition cancel_workflow (workflow_id : string) : Bridge unit :=
  post_unit "/v1/workflows/cancel" (json_obj [("workflowId", VString workflow_id)]).

Definition test_sftp_connector (org_id connector_id : Z) : Bridge unit :=
  post_unit "/v1/connectors/sftp/test" (json_obj
    [("orgId", json_int org_id); ("connectorId", json_int connector_id)]).

(** [merge_spec]: [body] is an object. *)
Definition merge_key (k : string) (spec body : value) : value :=
  match get_str k spec with Some s => index_assign k (VString s) body | None => body end.
Definition merge_spec (body spec : value) : value := merge_key "every" spec (merge_key "cron" spec body).

Definition create_schedule (schedule_id : string) (spec workflow_input : value)
    (overlap_policy : string) (catchup_window_seconds : Z) (timezone : string) : Bridge unit :=
  post_unit "/v1/schedules/create" (merge_spec (json_obj
    [("scheduleId", VString schedule_id); ("timezone", VString timezone);
     ("overlapPolicy", VString overlap_policy);
     ("catchupWindowSeconds", json_int catchup_window_seconds);
     ("workflowType", VString "WatchPrefixWorkflow"); ("taskQueue", VString "migration");
     ("input", workflow_input)]) spec).

Definition update_schedule (schedule_id : string) (spec workflow_input : value) : Bridge unit :=
  post_unit "/v1/schedules/update"
    (merge_spec (json_obj [("scheduleId", VString schedule_id); ("input", workflow_input)]) spec).

Definition schedule_call (action schedule_id : string) : Bridge unit :=
  post_unit ("/v1/schedules/" +:+ action) (json_obj [("scheduleId", VString schedule_id)]).
Definition pause_schedule : string → Bridge unit := schedule_call "pause".
Definition unpause_schedule : string → Bridge unit := schedule_call "unpause".
Definition delete_schedule : string → Bridge unit := schedule_call "delete".
Definition trigger_schedule : string → Bridge unit := schedule_call "trigger".
End BridgeClient.

Definition is_already_running (e : BridgeError) : bool :=
  match e with WorkflowAlreadyRunning _ => true | _ => false end.
Definition is_not_found (e : BridgeError) : bool :=
  match e with WorkflowNotFound _ => true | _ => false end.

(** [cron_for_validation] *)
Definition cron_for_validation (expr : string) : result string string :=
  let trimmed := trim expr in
  let fields := split_whitespace_count trimmed in
  if fields =? 5 then Ok ("0 " +:+ trimmed)
  else if (fields =? 6) || (fields =? 7) then Ok trimmed
  else Err ("invalid cron: expected 5-field POSIX (m h dom mon dow) or 6/7-field with seconds, got "
            +:+ show_Z fields +:+ " fields").

(** [normalise_spec]; the [cron] and [humantime] parsers are crates. *)
Definition normalise_spec (cron_ok interval_ok : string → bool) (raw : value) : result string value :=
  match vget "cron" raw with
  | Some v =>
      cron ← ok_or (as_str v) "cron missing";
      let trimmed := trim cron in
      for_parse ← cron_for_validation trimmed;
      if cron_ok for_parse then Ok (json_obj [("cron", VString trimmed)]) else Err "invalid cron"
  | None =>
      match get_str "every" raw with
      | Some interval =>
          if interval_ok interval then Ok (json_obj [("every", VString interval)])
          else Err "invalid interval"
      | None => Err "spec must contain 'cron' or 'every'"
      end
  end.

(** ** What a handler writes

    [writes R m]: every database step [m] itself makes satisfies [R], and the
    database moves only by those steps and the other transactions, whatever
    these, the failures and the bridge's replies are. *)

(** The other transactions of the script all satisfy [E]. *)
Definition turns_in (E : Db → Db → Prop) (w : World) : Prop :=
  Forall (λ t, ∀ d, E d (t_env t d)) (w_turns w).

Definition writes {A} (R : Db → Db → Prop) (m : Api A) : Prop :=
  ∀ w, (∃ h, w_hist (m w).2 = w_hist w ++ h ∧ Forall (λ ab, R ab.1 ab.2) h ∧
             ∀ E, turns_in E w → Forall (λ ab, rtc (λ a b, E a b ∨ R a b) (w_db w) ab.1) h) ∧
       (∃ k, w_turns (m w).2 = drop k (w_turns w)) ∧
       ∀ E, turns_in E w → rtc (λ a b, E a b ∨ R a b) (w_db w) (w_db (m w).2).

Create HintDb writes.

Lemma turns_in_drop E w w' k :
  w_turns w' = drop k (w_turns w) → turns_in E w → turns_in E w'.
Proof. unfold turns_in. intros ->. apply Forall_drop. Qed.

Section Writes.
Context (R : Db → Db → Prop).

Lemma writes_stay {A} (m : Api A) :
  (∀ w, w_hist (m w).2 = w_hist w ∧ w_turns (m w).2 = w_turns w ∧ w_db (m w).2 = w_db w) → writes R m.
Proof.
  intros Hm w. destruct (Hm w) as (Hh & Ht & Hd). rewrite Hh, Ht, Hd. split_and!.
  - exists []. by rewrite app_nil_r.
  - by exists 0%nat.
  - done.
Qed.

Lemma writes_bind {A B} (m : Api A) (f : A → Api B) :
  writes R m → (∀ a, writes R (f a)) → writes R (m ≫= f).
Proof.
  intros Hm Hf w. specialize (Hm w). unfold mbind, stM_bind.
  destruct (m w) as [[a|e] w']; [|done]. cbn in Hm.
  destruct Hm as ((h & Hh & HR & Hrs) & (k & Hk) & Hr).
  destruct (Hf a w') as ((h' & Hh' & HR' & Hrs') & (k' & Hk') & Hr'). split_and!.
  - exists (h ++ h'). rewrite Hh', Hh, app_assoc. split_and!; [done|by apply Forall_app|].
    intros E HE. apply Forall_app. split; [by apply Hrs|].
    eapply Forall_impl; [|apply Hrs'; by eapply turns_in_drop].
    intros [x y] Hxy. etrans; [by apply Hr|exact Hxy].
  - exists (k + k')%nat. by rewrite Hk', Hk, drop_drop.
  - intros E HE. etrans; [by apply Hr|]. apply Hr'. by eapply turns_in_drop.
Qed.

Lemma writes_ret {A} (a : A) : writes R (mret a : Api A).
Proof. by apply writes_stay. Qed.
Lemma writes_throw {A} e : writes R (throw e : Api A).
Proof. by apply writes_stay. Qed.
Lemma writes_lift {A} (r : ApiResult A) : writes R (lift r).
Proof. by apply writes_stay. Qed.
Lemma writes_guard c e : writes R (guard_err c e).
Proof. by apply writes_stay. Qed.
Lemma writes_get : writes R (st_get : Api World).
Proof. by apply writes_stay. Qed.

(** The step of the other transactions before a statement. *)
Lemma next_turn_env E w :
  turns_in E w →
  rtc (λ a b, E a b ∨ R a b) (w_db w) (t_env (next_turn w).1 (w_db w)) ∧
  (next_turn w).2 = drop 1 (w_turns w).
Proof.
  unfold next_turn, turns_in. destruct (w_turns w) as [|t ts]; cbn; [done|].
  intros [Ht _]%Forall_cons_iff. split; [|by rewrite drop_0]. apply rtc_once. by left.
Qed.

Lemma writes_transaction {A} (f : Db → ApiResult (A * Db)) :
  (∀ d a d', f d = Ok (a, d') → R d d') → writes R (transaction f).
Proof.
  intros Hf w. unfold transaction. pose proof (λ E HE, next_turn_env E w HE) as Hn.
  assert (turns_in (λ _ _, True) w) as Htriv by (apply Forall_forall; done).
  destruct (next_turn w) as [t ts]. cbn in Hn. set (d := t_env t (w_db w)) in *.
  assert (∃ k, ts = drop k (w_turns w)) as Hk by (exists 1%nat; by apply (Hn (λ _ _, True))).
  assert (∀ r : result ApiError A, let s := (r, mkWorld d ts (w_bridge w) (w_calls w) (w_hist w)) in
    (∃ h, w_hist s.2 = w_hist w ++ h ∧ Forall (λ ab, R ab.1 ab.2) h ∧
          ∀ E, turns_in E w → Forall (λ ab, rtc (λ a b, E a b ∨ R a b) (w_db w) ab.1) h) ∧
    (∃ k, w_turns s.2 = drop k (w_turns w)) ∧
    ∀ E, turns_in E w → rtc (λ a b, E a b ∨ R a b) (w_db w) (w_db s.2)) as Hstay.
  { intros r. cbn. split_and!; [exists []; by rewrite app_nil_r|done|]. intros E HE. by apply Hn. }
  destruct (t_fault t) as [[[] e]|]; [|apply Hstay|]; destruct (f d) as [[a d']|e'] eqn:Hd;
    try apply Hstay; cbn.
  all: specialize (Hf _ _ _ Hd); split_and!; [|done|].
  all: try (exists [(d, d')]; split_and!; [done|by constructor|];
            intros E HE; constructor; [by apply Hn|constructor]).
  all: intros E HE; eapply rtc_r; [by apply Hn|by right].
Qed.

(** A statement is a transaction of its own. *)
Lemma sql_transaction {A} (f : Db → result string (A * Db)) w :
  sql f w = transaction (λ d, map_err Database (f d)) w.
Proof.
  unfold sql, transaction. destruct (next_turn w) as [t ts]. destruct (t_fault t) as [[[] e]|]; [|done|];
    by destruct (f (t_env t (w_db w))) as [[]|].
Qed.

Lemma writes_sql {A} (f : Db → result string (A * Db)) :
  (∀ d a d', f d = Ok (a, d') → R d d') → writes R (sql f).
Proof.
  intros Hf w. rewrite sql_transaction. apply writes_transaction. intros d a d' Hd%map_err_Ok. by apply Hf in Hd.
Qed.

Lemma writes_update {A} (f : Db → A * Db) : (∀ d, R d (f d).2) → writes R (update f).
Proof. intros Hf. apply writes_sql. intros d a d' [= Hd]. specialize (Hf d). by rewrite Hd in Hf. Qed.

Lemma writes_attempt {A} (m : Api A) :
  writes R m → writes R (attempt m : Api (result ApiError A)).
Proof. intros Hm w. specialize (Hm w). unfold attempt. by destruct (m w) as [r w']. Qed.

Lemma writes_with_err {A} f (m : Api A) : writes R m → writes R (with_err f m : Api A).
Proof. intros Hm w. specialize (Hm w). unfold with_err. by destruct (m w) as [r w']. Qed.

Context (Hrefl : ∀ d, R d d).

Lemma writes_query {A} (f : Db → A) : writes R (query f).
Proof. apply writes_sql. intros d a d' [= _ <-]. apply Hrefl. Qed.

Lemma writes_query_err {A} (f : Db → result string A) : writes R (query_err f).
Proof. apply writes_sql. intros d a d'. destruct (f d); cbn; [|done]. intros [= _ <-]. apply Hrefl. Qed.
End Writes.

(** An invariant kept by the others and by the handler. *)
Lemma writes_with_inv {A} (I : Db → Prop) (R E : Db → Db → Prop) (m : Api A) w :
  writes (λ d d', I d → R d d' ∧ I d') m → I (w_db w) → turns_in E w →
  (∀ d d', E d d' → I d → I d') →
  (∃ h, w_hist (m w).2 = w_hist w ++ h ∧ Forall (λ ab, R ab.1 ab.2) h) ∧ I (w_db (m w).2).
Proof.
  intros Hm HI HE HEI. destruct (Hm w) as ((h & Hh & HR & Hrs) & _ & Hr).
  assert (∀ d0 d, rtc (λ a b, E a b ∨ (I a → R a b ∧ I b)) d0 d → I d0 → I d) as Hinv.
  { intros d0 d. induction 1 as [|a b e [Hab|Hab] _ IH]; [done|..]; intros Ha; apply IH;
      [by eapply HEI|by apply Hab]. }
  split; [|by eapply Hinv; [apply Hr|]].
  exists h. split; [done|]. specialize (Hrs E HE). rewrite Forall_forall in *.
  intros ab Hin. apply HR; [done|]. eapply Hinv; [by apply Hrs|done].
Qed.

(** The handler's own steps between two worlds all satisfy [R]. *)
Definition did (R : Db → Db → Prop) (w w' : World) : Prop :=
  ∃ h, w_hist w' = w_hist w ++ h ∧ Forall (λ ab, R ab.1 ab.2) h.

Lemma did_refl R w : did R w w.
Proof. exists []. by rewrite app_nil_r. Qed.

Lemma did_trans R w1 w2 w3 : did R w1 w2 → did R w2 w3 → did R w1 w3.
Proof.
  intros (h & Hh & HR) (h' & Hh' & HR'). exists (h ++ h').
  rewrite Hh', Hh, app_assoc. split; [done|]. by apply Forall_app.
Qed.

Lemma did_one (R : Db → Db → Prop) w w' d d' : w_hist w' = w_hist w ++ [(d, d')] → R d d' → did R w w'.
Proof. intros Hh HR. exists [(d, d')]. split; [done|]. by repeat constructor. Qed.

Lemma did_none R w w' : w_hist w' = w_hist w → did R w w'.
Proof. intros Hh. exists []. by rewrite Hh, app_nil_r. Qed.

Lemma writes_did {A} R (m : Api A) w : writes R m → did R w (m w).2.
Proof. intros Hm. destruct (Hm w) as ((h & Hh & HR & _) & _). by exists h. Qed.

(** One statement among other transactions that all satisfy [E]. *)
Lemma wp_update_in {A} (E : Db → Db → Prop) (f : Db → A * Db) w (Q : ApiResult A → World → Prop) :
  turns_in E w → (∀ d, E d d) →
  (∀ r w' d, E (w_db w) d → turns_in E w' →
     (w_hist w' = w_hist w ∧ w_db w' = d ∧ is_ok r = false ∨
      w_hist w' = w_hist w ++ [(d, (f d).2)] ∧ w_db w' = (f d).2 ∧ (∀ a, r = Ok a → a = (f d).1)) →
     Q r w') →
  wp (update f) Q w.
Proof.
  intros Ht Hr HQ. unfold wp, update, sql, next_turn. unfold turns_in in Ht.
  destruct (w_turns w) as [|t ts].
  - cbn. unfold id. destruct (f (w_db w)) as [a d'] eqn:Hf. cbn.
    apply (HQ _ _ (w_db w)); [done|constructor|]. right. rewrite Hf. cbn. split_and!; [done..|].
    by intros ? [= ->].
  - apply Forall_cons_iff in Ht as [Ht Hts]. destruct (f (t_env t (w_db w))) as [a d'] eqn:Hf.
    destruct (t_fault t) as [[[] e]|]; cbn; (eapply HQ; [apply Ht|exact Hts|]); rewrite ?Hf; cbn; [right|left|right];
      split_and!; try done. by intros ? [= ->].
Qed.

Lemma wp_query_in {A} (E : Db → Db → Prop) (f : Db → A) w (Q : ApiResult A → World → Prop) :
  turns_in E w → (∀ d, E d d) →
  (∀ r w', E (w_db w) (w_db w') → turns_in E w' → did (λ d d', d' = d) w w' →
     (∀ a, r = Ok a → a = f (w_db w')) → Q r w') →
  wp (query f) Q w.
Proof.
  intros Ht Hr HQ. apply (wp_update_in E (λ d, (f d, d)) w Q Ht Hr). cbn.
  intros r w' d He Ht' [(Hh & <- & Hok)|(Hh & <- & Ha)]; apply HQ; try done.
  - by apply did_none.
  - by destruct r.
  - by eapply did_one.
Qed.

(** The same from one world: what was written, and what still holds. *)
Definition wrote (R E : Db → Db → Prop) (w w' : World) : Prop :=
  (∃ h, w_hist w' = w_hist w ++ h ∧ Forall (λ ab, R ab.1 ab.2) h) ∧ turns_in E w'.

Lemma wrote_trans R E w1 w2 w3 : wrote R E w1 w2 → wrote R E w2 w3 → wrote R E w1 w3.
Proof.
  intros [(h & Hh & HR) _] [(h' & Hh' & HR') Ht]. split; [|done].
  exists (h ++ h'). rewrite Hh', Hh, app_assoc. split; [done|]. by apply Forall_app.
Qed.

Lemma writes_wp {A} (I : Db → Prop) (R E : Db → Db → Prop) (m : Api A) w :
  writes (λ d d', I d → R d d' ∧ I d') m → I (w_db w) → turns_in E w →
  (∀ d d', E d d' → I d → I d') →
  wp m (λ _ w', wrote R E w w' ∧ I (w_db w')) w.
Proof.
  intros Hm HI HE HEI. destruct (writes_with_inv I R E m w Hm HI HE HEI) as [Hh HI'].
  split; [|done]. split; [done|]. destruct (Hm w) as (_ & (k & Hk) & _). by eapply turns_in_drop.
Qed.

Lemma writes_post R configured sd path body : writes R (post configured sd path body).
Proof. apply writes_stay. intros w. unfold post. by destruct configured, (w_bridge w). Qed.

Lemma writes_post_unit R configured sd path body : writes R (post_unit configured sd path body).
Proof. apply writes_bind; [apply writes_post|]. intros. apply writes_ret. Qed.

Lemma writes_start_workflow R configured sd wid ty input :
  writes R (start_workflow configured sd wid ty input).
Proof. apply writes_bind; [apply writes_post|]. intros. apply writes_ret. Qed.

#[export] Hint Resolve writes_ret writes_throw writes_lift writes_guard writes_get writes_attempt writes_with_err
  writes_query writes_query_err writes_post writes_post_unit writes_start_workflow : writes.

(** One syntactic step of a [writes] goal. *)
Ltac writes_step :=
  match goal with
  | |- writes _ (let _ := _ in _) => cbv zeta
  | |- writes _ (_ ≫= _) => apply writes_bind; [|intros ?]
  | |- writes _ (match ?x with _ => _ end) => destruct x
  | |- writes _ (if ?b then _ else _) => destruct b
  | |- writes _ _ => solve [eauto 3 with writes]
  end.
Ltac writes := repeat writes_step.

(** ** Requests to the bridge *)

(** A computation that asks nothing of the bridge. *)
Definition silent {A} (m : Api A) : Prop :=
  ∀ w, w_calls (m w).2 = w_calls w ∧ w_bridge (m w).2 = w_bridge w.

Lemma silent_run {A} (m : Api A) w r w' :
  silent m → m w = (r, w') → w_calls w' = w_calls w ∧ w_bridge w' = w_bridge w.
Proof. intros Hm Hr. specialize (Hm w). by rewrite Hr in Hm. Qed.

Lemma silent_bind {A B} (m : Api A) (f : A → Api B) :
  silent m → (∀ a, silent (f a)) → silent (m ≫= f).
Proof.
  intros Hm Hf w. specialize (Hm w). unfold mbind, stM_bind. destruct (m w) as [[a|e] w']; [|done].
  cbn in Hm. destruct Hm as [<- <-]. apply Hf.
Qed.
Lemma silent_ret {A} (a : A) : silent (mret a : Api A).
Proof. done. Qed.
Lemma silent_throw {A} e : silent (throw e : Api A).
Proof. done. Qed.
Lemma silent_lift {A} (r : ApiResult A) : silent (lift r).
Proof. done. Qed.
Lemma silent_guard c e : silent (guard_err c e : Api unit).
Proof. done. Qed.
Lemma silent_sql {A} (f : Db → result string (A * Db)) : silent (sql f).
Proof.
  intros w. unfold sql. destruct (next_turn w) as [t ts].
  by destruct (t_fault t) as [[[] e]|], (f (t_env t (w_db w))) as [[]|].
Qed.
Lemma silent_transaction {A} (f : Db → ApiResult (A * Db)) : silent (transaction f).
Proof.
  intros w. unfold transaction. destruct (next_turn w) as [t ts].
  by destruct (t_fault t) as [[[] e]|], (f (t_env t (w_db w))) as [[]|].
Qed.
Lemma silent_query {A} (f : Db → A) : silent (query f).
Proof. apply silent_sql. Qed.
Lemma silent_query_err {A} (f : Db → result string A) : silent (query_err f).
Proof. apply silent_sql. Qed.
Lemma silent_update {A} (f : Db → A * Db) : silent (update f).
Proof. apply silent_sql. Qed.
Lemma silent_audit c e i a b af : silent (record_audit c e i a b af).
Proof. apply silent_update. Qed.
Lemma silent_attempt {A} (m : Api A) : silent m → silent (attempt m : Api (result ApiError A)).
Proof. intros Hm w. specialize (Hm w). unfold attempt. by destruct (m w). Qed.

Lemma silent_with_err {A} f (m : Api A) : silent m → silent (with_err f m : Api A).
Proof. intros Hm w. specialize (Hm w). unfold with_err. by destruct (m w). Qed.

Create HintDb silent.
#[export] Hint Resolve silent_ret silent_throw silent_lift silent_guard silent_sql silent_transaction silent_query
  silent_query_err silent_update silent_audit silent_attempt silent_with_err : silent.

Ltac silent := repeat
  match goal with
  | |- silent (let _ := _ in _) => cbv zeta
  | |- silent (_ ≫= _) => apply silent_bind; [|intros ?]
  | |- silent (match ?x with _ => _ end) => destruct x
  | |- silent (if ?b then _ else _) => destruct b
  | |- silent _ => solve [eauto 3 with silent]
  end.

(** Carry the calls of a silent step to its successor state. *)
Ltac use_silent :=
  repeat match goal with
  | H : ?m ?w = (_, ?w') |- _ =>
      let Hc := fresh "Hcalls" in let Hb := fresh "Hbridge" in
      assert (w_calls w' = w_calls w ∧ w_bridge w' = w_bridge w) as [Hc Hb]
        by (eapply silent_run; [|exact H]; solve [silent]); clear H
  end.
