(* ===== verification/Sources.v ===== *)
(** * Sources: [apps/api/src/sources.rs]

    The organization-owned source registry: a client names a source, it never
    says where to read from. *)
From S2P Require Import Prelude RustStr Json Error Db World.
From Stdlib Require Import Ascii.

Definition CONNECTOR_EXTRA_KEYS : list string := ["soql"; "cursorField"; "cursor"].
Definition JOB_CONNECTOR_KINDS : list string := ["salesforce"].

Inductive SourceRequest : Type :=
  | ById (id : Z)
  | Object (bucket key : string)
  | Connector (connector_id : Z) (extra : jmap).

Inductive ResolvedSource : Type :=
  | RObject (src : SourceRow)
  | RConnector (connector_id : Z) (kind : string) (extra : jmap).

Definition ACCEPTED : string :=
  let q := quote in
  "expected {" +:+ q +:+ "source_id" +:+ q +:+ ": N}, an upload source_ref ({" +:+ q +:+ "type" +:+ q
  +:+ ":" +:+ q +:+ "minio" +:+ q +:+ "," +:+ q +:+ "bucket" +:+ q +:+ "," +:+ q +:+ "key" +:+ q
  +:+ "} from POST /files), or {" +:+ q +:+ "type" +:+ q +:+ ":" +:+ q +:+ "connector" +:+ q
  +:+ "," +:+ q +:+ "connector_id" +:+ q +:+ ": N, " +:+ q +:+ "extra" +:+ q +:+ ": {...}}".

(** ** Parsing a request *)

Definition positive (v : value) : option Z := opt_filter (λ n, 0 <? n) (as_i64 v).

Definition forbidden_key (m : jmap) : option string :=
  List.find (λ k, map_contains k m) ["path"; "url"; "secret"].

Definition required_field (m : jmap) (name : string) : ApiResult string :=
  ok_or (opt_filter (λ s, negb (is_empty s)) (trim <$> (map_get name m ≫= as_str)))
        (BadRequest ("source_ref." +:+ name +:+ " is required")).

(** The connector query options, checked in the map's order. *)
Fixpoint check_extra (l : jmap) : ApiResult unit :=
  match l with
  | [] => Ok tt
  | (k, v) :: rest =>
      if negb (mem_str k CONNECTOR_EXTRA_KEYS) then
        Err (BadRequest ("source_ref.extra." +:+ k +:+ " is not allowed; allowed: "
                         +:+ join ", " CONNECTOR_EXTRA_KEYS))
      else if negb (is_string v) then
        Err (BadRequest ("source_ref.extra." +:+ k +:+ " must be a string"))
      else check_extra rest
  end.

Definition parse_extra (m : jmap) : ApiResult jmap :=
  extra ← match map_get "extra" m with
          | None | Some VNull => Ok []
          | Some (VObject e) => Ok e
          | Some _ => Err (BadRequest "source_ref.extra must be an object")
          end;
  _ ← check_extra extra; Ok extra.

Definition parse_connector_id (m : jmap) : ApiResult (option Z) :=
  transpose ((λ v, ok_or (positive v) (BadRequest "connector_id must be a positive integer"))
             <$> opt_or (map_get "connector_id" m) (map_get "connectorId" m)).

Definition parse_source_request (v : value) : ApiResult SourceRequest :=
  m ← ok_or (as_object v) (BadRequest ("source_ref must be a JSON object; " +:+ ACCEPTED));
  match map_get "source_id" m with
  | Some idv =>
      id ← ok_or (positive idv) (BadRequest "source_id must be a positive integer");
      Ok (ById id)
  | None =>
      match forbidden_key m with
      | Some k => Err (BadRequest ("source_ref." +:+ k +:+ " is not accepted; " +:+ ACCEPTED))
      | None =>
          let kind := default EmptyString (map_get "type" m ≫= as_str) in
          connector_id ← parse_connector_id m;
          if (kind =? "minio")%string then
            bucket ← required_field m "bucket";
            key ← required_field m "key";
            Ok (Object bucket key)
          else
            match connector_id with
            | Some id =>
                if (kind =? "connector")%string || (kind =? "salesforce")%string then
                  extra ← parse_extra m; Ok (Connector id extra)
                else Err (BadRequest ("unsupported source_ref type " +:+ debug_str kind +:+ "; " +:+ ACCEPTED))
            | None =>
                if (kind =? "connector")%string then
                  Err (BadRequest "source_ref.connector_id is required for connector sources")
                else Err (BadRequest ("unsupported source_ref type " +:+ debug_str kind +:+ "; " +:+ ACCEPTED))
            end
      end
  end.

(** ** Resolution *)

Definition not_registered : ApiError :=
  BadRequest "source not found for this organization; upload the file with POST /files first".

Definition source_matches (org_id : Z) (bucket key : string) (s : SourceRow) : bool :=
  (sr_org_id s =? org_id) && (sr_bucket s =? bucket)%string && (sr_object_key s =? key)%string.

(** The row of the unique index (org_id, bucket, object_key). *)
Definition find_object (org_id : Z) (bucket key : string) (d : Db) : option SourceRow :=
  snd <$> List.find (λ kv, source_matches org_id bucket key kv.2) (by_id (sources d)).

Definition lookup_object (org_id : Z) (bucket key : string) : Api (option SourceRow) :=
  query (find_object org_id bucket key).

Definition require_connector (org_id connector_id : Z) : Api string :=
  c ← query (λ d, owned cn_org_id org_id connector_id (connectors d));
  lift (ok_or (cn_connector_kind <$> c)
    (BadRequest ("connector " +:+ show_Z connector_id +:+ " not found"))).

Definition resolve (org_id : Z) (req : SourceRequest) : Api ResolvedSource :=
  match req with
  | ById id =>
      row ← query (λ d, owned sr_org_id org_id id (sources d));
      lift (ok_or (RObject <$> row) not_registered)
  | Object bucket key =>
      row ← lookup_object org_id bucket key;
      lift (ok_or (RObject <$> row) not_registered)
  | Connector connector_id extra =>
      kind ← require_connector org_id connector_id;
      _ ← guard_err (negb (mem_str kind JOB_CONNECTOR_KINDS))
            (BadRequest ("connector kind " +:+ kind +:+ " cannot feed a job directly; use a schedule"));
      mret (RConnector connector_id kind extra)
  end.

Definition resolve_object (org_id : Z) (req : SourceRequest) : Api SourceRow :=
  r ← resolve org_id req;
  match r with
  | RObject src => mret src
  | RConnector _ _ _ =>
      throw (BadRequest "this operation needs an uploaded file source, not a connector")
  end.

(** ** Registration *)

Definition format_from_filename (name : string) : string :=
  let lower := to_ascii_lowercase name in
  if ends_with ".tar.gz" lower || ends_with ".tgz" lower || ends_with ".zip" lower then "archive"
  else if ends_with ".json" lower || ends_with ".ndjson" lower || ends_with ".jsonl" lower then "json"
  else if ends_with ".xml" lower then "xml"
  else "csv".

Record NewUpload : Type := mkUpload {
  nu_org : Z; nu_created_by : option Z; nu_bucket : string; nu_key : string; nu_sha256 : string;
  nu_etag : option string; nu_size : Z; nu_filename : string;
}.

Definition upload_row (u : NewUpload) (d : Db) : SourceRow :=
  match find_object (nu_org u) (nu_bucket u) (nu_key u) d with
  | Some s =>
      mkSource (sr_id s) (sr_org_id s) (sr_bucket s) (sr_object_key s) (sr_sha256 s)
        (opt_or (nu_etag u) (sr_etag s)) (sr_size_bytes s) (Some (nu_filename u))
        (Some (format_from_filename (nu_filename u))) (sr_provenance s) (sr_created_by s)
  | None =>
      mkSource (db_seq d) (nu_org u) (nu_bucket u) (nu_key u) (Some (nu_sha256 u)) (nu_etag u)
        (Some (nu_size u)) (Some (nu_filename u)) (Some (format_from_filename (nu_filename u)))
        "upload" (nu_created_by u)
  end.

(** The upsert: the sequence advances even when the row exists. *)
Definition upload_effect (u : NewUpload) (d : Db) : SourceRow * Db :=
  let row := upload_row u d in
  (row, set_seq (db_seq d + 1) (set_sources (<[sr_id row := row]> (sources d)) d)).
Definition register_upload (u : NewUpload) : Api SourceRow := update (upload_effect u).

Definition file_name (key : string) : string := rsplit_next (λ a, Ascii.eqb a "/") key.

(** [RegisteredSource::source_ref] *)
Definition object_source_ref (s : SourceRow) : value := json_obj
  [("type", VString "minio"); ("source_id", json_int (sr_id s)); ("bucket", VString (sr_bucket s));
   ("key", VString (sr_object_key s));
   ("filename", VString (default (file_name (sr_object_key s)) (sr_filename s)));
   ("size", json_opt_int (sr_size_bytes s)); ("sha256", json_opt_str (sr_sha256 s));
   ("etag", json_opt_str (sr_etag s))].

Definition source_ref (r : ResolvedSource) : value :=
  match r with
  | RObject s => object_source_ref s
  | RConnector connector_id kind extra => json_obj
      [("type", VString "connector"); ("connector_id", json_int connector_id);
       ("connector_kind", VString kind); ("extra", VObject extra)]
  end.

(** ** Object locations of watched connectors *)

Definition org_object_prefix (org_id : Z) : string := "orgs/" +:+ show_Z org_id +:+ "/".

Definition check_bucket (bucket : string) (allowed : list string) : ApiResult unit :=
  if mem_str bucket allowed then Ok tt
  else Err (BadRequest ("bucket " +:+ debug_str bucket +:+
         " is not allowed for watched connectors; allowed: " +:+ join ", " allowed)).

Definition cfg_text (cfg : value) (k : string) : string := trim (default EmptyString (get_str k cfg)).

Definition or_else_empty (a b : string) : string := if is_empty a then b else a.

(** The bucket, the prefix and the prefix's field name of a watched connector. *)
Definition connector_location (kind : string) (cfg : value) : option (string * string * string) :=
  if (kind =? "watched_prefix")%string then
    Some (or_else_empty (cfg_text cfg "bucket") (cfg_text cfg "s3_bucket"), cfg_text cfg "prefix", "prefix")
  else if (kind =? "watched_sftp")%string then
    Some (or_else_empty (cfg_text cfg "staging_bucket") (or_else_empty (cfg_text cfg "bucket") "migration"),
          cfg_text cfg "staging_prefix", "staging_prefix")
  else None.

(** The staging prefix that stands for the orchestrator's default. *)
Definition default_staging (kind prefix : string) : bool :=
  (kind =? "watched_sftp")%string &&
  (is_empty (trim_char "/" prefix) || (trim_char "/" prefix =? "sftp-landing")%string).

Definition prefix_ok (org_id : Z) (prefix : string) : bool :=
  let p := trim_start_char "/" prefix in
  negb (contains_char "\" p || existsb (λ seg, (seg =? "..")%string) (split_char "/" p)
        || negb (starts_with (org_object_prefix org_id) p)).

Definition check_connector_locations (kind : string) (cfg : value) (org_id : Z)
    (allowed_buckets : list string) : ApiResult unit :=
  match connector_location kind cfg with
  | None => Ok tt
  | Some (bucket, prefix, field) =>
      if default_staging kind prefix then check_bucket bucket allowed_buckets
      else
        _ ← check_bucket bucket allowed_buckets;
        if prefix_ok org_id prefix then Ok tt
        else Err (BadRequest (field +:+ " must start with " +:+ org_object_prefix org_id
                              +:+ " (got " +:+ debug_str prefix +:+ ")"))
  end.

(** ** Lemmas *)

Lemma positive_Some v n : positive v = Some n ↔ as_i64 v = Some n ∧ 0 < n.
Proof. unfold positive. rewrite opt_filter_Some, Z.ltb_lt. done. Qed.

Lemma check_extra_Ok l :
  check_extra l = Ok tt → Forall (λ kv, kv.1 ∈ CONNECTOR_EXTRA_KEYS ∧ is_string kv.2 = true) l.
Proof.
  induction l as [|[k v] l IH]; cbn; [constructor|].
  destruct (negb _) eqn:Hk; [done|]. destruct (negb (is_string v)) eqn:Hv; [done|].
  intros Hl. apply negb_false_iff in Hk, Hv. constructor; [|by apply IH].
  split; [by apply mem_str_true|done].
Qed.

Lemma parse_extra_Ok m e : parse_extra m = Ok e → check_extra e = Ok tt.
Proof.
  unfold parse_extra. intros He. apply result_bind_ok in He as (x & _ & He).
  destruct (check_extra x) as [[]|] eqn:Hx; [|done]. by injection He as <-.
Qed.

Lemma required_field_Ok m name s :
  required_field m name = Ok s →
  ∃ raw, map_get name m = Some (VString raw) ∧ s = trim raw ∧ s ≠ EmptyString.
Proof.
  unfold required_field. intros Hs. apply ok_or_Ok, opt_filter_Some in Hs as [Hs Hne].
  apply fmap_Some in Hs as (raw & Hraw & ->). apply bind_Some in Hraw as ([] & Hm & Hv); try done.
  injection Hv as <-. exists s. split_and!; [done..|]. by destruct (trim s).
Qed.

Lemma forbidden_key_None m :
  forbidden_key m = None →
  map_get "path" m = None ∧ map_get "url" m = None ∧ map_get "secret" m = None.
Proof.
  unfold forbidden_key, map_contains. cbn.
  destruct (map_get "path" m); [done|]. destruct (map_get "url" m); [done|].
  by destruct (map_get "secret" m).
Qed.

Lemma parse_connector_id_Some m id :
  parse_connector_id m = Ok (Some id) →
  0 < id ∧ ∃ v, as_i64 v = Some id ∧
    (map_get "connector_id" m = Some v ∨ map_get "connectorId" m = Some v).
Proof.
  unfold parse_connector_id. intros Hid.
  destruct (map_get "connector_id" m) as [v|] eqn:Hc; cbn in Hid.
  - destruct (positive v) as [n|] eqn:Hp; [|done]. cbn in Hid. injection Hid as <-.
    apply positive_Some in Hp as [? ?]. eauto.
  - destruct (map_get "connectorId" m) as [v|] eqn:Hc'; cbn in Hid; [|done].
    destruct (positive v) as [n|] eqn:Hp; [|done]. cbn in Hid. injection Hid as <-.
    apply positive_Some in Hp as [? ?]. eauto.
Qed.

(** A client request names a source and nothing else: an accepted
    [source_ref] is an object that gives a positive registry id, or has none
    of [path], [url] and [secret] and is either a stored object with non-blank
    bucket and key, or a connector id with query options from the allowed list
    and string values only. *)
Theorem source_request_only_names v req :
  parse_source_request v = Ok req →
  ∃ m, v = VObject m ∧
    match req with
    | ById id => 0 < id ∧ ∃ n, map_get "source_id" m = Some n ∧ as_i64 n = Some id
    | Object bucket key =>
        map_get "source_id" m = None ∧ map_get "type" m = Some (VString "minio") ∧
        (map_get "path" m = None ∧ map_get "url" m = None ∧ map_get "secret" m = None) ∧
        bucket ≠ EmptyString ∧ key ≠ EmptyString ∧
        ∃ b k, map_get "bucket" m = Some (VString b) ∧ bucket = trim b ∧
               map_get "key" m = Some (VString k) ∧ key = trim k
    | Connector id extra =>
        map_get "source_id" m = None ∧
        (map_get "path" m = None ∧ map_get "url" m = None ∧ map_get "secret" m = None) ∧
        0 < id ∧ Forall (λ kv, kv.1 ∈ CONNECTOR_EXTRA_KEYS ∧ is_string kv.2 = true) extra
    end.
Proof.
  unfold parse_source_request. destruct v as [| | | | |m]; try done. cbn [as_object ok_or mbind result_bind].
  destruct (map_get "source_id" m) as [n|] eqn:Hid.
  { destruct (positive n) as [id|] eqn:Hp; [|done]. cbn. intros [= <-]. apply positive_Some in Hp as [??].
    exists m. split; [done|]. eauto. }
  destruct (forbidden_key m) eqn:Hf; [done|]. apply forbidden_key_None in Hf.
  destruct (parse_connector_id m) as [oid|] eqn:Hc; [|done]. cbn.
  destruct (_ =? "minio")%string eqn:Hk.
  - destruct (required_field m "bucket") as [b|] eqn:Hb; [|done]. cbn.
    destruct (required_field m "key") as [k|] eqn:Hkk; [|done]. cbn. intros [= <-].
    apply required_field_Ok in Hb as (b' & ? & ? & ?), Hkk as (k' & ? & ? & ?).
    exists m. split_and!; try done; try apply Hf; [|by exists b', k'].
    destruct (map_get "type" m) as [[]|]; cbn in Hk; try done. by apply String.eqb_eq in Hk as ->.
  - destruct oid as [id|]; [|by repeat case_match].
    destruct (_ || _); [|done]. destruct (parse_extra m) as [e|] eqn:He; [|done]. intros [= <-].
    apply parse_extra_Ok, check_extra_Ok in He. apply parse_connector_id_Some in Hc as [? _].
    exists m. split_and!; try done; apply Hf.
Qed.

(** What a successful statement shows of the database it ran in. *)
Lemma query_Ok {A} (f : Db → A) w a w' :
  query f w = (Ok a, w') → a = f (w_db w').
Proof.
  unfold query, sql. destruct (next_turn w) as [t ts].
  destruct (t_fault t) as [[[] e]|]; cbn; [done|done|]. by intros [= <- <-].
Qed.

Lemma find_object_Some org_id b k d s :
  find_object org_id b k d = Some s →
  (∃ id, sources d !! id = Some s) ∧ sr_org_id s = org_id ∧ sr_bucket s = b ∧ sr_object_key s = k.
Proof.
  unfold find_object. intros ([id s'] & [Hin Hm]%find_some & [= ->])%fmap_Some. cbn in *.
  apply list_elem_of_In, by_id_elem in Hin. unfold source_matches in Hm. bool_prop. eauto.
Qed.

Lemma require_connector_Ok org_id id w kind w' :
  require_connector org_id id w = (Ok kind, w') →
  ∃ c, connectors (w_db w') !! id = Some c ∧ cn_org_id c = org_id ∧ cn_connector_kind c = kind.
Proof.
  unfold require_connector. intros Hr. inv_ok. apply query_Ok in Hrun.
  destruct a as [c|]; [|done]. cbn in Hr. injection Hr as <-.
  symmetry in Hrun. apply owned_Some in Hrun as [??]. eauto.
Qed.

(** Resolution never crosses organizations: whatever other transactions
    and failures happen, a resolved object is a registry row of the caller's
    organization, and a resolved connector is one of the organization's
    connectors, of a kind that may feed jobs, with exactly the requested
    options; a source of another organization is answered like a missing one. *)
Theorem resolve_stays_in_org org_id req w :
  (∀ r w', resolve org_id req w = (Ok r, w') →
    match r with
    | RObject s => sr_org_id s = org_id ∧ ∃ id, sources (w_db w') !! id = Some s
    | RConnector id kind extra =>
        req = Connector id extra ∧ kind ∈ JOB_CONNECTOR_KINDS ∧
        ∃ c, connectors (w_db w') !! id = Some c ∧ cn_org_id c = org_id ∧ cn_connector_kind c = kind
    end) ∧
  (∀ id, req = ById id → w_turns w = [] →
     (∀ s, sources (w_db w) !! id = Some s → sr_org_id s ≠ org_id) →
     (resolve org_id req w).1 = Err not_registered).
Proof.
  split.
  - intros r w' Hr. destruct req as [id|b k|id extra]; cbn in Hr.
    + inv_ok. apply query_Ok in Hrun. destruct a as [row|]; [|done]. injection Hr as <-.
      symmetry in Hrun. apply owned_Some in Hrun as [? ?]. eauto.
    + inv_ok. apply query_Ok in Hrun. destruct a as [row|]; [|done]. injection Hr as <-.
      symmetry in Hrun. apply find_object_Some in Hrun as (? & ? & _). eauto.
    + inv_ok. apply require_connector_Ok in Hrun as (c & Hc & Ho & Hk).
      split; [done|]. apply negb_false_iff in Hrun0. split; [by apply mem_str_true|eauto].
  - intros id -> Ht Hno. unfold resolve, query, sql, mbind, stM_bind, next_turn. rewrite Ht. cbn.
    destruct (owned _ _ _ _) as [s|] eqn:Ho; [|done].
    apply owned_Some in Ho as [Hs Hs']. by destruct (Hno s Hs).
Qed.

(** ** Confinement of watched locations *)

Lemma show_uint_plain d :
  all_bytes (λ a, is_digit a) (DecimalString.NilEmpty.string_of_uint d) = true.
Proof. induction d; cbn; done. Qed.

Lemma show_Z_plain z : contains_char "/" (show_Z z) = false.
Proof.
  assert (∀ s, all_bytes is_digit s = true → contains_char "/" s = false) as Hd.
  { induction s as [|a s IH]; [done|]. unfold all_bytes. cbn. intros [Ha Hs]%andb_true_iff.
    rewrite (IH Hs), orb_false_r. apply Ascii.eqb_neq. intros ->. vm_compute in Ha. done. }
  unfold show_Z, DecimalString.NilZero.string_of_int, DecimalString.NilZero.string_of_uint.
  destruct (Z.to_int z) as [[]|[]]; try done;
    try (apply (Hd _ (show_uint_plain _))); cbn -[DecimalString.NilEmpty.string_of_uint contains_char];
    try apply (Hd _ (show_uint_plain _)).
  all: change (contains_char "/" (String "-" ?s)) with (contains_char "/" s); apply (Hd _ (show_uint_plain _)).
Qed.

Lemma split_at_slash a b r r' :
  contains_char "/" a = false → contains_char "/" b = false →
  a +:+ String "/" r = b +:+ String "/" r' → a = b ∧ r = r'.
Proof.
  revert b. induction a as [|x a IH]; intros [|y b] Ha Hb; cbn.
  - by intros [= ->].
  - intros [= <- _]. cbn in Hb. done.
  - intros [= -> _]. cbn in Ha. done.
  - cbn in Ha, Hb. apply orb_false_iff in Ha as [_ Ha], Hb as [_ Hb].
    intros [= -> Heq]. destruct (IH b Ha Hb Heq) as [-> ->]. done.
Qed.

(** The namespaces of two organizations are disjoint. *)
Lemma org_prefix_disjoint a b s :
  starts_with (org_object_prefix a) s = true → starts_with (org_object_prefix b) s = true → a = b.
Proof.
  rewrite !starts_with_spec. unfold org_object_prefix.
  intros (r & ->) (r' & Heq). rewrite !append_assoc in Heq. cbn in Heq.
  injection Heq as Heq. apply split_at_slash in Heq as [Heq _]; [|apply show_Z_plain..].
  by apply show_Z_inj.
Qed.

Lemma starts_with_app p s t : starts_with p s = true → starts_with p (s +:+ t) = true.
Proof. rewrite !starts_with_spec. intros (r & ->). exists (r +:+ t). by rewrite append_assoc. Qed.

(** C37: watched locations are confined: an accepted configuration of a watched
    connector names an allowed bucket, and its prefix contains no backslash and
    no [..] segment, every object key under it lies in the organization's own
    namespace [orgs/<org>/], and in no other organization's.  The one exception
    is the staging prefix of a watched SFTP connector: when it is, slashes
    around it apart, empty or [sftp-landing], it is accepted as it is and
    stands for the orchestrator's default. *)
Theorem connector_locations_confined kind cfg org_id allowed bucket prefix field :
  check_connector_locations kind cfg org_id allowed = Ok tt →
  connector_location kind cfg = Some (bucket, prefix, field) →
  bucket ∈ allowed ∧
  (kind = "watched_sftp" ∧ field = "staging_prefix" ∧ trim_char "/" prefix ∈ [EmptyString; "sftp-landing"] ∨
   let p := trim_start_char "/" prefix in
   contains_char "\" p = false ∧ ¬ (".." ∈ split_char "/" p) ∧
   ∀ rest, starts_with (org_object_prefix org_id) (p +:+ rest) = true ∧
     ∀ other, starts_with (org_object_prefix other) (p +:+ rest) = true → other = org_id).
Proof.
  unfold check_connector_locations. intros Hc Hl. rewrite Hl in Hc. unfold check_bucket in Hc.
  destruct (default_staging kind prefix) eqn:Hs.
  - unfold default_staging in Hs. apply andb_true_iff in Hs as [Hk Hs]. bool_prop. subst kind. cbn in Hl. injection Hl as <- <- <-.
    destruct (mem_str _ allowed) eqn:Hb; [|done]. apply mem_str_true in Hb. split; [done|left]. split_and!; [done..|].
    apply elem_of_cons. rewrite list_elem_of_singleton. destruct Hs as [Hs|Hs]; bool_prop; [left; by destruct (trim_char _ _)|by right].
  - destruct (mem_str bucket allowed) eqn:Hb; [|done]. apply mem_str_true in Hb. split; [done|right].
    set (p := trim_start_char "/" prefix). cbn in Hc. destruct (prefix_ok org_id prefix) eqn:Hp; [|done].
    unfold prefix_ok in Hp. fold p in Hp. apply negb_true_iff in Hp. bool_prop.
    split_and!; [done| |].
    + intros Hin. assert (existsb (λ seg, (seg =? "..")%string) (split_char "/" p) = true); [|congruence].
      apply existsb_exists. exists "..". split; [by apply list_elem_of_In|done].
    + intros rest. assert (starts_with (org_object_prefix org_id) (p +:+ rest) = true) as Hst
        by (by apply starts_with_app). split; [done|].
      intros other Ho. by eapply org_prefix_disjoint.
Qed.

(** ** Round trips *)

Lemma run_query {A} (f : Db → A) w : w_turns w = [] → (query f w).1 = Ok (f (w_db w)).
Proof. unfold query, sql, next_turn. by intros ->. Qed.

(** A registered source round-trips: the reference stored on a job parses
    back to a request for exactly that registry row, and in a database that
    holds the row, resolving it for its organization gives the row. *)
Theorem stored_source_roundtrip s w :
  0 < sr_id s ≤ i64_max → sources (w_db w) !! sr_id s = Some s → w_turns w = [] →
  parse_source_request (source_ref (RObject s)) = Ok (ById (sr_id s)) ∧
  (resolve (sr_org_id s) (ById (sr_id s)) w).1 = Ok (RObject s).
Proof.
  intros Hid Hs Ht. split.
  - unfold parse_source_request, source_ref, object_source_ref, json_obj. cbn [as_object ok_or mbind result_bind].
    rewrite map_get_entries. cbn. unfold positive, json_int.
    rewrite (proj2 (Z.ltb_ge (sr_id s) 0)) by lia. cbn.
    rewrite (proj2 (Z.leb_le (sr_id s) _)) by (unfold i64_max in *; lia). cbn.
    by rewrite (proj2 (Z.ltb_lt 0 (sr_id s))) by lia.
  - unfold resolve, mbind, stM_bind. pose proof (run_query (λ d, owned sr_org_id (sr_org_id s) (sr_id s) (sources d)) w Ht) as Hq.
    destruct (query _ w) as [r w']. cbn in Hq. subst r.
    assert (owned sr_org_id (sr_org_id s) (sr_id s) (sources (w_db w)) = Some s) as ->
      by (by apply owned_Some). done.
Qed.

(** The registry's keys: every row is stored under its id, below the sequence,
    and the index (org_id, bucket, object_key) is unique. *)
Definition same_object (s t : SourceRow) : Prop :=
  sr_org_id s = sr_org_id t ∧ sr_bucket s = sr_bucket t ∧ sr_object_key s = sr_object_key t.
Definition registry_ok (d : Db) : Prop :=
  (∀ id s, sources d !! id = Some s → sr_id s = id ∧ id < db_seq d) ∧
  (∀ i j s t, sources d !! i = Some s → sources d !! j = Some t → same_object s t → i = j).

Lemma find_object_None o b k d :
  find_object o b k d = None →
  ∀ id s, sources d !! id = Some s → ¬ (sr_org_id s = o ∧ sr_bucket s = b ∧ sr_object_key s = k).
Proof.
  unfold find_object. intros Hn id s Hs (Ho & Hb & Hk).
  destruct (List.find _ _) eqn:Hf; [done|].
  apply by_id_elem, list_elem_of_In in Hs. eapply List.find_none in Hf; [|exact Hs].
  unfold source_matches in Hf. cbn in Hf.
  rewrite Ho, Hb, Hk, Z.eqb_refl, !String.eqb_refl in Hf. done.
Qed.

Lemma find_object_unique d id s :
  registry_ok d → sources d !! id = Some s →
  find_object (sr_org_id s) (sr_bucket s) (sr_object_key s) d = Some s.
Proof.
  intros [_ Hu] Hs. destruct (find_object _ _ _ d) as [t|] eqn:Hf.
  - apply find_object_Some in Hf as ((j & Hj) & ? & ? & ?).
    assert (j = id) as -> by (eapply Hu; [exact Hj|exact Hs|done]). congruence.
  - exfalso. by eapply find_object_None.
Qed.

Lemma upload_row_key u d :
  sr_org_id (upload_row u d) = nu_org u ∧ sr_bucket (upload_row u d) = nu_bucket u ∧
  sr_object_key (upload_row u d) = nu_key u.
Proof.
  unfold upload_row. destruct (find_object _ _ _ d) as [s|] eqn:Hf; [|done]. cbn.
  by apply find_object_Some in Hf as (_ & ? & ? & ?).
Qed.

(** Registering an upload keeps the registry's keys, makes exactly that
    object resolvable for the uploading organization, changes no other row,
    and for an object already registered keeps its identity, content hash,
    size and provenance (only the display name, format and a new ETag move). *)
Theorem upload_registers u d :
  registry_ok d →
  let '(row, d') := upload_effect u d in
  registry_ok d' ∧ find_object (nu_org u) (nu_bucket u) (nu_key u) d' = Some row ∧
  (∀ id, id ≠ sr_id row → sources d' !! id = sources d !! id) ∧
  match find_object (nu_org u) (nu_bucket u) (nu_key u) d with
  | Some s => sr_id row = sr_id s ∧ sr_sha256 row = sr_sha256 s ∧ sr_size_bytes row = sr_size_bytes s ∧
              sr_provenance row = sr_provenance s ∧ (nu_etag u = None → sr_etag row = sr_etag s)
  | None => sr_id row = db_seq d ∧ sr_sha256 row = Some (nu_sha256 u)
  end.
Proof.
  intros Hok. unfold upload_effect. set (row := upload_row u d). set (d' := set_seq _ _).
  pose proof (upload_row_key u d) as Hkey. fold row in Hkey. pose proof Hok as [Hid Hu].
  assert (match find_object (nu_org u) (nu_bucket u) (nu_key u) d with
          | Some s => sr_id row = sr_id s ∧ sr_sha256 row = sr_sha256 s ∧ sr_size_bytes row = sr_size_bytes s ∧
              sr_provenance row = sr_provenance s ∧ (nu_etag u = None → sr_etag row = sr_etag s)
          | None => sr_id row = db_seq d ∧ sr_sha256 row = Some (nu_sha256 u) end) as Hcase.
  { unfold row, upload_row. destruct (find_object _ _ _ d) as [s|]; [|done]. cbn.
    split_and!; try done. by intros ->. }
  assert (∀ j t, sources d !! j = Some t → same_object row t → j = sr_id row) as Hsame.
  { intros j t Ht (Ho & Hb & Hk). destruct Hkey as (Hko & Hkb & Hkk).
    destruct (find_object _ _ _ d) as [s|] eqn:Hf.
    - apply find_object_Some in Hf as ((i & Hi) & Hf). destruct Hcase as [-> _].
      rewrite (proj1 (Hid i s Hi)). eapply Hu; [exact Ht|exact Hi|]. unfold same_object.
      destruct Hf as (?&?&?). split_and!; congruence.
    - exfalso. eapply find_object_None; [exact Hf|exact Ht|]. split_and!; congruence. }
  assert (sr_id row < db_seq d + 1) as Hlt.
  { destruct (find_object _ _ _ d) as [s|] eqn:Hf; destruct Hcase as [-> _]; [|lia].
    apply find_object_Some in Hf as ((i & Hi) & _). destruct (Hid i s Hi). lia. }
  assert (registry_ok d') as Hok'.
  { split.
    - intros id s. cbn. destruct (decide (id = sr_id row)) as [->|Hne].
      + rewrite lookup_insert_eq. by intros [= <-].
      + rewrite lookup_insert_ne by done. intros Hs. destruct (Hid id s Hs). split; [done|lia].
    - intros i j s t. cbn. destruct (decide (i = sr_id row)) as [->|Hi], (decide (j = sr_id row)) as [->|Hj];
        rewrite ?lookup_insert_eq, ?lookup_insert_ne by done; [done|..].
      + intros [= <-] Ht Hso. symmetry. by eapply Hsame.
      + intros Hs [= <-] Hso. eapply Hsame; [done|]. unfold same_object in *. destruct Hso as (?&?&?). done.
      + apply Hu. }
  split_and!; [done| | |exact Hcase].
  - destruct Hkey as (<- & <- & <-). apply (find_object_unique _ (sr_id row)); [done|].
    cbn. apply lookup_insert_eq.
  - intros id Hne. cbn. by apply lookup_insert_ne.
Qed.

(** ** Witnesses *)
Definition empty_db : Db := mkDb 0 1 ∅ ∅ ∅ ∅ ∅ ∅ ∅ ∅ ∅ ∅ ∅ ∅ ∅ [].
Definition sample_source : SourceRow :=
  mkSource 7 1 "migration" "uploads/1/ab/orders.csv" (Some "ab") None (Some 128) (Some "orders.csv")
    (Some "csv") "upload" (Some 3).
Definition sample_world (d : Db) : World := mkWorld d [] [] [] [].
Definition source_db : Db := set_seq 8 (set_sources {[7 := sample_source]} empty_db).

Lemma source_request_only_names_witness :
  ∃ m, parse_source_request (VObject m) = Ok (ById 7) ∧ ∃ n, map_get "source_id" m = Some n.
Proof.
  assert (parse_source_request (source_ref (RObject sample_source)) = Ok (ById 7)) as Hp
    by (vm_compute; reflexivity).
  destruct (source_request_only_names _ _ Hp) as (m & Hm & _ & n & Hn & _).
  exists m. rewrite <- Hm. split; [exact Hp|by exists n].
Defined.

Lemma connector_locations_confined_witness :
  let cfg := json_obj [("bucket", VString "migration"); ("prefix", VString "/orgs/12/in/")] in
  check_connector_locations "watched_prefix" cfg 12 ["migration"] = Ok tt ∧
  ∀ other, starts_with (org_object_prefix other) "orgs/12/in/x.csv" = true → other = 12.
Proof.
  cbv zeta. split; [vm_compute; reflexivity|].
  destruct (connector_locations_confined "watched_prefix"
    (json_obj [("bucket", VString "migration"); ("prefix", VString "/orgs/12/in/")]) 12 ["migration"]
    "migration" "/orgs/12/in/" "prefix") as [_ [[Hk _]|(_ & _ & Hr)]]; [vm_compute; reflexivity..|discriminate Hk|].
  exact (proj2 (Hr "x.csv")).
Defined.

Lemma stored_source_roundtrip_witness :
  parse_source_request (source_ref (RObject sample_source)) = Ok (ById 7) ∧
  (resolve 1 (ById 7) (sample_world source_db)).1 = Ok (RObject sample_source).
Proof.
  apply (stored_source_roundtrip sample_source (sample_world source_db)).
  - vm_compute. split; [reflexivity|discriminate].
  - reflexivity.
  - reflexivity.
Defined.

Lemma upload_registers_witness :
  find_object 1 "migration" "uploads/1/ab/orders.csv"
    (upload_effect (mkUpload 1 None "migration" "uploads/1/ab/orders.csv" "ab" None 128 "o.csv") source_db).2
  = Some (upload_effect (mkUpload 1 None "migration" "uploads/1/ab/orders.csv" "ab" None 128 "o.csv") source_db).1.
Proof.
  refine (proj1 (proj2 (upload_registers
    (mkUpload 1 None "migration" "uploads/1/ab/orders.csv" "ab" None 128 "o.csv") source_db _))).
  split.
  - intros id s Hs. change (sources source_db) with ({[7 := sample_source]} : gmap Z SourceRow) in Hs.
    apply lookup_singleton_Some in Hs as [<- <-]. vm_compute. split; reflexivity.
  - intros i j s t Hs Ht _. change (sources source_db) with ({[7 := sample_source]} : gmap Z SourceRow) in Hs, Ht.
    apply lookup_singleton_Some in Hs as [<- _], Ht as [<- _]. reflexivity.
Defined.

Lemma resolve_stays_in_org_witness :
  (resolve 2 (ById 7) (sample_world source_db)).1 = Err not_registered.
Proof.
  apply (proj2 (resolve_stays_in_org 2 (ById 7) (sample_world source_db)) 7); [reflexivity..|].
  intros s Hs. change (sources _) with ({[7 := sample_source]} : gmap Z SourceRow) in Hs.
  apply lookup_singleton_Some in Hs as [_ <-]. discriminate.
Defined.
