(* ===== verification/JobSource.v ===== *)
(** * Source summary of a job: [apps/api/src/job_source.rs]

    The operator-facing summary of where a job's records come from, added to
    the job's JSON. *)
From S2P Require Import Prelude RustStr Json LicenseFile Db.
From Stdlib Require Import Ascii.

Record JobSourceSummary : Type := mkSummary {
  ss_kind : string; ss_bucket : option string; ss_key : option string; ss_filename : option string;
  ss_size : option Z; ss_etag : option string; ss_sha256 : option string;
  ss_batch_id : option Z; ss_batch_stage_key : option string; ss_batch_stage_file : option string;
  ss_package_key : option string; ss_package_filename : option string;
}.

Definition summary_to_value (s : JobSourceSummary) : value := json_obj
  ([("kind", VString (ss_kind s))]
   ++ skip_none "bucket" VString (ss_bucket s) ++ skip_none "key" VString (ss_key s)
   ++ skip_none "filename" VString (ss_filename s) ++ skip_none "size" json_int (ss_size s)
   ++ skip_none "etag" VString (ss_etag s) ++ skip_none "sha256" VString (ss_sha256 s)
   ++ skip_none "batch_id" json_int (ss_batch_id s)
   ++ skip_none "batch_stage_key" VString (ss_batch_stage_key s)
   ++ skip_none "batch_stage_file" VString (ss_batch_stage_file s)
   ++ skip_none "package_key" VString (ss_package_key s)
   ++ skip_none "package_filename" VString (ss_package_filename s)).

Record ParsedRef : Type := mkParsedRef {
  pr_kind : string; pr_bucket : option string; pr_key : option string; pr_filename : option string;
  pr_size : option Z; pr_etag : option string; pr_sha256 : option string;
}.

Definition non_blank (s : string) : bool := negb (is_empty s).

Definition string_field (v : value) (name : string) : option string :=
  opt_filter non_blank (trim <$> get_str name v).
Definition nonempty (s : option string) : option string := opt_filter non_blank (trim <$> s).

Definition basename (key : string) : string :=
  let last := rsplit_next (λ a, Ascii.eqb a "/" || Ascii.eqb a "\") key in
  if is_empty last then key else last.

Definition parse_ref (source_ref : value) : ParsedRef :=
  match source_ref with
  | VString s =>
      mkParsedRef "upload" None (Some s)
        (opt_filter non_blank (Some (rsplit_next (λ a, Ascii.eqb a ":") s))) None None None
  | _ =>
      let kind := default "unknown" (opt_or (vget "type" source_ref) (vget "kind" source_ref) ≫= as_str) in
      let key := string_field source_ref "key" in
      mkParsedRef kind (string_field source_ref "bucket") key
        (opt_or (string_field source_ref "filename") (basename <$> key))
        (vget "size" source_ref ≫= as_i64) (string_field source_ref "etag")
        (string_field source_ref "sha256")
  end.

Definition summarize_source (source_ref : value) (batch_id : option Z)
    (batch_source_ref : option value) (stage_key stage_file : option string) : JobSourceSummary :=
  let parsed := parse_ref source_ref in
  let package := parse_ref <$> batch_source_ref in
  let stage_file := opt_or (nonempty stage_file)
                      (opt_or (pr_filename parsed) (basename <$> pr_key parsed)) in
  mkSummary (pr_kind parsed) (pr_bucket parsed) (pr_key parsed) (pr_filename parsed) (pr_size parsed)
    (pr_etag parsed) (pr_sha256 parsed) batch_id (nonempty stage_key) stage_file
    (package ≫= pr_key)
    (package ≫= λ p, opt_or (pr_filename p) (basename <$> pr_key p)).

Definition job_json_with_source `{Rfc3339} (job : JobRow) (batch_source_ref : option value)
    (stage_key stage_file : option string) : value :=
  index_assign "source"
    (summary_to_value (summarize_source (j_source_ref job) (j_batch_id job) batch_source_ref
                         stage_key stage_file))
    (job_to_value job).
