(* ===== verification/Jobs.v ===== *)
(** * Jobs: [apps/api/src/routes/jobs.rs]

    Creation, the operator actions, row retries, export retry, listings and
    downloads, and the life cycle of a job under concurrent writers
    ([docs/adr/0004-job-lifecycle.md]). *)
From S2P Require Import Prelude RustStr Json Error LicenseFile Db World Sources JobSource.
From Stdlib Require Import Ascii.

Definition OPERATORS : list string := ["admin"; "editor"; "operator"].

Record JobCreate : Type := mkJobCreate { jc_rule_template_id : Z; jc_source_ref : value }.

(** [RetryOptions], with the serde defaults. *)
Record RetryOptions : Type := mkRetryOptions { ro_from_start : bool; ro_confirm_not_applied : bool }.
Definition default_retry_options : RetryOptions := mkRetryOptions false false.

Record RetryTarget : Type := mkRetryTarget {
  tg_workflow_id : string; tg_rule_template_id : Z; tg_rule_template_version : Z }.

(** [status::text IN (...)] *)
Definition status_in (l : list JobStatus) (j : JobRow) : bool := existsb (λ s, bool_decide (j_status j = s)) l.

Definition PAUSABLE : list JobStatus := [Running].
Definition RESUMABLE : list JobStatus := [Paused].
Definition CANCELLABLE : list JobStatus := [Pending; Running; Paused].

(** ** Row updates *)

Definition set_status (s : JobStatus) (upd : Z) (j : JobRow) : JobRow :=
  mkJob (j_id j) (j_org_id j) (j_rule_template_id j) (j_rule_template_version j) (j_schedule_id j)
    (j_source_ref j) s (j_totals_json j) (j_temporal_workflow_id j) (j_temporal_run_id j)
    (j_started_at j) (j_paused_at j) (j_finished_at j) (j_created_by j) (j_created_at j) upd
    (j_batch_id j) (j_batch_stage_id j) (j_results_ref j) (j_last_error j) (j_export_status j)
    (j_export_error j).

(** The failure of a start that never happened. *)
Definition fail_start (message : string) (now : Z) (j : JobRow) : JobRow :=
  mkJob (j_id j) (j_org_id j) (j_rule_template_id j) (j_rule_template_version j) (j_schedule_id j)
    (j_source_ref j) Failed (j_totals_json j) (j_temporal_workflow_id j) (j_temporal_run_id j)
    (j_started_at j) (j_paused_at j) (Some now) (j_created_by j) (j_created_at j) now
    (j_batch_id j) (j_batch_stage_id j) (j_results_ref j) (Some message) (j_export_status j)
    (j_export_error j).

(** The run of a started workflow: [pending] becomes [running], any other status stays. *)
Definition record_run (run_id : string) (now : Z) (j : JobRow) : JobRow :=
  mkJob (j_id j) (j_org_id j) (j_rule_template_id j) (j_rule_template_version j) (j_schedule_id j)
    (j_source_ref j) (if bool_decide (j_status j = Pending) then Running else j_status j)
    (j_totals_json j) (j_temporal_workflow_id j) (Some run_id)
    (opt_or (j_started_at j) (Some now)) (j_paused_at j) (j_finished_at j) (j_created_by j)
    (j_created_at j) now (j_batch_id j) (j_batch_stage_id j) (j_results_ref j) (j_last_error j)
    (j_export_status j) (j_export_error j).

Definition apply_action (new_status : JobStatus) (now : Z) (j : JobRow) : JobRow :=
  mkJob (j_id j) (j_org_id j) (j_rule_template_id j) (j_rule_template_version j) (j_schedule_id j)
    (j_source_ref j) new_status (j_totals_json j) (j_temporal_workflow_id j) (j_temporal_run_id j)
    (j_started_at j) (if bool_decide (new_status = Paused) then Some now else j_paused_at j)
    (j_finished_at j) (j_created_by j) (j_created_at j) now (j_batch_id j) (j_batch_stage_id j)
    (j_results_ref j) (j_last_error j) (j_export_status j) (j_export_error j).

Definition cancel_row (totals : value) (now : Z) (j : JobRow) : JobRow :=
  mkJob (j_id j) (j_org_id j) (j_rule_template_id j) (j_rule_template_version j) (j_schedule_id j)
    (j_source_ref j) Cancelled totals (j_temporal_workflow_id j) (j_temporal_run_id j)
    (j_started_at j) (j_paused_at j) (Some now) (j_created_by j) (j_created_at j) now
    (j_batch_id j) (j_batch_stage_id j) (j_results_ref j) (j_last_error j) (j_export_status j)
    (j_export_error j).

Definition new_job (id org_id template_id version : Z) (src : value) (workflow_id : string)
    (created_by now : Z) : JobRow :=
  mkJob id org_id template_id version None src Pending (json_obj []) (Some workflow_id) None None None
    None (Some created_by) now now None None None None None None.

Definition row_le (a b : JobRowDetail) : Prop := jr_row_index a ≤ jr_row_index b.
#[global] Instance row_le_dec a b : Decision (row_le a b) := Z_le_dec _ _.

(** The rows of one job, in index order. *)
Definition rows_of (job_id : Z) (d : Db) : list JobRowDetail :=
  merge_sort row_le (filter (λ r, jr_job_id r = job_id) (snd <$> map_to_list (job_rows d))).

Definition count_status (s : RowStatus) (l : list JobRowDetail) : Z :=
  Z.of_nat (length (filter (λ r, jr_status r = s) l)).

(** The totals recomputed on cancellation. *)
Definition totals_of (job_id : Z) (d : Db) : value :=
  let rows := rows_of job_id d in
  json_obj [("processed", json_int (count_status RowSucceeded rows));
            ("failed", json_int (count_status RowFailed rows));
            ("unresolved", json_int (count_status RowUnresolved rows));
            ("total", json_int (Z.of_nat (length rows)))].

(** An UPDATE of the jobs that satisfy a condition on one id, RETURNING the row. *)
Definition update_job (id : Z) (cond : JobRow → bool) (f : Db → JobRow → JobRow) (d : Db)
    : option JobRow * Db :=
  match jobs d !! id with
  | Some j => if cond j then (Some (f d j), set_jobs (<[id := f d j]> (jobs d)) d) else (None, d)
  | None => (None, d)
  end.

Definition step_le (a b : JobRowStepDetail) : Prop := js_step_index a ≤ js_step_index b.
#[global] Instance step_le_dec a b : Decision (step_le a b) := Z_le_dec _ _.

(** The cast of an optional parameter to an enum type. *)
Definition cast_opt {A} (parse : string → option A) (e : string) (o : option string)
    : result string (option A) :=
  match o with None => Ok None | Some t => Some <$> ok_or (parse t) e end.

Section Handlers.
Context `{Rfc3339}.
Context (configured : bool) (status_display : Z → string).
(** The outcome of the license gate when the handler asks it
    ([LicenseIO.require_licensed]), and [String::parse::<i64>] of the subject. *)
Context (licensed : ApiResult unit).

(** ** Creation *)

Definition published_template (org_id id : Z) (d : Db) : option Z :=
  rt_version <$> opt_filter (λ t, (rt_org_id t =? org_id) && rt_published t) (rule_templates d !! id).

(** INSERT: the unique index on [temporal_workflow_id] refuses a used id, the
    foreign key a template that is gone. *)
Definition insert_job (org_id template_id version : Z) (src : value) (workflow_id : string)
    (created_by : Z) (d : Db) : result string (JobRow * Db) :=
  if existsb (λ kv, bool_decide (j_temporal_workflow_id kv.2 = Some workflow_id)) (map_to_list (jobs d))
  then Err unique_violation
  else if negb (is_some (rule_templates d !! template_id)) then Err foreign_key_violation
  else
    let row := new_job (db_seq d) org_id template_id version src workflow_id created_by (db_now d) in
    Ok (row, set_seq (db_seq d + 1) (set_jobs (<[db_seq d := row]> (jobs d)) d)).

Definition job_input (org_id job_id template_id version : Z) (src : value) : value := json_obj
  [("orgId", json_int org_id); ("jobId", json_int job_id); ("ruleTemplateId", json_int template_id);
   ("ruleTemplateVersion", json_int version); ("sourceRef", src)].

(** [start_never_reached_bridge] *)
Definition start_never_reached_bridge (e : BridgeError) : bool :=
  match e with ConnectRefused _ => true | _ => false end.

Definition start_job (job_id : Z) (workflow_id : string) (input : value) : Api JobRow :=
  r ← start_migration_workflow configured status_display workflow_id input;
  match r with
  | Err e =>
      if negb (start_never_reached_bridge e) then
        throw (External ("temporal: " +:+ bridge_text e +:+ "; job " +:+ show_Z job_id +:+ " will be reconciled"))
      else
        _ ← update (update_job job_id (status_in [Pending])
              (λ d, fail_start ("workflow start failed: " +:+ bridge_text e) (db_now d)));
        throw (External ("temporal: " +:+ bridge_text e))
  | Ok run_id =>
      row ← update (update_job job_id (λ _, true) (λ d, record_run run_id (db_now d)));
      lift (ok_or row (Database "no rows returned by a query that expected to return at least one row"))
  end.

(** [uuid] is the fresh identifier of the workflow. *)
Definition create_job (uuid : string) (c : Claims) (req : JobCreate) : Api JobRow :=
  _ ← lift (require_role c OPERATORS);
  _ ← lift licensed;
  v ← query (published_template (org c) (jc_rule_template_id req));
  version ← lift (ok_or v (BadRequest "template not found or not published"));
  created_by ← lift (ok_or (parse_i64 (sub c)) Unauthorized);
  source_req ← lift (parse_source_request (jc_source_ref req));
  resolved ← resolve (org c) source_req;
  let src := source_ref resolved in
  let workflow_id := "mig-" +:+ show_Z (org c) +:+ "-" +:+ uuid in
  row ← sql (insert_job (org c) (jc_rule_template_id req) version src workflow_id created_by);
  row ← start_job (j_id row) workflow_id
          (job_input (org c) (j_id row) (jc_rule_template_id req) version src);
  _ ← record_audit c "job" (Some (show_Z (j_id row))) "create" None (Some (job_to_value row));
  mret row.

(** ** Operator actions *)

Definition action_target (org_id id : Z) (action : string) (from : list JobStatus) : Api (option string) :=
  row ← query (job_of org_id id);
  match row with
  | None => throw NotFound
  | Some j =>
      _ ← guard_err (negb (status_in from j)) (Conflict ("job " +:+ show_Z id +:+ " is "
            +:+ job_status_text (j_status j) +:+ "; cannot " +:+ action +:+ " it"));
      mret (j_temporal_workflow_id j)
  end.

(** The error of an update that found the job moved on; a failing lookup reads
    as an unavailable status. *)
Definition transition_lost {A} (org_id id : Z) (action : string) : Api A :=
  r ← attempt (F:=ApiError) (query (job_of org_id id));
  let status := match r with Ok (Some j) => job_status_text (j_status j) | _ => "unavailable" end in
  throw (Conflict ("job " +:+ show_Z id +:+ " became " +:+ status +:+ " before it could " +:+ action)).

Definition owned_and (org_id : Z) (from : list JobStatus) (j : JobRow) : bool :=
  (j_org_id j =? org_id) && status_in from j.

Definition signal_and_record (c : Claims) (id : Z) (signal_name : string) (new_status : JobStatus)
    (action : string) (from : list JobStatus) : Api JobRow :=
  wid ← action_target (org c) id action from;
  match wid with
  | None => throw NotFound
  | Some workflow_id =>
      r ← signal_workflow configured status_display workflow_id signal_name (json_obj []);
      _ ← match r with
          | Ok _ => mret tt
          | Err (WorkflowNotFound _) =>
              throw (Conflict ("job " +:+ show_Z id +:+ "'s workflow has ended; it will be reconciled"))
          | Err e => throw (External ("temporal: " +:+ bridge_text e))
          end;
      row ← update (update_job id (owned_and (org c) from) (λ d, apply_action new_status (db_now d)));
      match row with
      | None => transition_lost (org c) id action
      | Some row =>
          _ ← record_audit c "job" (Some (show_Z id)) action None (Some (job_to_value row));
          mret row
      end
  end.

Definition pause_job (c : Claims) (id : Z) : Api JobRow :=
  _ ← lift (require_role c OPERATORS);
  signal_and_record c id "pause" Paused "pause" PAUSABLE.

Definition resume_job (c : Claims) (id : Z) : Api JobRow :=
  _ ← lift (require_role c OPERATORS);
  _ ← lift licensed;
  signal_and_record c id "resume" Running "resume" RESUMABLE.

Definition cancel_job (c : Claims) (id : Z) : Api JobRow :=
  _ ← lift (require_role c OPERATORS);
  workflow_id ← action_target (org c) id "cancel" CANCELLABLE;
  workflow_found ←
    match workflow_id with
    | None => mret false
    | Some wid =>
        r ← cancel_workflow configured status_display wid;
        match r with
        | Ok _ => mret true
        | Err e => if is_not_found e then mret false
                   else throw (External ("temporal: " +:+ bridge_text e))
        end
    end;
  row ← update (update_job id (owned_and (org c) CANCELLABLE)
                  (λ d, cancel_row (totals_of id d) (db_now d)));
  match row with
  | None => transition_lost (org c) id "cancel"
  | Some row =>
      let after := index_assign "workflow_found" (VBool workflow_found) (job_to_value row) in
      _ ← record_audit c "job" (Some (show_Z id)) "cancel" None (Some after);
      mret row
  end.

(** ** Export and row retries *)

Definition export_workflow_id (job_workflow_id : string) : string := job_workflow_id +:+ "-export".
Definition retry_workflow_id (job_workflow_id : string) : string := job_workflow_id +:+ "-retry".

Definition retry_export (c : Claims) (id : Z) : Api value :=
  _ ← lift (require_role c OPERATORS);
  row ← query (job_of (org c) id);
  match row ≫= λ j, (λ wid, (wid, j)) <$> j_temporal_workflow_id j with
  | None => throw NotFound
  | Some (job_workflow_id, j) =>
      _ ← guard_err (status_in CANCELLABLE j) (Conflict ("job " +:+ show_Z id +:+ " is "
            +:+ job_status_text (j_status j) +:+ "; its results are exported when it finishes"));
      let workflow_id := export_workflow_id job_workflow_id in
      r ← start_workflow configured status_display workflow_id "ExportResultsWorkflow"
            (json_obj [("jobId", json_int id)]);
      _ ← match r with
          | Ok _ => mret tt
          | Err e =>
              if is_already_running e then
                throw (Conflict ("an export of job " +:+ show_Z id +:+ " is already running"))
              else throw (External ("temporal: " +:+ bridge_text e))
          end;
      _ ← record_audit c "job" (Some (show_Z id)) "retry_export" None
            (Some (json_obj [("workflow_id", VString workflow_id)]));
      mret (json_obj [("job_id", json_int id); ("workflow_id", VString workflow_id)])
  end.

Definition retry_target (org_id id : Z) : Api RetryTarget :=
  row ← query (job_of org_id id);
  match row ≫= λ j, (λ wid, (wid, j)) <$> j_temporal_workflow_id j with
  | None => throw NotFound
  | Some (workflow_id, j) =>
      _ ← guard_err (status_in CANCELLABLE j) (Conflict ("job " +:+ show_Z id +:+ " is "
            +:+ job_status_text (j_status j) +:+ "; retry rows after it finishes"));
      mret (mkRetryTarget workflow_id (j_rule_template_id j) (j_rule_template_version j))
  end.

Definition start_error (e : BridgeError) : ApiError :=
  if is_already_running e then Conflict "a retry of this job is already running"
  else External ("temporal: " +:+ bridge_text e).

Definition retry_row_input (org_id id row_index : Z) (t : RetryTarget) (o : RetryOptions) : value := json_obj
  [("orgId", json_int org_id); ("jobId", json_int id);
   ("ruleTemplateId", json_int (tg_rule_template_id t));
   ("ruleTemplateVersion", json_int (tg_rule_template_version t)); ("sourceRef", json_obj []);
   ("retryRow", json_obj
      [("jobId", json_int id); ("rowIndex", json_int row_index); ("fromStart", VBool (ro_from_start o));
       ("confirmNotApplied", VBool (ro_confirm_not_applied o))])].

Definition unresolved_message (row_index : Z) : string :=
  "row " +:+ show_Z row_index +:+ " is unresolved: the destination may already have applied it. Check the destination, then retry with confirm_not_applied=true if it did not".

Definition retry_row (c : Claims) (id row_index : Z) (body : option RetryOptions) : Api value :=
  _ ← lift (require_role c OPERATORS);
  _ ← lift licensed;
  let opts := default default_retry_options body in
  target ← retry_target (org c) id;
  row_status ← query (λ d, jr_status <$> job_rows d !! (id, row_index));
  _ ← guard_err (bool_decide (row_status = Some RowUnresolved) && negb (ro_confirm_not_applied opts))
        (Conflict (unresolved_message row_index));
  r ← start_workflow configured status_display (retry_workflow_id (tg_workflow_id target))
        "RetryRowWorkflow" (retry_row_input (org c) id row_index target opts);
  _ ← lift (map_err start_error r);
  _ ← record_audit c "job_row" (Some (show_Z id +:+ ":" +:+ show_Z row_index)) "retry"
        ((λ s, json_obj [("status", VString (row_status_text s))]) <$> row_status)
        (Some (json_obj [("from_start", VBool (ro_from_start opts));
                         ("confirm_not_applied", VBool (ro_confirm_not_applied opts))]));
  mret (json_obj
    [("job_id", json_int id); ("row_index", json_int row_index); ("queued", VBool true);
     ("from_start", VBool (ro_from_start opts));
     ("confirm_not_applied", VBool (ro_confirm_not_applied opts))]).

Definition failed_count (id : Z) (d : Db) : Z := count_status RowFailed (rows_of id d).

Definition retry_all_failed (c : Claims) (id : Z) (body : option RetryOptions) : Api value :=
  _ ← lift (require_role c OPERATORS);
  _ ← lift licensed;
  let opts := default default_retry_options body in
  _ ← guard_err (ro_confirm_not_applied opts)
        (BadRequest "confirm_not_applied is decided per row; use the single-row retry");
  target ← retry_target (org c) id;
  n ← query (failed_count id);
  if n =? 0 then mret (json_obj [("job_id", json_int id); ("retried", json_int 0)])
  else
    r ← start_workflow configured status_display (retry_workflow_id (tg_workflow_id target))
          "RetryFailedRowsWorkflow"
          (json_obj [("orgId", json_int (org c)); ("jobId", json_int id);
                     ("ruleTemplateId", json_int (tg_rule_template_id target));
                     ("ruleTemplateVersion", json_int (tg_rule_template_version target));
                     ("fromStart", VBool (ro_from_start opts))]);
    _ ← lift (map_err start_error r);
    _ ← record_audit c "job" (Some (show_Z id)) "retry_all_failed" None
          (Some (json_obj [("from_start", VBool (ro_from_start opts)); ("rows", json_int n)]));
    mret (json_obj [("job_id", json_int id); ("retried", json_int n)]).

(** ** Listings *)

(** A row of the LEFT JOIN with the batch and the batch stage. *)
Record JobJoinRow : Type := mkJoin {
  jj_job : JobRow; jj_batch_source_ref : option value;
  jj_stage_key : option string; jj_stage_file : option string }.

Definition join_job (d : Db) (j : JobRow) : JobJoinRow :=
  let stage := j_batch_stage_id j ≫= λ s, batch_stages d !! s in
  mkJoin j (ba_source_ref <$> (j_batch_id j ≫= λ b, batches d !! b))
    (bs_stage_key <$> stage) (bs_file_path <$> stage).

Definition into_json (r : JobJoinRow) : value :=
  job_json_with_source (jj_job r) (jj_batch_source_ref r) (jj_stage_key r) (jj_stage_file r).

Record JobsListQuery : Type := mkJobsQuery {
  jq_status : option string; jq_limit : option Z; jq_cursor : option Z }.

(** The jobs of an organization below the cursor, newest first. *)
Definition jobs_below (org_id cursor : Z) (status : option JobStatus) (d : Db) : list JobRow :=
  List.filter (λ j, (j_org_id j =? org_id) && (j_id j <? cursor) && opt_matches status (j_status j))
    (reverse (snd <$> by_id (jobs d))).

Definition select_jobs (org_id : Z) (q : JobsListQuery) (d : Db) : result string (list JobJoinRow) :=
  let limit := Z.min (default 50 (jq_limit q)) 200 in
  let cursor := default i64_max (jq_cursor q) in
  status ← cast_opt job_status_parse "invalid input value for enum job_status" (jq_status q);
  rows ← sql_limit limit (jobs_below org_id cursor status d);
  Ok (map (join_job d) rows).

Definition list_jobs (c : Claims) (q : JobsListQuery) : Api value :=
  rows ← query_err (select_jobs (org c) q);
  let next := json_opt_int (option_map (λ r, j_id (jj_job r)) (list.last rows)) in
  mret (json_obj [("items", VArray (map into_json rows)); ("next_cursor", next)]).

Definition get_job (c : Claims) (id : Z) : Api value :=
  row ← query (λ d, join_job d <$> job_of (org c) id d);
  lift (ok_or (into_json <$> row) NotFound).

(** [SELECT EXISTS(...)]: the ownership check of the row listings and the stream. *)
Definition require_owned (c : Claims) (id : Z) : Api unit :=
  owned ← query (λ d, is_some (job_of (org c) id d));
  guard_err (negb owned) NotFound.

Record RowsQuery : Type := mkRowsQuery {
  rq_status : option string; rq_limit : option Z; rq_cursor : option Z }.

Definition select_rows (id : Z) (q : RowsQuery) (d : Db) : result string (list JobRowDetail) :=
  let limit := Z.min (default 100 (rq_limit q)) 1000 in
  let cursor := default (-1) (rq_cursor q) in
  status ← cast_opt row_status_parse "invalid input value for enum row_status" (rq_status q);
  sql_limit limit
    (List.filter (λ r, (cursor <? jr_row_index r) && opt_matches status (jr_status r)) (rows_of id d)).

Definition list_rows (c : Claims) (id : Z) (q : RowsQuery) : Api (list JobRowDetail * option Z) :=
  _ ← require_owned c id;
  items ← query_err (select_rows id q);
  mret (items, option_map jr_row_index (list.last items)).

Definition steps_of (id row_index : Z) (d : Db) : list JobRowStepDetail :=
  merge_sort step_le
    (filter (λ r, js_job_id r = id ∧ js_row_index r = row_index) (snd <$> map_to_list (job_row_steps d))).

Definition list_row_steps (c : Claims) (id row_index : Z) : Api value :=
  _ ← require_owned c id;
  items ← query (steps_of id row_index);
  mret (json_obj [("items", VArray (map job_row_step_to_value items))]).

(** ** Results download *)

(** The object store's reads, and the csv crate's record writer. *)
Context (s3_get : string → string → result string string) (csv_record : list string → string)
      (minio_bucket : string).

Definition stream_results_from_db (job_id : Z) (failed_only : bool) : Api string :=
  rows ← query (λ d, List.filter (λ r, negb failed_only || bool_decide (jr_status r = RowFailed)
                                       || bool_decide (jr_status r = RowUnresolved)) (rows_of job_id d));
  mret (csv_record ["row_index"; "status"; "error"] +:+
        str_concat (map (λ r, csv_record [show_Z (jr_row_index r); row_status_text (jr_status r);
                                          default EmptyString (jr_last_error r)]) rows)).

(** The exported object to serve: only while the latest export succeeded. *)
Definition exported_object (failed : bool) (j : JobRow) : option (string * string) :=
  r ← opt_filter (λ _, match j_export_status j with Some s => (s =? "succeeded")%string | None => true end)
        (j_results_ref j);
  let bucket := default minio_bucket (get_str "bucket" r) in
  key ← (if failed then opt_or (get_str "failed_key" r) (get_str "key" r) else get_str "key" r);
  Some (bucket, key).

Definition results_filename (id : Z) (failed : bool) : string :=
  if failed then "job-" +:+ show_Z id +:+ "-results-failed.csv"
  else "job-" +:+ show_Z id +:+ "-results.csv".

Definition download_results (c : Claims) (id : Z) (failed : bool) : Api (string * string) :=
  row ← query (job_of (org c) id);
  j ← lift (ok_or row NotFound);
  bytes ← match exported_object failed j with
          | Some (bucket, key) => lift (map_err External (s3_get bucket key))
          | None => stream_results_from_db id failed
          end;
  mret ("attachment; filename=" +:+ quote +:+ results_filename id failed +:+ quote, bytes).
End Handlers.
