(* ===== verification/JobLifecycle.v ===== *)
(** * The life cycle of a job

    The transition table of [docs/adr/0004-job-lifecycle.md], and that every
    database step of the operations of [Jobs] follows it, whatever the
    workflow, the reconciler and other requests do in between.  [JobHistory]
    extends this to every request of the API. *)
From S2P Require Import Prelude RustStr Json Error LicenseFile Db World Sources JobSource Jobs.
From Stdlib Require Import Ascii.

(** ** The requests of the job module that change something *)
Inductive JobOp : Type :=
  | OpCreate (uuid : string) (req : JobCreate)
  | OpPause (id : Z)
  | OpResume (id : Z)
  | OpCancel (id : Z)
  | OpExport (id : Z)
  | OpRetryRow (id row_index : Z) (body : option RetryOptions)
  | OpRetryAll (id : Z) (body : option RetryOptions).

Section Requests.
Context `{Rfc3339}.
Context (configured : bool) (status_display : Z → string) (licensed : ApiResult unit).

Definition run_op (c : Claims) (o : JobOp) : Api unit :=
  match o with
  | OpCreate uuid req => create_job configured status_display licensed uuid c req ≫= λ _, mret tt
  | OpPause id => pause_job configured status_display c id ≫= λ _, mret tt
  | OpResume id => resume_job configured status_display licensed c id ≫= λ _, mret tt
  | OpCancel id => cancel_job configured status_display c id ≫= λ _, mret tt
  | OpExport id => retry_export configured status_display c id ≫= λ _, mret tt
  | OpRetryRow id i body => retry_row configured status_display licensed c id i body ≫= λ _, mret tt
  | OpRetryAll id body => retry_all_failed configured status_display licensed c id body ≫= λ _, mret tt
  end.

(** ** The table of ADR 0004 *)

(** The transitions the API may make. *)
Definition api_transition (a b : JobStatus) : bool :=
  match a, b with
  | Pending, Running | Pending, Failed | Running, Paused | Paused, Running => true
  | Pending, Cancelled | Running, Cancelled | Paused, Cancelled => true
  | _, _ => false
  end.

Definition terminal (s : JobStatus) : bool :=
  match s with Succeeded | Failed | Cancelled => true | _ => false end.

(** The transitions of the workflow ([MarkJobRunning], [FinalizeJob]) and of
    the reconciler. *)
Definition worker_transition (a b : JobStatus) : bool :=
  match a, b with
  | Pending, Running => true
  | Cancelled, _ => false
  | _, Succeeded | _, Failed | _, Cancelled => true
  | _, _ => false
  end.

(** How a job row may move: the status along [T], the identity of the job fixed. *)
Definition job_evolves (T : JobStatus → JobStatus → bool) (j j' : JobRow) : Prop :=
  (j_status j' = j_status j ∨ T (j_status j) (j_status j') = true) ∧
  j_id j' = j_id j ∧ j_org_id j' = j_org_id j ∧ j_source_ref j' = j_source_ref j ∧
  j_rule_template_id j' = j_rule_template_id j ∧
  j_rule_template_version j' = j_rule_template_version j ∧
  j_temporal_workflow_id j' = j_temporal_workflow_id j.

(** Ids already used are below the sequence. *)
Definition seq_fresh (d : Db) : Prop := ∀ id j, jobs d !! id = Some j → id < db_seq d.

Definition job_step (T : JobStatus → JobStatus → bool) (d d' : Db) : Prop :=
  seq_fresh d →
  seq_fresh d' ∧
  (∀ id j, jobs d !! id = Some j → ∃ j', jobs d' !! id = Some j' ∧ job_evolves T j j') ∧
  (∀ id j', jobs d !! id = None → jobs d' !! id = Some j' → j_status j' = Pending).

Lemma job_evolves_refl T j : job_evolves T j j.
Proof. unfold job_evolves. split_and!; try done. by left. Qed.

Lemma job_step_same T d d' : jobs d' = jobs d → db_seq d ≤ db_seq d' → job_step T d d'.
Proof.
  intros Hj Hs Hf. unfold seq_fresh. rewrite Hj. split_and!.
  - intros id j Hid. specialize (Hf id j Hid). lia.
  - eauto using job_evolves_refl.
  - congruence.
Qed.

Lemma job_step_refl T d : job_step T d d.
Proof. by apply job_step_same. Qed.

(** An UPDATE that respects the transitions. *)
Lemma update_job_step T id cond f d :
  (∀ j, cond j = true → job_evolves T j (f d j)) → job_step T d (update_job id cond f d).2.
Proof.
  intros Hev. unfold update_job. destruct (jobs d !! id) as [j|] eqn:Hj; [|apply job_step_refl].
  destruct (cond j) eqn:Hc; [|apply job_step_refl]. cbn. intros Hf. split_and!.
  - intros i j'. cbn. destruct (decide (i = id)) as [->|Hne]; [by intros _; eapply Hf|].
    rewrite lookup_insert_ne by done. apply Hf.
  - intros i j' Hj'. cbn. destruct (decide (i = id)) as [->|Hne].
    + rewrite lookup_insert_eq. exists (f d j). split; [done|].
      rewrite Hj in Hj'. injection Hj' as <-. by apply Hev.
    + rewrite lookup_insert_ne by done. eauto using job_evolves_refl.
  - intros i j' Hn. cbn. destruct (decide (i = id)) as [->|Hne]; [congruence|].
    rewrite lookup_insert_ne by done. congruence.
Qed.

Lemma insert_job_step T org_id tid v src wid by_ d row d' :
  insert_job org_id tid v src wid by_ d = Ok (row, d') → job_step T d d'.
Proof.
  unfold insert_job. destruct (existsb _ _); [done|]. destruct (negb _); [done|]. intros [= _ <-] Hf.
  assert (jobs d !! db_seq d = None) as Hn.
  { destruct (jobs d !! db_seq d) as [j|] eqn:Hj; [|done]. apply Hf in Hj. lia. }
  split_and!.
  - intros i j. cbn. destruct (decide (i = db_seq d)) as [->|Hne]; [lia|].
    rewrite lookup_insert_ne by done. intros Hi. apply Hf in Hi. lia.
  - intros i j Hj. cbn. destruct (decide (i = db_seq d)) as [->|Hne]; [congruence|].
    rewrite lookup_insert_ne by done. eauto using job_evolves_refl.
  - intros i j' Hi. cbn. destruct (decide (i = db_seq d)) as [->|Hne].
    + rewrite lookup_insert_eq. by intros [= <-].
    + rewrite lookup_insert_ne by done. congruence.
Qed.

Lemma status_in_elem l j : status_in l j = true → j_status j ∈ l.
Proof.
  unfold status_in. rewrite existsb_exists. intros (s & Hs & He). bool_prop.
  rewrite He. by apply list_elem_of_In.
Qed.

(** The four updates of the API. *)
Lemma fail_start_evolves m d j :
  status_in [Pending] j = true → job_evolves api_transition j (fail_start m (db_now d) j).
Proof.
  intros Hs%status_in_elem. apply list_elem_of_singleton in Hs. unfold job_evolves. cbn.
  rewrite Hs. split_and!; try done. by right.
Qed.

Lemma record_run_evolves r d j : job_evolves api_transition j (record_run r (db_now d) j).
Proof.
  unfold job_evolves. cbn. case_bool_decide as Hs; split_and!; try done; [|by left].
  rewrite Hs. by right.
Qed.

Lemma apply_action_evolves org_id from new d j :
  (∀ s, s ∈ from → api_transition s new = true) →
  owned_and org_id from j = true → job_evolves api_transition j (apply_action new (db_now d) j).
Proof.
  unfold owned_and. intros Hfrom [_ Hs%status_in_elem]%andb_true_iff. unfold job_evolves. cbn.
  split_and!; try done. right. by apply Hfrom.
Qed.

Lemma cancel_row_evolves org_id totals d j :
  owned_and org_id CANCELLABLE j = true →
  job_evolves api_transition j (cancel_row (totals d) (db_now d) j).
Proof.
  unfold owned_and. intros [_ Hs%status_in_elem]%andb_true_iff. unfold job_evolves. cbn.
  split_and!; try done. right.
  unfold CANCELLABLE in Hs. rewrite !elem_of_cons in Hs.
  destruct Hs as [->|[->|[->|[]%elem_of_nil]]]; done.
Qed.

Local Abbreviation R := (job_step api_transition).

Lemma writes_audit (T : Db → Db → Prop) c e i a b af :
  (∀ d, T d (set_audit_log (audit_log d ++ [audit_entry c e i a b af d]) d)) →
  writes T (record_audit c e i a b af).
Proof. intros HT. by apply writes_update. Qed.

Lemma writes_resolve (T : Db → Db → Prop) org_id req : (∀ d, T d d) → writes T (resolve org_id req).
Proof.
  intros HT. unfold resolve, lookup_object, require_connector. writes.
Qed.

Lemma audit_step T c e i a b af : writes (job_step T) (record_audit c e i a b af).
Proof. apply writes_audit. intros d. by apply job_step_same. Qed.

#[local] Hint Resolve job_step_refl audit_step writes_resolve : writes.

Lemma start_job_step job_id wid input :
  writes R (start_job configured status_display job_id wid input).
Proof.
  unfold start_job. apply writes_bind; [apply writes_start_workflow|intros [run|e]].
  - apply writes_bind; [|intros ?; writes]. apply writes_update. intros d.
    apply update_job_step. intros j _. apply record_run_evolves.
  - destruct (negb _); [writes|]. apply writes_bind; [|intros ?; writes].
    apply writes_update. intros d. apply update_job_step. intros j. apply fail_start_evolves.
Qed.

Lemma create_job_step uuid c req :
  writes R (create_job configured status_display licensed uuid c req).
Proof.
  unfold create_job. do 7 (apply writes_bind; [solve [writes]|intros ?]). cbv zeta.
  apply writes_bind; [apply writes_sql; intros ???; apply insert_job_step|intros ?].
  apply writes_bind; [apply start_job_step|intros ?]. writes.
Qed.

Lemma transition_lost_writes (T : Db → Db → Prop) A org_id id action :
  (∀ d, T d d) → writes T (transition_lost (A := A) org_id id action).
Proof. intros HT. unfold transition_lost. writes. Qed.

Lemma action_target_writes (T : Db → Db → Prop) org_id id action from :
  (∀ d, T d d) → writes T (action_target org_id id action from).
Proof. intros HT. unfold action_target. writes. Qed.

Lemma signal_and_record_step c id signal new action from :
  (∀ s, s ∈ from → api_transition s new = true) →
  writes R (signal_and_record configured status_display c id signal new action from).
Proof.
  intros Hfrom. unfold signal_and_record.
  apply writes_bind; [apply action_target_writes, job_step_refl|intros [wid|]; [|writes]].
  apply writes_bind; [apply writes_post_unit|intros ?].
  apply writes_bind; [writes|intros ?].
  apply writes_bind.
  - apply writes_update. intros d. apply update_job_step. intros j. by apply apply_action_evolves.
  - intros [row|]; [writes|apply transition_lost_writes, job_step_refl].
Qed.

Lemma cancel_job_step c id : writes R (cancel_job configured status_display c id).
Proof.
  unfold cancel_job. apply writes_bind; [writes|intros ?].
  apply writes_bind; [apply action_target_writes, job_step_refl|intros wid].
  apply writes_bind; [destruct wid; [|writes]; apply writes_bind; [apply writes_post_unit|intros ?; writes]|intros found].
  apply writes_bind.
  - apply writes_update. intros d. apply update_job_step. intros j. apply (cancel_row_evolves _ (totals_of id)).
  - intros [row|]; [writes|apply transition_lost_writes, job_step_refl].
Qed.

Lemma retry_target_writes (T : Db → Db → Prop) org_id id :
  (∀ d, T d d) → writes T (retry_target org_id id).
Proof. intros HT. unfold retry_target. writes. Qed.

Lemma run_op_step c o : writes R (run_op c o).
Proof.
  destruct o as [uuid req|id|id|id|id|id i body|id body]; cbn [run_op];
    (apply writes_bind; [|intros ?; apply writes_ret]).
  - apply create_job_step.
  - unfold pause_job. apply writes_bind; [writes|intros ?]. apply signal_and_record_step.
    intros s ->%list_elem_of_singleton. done.
  - unfold resume_job. do 2 (apply writes_bind; [solve [writes]|intros ?]). apply signal_and_record_step.
    intros s ->%list_elem_of_singleton. done.
  - apply cancel_job_step.
  - unfold retry_export. writes.
  - unfold retry_row. do 2 (apply writes_bind; [solve [writes]|intros ?]). cbv zeta.
    apply writes_bind; [apply retry_target_writes, job_step_refl|intros ?]. writes.
  - unfold retry_all_failed. do 2 (apply writes_bind; [solve [writes]|intros ?]). cbv zeta.
    apply writes_bind; [writes|intros ?].
    apply writes_bind; [apply retry_target_writes, job_step_refl|intros ?]. writes.
Qed.

(** ** The life cycle *)

(** What holds of a job's status over any stretch of time. *)
Definition status_order (a b : JobStatus) : Prop :=
  (a = Cancelled → b = Cancelled) ∧ (terminal a = true → terminal b = true).

Definition any_transition (a b : JobStatus) : bool := api_transition a b || worker_transition a b.

Lemma any_transition_order a b : any_transition a b = true → status_order a b.
Proof. destruct a, b; cbn; try done; intros _; split; done. Qed.

Lemma job_step_weaken T T' d d' :
  (∀ a b, T a b = true → T' a b = true) → job_step T d d' → job_step T' d d'.
Proof.
  intros HT Hs Hf. destruct (Hs Hf) as (Hf' & He & Hn). split_and!; [done| |done].
  intros id j Hj. destruct (He id j Hj) as (j' & Hj' & [Hst|Hst] & Hid); exists j'; split; try done.
  - split; [by left|done].
  - split; [right; by apply HT|done].
Qed.

(** A job over a sequence of steps of any writer. *)
Lemma steps_evolve d d' id j :
  rtc (job_step any_transition) d d' → seq_fresh d → jobs d !! id = Some j →
  seq_fresh d' ∧ ∃ j', jobs d' !! id = Some j' ∧ status_order (j_status j) (j_status j') ∧
    j_org_id j' = j_org_id j ∧ j_source_ref j' = j_source_ref j ∧
    j_temporal_workflow_id j' = j_temporal_workflow_id j.
Proof.
  intros Hsteps. revert j. induction Hsteps as [d|d1 d2 d3 H12 H23 IH]; intros j Hf Hj.
  { split; [done|]. exists j. unfold status_order. by split_and!. }
  destruct (H12 Hf) as (Hf2 & He & _). destruct (He id j Hj) as (j2 & Hj2 & Hst & _ & Ho & Hs & _ & _ & Hw).
  destruct (IH j2 Hf2 Hj2) as (Hf3 & j3 & Hj3 & [Hc Ht] & Ho3 & Hs3 & Hw3).
  split; [done|]. exists j3. split_and!; try congruence; try done.
  destruct Hst as [Hst|Hst%any_transition_order]; [rewrite Hst in Hc, Ht; by split|].
  destruct Hst as [Hc' Ht']. split; auto.
Qed.

(** Own steps and other writers' together. *)
Lemma any_steps d d' :
  rtc (λ a b, job_step any_transition a b ∨ job_step api_transition a b) d d' → rtc (job_step any_transition) d d'.
Proof.
  intros Hr. induction Hr as [|a b e [Hab|Hab] _ IH]; [done|by eapply rtc_l|].
  eapply rtc_l; [|exact IH]. eapply job_step_weaken; [|exact Hab]. intros x y Hxy.
  unfold any_transition. by rewrite Hxy.
Qed.
End Requests.

(** ** Witnesses *)
Definition sample_claims : Claims := mkClaims "3" 1 "operator".
Definition sample_job (s : JobStatus) : JobRow :=
  mkJob 5 1 2 1 None (json_obj []) s (json_obj []) (Some "mig-1-u") None None None None (Some 3) 10 10
    None None None None None None.
Definition sample_row (i : Z) (s : RowStatus) : JobRowDetail :=
  mkJobRowDetail 5 i s 1 None None None None None 10.
Definition job_db (s : JobStatus) : Db :=
  set_job_rows {[(5, 0) := sample_row 0 RowFailed]} (set_seq 6 (set_jobs {[5 := sample_job s]} empty_db)).
Definition no_text (_ : Z) : string := EmptyString.
(** The bridge answers every request with 200. *)
Definition answering (d : Db) : World := mkWorld d [] [Answer 200 None] [] [].

Lemma sample_fresh s : seq_fresh (job_db s).
Proof.
  intros id j Hj. change (jobs (job_db s)) with ({[5 := sample_job s]} : gmap Z JobRow) in Hj.
  apply lookup_singleton_Some in Hj as [<- _]. reflexivity.
Defined.
