(* ===== verification/JobActions.v ===== *)
(** * What the job handlers do

    The theorems about the footprint of every handler of [Jobs]: the caller's
    organization is never left, and every accepted action is audited. *)
From S2P Require Import Prelude RustStr Json Error LicenseFile Db World Sources JobSource Jobs JobLifecycle.
From Stdlib Require Import Ascii.

(** ** Organizations and the audit log *)

(** Every table but [jobs] and the audit log, which the job handlers only read. *)
Definition other_tables (d : Db) :=
  (job_rows d, job_row_steps d, rule_templates d, connectors d, sources d, schedules d,
   schedule_runs d, secrets d, batches d, batch_stages d, openapi_specs d, org_llm_configs d).

(** A step that stays inside the organization of the caller and is attributed
    to the caller. *)
Definition tenant_step (c : Claims) (d d' : Db) : Prop :=
  (∀ id j, jobs d !! id = Some j → j_org_id j ≠ org c → jobs d' !! id = Some j) ∧
  (∀ id j, jobs d' !! id = Some j → jobs d !! id = Some j ∨ j_org_id j = org c) ∧
  (audit_log d' = audit_log d ∨
   ∃ e, audit_log d' = audit_log d ++ [e] ∧ au_org_id e = org c ∧ au_actor e = sub c) ∧
  other_tables d' = other_tables d.

Lemma tenant_step_refl c d : tenant_step c d d.
Proof. unfold tenant_step. split_and!; eauto. Qed.

Lemma tenant_audit c e i a b af : writes (tenant_step c) (record_audit c e i a b af).
Proof.
  apply writes_audit. intros d. unfold tenant_step. cbn. split_and!; [done|by left| |done].
  right. eexists. split; [reflexivity|done].
Qed.

Lemma update_job_tenant c id cond f d :
  (∀ j, jobs d !! id = Some j → cond j = true → j_org_id j = org c ∧ j_org_id (f d j) = org c) →
  tenant_step c d (update_job id cond f d).2.
Proof.
  intros Hc. unfold update_job. destruct (jobs d !! id) as [j|] eqn:Hj; [|apply tenant_step_refl].
  destruct (cond j) eqn:Hcond; [|apply tenant_step_refl]. destruct (Hc j eq_refl Hcond) as [Ho Hf].
  unfold tenant_step. cbn. split_and!; [| |by left|done].
  - intros i j' Hj' Hne. rewrite lookup_insert_ne; [done|]. intros <-. congruence.
  - intros i j'. destruct (decide (i = id)) as [->|Hne].
    + rewrite lookup_insert_eq. intros [= <-]. by right.
    + rewrite lookup_insert_ne by done. by left.
Qed.

Lemma owned_and_org c from j : owned_and (org c) from j = true → j_org_id j = org c.
Proof. unfold owned_and. intros [Ho _]%andb_true_iff. by apply Z.eqb_eq. Qed.

#[export] Hint Resolve tenant_step_refl tenant_audit writes_resolve : writes.

Section Actions.
Context `{Rfc3339}.
Context (configured : bool) (status_display : Z → string) (licensed : ApiResult unit).

Lemma signal_tenant c id signal new action from :
  writes (tenant_step c) (signal_and_record configured status_display c id signal new action from).
Proof.
  unfold signal_and_record.
  apply writes_bind; [apply action_target_writes, tenant_step_refl|intros [wid|]; [|writes]].
  apply writes_bind; [apply writes_post_unit|intros ?].
  apply writes_bind; [writes|intros ?]. apply writes_bind.
  - apply writes_update. intros d. apply update_job_tenant. intros j _ Hj%owned_and_org. done.
  - intros [row|]; [writes|apply transition_lost_writes, tenant_step_refl].
Qed.

Lemma cancel_tenant c id : writes (tenant_step c) (cancel_job configured status_display c id).
Proof.
  unfold cancel_job. apply writes_bind; [writes|intros ?].
  apply writes_bind; [apply action_target_writes, tenant_step_refl|intros wid].
  apply writes_bind;
    [destruct wid; [|writes]; apply writes_bind; [apply writes_post_unit|intros ?; writes]|intros found].
  apply writes_bind.
  - apply writes_update. intros d. apply update_job_tenant. intros j _ Hj%owned_and_org. done.
  - intros [row|]; [writes|apply transition_lost_writes, tenant_step_refl].
Qed.

(** The job a creation inserted stays the caller's, whatever the others do. *)
Definition job_is_of (o id : Z) (d : Db) : Prop :=
  seq_fresh d ∧ ∃ j, jobs d !! id = Some j ∧ j_org_id j = o.

Lemma job_is_of_step o id d d' :
  job_step any_transition d d' → job_is_of o id d → job_is_of o id d'.
Proof.
  intros Hs [Hf (j & Hj & Ho)]. destruct (Hs Hf) as (Hf' & He & _). split; [done|].
  destruct (He id j Hj) as (j' & Hj' & _ & _ & Ho' & _). exists j'. split; [done|congruence].
Qed.

Lemma api_step_any d d' : job_step api_transition d d' → job_step any_transition d d'.
Proof. apply job_step_weaken. intros a b Hab. unfold any_transition. by rewrite Hab. Qed.

Lemma update_job_is_of c id cond f d :
  (∀ j, cond j = true → job_evolves api_transition j (f d j)) →
  job_is_of (org c) id d →
  tenant_step c d (update_job id cond f d).2 ∧ job_is_of (org c) id (update_job id cond f d).2.
Proof.
  intros Hev HI. split.
  - apply update_job_tenant. intros j Hj Hcond. destruct HI as [_ (j0 & Hj0 & Ho)].
    assert (j0 = j) as -> by congruence. destruct (Hev j Hcond) as (_ & _ & Ho' & _).
    split; [done|congruence].
  - eapply job_is_of_step; [|exact HI]. by apply api_step_any, update_job_step.
Qed.

Lemma start_job_tenant c id wid input :
  writes (λ d d', job_is_of (org c) id d → tenant_step c d d' ∧ job_is_of (org c) id d')
         (start_job configured status_display id wid input).
Proof.
  unfold start_job. apply writes_bind; [apply writes_start_workflow|intros [run|e]].
  - apply writes_bind; [|intros ?; writes]. apply writes_update. intros d HI.
    apply update_job_is_of; [|done]. intros j _. apply record_run_evolves.
  - destruct (negb _); [writes|]. apply writes_bind; [|intros ?; writes].
    apply writes_update. intros d HI. apply update_job_is_of; [|done]. intros j. apply fail_start_evolves.
Qed.

Lemma seq_fresh_step d d' : job_step any_transition d d' → seq_fresh d → seq_fresh d'.
Proof. intros Hs Hf. by destruct (Hs Hf). Qed.

(** Reads and audit entries under the freshness invariant. *)
Lemma fresh_refl c d : seq_fresh d → tenant_step c d d ∧ seq_fresh d.
Proof. split; [apply tenant_step_refl|done]. Qed.

Lemma insert_tenant c tid v src wid by_ w :
  seq_fresh (w_db w) → turns_in (job_step any_transition) w →
  wp (sql (insert_job (org c) tid v src wid by_))
     (λ r w', wrote (tenant_step c) (job_step any_transition) w w' ∧
              ∀ row, r = Ok row → job_is_of (org c) (j_id row) (w_db w')) w.
Proof.
  intros Hf Ht.
  assert (writes (λ d d', seq_fresh d → (tenant_step c d d' ∧ job_is_of (org c) (db_seq d) d') ∧ seq_fresh d')
            (sql (insert_job (org c) tid v src wid by_))) as Hw.
  { apply writes_sql. intros d row d' Hins Hfd.
    pose proof (insert_job_step api_transition _ _ _ _ _ _ _ _ _ Hins Hfd) as (Hf' & Hev & _).
    unfold insert_job in Hins. destruct (existsb _ _); [done|]. destruct (negb _); [done|]. injection Hins as <- <-.
    assert (jobs d !! db_seq d = None) as Hn.
    { destruct (jobs d !! db_seq d) as [j|] eqn:Hj; [|done]. apply Hfd in Hj. lia. }
    split; [|done]. split.
    - unfold tenant_step. cbn. split_and!; [| |by left|done].
      + intros id j Hj _. rewrite lookup_insert_ne; [done|]. intros <-. congruence.
      + intros id j. destruct (decide (id = db_seq d)) as [->|Hne].
        * rewrite lookup_insert_eq. intros [= <-]. by right.
        * rewrite lookup_insert_ne by done. by left.
    - split; [done|]. cbn. rewrite lookup_insert_eq. eauto. }
  pose proof (writes_wp seq_fresh _ _ _ w Hw Hf Ht seq_fresh_step) as [[(h & Hh & HR) Ht'] _].
  split; [split; [|done]; exists h; split; [done|]; eapply Forall_impl; [|exact HR]; by intros ab [? _]|].
  intros row Hrow. revert Hrow Hh HR. unfold sql. destruct (next_turn w) as [t ts].
  destruct (t_fault t) as [[[] e]|]; [by destruct (insert_job _ _ _ _ _ _ _) as [[]|]|done|].
  destruct (insert_job _ _ _ _ _ _ _) as [[r d']|] eqn:Hins; [|done]. cbn.
  intros [= ->] Hh HR. apply app_inv_head in Hh as <-.
  apply Forall_cons_iff in HR as [[_ HI] _]. cbn in HI.
  unfold insert_job in Hins. destruct (existsb _ _); [done|]. destruct (negb _); [done|]. by injection Hins as <- <-.
Qed.

Lemma fresh_reads {A} c (m : Api A) :
  writes (λ d d', seq_fresh d → tenant_step c d d' ∧ seq_fresh d') m →
  ∀ w, seq_fresh (w_db w) → turns_in (job_step any_transition) w →
  wp m (λ _ w', wrote (tenant_step c) (job_step any_transition) w w' ∧ seq_fresh (w_db w')) w.
Proof. intros Hm w Hf Ht. by apply writes_wp; [|..|apply seq_fresh_step]. Qed.

(** The running claim of a request that started in [w0]. *)
Definition so_far (c : Claims) (w0 w : World) : Prop :=
  wrote (tenant_step c) (job_step any_transition) w0 w.

Lemma fresh_bind {A B} c w0 w (m : Api A) (f : A → Api B) :
  writes (λ d d', seq_fresh d → tenant_step c d d' ∧ seq_fresh d') m →
  seq_fresh (w_db w) → so_far c w0 w →
  (∀ a w', seq_fresh (w_db w') → so_far c w0 w' → wp (f a) (λ _ w'', so_far c w0 w'') w') →
  wp (m ≫= f) (λ _ w'', so_far c w0 w'') w.
Proof.
  intros Hm Hf Hs Hcont. wp_step. eapply wp_mono; [apply (fresh_reads c m Hm w Hf (proj2 Hs))|].
  cbv beta. intros [a|e] w' [Hw Hf']; [apply Hcont; [done|]|]; by eapply wrote_trans.
Qed.

Lemma create_tenant uuid c req w0 w :
  seq_fresh (w_db w) → so_far c w0 w →
  wp (create_job configured status_display licensed uuid c req) (λ _ w', so_far c w0 w') w.
Proof.
  intros Hf Hs. unfold create_job.
  do 7 (apply (fresh_bind c w0 _); [solve [writes; eauto using fresh_refl with writes]|exact Hf|exact Hs|];
        clear w Hf Hs; intros ? w Hf Hs).
  cbv zeta. wp_step. eapply wp_mono; [apply insert_tenant; [done|apply Hs]|]. cbv beta.
  intros [row|e] w1 [Hw Hrow]; [|by eapply wrote_trans]. specialize (Hrow row eq_refl). cbv iota.
  assert (so_far c w0 w1) as Hs1 by (by eapply wrote_trans).
  wp_step. eapply wp_mono; [eapply (writes_wp _ _ (job_step any_transition) _ _ (start_job_tenant _ _ _ _));
    [exact Hrow|apply Hs1|apply job_is_of_step]|]. cbv beta.
  intros [row'|e] w2 [Hw2 [Hf2 _]]; [|by eapply wrote_trans]. cbv iota.
  assert (so_far c w0 w2) as Hs2 by (by eapply wrote_trans).
  apply (fresh_bind c w0 w2); [|done|done|intros ? w3 Hf3 Hs3; by wp_step].
  apply writes_audit. intros d Hfd. split; [|done].
  unfold tenant_step. cbn. split_and!; [done|by left| |done].
  right. eexists. split; [reflexivity|done].
Qed.

(** Requests stay inside the caller's organization: whatever request is
    run, with the workflow's, the reconciler's and other requests' writes in
    between, none of its own database steps changes or creates a job of
    another organization or touches any table but the jobs and the audit log,
    and every audit entry it adds carries the caller's organization and
    subject. *)
Theorem requests_stay_in_org c o w :
  seq_fresh (w_db w) → turns_in (job_step any_transition) w →
  ∃ h, w_hist (run_op configured status_display licensed c o w).2 = w_hist w ++ h ∧
       Forall (λ ab, tenant_step c ab.1 ab.2) h.
Proof.
  intros Hf Ht.
  assert (∀ A (m : Api A), writes (tenant_step c) m →
    ∃ h, w_hist ((m ≫= λ _, mret tt) w : result ApiError unit * World).2 = w_hist w ++ h ∧
         Forall (λ ab, tenant_step c ab.1 ab.2) h) as Hw.
  { intros A m Hm.
    destruct (writes_bind (tenant_step c) m (λ _, mret tt) Hm (λ _, writes_ret _ tt) w)
      as ((h & ? & ? & _) & _). by exists h. }
  destruct o as [uuid req|id|id|id|id|id i body|id body]; cbn [run_op]; [|apply Hw..].
  - assert (so_far c w w) as Hs by (split; [exists []; by rewrite app_nil_r|done]).
    pose proof (create_tenant uuid c req w w Hf Hs) as [Hh _]. unfold mbind, stM_bind.
    unfold wp in Hh. by destruct (create_job _ _ _ _ _ _ w) as [[]].
  - unfold pause_job. apply writes_bind; [writes|intros ?]. apply signal_tenant.
  - unfold resume_job. do 2 (apply writes_bind; [solve [writes]|intros ?]). apply signal_tenant.
  - apply cancel_tenant.
  - unfold retry_export. writes.
  - unfold retry_row. do 2 (apply writes_bind; [solve [writes]|intros ?]). cbv zeta.
    apply writes_bind; [apply retry_target_writes, tenant_step_refl|intros ?]. writes.
  - unfold retry_all_failed. do 2 (apply writes_bind; [solve [writes]|intros ?]). cbv zeta.
    apply writes_bind; [writes|intros ?].
    apply writes_bind; [apply retry_target_writes, tenant_step_refl|intros ?]. writes.
Qed.

(** ** The audit log *)

(** The last thing the request did to the database was to append an entry of
    the caller for [action]. *)
Definition audited (c : Claims) (action : string) (w : World) : Prop :=
  ∃ h d e, w_hist w = h ++ [(d, set_audit_log (audit_log d ++ [e]) d)] ∧
    au_org_id e = org c ∧ au_actor e = sub c ∧ au_action e = action.

Definition ends_audited {A} (c : Claims) (action : string) (m : Api A) : Prop :=
  ∀ w a w', m w = (Ok a, w') → audited c action w'.

Lemma ends_bind {A B} c action (m : Api A) (f : A → Api B) :
  (∀ a, ends_audited c action (f a)) → ends_audited c action (m ≫= f).
Proof. intros Hf w b w' Hr. inv_ok. by eapply Hf. Qed.

Lemma ends_throw {A} c action e : ends_audited c action (throw e : Api A).
Proof. by intros w a w' [=]. Qed.

Lemma ends_with_audit {A} c action entity i b af (x : A) :
  ends_audited c action (record_audit c entity i action b af ≫= λ _, mret x).
Proof.
  intros w a w' Hr. inv_ok. revert Hrun. unfold record_audit, update, sql.
  destruct (next_turn w) as [t ts]. destruct (t_fault t) as [[[] e]|]; cbn; [done|done|].
  intros [= _ <-]. unfold audited. cbn. eauto 10.
Qed.

Lemma transition_lost_ends {A} c action org_id id act :
  ends_audited c action (transition_lost (A := A) org_id id act).
Proof. unfold transition_lost. apply ends_bind. intros. apply ends_throw. Qed.

Definition action_name (o : JobOp) : string :=
  match o with
  | OpCreate _ _ => "create" | OpPause _ => "pause" | OpResume _ => "resume"
  | OpCancel _ => "cancel" | OpExport _ => "retry_export" | OpRetryRow _ _ _ => "retry"
  | OpRetryAll _ _ => "retry_all_failed"
  end.

Ltac ends := repeat first
  [ apply ends_with_audit | apply ends_throw | apply transition_lost_ends
  | apply ends_bind; intros ?
  | match goal with |- ends_audited _ _ (match ?x with _ => _ end) => destruct x end
  | match goal with |- ends_audited _ _ (let _ := _ in _) => cbv zeta end ].

Lemma ends_unit {A} c action (m : Api A) :
  ends_audited c action m → ends_audited c action (m ≫= λ _, mret tt).
Proof. intros Hm w a w' Hr. inv_ok. by eapply Hm. Qed.

(** Every accepted action leaves its audit entry: a job request that
    succeeds ends by appending an entry with the caller's organization and
    subject and the action's name; the one exception is a retry of failed rows
    that finds none, which has no effect: it asks nothing of the bridge. *)
Theorem every_action_is_audited c o w w' :
  run_op configured status_display licensed c o w = (Ok tt, w') →
  audited c (action_name o) w' ∨
  ∃ id body, o = OpRetryAll id body ∧ w_calls w' = w_calls w.
Proof.
  destruct o as [uuid req|id|id|id|id|id i body|id body]; cbn [run_op action_name]; intros Hr.
  1-6: left; revert Hr; apply ends_unit.
  - unfold create_job. ends.
  - unfold pause_job, signal_and_record. ends.
  - unfold resume_job, signal_and_record. ends.
  - unfold cancel_job. ends.
  - unfold retry_export. ends.
  - unfold retry_row. ends.
  - unfold retry_all_failed in Hr. inv_ok. cbv zeta in Hrun. inv_ok.
    destruct (a4 =? 0) eqn:Hn; [right|left].
    + exists id, body. split; [done|]. unfold retry_target in Hrun3. inv_ok. use_silent. congruence.
    + revert Hrun.
      match goal with |- ?m ?s = (Ok ?v, ?w2) → _ => assert (ends_audited c "retry_all_failed" m) as He by ends end.
      intros Hrun. injection Hr as <-. by eapply He.
Qed.
End Actions.

(** ** Witnesses *)
Lemma requests_stay_in_org_witness :
  ∃ h, w_hist (run_op (H := decimal_time) true no_text (Ok tt) sample_claims (OpCancel 5) (answering (job_db Running))).2 = h ∧
       h ≠ [] ∧ Forall (λ ab, tenant_step sample_claims ab.1 ab.2) h.
Proof.
  destruct (requests_stay_in_org (H := decimal_time) true no_text (Ok tt) sample_claims (OpCancel 5)
              (answering (job_db Running)) (sample_fresh Running)) as (h & Hh & Hf); [constructor|].
  exists h. split; [exact Hh|]. split; [|exact Hf]. intros ->. apply (f_equal length) in Hh.
  vm_compute in Hh. discriminate.
Defined.

Lemma every_action_is_audited_witness :
  audited sample_claims "cancel"
    (run_op (H := decimal_time) true no_text (Ok tt) sample_claims (OpCancel 5) (answering (job_db Running))).2.
Proof.
  destruct (every_action_is_audited (H := decimal_time) true no_text (Ok tt) sample_claims (OpCancel 5)
              (answering (job_db Running))
              (run_op (H := decimal_time) true no_text (Ok tt) sample_claims (OpCancel 5) (answering (job_db Running))).2)
    as [Ha|(? & ? & ? & _)].
  - vm_compute. reflexivity.
  - exact Ha.
  - discriminate.
Defined.
