(* ===== verification/JobStart.v ===== *)
(** * Jobs: what a request asks of the orchestrator

    The theorems of [Jobs] about the requests sent to the bridge: a workflow
    is started for a committed [pending] job of a resolved source only, the
    outcome of a start is recorded as far as it is known, and retries respect
    unresolved rows. *)
From S2P Require Import Prelude RustStr Json Error LicenseFile Db World Sources JobSource Jobs JobLifecycle.
From Stdlib Require Import Ascii.

(** ** Reasoning about a run *)

(** The statements of a run stay in the history. *)
Definition extends (w w' : World) : Prop := ∃ h, w_hist w' = w_hist w ++ h.

#[global] Instance extends_preorder : PreOrder extends.
Proof.
  split; [intros w; exists []; by rewrite app_nil_r|].
  intros w1 w2 w3 [h Hh] [h' Hh']. exists (h ++ h'). by rewrite Hh', Hh, app_assoc.
Qed.

Lemma extends_elem w w' s : extends w w' → s ∈ w_hist w → s ∈ w_hist w'.
Proof. intros [h ->] Hs. apply elem_of_app. by left. Qed.

Lemma writes_extends {A} R (m : Api A) w : writes R m → extends w (m w).2.
Proof. intros Hm. destruct (Hm w) as ((h & ? & _) & _). by exists h. Qed.

(** A statement that asks nothing of the bridge. *)
Lemma wp_bind_silent {A B} (m : Api A) (f : A → Api B) Q w :
  silent m → extends w (m w).2 →
  (∀ a w', m w = (Ok a, w') → w_calls w' = w_calls w → w_bridge w' = w_bridge w → extends w w' →
     wp (f a) Q w') →
  (∀ e w', w_calls w' = w_calls w → extends w w' → Q (Err e) w') →
  wp (m ≫= f) Q w.
Proof.
  intros Hs He Hok Herr. apply wp_bind. unfold wp. destruct (Hs w) as [Hc Hb].
  destruct (m w) as [[a|e] w'] eqn:Hm; cbn in *; [by apply Hok|by apply Herr].
Qed.

Lemma sql_extends {A} (f : Db → result string (A * Db)) w : extends w (sql f w).2.
Proof. apply (writes_extends (λ _ _, True)). by apply writes_sql. Qed.
Lemma query_extends {A} (f : Db → A) w : extends w (query f w).2.
Proof. apply sql_extends. Qed.

(** What a read showed: the state it ran in, which is in the history. *)
Lemma query_seen {A} (f : Db → A) w a w' :
  query f w = (Ok a, w') → (w_db w', w_db w') ∈ w_hist w' ∧ a = f (w_db w').
Proof.
  unfold query, sql. destruct (next_turn w) as [t ts].
  destruct (t_fault t) as [[[] e]|]; cbn; [done|done|]. intros [= <- <-]. cbn.
  split; [|done]. apply elem_of_app. right. by apply list_elem_of_singleton.
Qed.

Lemma sql_seen {A} (f : Db → result string (A * Db)) w a w' :
  sql f w = (Ok a, w') → ∃ d, (d, w_db w') ∈ w_hist w' ∧ f d = Ok (a, w_db w').
Proof.
  unfold sql. destruct (next_turn w) as [t ts]. set (d := t_env t (w_db w)).
  destruct (t_fault t) as [[[] e]|]; destruct (f d) as [[b d']|e'] eqn:Hd; try done.
  intros [= <- <-]. exists d. cbn. split; [|done].
  apply elem_of_app. right. by apply list_elem_of_singleton.
Qed.

(** Whatever a statement's outcome, it left at most one step. *)
Lemma update_effect {A} (f : Db → A * Db) w :
  let '(r, w') := update f w in
  w_calls w' = w_calls w ∧
  (w_hist w' = w_hist w ∧ is_ok r = false ∨
   ∃ d, w_hist w' = w_hist w ++ [(d, w_db w')] ∧ w_db w' = (f d).2 ∧ (∀ a, r = Ok a → a = (f d).1)).
Proof.
  unfold update, sql. destruct (next_turn w) as [t ts]. set (d := t_env t (w_db w)).
  destruct (f d) as [a d'] eqn:Hd. destruct (t_fault t) as [[[] e]|]; cbn; split; try done.
  2: by left.
  all: right; exists d; rewrite Hd; split_and!; [done..|]; naive_solver.
Qed.

(** A start request and its answer. *)
Definition start_request (workflow_id workflow_type : string) (input : value) : string * value :=
  ("/v1/workflows/start", json_obj
     [("workflowId", VString workflow_id); ("workflowType", VString workflow_type);
      ("taskQueue", VString "migration"); ("input", input)]).

(** Whether the request is sent, and the reply the next request meets. *)
Definition asked (configured : bool) (w w' : World) (req : string * value) : Prop :=
  w_calls w' = if configured then w_calls w ++ [req] else w_calls w.
Definition next_reply (configured : bool) (status_display : Z → string) (path : string) (w : World)
    : result BridgeError value :=
  if configured then interpret status_display path (default Lost (head (w_bridge w)))
  else Ok (json_obj [("stub", VBool true)]).

Section Requests.
Context `{Rfc3339}.
Context (configured : bool) (status_display : Z → string) (licensed : ApiResult unit).

Lemma post_run path body w :
  ∃ w', post configured status_display path body w
        = (Ok (next_reply configured status_display path w), w') ∧
    asked configured w w' (path, body) ∧ w_db w' = w_db w ∧ w_hist w' = w_hist w ∧ w_turns w' = w_turns w.
Proof.
  unfold post, next_reply, asked. destruct configured; cbn; [|by exists w].
  destruct (w_bridge w) as [|r rs]; cbn; by eexists.
Qed.

Definition run_id_of (workflow_id : string) (v : value) : string :=
  default ("run-" +:+ workflow_id) (get_str "runId" v).

Lemma start_workflow_run workflow_id ty input w :
  ∃ w', start_workflow configured status_display workflow_id ty input w
        = (Ok (run_id_of workflow_id <$> next_reply configured status_display "/v1/workflows/start" w), w') ∧
    asked configured w w' (start_request workflow_id ty input) ∧
    w_db w' = w_db w ∧ w_hist w' = w_hist w ∧ w_turns w' = w_turns w.
Proof.
  unfold start_workflow, mbind, stM_bind.
  edestruct (post_run "/v1/workflows/start") as (w' & -> & Hw). exists w'. split; [|exact Hw].
  by destruct (next_reply _ _ _ w).
Qed.

Lemma post_unit_run path body w :
  ∃ w', post_unit configured status_display path body w
        = (Ok ((λ _, tt) <$> next_reply configured status_display path w), w') ∧
    asked configured w w' (path, body) ∧ w_db w' = w_db w ∧ w_hist w' = w_hist w ∧ w_turns w' = w_turns w.
Proof.
  unfold post_unit, mbind, stM_bind.
  edestruct (post_run path body) as (w' & -> & Hw). exists w'. split; [|exact Hw].
  by destruct (next_reply _ _ _ w).
Qed.

(** ** Starting a job *)

(** The job after its start as far as the outcome of the start is known. *)
Definition known_outcome (id : Z) (workflow_id : string) (reply : result BridgeError value)
    (d : Db) (j : JobRow) : JobRow :=
  match reply with
  | Ok v => record_run (run_id_of workflow_id v) (db_now d) j
  | Err (ConnectRefused m) =>
      if bool_decide (j_status j = Pending) then fail_start ("workflow start failed: " +:+ m) (db_now d) j
      else j
  | Err _ => j
  end.

Definition ambiguous (reply : result BridgeError value) : bool :=
  match reply with Ok _ | Err (ConnectRefused _) => false | Err _ => true end.

Lemma set_jobs_same d : set_jobs (jobs d) d = d.
Proof. by destruct d. Qed.

Lemma update_job_alter id cond f d :
  (update_job id cond f d).2 = set_jobs (alter (λ j, if cond j then f d j else j) id (jobs d)) d.
Proof.
  unfold update_job. destruct (jobs d !! id) as [j|] eqn:Hj; [|by rewrite alter_id', set_jobs_same].
  destruct (cond j) eqn:Hc; cbn; [f_equal|]. 
  - apply map_eq. intros i. destruct (decide (i = id)) as [->|Hne].
    + rewrite lookup_insert_eq, lookup_alter_eq, Hj. cbn. by rewrite Hc.
    + by rewrite lookup_insert_ne, lookup_alter_ne by done.
  - rewrite alter_id, set_jobs_same; [done|]. intros j' Hj'. rewrite Hj in Hj'. injection Hj' as <-. by rewrite Hc.
Qed.

Lemma update_job_row id cond f d row :
  (update_job id cond f d).1 = Some row →
  jobs (update_job id cond f d).2 !! id = Some row ∧
  ∃ j, jobs d !! id = Some j ∧ cond j = true ∧ row = f d j.
Proof.
  unfold update_job. destruct (jobs d !! id) as [j|] eqn:Hj; [|done].
  destruct (cond j) eqn:Hc; [|done]. cbn. intros [= <-]. rewrite lookup_insert_eq. eauto.
Qed.

Lemma wp_run {A} (m : Api A) w r w' Q : m w = (r, w') → Q r w' → wp m Q w.
Proof. unfold wp. by intros ->. Qed.

Lemma wp_update {A} (f : Db → A * Db) w (Q : ApiResult A → World → Prop) :
  (∀ r w', w_calls w' = w_calls w →
     (w_hist w' = w_hist w ∧ is_ok r = false ∨
      ∃ d, w_hist w' = w_hist w ++ [(d, w_db w')] ∧ w_db w' = (f d).2 ∧ (∀ a, r = Ok a → a = (f d).1)) →
     Q r w') →
  wp (update f) Q w.
Proof.
  intros HQ. unfold wp. pose proof (update_effect f w) as He. destruct (update f w) as [r w'].
  destruct He as [Hc He]. by apply HQ.
Qed.

(** C13: the outcome of a workflow start is recorded exactly as far as it is
    known: one start request is sent; after an ambiguous answer (a lost
    response, an error status) the job is not touched and the error announces
    the reconciler; after a refused connection or a success the handler's only
    database step moves this job alone, to [failed] only if it is still
    [pending], or to its run, [running] only if it is still [pending]. *)
Theorem start_outcome id workflow_id input w :
  let reply := next_reply configured status_display "/v1/workflows/start" w in
  wp (start_job configured status_display id workflow_id input) (λ r w',
    asked configured w w' (start_request workflow_id "MigrationWorkflow" input) ∧
    (ambiguous reply = true →
       w_db w' = w_db w ∧ w_hist w' = w_hist w ∧
       ∃ m, r = Err (External ("temporal: " +:+ m +:+ "; job " +:+ show_Z id +:+ " will be reconciled"))) ∧
    (ambiguous reply = false →
       (w_hist w' = w_hist w ∧ is_ok r = false ∨
        ∃ d, w_hist w' = w_hist w ++ [(d, w_db w')] ∧
          w_db w' = set_jobs (alter (known_outcome id workflow_id reply d) id (jobs d)) d) ∧
       ∀ row, r = Ok row → jobs (w_db w') !! id = Some row ∧ is_ok reply = true)) w.
Proof.
  cbv zeta. unfold start_job, start_migration_workflow, asked.
  edestruct (start_workflow_run workflow_id "MigrationWorkflow" input w) as (w1 & Hrun & Hc & Hd & Hh & Ht).
  apply wp_bind. eapply wp_run; [exact Hrun|]. cbv beta iota.
  destruct (next_reply _ _ _ w) as [v|e]; cbn [fmap result_fmap].
  - apply wp_bind, wp_update. intros r w2 Hc2 He. rewrite Hh in He.
    destruct r as [row|e]; [apply wp_lift|]; rewrite Hc2; (split; [exact Hc|split; [done|]]); intros _.
    + destruct He as [[_ ?]|(d & Hh2 & Hdb & Hrow)]; [done|]. specialize (Hrow _ eq_refl).
      split; [right; exists d; by rewrite update_job_alter in Hdb|].
      intros row' ->%ok_or_Ok. split; [|done]. rewrite Hdb. by apply update_job_row.
    + split; [|done]. destruct He as [[? _]|(d & Hh2 & Hdb & _)]; [by left|right].
      exists d. by rewrite update_job_alter in Hdb.
  - destruct (start_never_reached_bridge e) eqn:Hn; cbn [negb].
    + destruct e as [| |m|]; try done. apply wp_bind, wp_update. intros r w2 Hc2 He. rewrite Hh in He.
      assert (∀ u : ApiResult JobRow, is_ok u = false →
        (w_hist w2 = w_hist w ∧ is_ok u = false ∨
         ∃ d, w_hist w2 = w_hist w ++ [(d, w_db w2)] ∧
           w_db w2 = set_jobs (alter (known_outcome id workflow_id (Err (ConnectRefused m)) d) id (jobs d)) d)) as Hu.
      { intros u Hu. destruct He as [[? _]|(d & Hh2 & Hdb & _)]; [by left|right].
        exists d. split; [done|]. rewrite update_job_alter in Hdb. rewrite Hdb. f_equal.
        apply alter_ext. intros j _. unfold status_in. cbn. by rewrite orb_false_r. }
      destruct r as [?|?]; [apply wp_throw|]; rewrite Hc2; (split; [exact Hc|split; [done|]]); intros _;
        (split; [by apply Hu|done]).
    + apply wp_throw. split; [exact Hc|]. split; [|destruct e; done]. intros _. split_and!; [done..|]. eauto.
Qed.

(** ** What a created job runs *)

(** The source of a job of organization [org]: a registry row or a connector
    of the organization, as some statement of this request saw it. *)
Definition source_seen (org : Z) (r : ResolvedSource) (h : list (Db * Db)) : Prop :=
  ∃ d, (d, d) ∈ h ∧
  match r with
  | RObject s => sr_org_id s = org ∧ ∃ id, sources d !! id = Some s
  | RConnector id kind extra =>
      kind ∈ JOB_CONNECTOR_KINDS ∧
      ∃ c, connectors d !! id = Some c ∧ cn_org_id c = org ∧ cn_connector_kind c = kind
  end.

Lemma source_seen_extends org r w w' :
  extends w w' → source_seen org r (w_hist w) → source_seen org r (w_hist w').
Proof. intros He (d & Hd & Hr). exists d. split; [by eapply extends_elem|done]. Qed.

Lemma resolve_seen org req w r w' :
  resolve org req w = (Ok r, w') → source_seen org r (w_hist w').
Proof.
  intros Hr. destruct req as [id|b k|id extra]; cbn in Hr.
  - inv_ok. apply query_seen in Hrun as [Hs Hq]. destruct a as [row|]; [|done]. injection Hr as <-.
    symmetry in Hq. apply owned_Some in Hq as [? ?]. eexists. split; [exact Hs|]. cbn. eauto.
  - inv_ok. apply query_seen in Hrun as [Hs Hq]. destruct a as [row|]; [|done]. injection Hr as <-.
    symmetry in Hq. apply find_object_Some in Hq as (? & ? & _). eexists. split; [exact Hs|]. cbn. eauto.
  - unfold require_connector in Hr. inv_ok. apply query_seen in Hrun1 as [Hs Hq].
    apply fmap_Some in Hrun as (cn & -> & ->).
    symmetry in Hq. apply owned_Some in Hq as [? ?]. eexists. split; [exact Hs|]. cbn.
    apply negb_false_iff, (mem_str_true (cn_connector_kind cn) JOB_CONNECTOR_KINDS) in Hrun0. eauto.
Qed.

Lemma resolve_object_seen org req w s w' :
  resolve_object org req w = (Ok s, w') → source_seen org (RObject s) (w_hist w').
Proof.
  unfold resolve_object. intros Hr. inv_ok. apply resolve_seen in Hrun. by destruct a; [inv_ok|].
Qed.

Lemma resolve_silent org req : silent (resolve org req).
Proof. unfold resolve, lookup_object, require_connector. silent. Qed.
Lemma resolve_object_silent org req : silent (resolve_object org req).
Proof. unfold resolve_object. apply silent_bind; [apply resolve_silent|intros []; silent]. Qed.
Lemma resolve_object_writes org req : writes (λ d d', d' = d) (resolve_object org req).
Proof. unfold resolve_object. apply writes_bind; [by apply writes_resolve|intros []; writes]. Qed.
Lemma resolve_extends org req w : extends w (resolve org req w).2.
Proof. apply (writes_extends (λ _ _, True)). by apply writes_resolve. Qed.

(** A start sends its request, whatever comes of it. *)
Lemma start_job_asks id workflow_id input w :
  wp (start_job configured status_display id workflow_id input) (λ r w',
    asked configured w w' (start_request workflow_id "MigrationWorkflow" input) ∧ extends w w') w.
Proof.
  unfold start_job, start_migration_workflow, asked.
  edestruct (start_workflow_run workflow_id "MigrationWorkflow" input w) as (w1 & Hrun & Hc & Hd & Hh & Ht).
  apply wp_bind. eapply wp_run; [exact Hrun|]. cbv beta iota. rewrite <- Hc.
  assert (∀ A (m : Api A), silent m → (writes (λ _ _, True) m) →
            wp m (λ _ w', w_calls w' = w_calls w1 ∧ extends w w') w1) as Hm.
  { intros A m Hsi Hwr. split; [apply Hsi|]. etrans; [|by apply (writes_extends (λ _ _, True))].
    exists []. by rewrite app_nil_r. }
  destruct (run_id_of workflow_id <$> _) as [run|e]; [|destruct (negb _)]; apply Hm;
    solve [silent|writes; by apply writes_update].
Qed.

Lemma published_template_Some org id d v :
  published_template org id d = Some v →
  ∃ tpl, rule_templates d !! id = Some tpl ∧ rt_org_id tpl = org ∧ rt_published tpl = true ∧ rt_version tpl = v.
Proof.
  unfold published_template. destruct (_ !! id) as [tpl|]; cbn; [|done].
  destruct (_ =? _) eqn:Ho; cbn; [|done]. destruct (rt_published tpl) eqn:Hp; cbn; [|done].
  intros [= <-]. exists tpl. bool_prop. done.
Qed.

(** What is known when the start request of a created job is sent. *)
Definition create_committed (c : Claims) (uuid : string) (req : JobCreate) (j : JobRow)
    (h : list (Db * Db)) : Prop :=
  ∃ version src creator d0 tpl d d',
    (d0, d0) ∈ h ∧ rule_templates d0 !! jc_rule_template_id req = Some tpl ∧
    rt_org_id tpl = org c ∧ rt_published tpl = true ∧ rt_version tpl = version ∧
    source_seen (org c) src h ∧ parse_i64 (sub c) = Some creator ∧
    (d, d') ∈ h ∧ jobs d' !! j_id j = Some j ∧
    j = new_job (j_id j) (org c) (jc_rule_template_id req) version (source_ref src)
          ("mig-" +:+ show_Z (org c) +:+ "-" +:+ uuid) creator (db_now d).

(** C11: a workflow is started only for a committed job: if creating a job asks
    anything of the bridge, the caller is an operator, the license allows
    work, and it asked exactly once, for the migration workflow of a job row
    already written: pending, in the caller's organization, of a published
    template of the organization, with a source reference rebuilt from a
    registry row or an allowed connector of the organization, and the
    workflow's input names exactly that row. *)
Theorem create_starts_committed_jobs uuid c req w :
  configured = true →
  wp (create_job configured status_display licensed uuid c req) (λ r w',
    w_calls w' = w_calls w ∧ is_ok r = false ∨
    role c ∈ OPERATORS ∧ licensed = Ok tt ∧
    ∃ j, create_committed c uuid req j (w_hist w') ∧ j_status j = Pending ∧
      w_calls w' = w_calls w ++ [start_request ("mig-" +:+ show_Z (org c) +:+ "-" +:+ uuid)
         "MigrationWorkflow" (job_input (org c) (j_id j) (jc_rule_template_id req)
                                (j_rule_template_version j) (j_source_ref j))]) w.
Proof.
  intros Hcf. unfold create_job.
  apply wp_bind, wp_lift. destruct (require_role c OPERATORS) as [[]|] eqn:Hrole; [|by left].
  apply wp_bind, wp_lift. destruct licensed as [[]|] eqn:Hlic; [|by left].
  apply wp_bind_silent; [apply silent_query|apply query_extends| |by left].
  intros v w1 [Hs1 Hv]%query_seen Hc1 _ He1. apply wp_bind, wp_lift.
  destruct v as [version|]; [|by left]. cbn [ok_or].
  apply wp_bind, wp_lift. destruct (parse_i64 (sub c)) as [creator|] eqn:Hby; [|by left]. cbn [ok_or].
  apply wp_bind, wp_lift. destruct (parse_source_request _) as [sreq|e] eqn:Hreq; [|by left].
  apply wp_bind_silent; [apply resolve_silent|apply resolve_extends| |left; split; [congruence|done]].
  intros src w2 Hsrc%resolve_seen Hc2 _ He2. cbv zeta. set (wid := "mig-" +:+ show_Z (org c) +:+ "-" +:+ uuid).
  apply wp_bind_silent; [apply silent_sql|apply sql_extends| |left; split; [congruence|done]].
  intros row w3 (d & Hd & Hins)%sql_seen Hc3 _ He3.
  assert (jobs (w_db w3) !! j_id row
    = Some (new_job (j_id row) (org c) (jc_rule_template_id req) version (source_ref src) wid creator (db_now d))) as Hj.
  { unfold insert_job in Hins. destruct (existsb _ _); [done|]. destruct (negb _); [done|]. injection Hins as <- <-. apply lookup_insert_eq. }
  apply wp_bind. eapply wp_mono; [apply start_job_asks|]. cbv beta. intros r w4 [Hc4 He4].
  unfold asked in Hc4. rewrite Hcf, Hc3, Hc2, Hc1 in Hc4.
  assert (∀ w', w_calls w' = w_calls w4 → extends w4 w' →
    role c ∈ OPERATORS ∧ (Ok tt : ApiResult unit) = Ok tt ∧ ∃ j, create_committed c uuid req j (w_hist w') ∧ j_status j = Pending ∧
      w_calls w' = w_calls w ++ [start_request wid "MigrationWorkflow"
         (job_input (org c) (j_id j) (jc_rule_template_id req)
            (j_rule_template_version j) (j_source_ref j))]) as Hdone.
  { intros w' Hc' He'. assert (extends w3 w') as He by (by etrans).
    split_and!; [|done|].
    { revert Hrole. unfold require_role. destruct (mem_str _ _) eqn:Hm; [|done]. intros _. by apply mem_str_true. }
    exists (new_job (j_id row) (org c) (jc_rule_template_id req) version (source_ref src) wid creator (db_now d)).
    split_and!; [|done|by rewrite Hc'].
    destruct (published_template_Some _ _ _ _ (eq_sym Hv)) as (tpl & Ht).
    exists version, src, creator, (w_db w1), tpl, d, (w_db w3). split_and!; try apply Ht; try done.
    - eapply extends_elem; [|exact Hs1]. etrans; [|exact He]. etrans; [exact He2|exact He3].
    - eapply source_seen_extends; [|exact Hsrc]. by etrans.
    - by eapply extends_elem. }
  destruct r as [row'|e]; [|right; by apply Hdone].
  apply wp_bind_silent; [apply silent_audit|apply sql_extends| |].
  - intros ? w5 _ Hc5 _ He5. apply wp_ret. right. by apply Hdone.
  - intros e w5 Hc5 He5. right. by apply Hdone.
Qed.
(** ** Retries *)

(** The finished job a retry is for, as a statement of this request saw it. *)
Definition finished_job (org id : Z) (t : RetryTarget) (h : list (Db * Db)) : Prop :=
  ∃ d j, (d, d) ∈ h ∧ job_of org id d = Some j ∧ terminal (j_status j) = true ∧
    j_temporal_workflow_id j = Some (tg_workflow_id t) ∧
    tg_rule_template_id t = j_rule_template_id j ∧
    tg_rule_template_version t = j_rule_template_version j.

Lemma finished_job_extends org id t w w' :
  extends w w' → finished_job org id t (w_hist w) → finished_job org id t (w_hist w').
Proof. intros He (d & j & Hd & Hj). exists d, j. split; [by eapply extends_elem|done]. Qed.

Lemma not_cancellable_terminal j : status_in CANCELLABLE j = false → terminal (j_status j) = true.
Proof. unfold status_in. by destruct (j_status j). Qed.

Lemma retry_target_seen org id w t w' :
  retry_target org id w = (Ok t, w') → finished_job org id t (w_hist w').
Proof.
  unfold retry_target. intros Hr. inv_ok. apply query_seen in Hrun as [Hs Ha].
  destruct a as [j|]; cbn in Hr; [|done].
  destruct (j_temporal_workflow_id j) as [wid|] eqn:Hw; cbn in Hr; [|done]. inv_ok.
  exists (w_db s), j. split_and!; try done. by apply not_cancellable_terminal.
Qed.

Lemma retry_target_silent org id : silent (retry_target org id).
Proof. unfold retry_target. silent. Qed.
Lemma retry_target_extends org id w : extends w (retry_target org id w).2.
Proof. apply (writes_extends (λ _ _, True)). by apply retry_target_writes. Qed.

(** The end of a retry: the request, its answer, the audit entry. *)
Lemma retry_end {A} workflow_id ty input c e i action b af (x : A) w :
  configured = true →
  wp (r ← start_workflow configured status_display workflow_id ty input;
      _ ← lift (map_err start_error r);
      _ ← record_audit c e i action b af;
      mret x)
     (λ _ w', w_calls w' = w_calls w ++ [start_request workflow_id ty input] ∧ extends w w') w.
Proof.
  intros Hcf. edestruct (start_workflow_run workflow_id ty input w) as (w1 & Hrun & Hc & _ & Hh & _).
  unfold asked in Hc. rewrite Hcf in Hc, Hrun |- *.
  apply wp_bind. eapply wp_run; [exact Hrun|]. cbv beta iota. apply wp_bind, wp_lift.
  assert (extends w w1) as He by (exists []; by rewrite Hh, app_nil_r).
  destruct (map_err _ _); [|done].
  apply wp_bind_silent; [apply silent_audit|apply sql_extends| |].
  - intros ? w2 _ Hc2 _ He2. apply wp_ret. rewrite Hc2. split; [done|by etrans].
  - intros ? w2 Hc2 He2. rewrite Hc2. split; [done|by etrans].
Qed.

Lemma require_role_Ok c l : require_role c l = Ok tt → role c ∈ l.
Proof. unfold require_role. destruct (mem_str _ _) eqn:Hm; [|done]. intros _. by apply mem_str_true. Qed.

(** A row retry respects unresolved rows: a retry that asks anything of the
    bridge asks exactly once, for the retry workflow of a finished job of the
    caller's organization, under an operator's role and a license; and if the
    row was seen [unresolved] the operator confirmed that the destination had
    not applied it, which the request passes on as given. *)
Theorem row_retry_needs_confirmation c id row_index body w :
  configured = true →
  let opts := default default_retry_options body in
  wp (retry_row configured status_display licensed c id row_index body) (λ r w',
    w_calls w' = w_calls w ∧ is_ok r = false ∨
    role c ∈ OPERATORS ∧ licensed = Ok tt ∧
    ∃ t d, finished_job (org c) id t (w_hist w') ∧ (d, d) ∈ w_hist w' ∧
      (jr_status <$> job_rows d !! (id, row_index) = Some RowUnresolved →
         ro_confirm_not_applied opts = true) ∧
      w_calls w' = w_calls w ++ [start_request (retry_workflow_id (tg_workflow_id t)) "RetryRowWorkflow"
                                   (retry_row_input (org c) id row_index t opts)]) w.
Proof.
  intros Hcf. cbv zeta. unfold retry_row.
  apply wp_bind, wp_lift. destruct (require_role c OPERATORS) as [[]|] eqn:Hrole; [|by left].
  apply wp_bind, wp_lift. destruct licensed as [[]|] eqn:Hlic; [|by left]. cbv zeta.
  apply wp_bind_silent; [apply retry_target_silent|apply retry_target_extends| |by left].
  intros t w1 Ht%retry_target_seen Hc1 _ He1.
  apply wp_bind_silent; [apply silent_query|apply query_extends| |left; split; [congruence|done]].
  intros st w2 [Hs2 Hst]%query_seen Hc2 _ He2. apply wp_bind, wp_guard; intros Hg; [left; split; [congruence|done]|].
  eapply wp_mono; [by apply retry_end|]. cbv beta. intros r w3 [Hc3 He3]. right.
  split_and!; [by apply require_role_Ok|done|]. exists t, (w_db w2). split_and!.
  - eapply finished_job_extends; [|exact Ht]. by etrans.
  - by eapply extends_elem.
  - rewrite <- Hst. intros ->. cbn in Hg. by apply negb_false_iff in Hg.
  - by rewrite Hc3, Hc2, Hc1.
Qed.

(** A bulk retry takes failed rows only: it is refused when it carries a
    confirmation, it asks the bridge nothing when the finished job has no
    failed row, and else asks exactly once for the workflow that re-runs the
    failed rows, with a request that names no row and confirms nothing. *)
Theorem bulk_retry_confirms_nothing c id body w :
  configured = true →
  let opts := default default_retry_options body in
  wp (retry_all_failed configured status_display licensed c id body) (λ r w',
    w_calls w' = w_calls w ∧
      (is_ok r = true → ∃ t d, finished_job (org c) id t (w_hist w') ∧ (d, d) ∈ w_hist w' ∧ failed_count id d = 0) ∨
    role c ∈ OPERATORS ∧ licensed = Ok tt ∧ ro_confirm_not_applied opts = false ∧
    ∃ t d, finished_job (org c) id t (w_hist w') ∧ (d, d) ∈ w_hist w' ∧ failed_count id d ≠ 0 ∧
      w_calls w' = w_calls w ++ [start_request (retry_workflow_id (tg_workflow_id t)) "RetryFailedRowsWorkflow"
        (json_obj [("orgId", json_int (org c)); ("jobId", json_int id);
                   ("ruleTemplateId", json_int (tg_rule_template_id t));
                   ("ruleTemplateVersion", json_int (tg_rule_template_version t));
                   ("fromStart", VBool (ro_from_start opts))])]) w.
Proof.
  intros Hcf. cbv zeta. unfold retry_all_failed.
  apply wp_bind, wp_lift. destruct (require_role c OPERATORS) as [[]|] eqn:Hrole; [|by left].
  apply wp_bind, wp_lift. destruct licensed as [[]|] eqn:Hlic; [|by left]. cbv zeta.
  apply wp_bind, wp_guard; intros Hg; [by left|].
  apply wp_bind_silent; [apply retry_target_silent|apply retry_target_extends| |by left].
  intros t w1 Ht%retry_target_seen Hc1 _ He1.
  apply wp_bind_silent; [apply silent_query|apply query_extends| |left; split; [congruence|done]].
  intros n w2 [Hs2 Hn]%query_seen Hc2 _ He2. destruct (n =? 0) eqn:Hz; bool_prop.
  - apply wp_ret. left. split; [congruence|]. intros _. exists t, (w_db w2).
    split_and!; [by eapply finished_job_extends|done|congruence].
  - eapply wp_mono; [by apply retry_end|]. cbv beta. intros r w3 [Hc3 He3]. right.
    split_and!; [by apply require_role_Ok|done..|]. exists t, (w_db w2). split_and!.
    + eapply finished_job_extends; [|exact Ht]. by etrans.
    + by eapply extends_elem.
    + congruence.
    + by rewrite Hc3, Hc2, Hc1.
Qed.
End Requests.

(** ** Witnesses *)
Definition template_db : Db :=
  set_rule_templates {[2 := mkTemplate 2 1 "t" 4 "t" (json_obj []) true None 0]}
    (set_sources {[7 := sample_source]} (set_seq 8 empty_db)).
Definition sample_create : JobCreate := mkJobCreate 2 (json_obj [("source_id", json_int 7)]).

Lemma create_starts_committed_jobs_witness :
  ∃ j, create_committed sample_claims "u" sample_create j
         (w_hist (create_job (H := decimal_time) true no_text (Ok tt) "u" sample_claims sample_create (answering template_db)).2) ∧
       j_status j = Pending.
Proof.
  destruct (create_starts_committed_jobs (H := decimal_time) true no_text (Ok tt) "u" sample_claims sample_create
              (answering template_db) eq_refl) as [[_ Hno]|(_ & _ & j & Hj & Hp & _)].
  - vm_compute in Hno. discriminate.
  - exists j. split; [exact Hj|exact Hp].
Defined.

Lemma row_retry_needs_confirmation_witness :
  ∃ t, finished_job 1 5 t (w_hist (retry_row true no_text (Ok tt) sample_claims 5 0 None (answering (job_db Failed))).2).
Proof.
  destruct (row_retry_needs_confirmation true no_text (Ok tt) sample_claims 5 0 None
              (answering (job_db Failed)) eq_refl) as [[_ Hno]|(_ & _ & t & d & Ht & _)].
  - vm_compute in Hno. discriminate.
  - exists t. exact Ht.
Defined.

Lemma bulk_retry_confirms_nothing_witness :
  ∃ t d, finished_job 1 5 t (w_hist (retry_all_failed true no_text (Ok tt) sample_claims 5 None (answering (job_db Failed))).2) ∧
         failed_count 5 d ≠ 0.
Proof.
  destruct (bulk_retry_confirms_nothing true no_text (Ok tt) sample_claims 5 None
              (answering (job_db Failed)) eq_refl) as [[Hno _]|(_ & _ & _ & t & d & Ht & _ & Hn & _)].
  - vm_compute in Hno. discriminate.
  - exists t, d. split; [exact Ht|exact Hn].
Defined.

