(* ===== verification/JobSignals.v ===== *)
(** * Jobs: operator actions and the workflow

    Pausing, resuming and cancelling change a job only after its workflow was
    told, and cancellation settles a job whose workflow is gone. *)
From S2P Require Import Prelude RustStr Json Error LicenseFile Db World Sources JobSource Jobs JobLifecycle JobStart.
From Stdlib Require Import Ascii.

(** The handler's own steps left the jobs alone. *)
Definition calm (w w' : World) : Prop :=
  ∃ h, w_hist w' = w_hist w ++ h ∧ Forall (λ ab, jobs ab.2 = jobs ab.1) h.

Lemma calm_refl w : calm w w.
Proof. exists []. by rewrite app_nil_r. Qed.

Lemma calm_trans w1 w2 w3 : calm w1 w2 → calm w2 w3 → calm w1 w3.
Proof.
  intros (h & Hh & HR) (h' & Hh' & HR'). exists (h ++ h').
  rewrite Hh', Hh, app_assoc. split; [done|]. by apply Forall_app.
Qed.

Lemma calm_same_hist w w' : w_hist w' = w_hist w → calm w w'.
Proof. intros Hh. exists []. by rewrite Hh, app_nil_r. Qed.

Lemma calm_extends w w' : calm w w' → extends w w'.
Proof. intros (h & Hh & _). by exists h. Qed.

Definition same_jobs (d d' : Db) : Prop := jobs d' = jobs d.
#[export] Instance same_jobs_refl : Reflexive same_jobs.
Proof. done. Qed.

Lemma writes_calm {A} (m : Api A) w : writes same_jobs m → calm w (m w).2.
Proof. intros Hm. destruct (Hm w) as ((h & Hh & HR & _) & _). by exists h. Qed.

(** A statement that asks nothing and leaves the jobs alone. *)
Lemma wp_bind_calm {A B} (m : Api A) (f : A → Api B) Q w :
  silent m → writes same_jobs m →
  (∀ a w', m w = (Ok a, w') → w_calls w' = w_calls w → w_bridge w' = w_bridge w → calm w w' →
     wp (f a) Q w') →
  (∀ e w', calm w w' → Q (Err e) w') →
  wp (m ≫= f) Q w.
Proof.
  intros Hs Hw Hok Herr. apply wp_bind. unfold wp. destruct (Hs w) as [Hc Hb].
  pose proof (writes_calm m w Hw) as Hcalm.
  destruct (m w) as [[a|e] w'] eqn:Hm; cbn in *; [by apply Hok|by apply Herr].
Qed.

(** A run with no other transaction and no failing statement. *)
Definition quiet (w : World) : Prop := w_turns w = [].

Lemma quiet_query {A} (f : Db → A) w (Q : ApiResult A → World → Prop) :
  quiet w →
  (∀ w', quiet w' → w_db w' = w_db w → w_bridge w' = w_bridge w → w_calls w' = w_calls w →
     Q (Ok (f (w_db w))) w') →
  wp (query f) Q w.
Proof. unfold quiet, wp, query, sql, next_turn. intros -> HQ. by apply HQ. Qed.

Lemma quiet_update {A} (f : Db → A * Db) w (Q : ApiResult A → World → Prop) :
  quiet w →
  (∀ w', quiet w' → w_db w' = (f (w_db w)).2 → w_bridge w' = w_bridge w → w_calls w' = w_calls w →
     Q (Ok (f (w_db w)).1) w') →
  wp (update f) Q w.
Proof.
  unfold quiet, wp, update, sql, next_turn. intros -> HQ. cbn. unfold id.
  destruct (f (w_db w)) as [a d'] eqn:Hf. cbn. by apply HQ.
Qed.

(** What identifies a job and ties it to its source, template and workflow. *)
Definition same_identity (j j' : JobRow) : Prop :=
  j_id j' = j_id j ∧ j_org_id j' = j_org_id j ∧ j_source_ref j' = j_source_ref j ∧
  j_rule_template_id j' = j_rule_template_id j ∧ j_rule_template_version j' = j_rule_template_version j ∧
  j_schedule_id j' = j_schedule_id j ∧ j_temporal_workflow_id j' = j_temporal_workflow_id j ∧
  j_temporal_run_id j' = j_temporal_run_id j ∧ j_created_by j' = j_created_by j ∧ j_created_at j' = j_created_at j ∧
  j_batch_id j' = j_batch_id j ∧ j_results_ref j' = j_results_ref j ∧ j_last_error j' = j_last_error j.

Section Signals.
Context `{Rfc3339}.
Context (configured : bool) (status_display : Z → string) (licensed : ApiResult unit).

(** The workflow of the caller's job, as a statement of this request saw it,
    was sent the request, and it was answered by [accepts]. *)
Definition told (c : Claims) (id : Z) (path : string) (body : string → value)
    (accepts : result BridgeError value → bool) (from : list JobStatus) (w w' : World) : Prop :=
  ∃ d j wid, (d, d) ∈ w_hist w' ∧ job_of (org c) id d = Some j ∧ j_status j ∈ from ∧
    j_temporal_workflow_id j = Some wid ∧
    w_calls w' = w_calls w ++ [(path, body wid)] ∧
    accepts (next_reply configured status_display path w) = true.

Definition signal_body (signal wid : string) : value :=
  json_obj [("workflowId", VString wid); ("signal", VString signal); ("payload", json_obj [])].
Definition cancel_body (wid : string) : value := json_obj [("workflowId", VString wid)].

Definition gone_or_ok (reply : result BridgeError value) : bool :=
  match reply with Ok _ | Err (WorkflowNotFound _) => true | _ => false end.

Lemma action_target_seen org id action from w wid w' :
  action_target org id action from w = (Ok wid, w') →
  ∃ d j, (d, d) ∈ w_hist w' ∧ job_of org id d = Some j ∧ j_status j ∈ from ∧
    wid = j_temporal_workflow_id j.
Proof.
  unfold action_target. intros Hr. inv_ok. apply query_seen in Hrun as [Hs Ha].
  destruct a as [j|]; [|done]. inv_ok. eexists _, j. split_and!; [exact Hs|done| |done].
  by apply status_in_elem, negb_false_iff.
Qed.

Lemma action_target_silent org id action from : silent (action_target org id action from).
Proof. unfold action_target. silent. Qed.
Lemma transition_lost_silent {A} org id action : silent (transition_lost (A := A) org id action).
Proof. unfold transition_lost. silent. Qed.
Lemma action_target_calm org id action from : writes same_jobs (action_target org id action from).
Proof. by apply action_target_writes. Qed.

(** What [told] needs survives what follows. *)
Lemma told_later c id path body acc from w w1 w2 :
  told c id path body acc from w w1 → w_calls w2 = w_calls w1 → extends w1 w2 →
  told c id path body acc from w w2.
Proof.
  intros (d & j & wid & Hd & Hj & Hst & Hw & Hc & Ha) Hc2 He. exists d, j, wid.
  split_and!; try done; [by eapply extends_elem|by rewrite Hc2].
Qed.

(** The rest of a run after the workflow was told. *)
Lemma told_rest {A} (m : Api A) c id path body acc from w w1 :
  told c id path body acc from w w1 → silent m → writes (λ _ _, True) m →
  wp m (λ _ w', calm w w' ∨ told c id path body acc from w w') w1.
Proof.
  intros Ht Hs Hw. right. eapply told_later; [exact Ht|apply Hs|].
  by apply (writes_extends (λ _ _, True)).
Qed.

Lemma signal_tells c id signal new action from w :
  configured = true →
  wp (signal_and_record configured status_display c id signal new action from)
     (λ _ w', calm w w' ∨ told c id "/v1/workflows/signal" (signal_body signal) is_ok from w w') w.
Proof.
  intros Hcf. unfold signal_and_record.
  apply wp_bind_calm; [apply action_target_silent|apply action_target_calm| |by left].
  intros wid w1 (d & j & Hd & Hj & Hst & Hw)%action_target_seen Hc1 Hb1 Hcalm.
  destruct wid as [wid|]; [|by left].
  edestruct (post_unit_run configured status_display "/v1/workflows/signal" (signal_body signal wid) w1)
    as (w2 & Hrun & Hc2 & Hdb & Hh2 & _).
  apply wp_bind. eapply wp_run; [exact Hrun|]. cbv beta iota.
  assert (calm w w2) as Hcalm2 by (eapply calm_trans; [exact Hcalm|by apply calm_same_hist]).
  assert (next_reply configured status_display "/v1/workflows/signal" w1
          = next_reply configured status_display "/v1/workflows/signal" w) as Hn
    by (unfold next_reply; by rewrite Hb1).
  rewrite Hn. destruct (next_reply _ _ _ w) as [v|e] eqn:Hreply; cbn [fmap result_fmap].
  - eapply (told_rest _ c id "/v1/workflows/signal" (signal_body signal) is_ok from w w2).
    + exists d, j, wid. rewrite Hh2, Hreply. unfold asked in Hc2. rewrite Hcf, Hc1 in Hc2. by split_and!.
    + silent. apply transition_lost_silent.
    + apply writes_bind; [writes|intros ?]. apply writes_bind; [by apply writes_update|intros [row|]].
      * apply writes_bind; [by apply writes_update|intros ?; writes].
      * by apply transition_lost_writes.
  - apply wp_bind. destruct e; apply wp_throw; by left.
Qed.

(** The end of a cancellation: the UPDATE, and the audit entry or the error. *)
Definition cancel_end (c : Claims) (id : Z) (found : bool) : Api JobRow :=
  row ← update (update_job id (owned_and (org c) CANCELLABLE)
                  (λ d, cancel_row (totals_of id d) (db_now d)));
  match row with
  | None => transition_lost (org c) id "cancel"
  | Some row =>
      let after := index_assign "workflow_found" (VBool found) (job_to_value row) in
      _ ← record_audit c "job" (Some (show_Z id)) "cancel" None (Some after);
      mret row
  end.

Lemma cancel_end_silent c id found : silent (cancel_end c id found).
Proof. unfold cancel_end. silent. apply transition_lost_silent. Qed.

Lemma cancel_end_writes c id found : writes (λ _ _, True) (cancel_end c id found).
Proof.
  unfold cancel_end. apply writes_bind; [by apply writes_update|intros [row|]].
  - cbv zeta. apply writes_bind; [by apply writes_update|intros ?; writes].
  - by apply transition_lost_writes.
Qed.

(** What one database step of an action may do: nothing, append the caller's
    entry to the audit log, or set the status of the job [id], which is the
    caller's organization's and in a state of [from], to [new]. *)
Definition action_step (c : Claims) (id : Z) (action : string) (from : list JobStatus) (new : JobStatus)
    (d d' : Db) : Prop :=
  d' = d ∨
  (∃ before after,
     d' = set_audit_log (audit_log d ++ [audit_entry c "job" (Some (show_Z id)) action before after d]) d) ∨
  ∃ j j', jobs d !! id = Some j ∧ j_org_id j = org c ∧ j_status j ∈ from ∧
    j_status j' = new ∧ same_identity j j' ∧ d' = set_jobs (<[id := j']> (jobs d)) d.

Lemma action_update c id action from new f d :
  (∀ j, j_status (f d j) = new ∧ same_identity j (f d j)) →
  action_step c id action from new d (update_job id (owned_and (org c) from) f d).2.
Proof.
  intros Hf. unfold update_job. destruct (jobs d !! id) as [j|] eqn:Hj; [|by left].
  destruct (owned_and (org c) from j) eqn:Ho; [|by left]. right. right. exists j, (f d j).
  unfold owned_and in Ho. apply andb_true_iff in Ho as [Ho%Z.eqb_eq Hs%status_in_elem].
  destruct (Hf j). by split_and!.
Qed.

Lemma signal_steps c id signal new action from :
  writes (action_step c id action from new)
    (signal_and_record configured status_display c id signal new action from).
Proof.
  assert (∀ d, action_step c id action from new d d) as Hr by (by left).
  unfold signal_and_record. apply writes_bind; [by apply action_target_writes|intros [wid|]; [|writes]].
  apply writes_bind; [apply writes_post_unit|intros ?]. apply writes_bind; [writes|intros ?].
  apply writes_bind; [apply writes_update; intros d; apply action_update; intros j; unfold same_identity; by split_and!|].
  intros [row|]; [|by apply transition_lost_writes]. cbv zeta.
  apply writes_bind; [|intros ?; writes]. apply writes_audit. intros d. right. left. by eexists _, _.
Qed.

Lemma cancel_steps c id :
  writes (action_step c id "cancel" CANCELLABLE Cancelled) (cancel_job configured status_display c id).
Proof.
  assert (∀ d, action_step c id "cancel" CANCELLABLE Cancelled d d) as Hr by (by left).
  unfold cancel_job. apply writes_bind; [writes|intros ?]. apply writes_bind; [by apply action_target_writes|intros wid].
  apply writes_bind; [destruct wid; [|writes]; apply writes_bind; [apply writes_post_unit|intros ?; writes]|intros found].
  apply writes_bind; [apply writes_update; intros d; apply (action_update _ _ _ _ _ (λ d, cancel_row (totals_of id d) (db_now d)));
    intros j; unfold same_identity; by split_and!|].
  intros [row|]; [|by apply transition_lost_writes]. cbv zeta.
  apply writes_bind; [|intros ?; writes]. apply writes_audit. intros d. right. left. by eexists _, _.
Qed.

(** Every step of a run, and what the run asked. *)
Lemma wp_steps_and {A} (R : Db → Db → Prop) (m : Api A) w P :
  writes R m → wp m (λ _ w', P w') w → wp m (λ _ w', did R w w' ∧ P w') w.
Proof. intros Hw Hp. unfold wp in *. pose proof (writes_did R m w Hw) as Hd. by destruct (m w). Qed.

Lemma cancel_tells c id w :
  configured = true →
  wp (cancel_job configured status_display c id) (λ _ w',
    calm w w' ∨
    told c id "/v1/workflows/cancel" cancel_body gone_or_ok CANCELLABLE w w' ∨
    w_calls w' = w_calls w ∧ ∃ d j, (d, d) ∈ w_hist w' ∧ job_of (org c) id d = Some j ∧
      j_temporal_workflow_id j = None) w.
Proof.
  intros Hcf. unfold cancel_job. apply wp_bind, wp_lift. destruct (require_role c OPERATORS); [|by left; apply calm_refl].
  apply wp_bind_calm; [apply action_target_silent|apply action_target_calm| |by left].
  intros wid w1 (d & j & Hd & Hj & Hst & Hw)%action_target_seen Hc1 Hb1 Hcalm.
  apply wp_bind. destruct wid as [wid|].
  - edestruct (post_unit_run configured status_display "/v1/workflows/cancel" (cancel_body wid) w1)
      as (w2 & Hrun & Hc2 & Hdb & Hh2 & _).
    apply wp_bind. eapply wp_run; [exact Hrun|]. cbv beta iota.
    assert (calm w w2) as Hcalm2 by (eapply calm_trans; [exact Hcalm|by apply calm_same_hist]).
    assert (next_reply configured status_display "/v1/workflows/cancel" w1
            = next_reply configured status_display "/v1/workflows/cancel" w) as Hn
      by (unfold next_reply; by rewrite Hb1).
    rewrite Hn. destruct (gone_or_ok (next_reply configured status_display "/v1/workflows/cancel" w)) eqn:Hg.
    + assert (told c id "/v1/workflows/cancel" cancel_body gone_or_ok CANCELLABLE w w2) as Htold.
      { exists d, j, wid. rewrite Hh2, Hg. unfold asked in Hc2. rewrite Hcf, Hc1 in Hc2. by split_and!. }
      pose proof (λ found, told_rest (cancel_end c id found) _ _ _ _ _ _ _ _ Htold
                    (cancel_end_silent c id found) (cancel_end_writes c id found)) as Hrest.
      destruct (next_reply _ _ _ w) as [v|[]]; try done; cbn [fmap result_fmap is_not_found];
        apply wp_ret; (eapply wp_mono; [apply Hrest|]); cbv beta; intros ? ? [?|?]; eauto.
    + destruct (next_reply _ _ _ w) as [v|[]]; try done; cbn [fmap result_fmap is_not_found];
        apply wp_throw; by left.
  - apply wp_ret. right. right. cbv beta iota. fold (cancel_end c id false).
    split; [by rewrite (proj1 (cancel_end_silent c id false w1))|].
    exists d, j. split_and!; try done. eapply extends_elem; [|exact Hd].
    by apply (writes_extends (λ _ _, True)), cancel_end_writes.
Qed.

(** The cancellation's answer: [None] for a job without a workflow. *)
Definition cancel_reply (j : JobRow) (w : World) : result BridgeError value :=
  match j_temporal_workflow_id j with
  | Some _ => next_reply configured status_display "/v1/workflows/cancel" w
  | None => Err (WorkflowNotFound EmptyString)
  end.

(** Cancellation settles: with no interference, cancelling the caller's
    unfinished job whose workflow accepts the request, is gone or never
    existed, makes it [cancelled] now with its totals recounted from its rows,
    touches no other job, and its audit entry says whether a workflow was
    found; any other answer leaves the database as it was. *)
Theorem cancel_settles c id w j :
  quiet w → role c ∈ OPERATORS → job_of (org c) id (w_db w) = Some j → j_status j ∈ CANCELLABLE →
  let d := w_db w in
  let row := cancel_row (totals_of id d) (db_now d) j in
  wp (cancel_job configured status_display c id) (λ r w',
    if gone_or_ok (cancel_reply j w) then
      r = Ok row ∧ jobs (w_db w') = <[id := row]> (jobs d) ∧
      audit_log (w_db w') = audit_log d ++
        [audit_entry c "job" (Some (show_Z id)) "cancel" None
           (Some (index_assign "workflow_found" (VBool (is_ok (cancel_reply j w))) (job_to_value row))) d]
    else w_db w' = d ∧ ∃ m, r = Err (External m)) w.
Proof.
  intros Hq Hrole Hj Hst. cbv zeta. unfold cancel_job.
  apply wp_bind, wp_lift. unfold require_role. rewrite (proj2 (mem_str_true _ _) Hrole).
  unfold action_target. apply wp_bind, wp_bind, quiet_query; [done|]. intros w1 Hq1 Hd1 Hb1 _. rewrite Hj.
  apply wp_bind, wp_guard; intros Hg.
  { exfalso. apply negb_true_iff, not_true_iff_false in Hg. apply Hg. unfold status_in.
    apply existsb_exists. exists (j_status j). split; [by apply list_elem_of_In|by apply bool_decide_eq_true]. }
  apply wp_ret. cbv beta iota.
  assert (∀ w2 found, quiet w2 → w_db w2 = w_db w →
    wp (cancel_end c id found) (λ r w', r = Ok (cancel_row (totals_of id (w_db w)) (db_now (w_db w)) j) ∧
       jobs (w_db w') = <[id := cancel_row (totals_of id (w_db w)) (db_now (w_db w)) j]> (jobs (w_db w)) ∧
       audit_log (w_db w') = audit_log (w_db w) ++
        [audit_entry c "job" (Some (show_Z id)) "cancel" None
           (Some (index_assign "workflow_found" (VBool found)
                    (job_to_value (cancel_row (totals_of id (w_db w)) (db_now (w_db w)) j)))) (w_db w)]) w2) as Hend.
  { intros w2 found Hq2 Hd2. unfold cancel_end. apply wp_bind, quiet_update; [done|].
    intros w3 Hq3 Hd3 _ _. rewrite Hd2 in *. apply owned_Some in Hj as [Hj Ho].
    assert (owned_and (org c) CANCELLABLE j = true) as Hoa.
    { unfold owned_and. rewrite Ho, Z.eqb_refl. by apply negb_false_iff in Hg. }
    unfold update_job in Hd3 |- *. rewrite Hj, Hoa in Hd3 |- *. cbn in Hd3. cbn [fst]. cbv zeta.
    apply wp_bind, quiet_update; [done|]. intros w4 Hq4 Hd4 _ _. apply wp_ret.
    rewrite Hd4, Hd3. by split_and!. }
  unfold cancel_reply. destruct (j_temporal_workflow_id j) as [wid|]; apply wp_bind.
  - edestruct (post_unit_run configured status_display "/v1/workflows/cancel" (cancel_body wid) w1)
      as (w2 & Hrun & _ & Hdb & _ & Ht).
    apply wp_bind. eapply wp_run; [exact Hrun|]. cbv beta iota.
    assert (next_reply configured status_display "/v1/workflows/cancel" w1
            = next_reply configured status_display "/v1/workflows/cancel" w) as ->
      by (unfold next_reply; by rewrite Hb1).
    assert (quiet w2) as Hq2 by (unfold quiet in *; congruence).
    assert (w_db w2 = w_db w) as Hd2 by congruence.
    destruct (next_reply _ _ _ w) as [v|[]]; cbn [fmap result_fmap is_not_found gone_or_ok is_ok];
      first [apply wp_ret; by apply Hend|apply wp_throw; by eauto].
  - apply wp_ret. by apply Hend.
Qed.
End Signals.


Lemma cancel_settles_witness :
  ∃ row, (cancel_job (H := decimal_time) true no_text sample_claims 5 (answering (job_db Running))).1 = Ok row ∧
         j_status row = Cancelled.
Proof.
  pose proof (cancel_settles (H := decimal_time) true no_text sample_claims 5 (answering (job_db Running)) (sample_job Running)
                eq_refl) as Hc.
  eexists. split; [apply Hc|]; [| | |reflexivity].
  - apply (mem_str_true "operator" OPERATORS). reflexivity.
  - reflexivity.
  - unfold CANCELLABLE. cbn. set_solver.
Defined.
