(* ===== verification/JobListing.v ===== *)
(** * Jobs: listings and row pages

    Following the cursors of [list_jobs] and [list_rows] visits everything
    once, in order. *)
From S2P Require Import Prelude RustStr Json Error LicenseFile Db World Sources JobSource Jobs JobLifecycle.
From Stdlib Require Import Ascii.

(** ** Pages of a strictly sorted list *)
Section Paging.
Context {A : Type} (key : A → Z).

Definition key_lt (a b : A) : Prop := key a < key b.

Definition after (cursor : Z) (l : list A) : list A := List.filter (λ a, cursor <? key a) l.

(** Pages of at most [n], each after the last key of the one before. *)
Fixpoint pages (fuel n : nat) (cursor : Z) (l : list A) : list A :=
  match fuel with
  | O => []
  | S fuel =>
      let p := take n (after cursor l) in
      match list.last p with
      | Some a => p ++ pages fuel n (key a) l
      | None => []
      end
  end.

Lemma after_all c l : Forall (λ a, c < key a) l → after c l = l.
Proof.
  induction 1 as [|a l Ha _ IH]; cbn; [done|]. rewrite (proj2 (Z.ltb_lt _ _) Ha). by f_equal.
Qed.

Lemma after_none c l : Forall (λ a, key a ≤ c) l → after c l = [].
Proof. induction 1 as [|a l Ha _ IH]; cbn; [done|]. by rewrite (proj2 (Z.ltb_ge _ _) Ha). Qed.

Lemma after_app c l k : after c (l ++ k) = after c l ++ after c k.
Proof. apply List.filter_app. Qed.

Lemma after_last p q a :
  StronglySorted key_lt ((p ++ [a]) ++ q) → after (key a) ((p ++ [a]) ++ q) = q.
Proof.
  intros Hs. rewrite after_app.
  assert (∀ x y, x ∈ p ++ [a] → y ∈ q → key_lt x y) as Hlt
    by (intros x y; by eapply StronglySorted_app_1_elem_of).
  rewrite (after_none _ (p ++ [a])); [rewrite app_nil_l; apply after_all|]; apply Forall_forall.
  - intros b Hb%list_elem_of_In. apply (Hlt a b); [|done]. apply elem_of_app. right. by apply list_elem_of_singleton.
  - intros b [Hb|Hb%list_elem_of_singleton]%list_elem_of_In%elem_of_app; [|subst; lia].
    apply StronglySorted_app_1_l in Hs.
    assert (key_lt b a) as Hk
      by (eapply StronglySorted_app_1_elem_of; [done..|by apply list_elem_of_singleton]).
    unfold key_lt in Hk. lia.
Qed.

Lemma after_sorted c l : StronglySorted key_lt l → StronglySorted key_lt (after c l).
Proof.
  induction 1 as [|a l Hs IH Ha]; cbn; [constructor|]. destruct (c <? key a); [|done].
  constructor; [done|]. apply Forall_forall. intros b Hb. apply List.filter_In in Hb as [Hb _].
  by eapply Forall_forall in Ha.
Qed.

Lemma after_after c c' l : c ≤ c' → after c' (after c l) = after c' l.
Proof.
  intros Hc. unfold after. induction l as [|a l IH]; cbn; [done|].
  destruct (c <? key a) eqn:H1, (c' <? key a) eqn:H2; cbn; rewrite ?H2; bool_prop; [by f_equal|done|lia|done].
Qed.

(** Enough pages are everything, in order. *)
Lemma pages_all fuel n cursor l :
  StronglySorted key_lt l → (0 < n)%nat → (length (after cursor l) < fuel)%nat →
  pages fuel n cursor l = after cursor l.
Proof.
  intros Hs Hn. revert cursor. induction fuel as [|fuel IH]; intros cursor Hf; [lia|]. cbn.
  set (r := after cursor l) in *. destruct (list.last (take n r)) as [a|] eqn:Hl.
  - apply last_Some in Hl as (p & Hp).
    assert (after (key a) l = drop n r) as Ha.
    { assert (r = (p ++ [a]) ++ drop n r) as Hr by (rewrite <- Hp; symmetry; apply take_drop).
      assert (cursor ≤ key a).
      { assert (a ∈ r) as Hin by (rewrite Hr; set_solver). apply list_elem_of_In, List.filter_In in Hin as [_ Hin].
        bool_prop. lia. }
      rewrite <- (after_after cursor) by done. fold r.
      rewrite Hr at 1. apply after_last. rewrite <- Hr. by apply after_sorted. }
    rewrite IH, Ha; [apply take_drop|].
    rewrite Ha, length_drop. enough (0 < length r)%nat by lia. destruct r; [by rewrite take_nil in Hp; destruct p|cbn; lia].
  - apply last_None in Hl. destruct r as [|b r']; [done|]. destruct n; [lia|]. done.
Qed.
End Paging.

(** ** Sorted tables *)
Section Sorted.
Context {A : Type}.

Lemma StronglySorted_filter (R : relation A) f l :
  StronglySorted R l → StronglySorted R (List.filter f l).
Proof.
  induction 1 as [|a l Hs IH Ha]; cbn; [constructor|]. destruct (f a); [|done].
  constructor; [done|]. apply List.Forall_forall. intros b [Hb _]%List.filter_In.
  by eapply List.Forall_forall in Ha.
Qed.

Lemma StronglySorted_mono (R R' : relation A) l :
  (∀ a b, R a b → R' a b) → StronglySorted R l → StronglySorted R' l.
Proof.
  intros HR. induction 1 as [|a l Hs IH Ha]; constructor; [done|].
  eapply list.Forall_impl; [exact Ha|]. auto.
Qed.

Lemma StronglySorted_reverse (R : relation A) l :
  StronglySorted R l → StronglySorted (flip R) (reverse l).
Proof.
  induction 1 as [|a l Hs IH Ha]; [constructor|]. rewrite reverse_cons.
  apply StronglySorted_app_2; [|done|repeat constructor].
  intros x y Hx ->%list_elem_of_singleton. rewrite elem_of_reverse in Hx. unfold flip.
  eapply List.Forall_forall in Ha; [done|]. by apply list_elem_of_In.
Qed.

Lemma StronglySorted_strict (f : A → Z) l :
  StronglySorted (λ a b, f a ≤ f b) l → NoDup (f <$> l) → StronglySorted (λ a b, f a < f b) l.
Proof.
  induction 1 as [|a l Hs IH Ha]; cbn; [constructor|]. intros [Hn Hd]%list.NoDup_cons.
  constructor; [by apply IH|]. apply List.Forall_forall. intros b Hb.
  eapply List.Forall_forall in Ha; [|exact Hb]. cbn in Ha.
  enough (f a ≠ f b) by lia. intros He. apply Hn. rewrite He.
  apply list_elem_of_fmap. exists b. split; [done|]. by apply list_elem_of_In.
Qed.
End Sorted.

Lemma by_id_sorted {A} (t : gmap Z A) : StronglySorted (λ a b, a.1 < b.1) (by_id t).
Proof.
  apply (StronglySorted_strict fst).
  - apply StronglySorted_merge_sort; [intros x y z; unfold key_le; lia|intros x y; unfold key_le; lia].
  - unfold by_id. rewrite merge_sort_Permutation. apply NoDup_fst_map_to_list.
Qed.

(** ** Pages of jobs *)

(** Rows are stored under their key. *)
Definition jobs_keyed (d : Db) : Prop := ∀ id j, jobs d !! id = Some j → j_id j = id ∧ id < i64_max.
Definition rows_keyed (d : Db) : Prop :=
  ∀ k r, job_rows d !! k = Some r → k = (jr_job_id r, jr_row_index r) ∧ 0 ≤ jr_row_index r.

Definition job_key (j : JobRow) : Z := - j_id j.

Definition wanted_jobs (org : Z) (status : option JobStatus) (d : Db) : list JobRow :=
  List.filter (λ j, (j_org_id j =? org) && opt_matches status (j_status j))
    (reverse (snd <$> by_id (jobs d))).

Lemma jobs_below_after org cursor status d :
  jobs_below org cursor status d = after job_key (- cursor) (wanted_jobs org status d).
Proof.
  unfold jobs_below, wanted_jobs, after, job_key.
  induction (reverse (snd <$> by_id (jobs d))) as [|j l IH]; [done|].
  cbn. rewrite IH. clear IH.
  assert ((j_id j <? cursor) = (- cursor <? - j_id j)) as -> by (destruct (Z.ltb_spec (j_id j) cursor), (Z.ltb_spec (- cursor) (- j_id j)); lia).
  destruct (j_org_id j =? org), (opt_matches status (j_status j)); cbn;
    destruct (- cursor <? - j_id j) eqn:Hc; cbn; rewrite ?Hc; done.
Qed.

Lemma snd_by_id_elem d j : jobs_keyed d → j ∈ snd <$> by_id (jobs d) ↔ jobs d !! j_id j = Some j.
Proof.
  intros Hk. rewrite list_elem_of_fmap. split.
  - intros ([id j'] & -> & Hin%by_id_elem). cbn in *. by rewrite (proj1 (Hk id j' Hin)).
  - intros Hj. exists (j_id j, j). split; [done|]. by apply by_id_elem.
Qed.

Lemma wanted_jobs_sorted org status d :
  jobs_keyed d → StronglySorted (key_lt job_key) (wanted_jobs org status d).
Proof.
  intros Hk. apply StronglySorted_filter. rewrite <- fmap_reverse.
  assert (Forall (λ kv : Z * JobRow, kv.1 = j_id kv.2) (reverse (by_id (jobs d)))) as Hf.
  { apply List.Forall_forall. intros [id j] Hin%list_elem_of_In. rewrite elem_of_reverse in Hin. apply by_id_elem in Hin.
    symmetry. by apply (Hk id j). }
  pose proof (StronglySorted_reverse _ _ (by_id_sorted (jobs d))) as Hs.
  induction Hs as [|[k j] l Hs IH Hj]; cbn; [constructor|].
  apply Forall_cons_iff in Hf as [Hkj Hf]. cbn in Hkj. constructor; [by apply IH|].
  apply List.Forall_forall. intros b Hb%list_elem_of_In. apply list_elem_of_fmap in Hb as ([k' j'] & -> & Hin%list_elem_of_In).
  eapply List.Forall_forall in Hj; [|exact Hin]. eapply List.Forall_forall in Hf; [|exact Hin].
  unfold flip in Hj. unfold key_lt, job_key. cbn in *. lia.
Qed.

(** Following [next_cursor] from the first page until an empty one. *)
Fixpoint job_pages (fuel : nat) (org : Z) (status : option string) (limit cursor : option Z) (d : Db)
    : result string (list JobJoinRow) :=
  match fuel with
  | O => Ok []
  | S fuel =>
      rows ← select_jobs org (mkJobsQuery status limit cursor) d;
      match list.last rows with
      | None => Ok []
      | Some r => rest ← job_pages fuel org status limit (Some (j_id (jj_job r))) d; Ok (rows ++ rest)
      end
  end.

Lemma last_map {A B} (f : A → B) l : list.last (map f l) = f <$> list.last l.
Proof. apply (fmap_last f l). Qed.

Lemma job_pages_pages fuel org status st limit cursor d :
  cast_opt job_status_parse "invalid input value for enum job_status" status = Ok st →
  0 < default 50 limit →
  job_pages fuel org status limit cursor d
  = Ok (map (join_job d) (pages job_key fuel (Z.to_nat (Z.min (default 50 limit) 200))
                            (- default i64_max cursor) (wanted_jobs org st d))).
Proof.
  intros Hst Hl. revert cursor. induction fuel as [|fuel IH]; intros cursor; [done|].
  cbn [job_pages pages]. unfold select_jobs. cbn [jq_status jq_limit jq_cursor]. rewrite Hst.
  cbn [mbind result_bind]. unfold sql_limit at 1.
  rewrite (proj2 (Z.ltb_ge (Z.min (default 50 limit) 200) 0)) by lia. cbn [mbind result_bind].
  rewrite jobs_below_after, last_map.
  destruct (list.last (take _ _)) as [j|]; cbn; [|done].
  rewrite IH. cbn. by rewrite map_app.
Qed.

Lemma wanted_jobs_elem org status d j :
  jobs_keyed d →
  j ∈ wanted_jobs org status d ↔
  jobs d !! j_id j = Some j ∧ j_org_id j = org ∧ opt_matches status (j_status j) = true.
Proof.
  intros Hk. unfold wanted_jobs. rewrite list_elem_of_In, List.filter_In, <- list_elem_of_In, elem_of_reverse.
  rewrite snd_by_id_elem by done. rewrite andb_true_iff, Z.eqb_eq. naive_solver.
Qed.

(** The job listing is complete: for any positive limit and any known
    status filter, following the cursors of the pages to the first empty one
    gives, each once and newest first, exactly the jobs of the caller's
    organization with that status. *)
Theorem job_pages_complete fuel org status st limit d :
  jobs_keyed d → 0 < default 50 limit →
  cast_opt job_status_parse "invalid input value for enum job_status" status = Ok st →
  (size (jobs d) < fuel)%nat →
  ∃ l, job_pages fuel org status limit None d = Ok (map (join_job d) l) ∧
    StronglySorted (λ a b, j_id b < j_id a) l ∧
    ∀ j, j ∈ l ↔ jobs d !! j_id j = Some j ∧ j_org_id j = org ∧ opt_matches st (j_status j) = true.
Proof.
  intros Hk Hl Hst Hf. exists (wanted_jobs org st d). split_and!.
  - rewrite (job_pages_pages _ _ _ st) by done. do 2 f_equal.
    assert (after job_key (- i64_max) (wanted_jobs org st d) = wanted_jobs org st d) as Ha.
    { apply after_all, List.Forall_forall. intros j Hj%list_elem_of_In%wanted_jobs_elem; [|done].
      destruct Hj as [Hj _]. unfold job_key. pose proof (proj2 (Hk _ _ Hj)). lia. }
    rewrite pages_all; [exact Ha|by apply wanted_jobs_sorted|lia|]. cbn [default]. rewrite Ha.
    eapply Nat.le_lt_trans; [|exact Hf]. unfold wanted_jobs.
    etrans; [apply List.filter_length_le|]. rewrite length_reverse, length_fmap. unfold by_id.
    by rewrite merge_sort_Permutation, length_map_to_list.
  - eapply StronglySorted_mono; [|by apply wanted_jobs_sorted]. unfold key_lt, job_key. intros; lia.
  - intros j. by apply wanted_jobs_elem.
Qed.

(** ** Pages of rows *)

Definition wanted_rows (id : Z) (status : option RowStatus) (d : Db) : list JobRowDetail :=
  List.filter (λ r, opt_matches status (jr_status r)) (rows_of id d).

Lemma rows_of_elem id d r :
  rows_keyed d → r ∈ rows_of id d ↔ job_rows d !! (id, jr_row_index r) = Some r.
Proof.
  intros Hk. unfold rows_of. rewrite merge_sort_Permutation, list_elem_of_filter, list_elem_of_fmap. split.
  - intros (<- & [k r'] & -> & Hin%elem_of_map_to_list). cbn. by rewrite <- (proj1 (Hk k r' Hin)).
  - intros Hr. split; [by destruct (Hk _ _ Hr) as [[= ->] _]|].
    exists ((id, jr_row_index r), r). split; [done|]. by apply elem_of_map_to_list.
Qed.

Lemma rows_of_sorted id d : rows_keyed d → StronglySorted (key_lt jr_row_index) (rows_of id d).
Proof.
  intros Hk. apply StronglySorted_strict.
  - apply StronglySorted_merge_sort; [intros x y z; unfold row_le; lia|intros x y; unfold row_le; lia].
  - unfold rows_of. rewrite merge_sort_Permutation. apply NoDup_fmap_2_strong.
    + intros x y Hx Hy Hi. rewrite !list_elem_of_filter in Hx, Hy.
      destruct Hx as [Hxi ([k x'] & -> & Hx%elem_of_map_to_list)%list_elem_of_fmap].
      destruct Hy as [Hyi ([k' y'] & -> & Hy%elem_of_map_to_list)%list_elem_of_fmap].
      cbn in *. destruct (Hk _ _ Hx) as [-> _], (Hk _ _ Hy) as [-> _]. congruence.
    + apply list.NoDup_filter, NoDup_fmap_2_strong; [|apply NoDup_map_to_list].
      intros [k x] [k' y] Hx%elem_of_map_to_list Hy%elem_of_map_to_list. cbn. intros ->.
      by rewrite (proj1 (Hk _ _ Hx)), (proj1 (Hk _ _ Hy)).
Qed.

Lemma filter_after cursor status l :
  List.filter (λ r, (cursor <? jr_row_index r) && opt_matches status (jr_status r)) l
  = after jr_row_index cursor (List.filter (λ r, opt_matches status (jr_status r)) l).
Proof.
  unfold after. induction l as [|r l IH]; [done|]. cbn. rewrite IH.
  destruct (opt_matches status (jr_status r)), (cursor <? jr_row_index r) eqn:Hc; cbn; rewrite ?Hc; done.
Qed.

(** Following [next_cursor] of the row listing. *)
Fixpoint row_pages (fuel : nat) (id : Z) (status : option string) (limit cursor : option Z) (d : Db)
    : result string (list JobRowDetail) :=
  match fuel with
  | O => Ok []
  | S fuel =>
      rows ← select_rows id (mkRowsQuery status limit cursor) d;
      match list.last rows with
      | None => Ok []
      | Some r => rest ← row_pages fuel id status limit (Some (jr_row_index r)) d; Ok (rows ++ rest)
      end
  end.

Lemma row_pages_pages fuel id status st limit cursor d :
  cast_opt row_status_parse "invalid input value for enum row_status" status = Ok st →
  0 < default 100 limit →
  row_pages fuel id status limit cursor d
  = Ok (pages jr_row_index fuel (Z.to_nat (Z.min (default 100 limit) 1000)) (default (-1) cursor)
          (wanted_rows id st d)).
Proof.
  intros Hst Hl. revert cursor. induction fuel as [|fuel IH]; intros cursor; [done|].
  cbn [row_pages pages]. unfold select_rows. cbn [rq_status rq_limit rq_cursor]. rewrite Hst.
  cbn [mbind result_bind]. unfold sql_limit at 1.
  rewrite (proj2 (Z.ltb_ge (Z.min (default 100 limit) 1000) 0)) by lia. cbn [mbind result_bind].
  rewrite filter_after. fold (wanted_rows id st d).
  destruct (list.last (take _ _)) as [r|]; cbn; [|done]. by rewrite IH.
Qed.

(** The row listing is complete: for any positive limit and any known
    status filter, following the cursors of the pages to the first empty one
    gives, each once and in row order, exactly the job's rows with that
    status. *)
Theorem row_pages_complete fuel id status st limit d :
  rows_keyed d → 0 < default 100 limit →
  cast_opt row_status_parse "invalid input value for enum row_status" status = Ok st →
  (size (job_rows d) < fuel)%nat →
  ∃ l, row_pages fuel id status limit None d = Ok l ∧
    StronglySorted (λ a b, jr_row_index a < jr_row_index b) l ∧
    ∀ r, r ∈ l ↔ job_rows d !! (id, jr_row_index r) = Some r ∧ opt_matches st (jr_status r) = true.
Proof.
  intros Hk Hl Hst Hf. exists (wanted_rows id st d).
  assert (∀ r, r ∈ wanted_rows id st d ↔
    job_rows d !! (id, jr_row_index r) = Some r ∧ opt_matches st (jr_status r) = true) as Hin.
  { intros r. unfold wanted_rows. rewrite list_elem_of_In, List.filter_In, <- list_elem_of_In.
    by rewrite rows_of_elem. }
  assert (StronglySorted (key_lt jr_row_index) (wanted_rows id st d)) as Hs
    by (by apply StronglySorted_filter, rows_of_sorted).
  split_and!; [|exact Hs|exact Hin].
  assert (after jr_row_index (-1) (wanted_rows id st d) = wanted_rows id st d) as Ha.
  { apply after_all, List.Forall_forall. intros r Hr%list_elem_of_In%Hin.
    pose proof (proj2 (Hk _ _ (proj1 Hr))). lia. }
  rewrite (row_pages_pages _ _ _ st) by done. f_equal. rewrite pages_all; [exact Ha|done|lia|].
  cbn [default]. rewrite Ha. eapply Nat.le_lt_trans; [|exact Hf]. unfold wanted_rows.
  etrans; [apply List.filter_length_le|]. unfold rows_of. rewrite merge_sort_Permutation.
  etrans; [apply length_filter|]. by rewrite length_fmap, length_map_to_list.
Qed.

(** ** Witnesses *)
Lemma sample_jobs_keyed s : jobs_keyed (job_db s).
Proof.
  intros id j Hj. change (jobs (job_db s)) with ({[5 := sample_job s]} : gmap Z JobRow) in Hj.
  apply lookup_singleton_Some in Hj as [<- <-]. split; reflexivity.
Defined.

Lemma sample_rows_keyed s : rows_keyed (job_db s).
Proof.
  intros k r Hr. change (job_rows (job_db s)) with ({[(5, 0) := sample_row 0 RowFailed]} : gmap (Z * Z) JobRowDetail) in Hr.
  apply lookup_singleton_Some in Hr as [<- <-]. split; [reflexivity|discriminate].
Defined.

Lemma job_pages_complete_witness :
  ∃ l, job_pages 2 1 (Some "running") (Some 1) None (job_db Running) = Ok (map (join_job (job_db Running)) l) ∧
       sample_job Running ∈ l.
Proof.
  destruct (job_pages_complete 2 1 (Some "running") (Some Running) (Some 1) (job_db Running)) as (l & Hl & _ & Hin).
  - apply sample_jobs_keyed.
  - reflexivity.
  - reflexivity.
  - vm_compute. constructor.
  - exists l. split; [exact Hl|]. apply Hin. split_and!; reflexivity.
Defined.

Lemma row_pages_complete_witness :
  ∃ l, row_pages 2 5 (Some "failed") (Some 1) None (job_db Failed) = Ok l ∧ sample_row 0 RowFailed ∈ l.
Proof.
  destruct (row_pages_complete 2 5 (Some "failed") (Some RowFailed) (Some 1) (job_db Failed)) as (l & Hl & _ & Hin).
  - apply sample_rows_keyed.
  - reflexivity.
  - reflexivity.
  - vm_compute. constructor.
  - exists l. split; [exact Hl|]. apply Hin. split_and!; reflexivity.
Defined.
