(* ===== verification/RuleTypes.v ===== *)
(** * Rule templates: [apps/api/src/rule_template_types.rs]

    The typed form of a rule template with its derived serde encoding, and the
    normalization of the two template shapes into a list of steps. *)
From S2P Require Import Prelude RustStr Json LicenseFile.
From Stdlib Require Import Ascii.

(** ** Derived enums *)
Section Enums.
Context {A : Type} (all : list A) (text : A → string).

Definition enum_to_value (a : A) : value := VString (text a).
Definition enum_of_value (v : value) : option A :=
  s ← unit_variant v; List.find (λ a, (text a =? s)%string) all.
End Enums.

Inductive SourceType : Type := SrcCsv | SrcJson | SrcXml | SrcSalesforce | SrcWatchedPrefix.
Definition source_types : list SourceType := [SrcCsv; SrcJson; SrcXml; SrcSalesforce; SrcWatchedPrefix].
Definition source_type_text (t : SourceType) : string :=
  match t with
  | SrcCsv => "csv" | SrcJson => "json" | SrcXml => "xml" | SrcSalesforce => "salesforce"
  | SrcWatchedPrefix => "watchedprefix"
  end.

Inductive FieldType : Type := FString | FInteger | FNumber | FBoolean | FDatetime | FObject.
Definition field_types : list FieldType := [FString; FInteger; FNumber; FBoolean; FDatetime; FObject].
Definition field_type_text (t : FieldType) : string :=
  match t with
  | FString => "string" | FInteger => "integer" | FNumber => "number" | FBoolean => "boolean"
  | FDatetime => "datetime" | FObject => "object"
  end.

Inductive AuthType : Type := Bearer | Basic | ApiKey | Oauth2Client.
Definition auth_types : list AuthType := [Bearer; Basic; ApiKey; Oauth2Client].
Definition auth_type_text (t : AuthType) : string :=
  match t with
  | Bearer => "bearer" | Basic => "basic" | ApiKey => "api_key" | Oauth2Client => "oauth2_client"
  end.

Inductive HttpMethod : Type := MGet | MPost | MPut | MPatch | MDelete.
Definition http_methods : list HttpMethod := [MGet; MPost; MPut; MPatch; MDelete].
Definition http_method_text (m : HttpMethod) : string :=
  match m with
  | MGet => "GET" | MPost => "POST" | MPut => "PUT" | MPatch => "PATCH" | MDelete => "DELETE"
  end.

Inductive DeliveryMode : Type := Idempotent | LookupMode | Manual.
Definition delivery_modes : list DeliveryMode := [Idempotent; LookupMode; Manual].
Definition delivery_mode_text (m : DeliveryMode) : string :=
  match m with Idempotent => "idempotent" | LookupMode => "lookup" | Manual => "manual" end.

Inductive BackoffKind : Type := Exponential | Fixed.
Definition backoff_kinds : list BackoffKind := [Exponential; Fixed].
Definition backoff_kind_text (k : BackoffKind) : string :=
  match k with Exponential => "exponential" | Fixed => "fixed" end.

Inductive OnFailure : Type := Stop | Continue.
Definition on_failures : list OnFailure := [Stop; Continue].
Definition on_failure_text (f : OnFailure) : string :=
  match f with Stop => "stop" | Continue => "continue" end.

(** ** Structures *)
Record SourceField : Type := mkSourceField { sf_name : string; sf_field_type : FieldType }.

Record Source : Type := mkTemplateSource {
  so_source_type : SourceType; so_schema : option (list SourceField);
  so_options : option value; so_connector_id : option Z }.

Record PreprocessStep : Type := mkPreprocess {
  pp_id : string; pp_field : string; pp_function : string;
  pp_args : option value; pp_code : option string }.

Record Auth : Type := mkAuth {
  at_auth_type : AuthType; at_secret_ref : option string; at_header_name : option string }.

Record Lookup : Type := mkLookup {
  lk_method : option string; lk_url : string; lk_path_params : option jmap;
  lk_query_params : option jmap; lk_headers : option jmap; lk_found_path : string }.

Record Delivery : Type := mkDelivery {
  dl_mode : DeliveryMode; dl_idempotency_retention_hours : option Z; dl_lookup : option Lookup }.

Record Destination : Type := mkDestination {
  de_destination_type : string; de_method : HttpMethod; de_url : string;
  de_path_params : option jmap; de_query_params : option jmap; de_headers : option jmap;
  de_auth : option Auth; de_idempotency_key : option value;
  de_idempotency_header : option string; de_delivery : option Delivery }.

Record Retry : Type := mkRetry {
  re_max_attempts : option Z; re_backoff : option BackoffKind; re_initial_interval_ms : option Z }.

Record Mapping : Type := mkMapping { mp_payload : jmap }.

Record Step : Type := mkStep {
  st_name : string; st_description : option string; st_mapping : option Mapping;
  st_destination : Destination; st_on_failure : option OnFailure }.

Record ExportColumn : Type := mkColumn {
  ec_name : string; ec_from : option string; ec_from_response : option string; ec_path : option string }.

Record ExportSpec : Type := mkExport { ex_columns : option (list ExportColumn) }.

Record RuleTemplate : Type := mkRule {
  tp_id : string; tp_version : Z; tp_name : string; tp_source : Source;
  tp_preprocess : list PreprocessStep; tp_mapping : option Mapping;
  tp_destination : option Destination; tp_steps : option (list Step); tp_retry : option Retry;
  tp_concurrency : option Z; tp_export : option ExportSpec }.

(** [RuleTemplate::execution_steps] *)
Definition execution_steps (t : RuleTemplate) : list Step :=
  match tp_steps t with
  | Some steps => steps
  | None =>
      match tp_mapping t, tp_destination t with
      | Some m, Some d => [mkStep "main" None (Some m) d None]
      | _, _ => []
      end
  end.

(** ** Decoding of derived structures *)
Definition known (names : list string) (m : jmap) : bool := forallb (λ kv, mem_str kv.1 names) m.

(** [deny] is [#[serde(deny_unknown_fields)]]. *)
Definition struct_of (deny : bool) (names : list string) (v : value) : option jmap :=
  m ← struct_fields names v; if deny && negb (known names m) then None else Some m.

Definition req {A} (f : value → option A) (k : string) (m : jmap) : option A := map_get k m ≫= f.

(** Unsigned integers below [bound]. *)
Definition as_uint (bound : Z) (v : value) : option Z :=
  match v with VNumber (PosInt n) => if (0 <=? n) && (n <? bound) then Some n else None | _ => None end.
Definition as_u16 : value → option Z := as_uint (2 ^ 16).
Definition as_u64 : value → option Z := as_uint (2 ^ 64).

Definition list_of {A} (f : value → option A) (v : value) : option (list A) := as_array v ≫= map_opt f.
Definition list_to {A} (f : A → value) (l : list A) : value := VArray (map f l).

Definition source_field_to_value (s : SourceField) : value := json_obj
  [("name", VString (sf_name s)); ("type", enum_to_value field_type_text (sf_field_type s))].
Definition source_field_of_value (v : value) : option SourceField :=
  m ← struct_of true ["name"; "type"] v;
  n ← req as_str "name" m; t ← req (enum_of_value field_types field_type_text) "type" m;
  Some (mkSourceField n t).

Definition source_to_value (s : Source) : value := json_obj
  ([("type", enum_to_value source_type_text (so_source_type s))]
   ++ skip_none "schema" (list_to source_field_to_value) (so_schema s)
   ++ skip_none "options" id (so_options s)
   ++ skip_none "connectorId" json_int (so_connector_id s)).
Definition source_of_value (v : value) : option Source :=
  m ← struct_of true ["type"; "schema"; "options"; "connectorId"] v;
  t ← req (enum_of_value source_types source_type_text) "type" m;
  sc ← opt_field (list_of source_field_of_value) "schema" m;
  op ← opt_field Some "options" m;
  ci ← opt_field as_i64 "connectorId" m;
  Some (mkTemplateSource t sc op ci).

Definition preprocess_to_value (p : PreprocessStep) : value := json_obj
  ([("id", VString (pp_id p)); ("field", VString (pp_field p)); ("fn", VString (pp_function p))]
   ++ skip_none "args" id (pp_args p) ++ skip_none "code" VString (pp_code p)).
Definition preprocess_of_value (v : value) : option PreprocessStep :=
  m ← struct_of true ["id"; "field"; "fn"; "args"; "code"] v;
  i ← req as_str "id" m; f ← req as_str "field" m; g ← req as_str "fn" m;
  a ← opt_field Some "args" m; c ← opt_field as_str "code" m;
  Some (mkPreprocess i f g a c).

Definition auth_to_value (a : Auth) : value := json_obj
  ([("type", enum_to_value auth_type_text (at_auth_type a))]
   ++ skip_none "secretRef" VString (at_secret_ref a)
   ++ skip_none "headerName" VString (at_header_name a)).
Definition auth_of_value (v : value) : option Auth :=
  m ← struct_of false ["type"; "secretRef"; "headerName"] v;
  t ← req (enum_of_value auth_types auth_type_text) "type" m;
  s ← opt_field as_str "secretRef" m; h ← opt_field as_str "headerName" m;
  Some (mkAuth t s h).

Definition lookup_to_value (l : Lookup) : value := json_obj
  (skip_none "method" VString (lk_method l) ++ [("url", VString (lk_url l))]
   ++ skip_none "pathParams" VObject (lk_path_params l)
   ++ skip_none "queryParams" VObject (lk_query_params l)
   ++ skip_none "headers" VObject (lk_headers l)
   ++ [("foundPath", VString (lk_found_path l))]).
Definition lookup_of_value (v : value) : option Lookup :=
  m ← struct_of true ["method"; "url"; "pathParams"; "queryParams"; "headers"; "foundPath"] v;
  me ← opt_field as_str "method" m; u ← req as_str "url" m;
  pp ← opt_field as_object "pathParams" m; qp ← opt_field as_object "queryParams" m;
  h ← opt_field as_object "headers" m; fp ← req as_str "foundPath" m;
  Some (mkLookup me u pp qp h fp).

Definition delivery_to_value (d : Delivery) : value := json_obj
  ([("mode", enum_to_value delivery_mode_text (dl_mode d))]
   ++ skip_none "idempotencyRetentionHours" json_int (dl_idempotency_retention_hours d)
   ++ skip_none "lookup" lookup_to_value (dl_lookup d)).
Definition delivery_of_value (v : value) : option Delivery :=
  m ← struct_of true ["mode"; "idempotencyRetentionHours"; "lookup"] v;
  mo ← req (enum_of_value delivery_modes delivery_mode_text) "mode" m;
  h ← opt_field as_u32 "idempotencyRetentionHours" m;
  l ← opt_field lookup_of_value "lookup" m;
  Some (mkDelivery mo h l).

Definition destination_to_value (d : Destination) : value := json_obj
  ([("type", VString (de_destination_type d)); ("method", enum_to_value http_method_text (de_method d));
    ("url", VString (de_url d))]
   ++ skip_none "pathParams" VObject (de_path_params d)
   ++ skip_none "queryParams" VObject (de_query_params d)
   ++ skip_none "headers" VObject (de_headers d)
   ++ skip_none "auth" auth_to_value (de_auth d)
   ++ skip_none "idempotencyKey" id (de_idempotency_key d)
   ++ skip_none "idempotencyHeader" VString (de_idempotency_header d)
   ++ skip_none "delivery" delivery_to_value (de_delivery d)).
Definition destination_of_value (v : value) : option Destination :=
  m ← struct_of true ["type"; "method"; "url"; "pathParams"; "queryParams"; "headers"; "auth";
                      "idempotencyKey"; "idempotencyHeader"; "delivery"] v;
  t ← req as_str "type" m; me ← req (enum_of_value http_methods http_method_text) "method" m;
  u ← req as_str "url" m;
  pp ← opt_field as_object "pathParams" m; qp ← opt_field as_object "queryParams" m;
  h ← opt_field as_object "headers" m; a ← opt_field auth_of_value "auth" m;
  ik ← opt_field Some "idempotencyKey" m; ih ← opt_field as_str "idempotencyHeader" m;
  de ← opt_field delivery_of_value "delivery" m;
  Some (mkDestination t me u pp qp h a ik ih de).

Definition retry_to_value (r : Retry) : value := json_obj
  (skip_none "maxAttempts" json_int (re_max_attempts r)
   ++ skip_none "backoff" (enum_to_value backoff_kind_text) (re_backoff r)
   ++ skip_none "initialIntervalMs" json_int (re_initial_interval_ms r)).
Definition retry_of_value (v : value) : option Retry :=
  m ← struct_of true ["maxAttempts"; "backoff"; "initialIntervalMs"] v;
  a ← opt_field as_u32 "maxAttempts" m;
  b ← opt_field (enum_of_value backoff_kinds backoff_kind_text) "backoff" m;
  i ← opt_field as_u64 "initialIntervalMs" m;
  Some (mkRetry a b i).

Definition mapping_to_value (p : Mapping) : value := json_obj [("payload", VObject (mp_payload p))].
Definition mapping_of_value (v : value) : option Mapping :=
  m ← struct_of true ["payload"] v; p ← req as_object "payload" m; Some (mkMapping p).

Definition step_to_value (s : Step) : value := json_obj
  ([("name", VString (st_name s))] ++ skip_none "description" VString (st_description s)
   ++ skip_none "mapping" mapping_to_value (st_mapping s)
   ++ [("destination", destination_to_value (st_destination s))]
   ++ skip_none "onFailure" (enum_to_value on_failure_text) (st_on_failure s)).
Definition step_of_value (v : value) : option Step :=
  m ← struct_of true ["name"; "description"; "mapping"; "destination"; "onFailure"] v;
  n ← req as_str "name" m; d ← opt_field as_str "description" m;
  mp ← opt_field mapping_of_value "mapping" m; de ← req destination_of_value "destination" m;
  f ← opt_field (enum_of_value on_failures on_failure_text) "onFailure" m;
  Some (mkStep n d mp de f).

Definition column_to_value (c : ExportColumn) : value := json_obj
  ([("name", VString (ec_name c))] ++ skip_none "$from" VString (ec_from c)
   ++ skip_none "$fromResponse" VString (ec_from_response c) ++ skip_none "path" VString (ec_path c)).
Definition column_of_value (v : value) : option ExportColumn :=
  m ← struct_of false ["name"; "$from"; "$fromResponse"; "path"] v;
  n ← req as_str "name" m; f ← opt_field as_str "$from" m;
  r ← opt_field as_str "$fromResponse" m; p ← opt_field as_str "path" m;
  Some (mkColumn n f r p).

Definition export_to_value (e : ExportSpec) : value :=
  json_obj (skip_none "columns" (list_to column_to_value) (ex_columns e)).
Definition export_of_value (v : value) : option ExportSpec :=
  m ← struct_of true ["columns"] v; c ← opt_field (list_of column_of_value) "columns" m;
  Some (mkExport c).

Definition template_value (t : RuleTemplate) : value := json_obj
  ([("id", VString (tp_id t)); ("version", json_int (tp_version t)); ("name", VString (tp_name t));
    ("source", source_to_value (tp_source t));
    ("preprocess", list_to preprocess_to_value (tp_preprocess t))]
   ++ skip_none "mapping" mapping_to_value (tp_mapping t)
   ++ skip_none "destination" destination_to_value (tp_destination t)
   ++ skip_none "steps" (list_to step_to_value) (tp_steps t)
   ++ skip_none "retry" retry_to_value (tp_retry t)
   ++ skip_none "concurrency" json_int (tp_concurrency t)
   ++ skip_none "export" export_to_value (tp_export t)).
Definition template_of_value (v : value) : option RuleTemplate :=
  m ← struct_of true ["id"; "version"; "name"; "source"; "preprocess"; "mapping"; "destination"; "steps";
                      "retry"; "concurrency"; "export"] v;
  i ← req as_str "id" m; ve ← req as_u32 "version" m; n ← req as_str "name" m;
  so ← req source_of_value "source" m; pr ← req (list_of preprocess_of_value) "preprocess" m;
  mp ← opt_field mapping_of_value "mapping" m; de ← opt_field destination_of_value "destination" m;
  st ← opt_field (list_of step_of_value) "steps" m; re ← opt_field retry_of_value "retry" m;
  co ← opt_field as_u16 "concurrency" m; ex ← opt_field export_of_value "export" m;
  Some (mkRule i ve n so pr mp de st re co ex).

(** ** Round trips *)

Lemma map_opt_map_Forall {A B} (f : B → option A) (g : A → B) l :
  Forall (λ a, f (g a) = Some a) l → map_opt f (map g l) = Some l.
Proof. induction 1 as [|a l Ha _ IH]; cbn; [done|]. by rewrite Ha, IH. Qed.

Lemma list_of_to {A} (f : value → option A) (g : A → value) l :
  Forall (λ a, f (g a) = Some a) l → list_of f (list_to g l) = Some l.
Proof. apply map_opt_map_Forall. Qed.

Lemma known_entries names l :
  forallb (λ kv : string * value, mem_str kv.1 names) l = true → known names (obj_entries l) = true.
Proof.
  intros Hl. unfold known, obj_entries. apply forallb_forall.
  assert (∀ m, Forall (λ kv : string * value, mem_str kv.1 names = true) m →
    Forall (λ kv : string * value, mem_str kv.1 names = true)
      (fold_left (λ m kv, map_insert kv.1 kv.2 m) l m)) as Hf.
  { induction l as [|[k v] l IH]; cbn in *; [done|]. apply andb_true_iff in Hl as [Hk Hl].
    intros m Hm. apply IH; [done|]. by apply map_insert_Forall. }
  apply List.Forall_forall. by apply Hf.
Qed.

Lemma struct_of_obj deny names l :
  forallb (λ kv : string * value, mem_str kv.1 names) l = true →
  struct_of deny names (json_obj l) = Some (obj_entries l).
Proof. intros Hl. unfold struct_of. cbn. rewrite known_entries by done. by rewrite andb_false_r. Qed.

Lemma known_skip {A} names k (f : A → value) o :
  mem_str k names = true → forallb (λ kv : string * value, mem_str kv.1 names) (skip_none k f o) = true.
Proof. intros Hk. destruct o; cbn; by rewrite ?Hk. Qed.

Lemma bind_struct {A} deny names l (cont : jmap → option A) r :
  forallb (λ kv : string * value, mem_str kv.1 names) l = true → cont (obj_entries l) = r →
  (struct_of deny names (json_obj l) ≫= cont) = r.
Proof. intros Hl Hr. by rewrite struct_of_obj. Qed.

Lemma bind_req {A B} (f : value → option A) k m v a (cont : A → option B) r :
  map_get k m = Some v → f v = Some a → cont a = r → (req f k m ≫= cont) = r.
Proof. unfold req. intros -> Hf Hr. cbn. by rewrite Hf. Qed.

Lemma bind_opt {A B} (f : value → option A) (g : A → value) k m o (cont : option A → option B) r :
  map_get k m = g <$> o → (∀ a, o = Some a → g a ≠ VNull ∧ f (g a) = Some a) → cont o = r →
  (opt_field f k m ≫= cont) = r.
Proof.
  unfold opt_field. intros -> Hf Hr. destruct o as [a|]; cbn; [|done].
  destruct (Hf a eq_refl) as [Hn Ha]. rewrite Ha. by destruct (g a).
Qed.

(** The value of a field in the object a structure is encoded as. *)
Ltac get_field :=
  rewrite map_get_entries, ?assoc_last_app, ?assoc_last_skip;
  cbn [assoc_last String.eqb Ascii.eqb Bool.eqb opt_or]; rewrite ?opt_or_None_r; reflexivity.

Ltac known_names :=
  rewrite ?forallb_app; repeat (apply andb_true_iff; split); first [reflexivity|apply known_skip; reflexivity].

Create HintDb serde.
Ltac field_value := cbn [option_map]; solve [reflexivity | eauto 3 with serde].

Ltac serde_steps :=
  repeat first
    [ reflexivity
    | eapply bind_struct; [known_names|]
    | eapply bind_req; [get_field|field_value|]
    | eapply bind_opt; [get_field|intros ? ?; split; [first [discriminate|field_value]|field_value]|] ].

Lemma as_uint_json_int bound n : 0 ≤ n < bound → as_uint bound (json_int n) = Some n.
Proof.
  intros Hn. unfold json_int, as_uint. rewrite (proj2 (Z.ltb_ge n 0)) by lia.
  by rewrite (proj2 (Z.leb_le 0 n)), (proj2 (Z.ltb_lt n bound)) by lia.
Qed.

Lemma as_i64_json_int n : in_i64 n = true → as_i64 (json_int n) = Some n.
Proof.
  unfold in_i64. intros Hn. bool_prop. unfold json_int. destruct (n <? 0) eqn:Hz; cbn; [done|].
  by rewrite (proj2 (Z.leb_le n i64_max)) by done.
Qed.

(** The text of every variant finds the variant. *)
Lemma enum_roundtrip {A} (all : list A) text a :
  List.find (λ b, (text b =? text a)%string) all = Some a →
  enum_of_value all text (enum_to_value text a) = Some a.
Proof. done. Qed.
Lemma source_type_find a : List.find (λ b, (source_type_text b =? source_type_text a)%string) source_types = Some a.
Proof. by destruct a. Qed.
Lemma field_type_find a : List.find (λ b, (field_type_text b =? field_type_text a)%string) field_types = Some a.
Proof. by destruct a. Qed.
Lemma auth_type_find a : List.find (λ b, (auth_type_text b =? auth_type_text a)%string) auth_types = Some a.
Proof. by destruct a. Qed.
Lemma http_method_find a : List.find (λ b, (http_method_text b =? http_method_text a)%string) http_methods = Some a.
Proof. by destruct a. Qed.
Lemma delivery_mode_find a : List.find (λ b, (delivery_mode_text b =? delivery_mode_text a)%string) delivery_modes = Some a.
Proof. by destruct a. Qed.
Lemma backoff_kind_find a : List.find (λ b, (backoff_kind_text b =? backoff_kind_text a)%string) backoff_kinds = Some a.
Proof. by destruct a. Qed.
Lemma on_failure_find a : List.find (λ b, (on_failure_text b =? on_failure_text a)%string) on_failures = Some a.
Proof. by destruct a. Qed.
#[export] Hint Resolve enum_roundtrip source_type_find field_type_find auth_type_find http_method_find
  delivery_mode_find backoff_kind_find on_failure_find : serde.

Lemma source_field_roundtrip s : source_field_of_value (source_field_to_value s) = Some s.
Proof. destruct s. unfold source_field_of_value, source_field_to_value. serde_steps. Qed.

(** ** The templates a text form can carry

    Integers in the range of their type, and no [Some(Value::Null)], which
    reads back as [None]. *)
Definition opt_all {A} (p : A → bool) (o : option A) : bool := match o with Some a => p a | None => true end.
Definition non_null (v : value) : bool := match v with VNull => false | _ => true end.
Definition in_uint (bound n : Z) : bool := (0 <=? n) && (n <? bound).

Definition source_ok (s : Source) : bool := opt_all non_null (so_options s) && opt_all in_i64 (so_connector_id s).
Definition preprocess_ok (p : PreprocessStep) : bool := opt_all non_null (pp_args p).
Definition delivery_ok (d : Delivery) : bool := opt_all (in_uint (2 ^ 32)) (dl_idempotency_retention_hours d).
Definition destination_ok (d : Destination) : bool :=
  opt_all non_null (de_idempotency_key d) && opt_all delivery_ok (de_delivery d).
Definition retry_ok (r : Retry) : bool :=
  opt_all (in_uint (2 ^ 32)) (re_max_attempts r) && opt_all (in_uint (2 ^ 64)) (re_initial_interval_ms r).
Definition step_ok (s : Step) : bool := destination_ok (st_destination s).
Definition template_ok (t : RuleTemplate) : bool :=
  in_uint (2 ^ 32) (tp_version t) && source_ok (tp_source t) && forallb preprocess_ok (tp_preprocess t)
  && opt_all destination_ok (tp_destination t) && opt_all (forallb step_ok) (tp_steps t)
  && opt_all retry_ok (tp_retry t) && opt_all (in_uint (2 ^ 16)) (tp_concurrency t).

Lemma opt_all_Some {A} (p : A → bool) o a : opt_all p o = true → o = Some a → p a = true.
Proof. by intros Hp ->. Qed.
Lemma non_null_ne v : non_null v = true → id v ≠ VNull.
Proof. by destruct v. Qed.
Lemma as_uint_in bound n : in_uint bound n = true → as_uint bound (json_int n) = Some n.
Proof. unfold in_uint. intros Hn. bool_prop. apply as_uint_json_int. lia. Qed.
Lemma as_u32_in n : in_uint (2 ^ 32) n = true → as_u32 (json_int n) = Some n.
Proof. apply as_uint_in. Qed.
Lemma as_u16_in n : in_uint (2 ^ 16) n = true → as_u16 (json_int n) = Some n.
Proof. apply as_uint_in. Qed.
Lemma as_u64_in n : in_uint (2 ^ 64) n = true → as_u64 (json_int n) = Some n.
Proof. apply as_uint_in. Qed.
Lemma list_roundtrip {A} (p : A → bool) (f : value → option A) (g : A → value) l :
  (∀ a, p a = true → f (g a) = Some a) → forallb p l = true → list_of f (list_to g l) = Some l.
Proof.
  intros Hf Hl. apply list_of_to, List.Forall_forall. intros a Ha. apply Hf.
  by eapply forallb_forall in Hl.
Qed.
Lemma forallb_true {A} (l : list A) : forallb (λ _, true) l = true.
Proof. by induction l. Qed.

#[export] Hint Resolve opt_all_Some non_null_ne as_u32_in as_u16_in as_u64_in as_i64_json_int : serde.

Lemma source_fields_roundtrip l : list_of source_field_of_value (list_to source_field_to_value l) = Some l.
Proof. apply (list_roundtrip (λ _, true)); [auto using source_field_roundtrip|apply forallb_true]. Qed.
#[export] Hint Resolve source_fields_roundtrip : serde.

Lemma source_roundtrip s : source_ok s = true → source_of_value (source_to_value s) = Some s.
Proof.
  destruct s. unfold source_ok. cbn [so_options so_connector_id]. intros [Ho Hc]%andb_true_iff.
  unfold source_of_value, source_to_value. cbn [so_source_type so_schema so_options so_connector_id].
  serde_steps.
Qed.

Lemma preprocess_roundtrip p : preprocess_ok p = true → preprocess_of_value (preprocess_to_value p) = Some p.
Proof.
  destruct p. unfold preprocess_ok. cbn [pp_args]. intros Ha. unfold preprocess_of_value, preprocess_to_value.
  cbn [pp_id pp_field pp_function pp_args pp_code]. serde_steps.
Qed.

Lemma auth_roundtrip a : auth_of_value (auth_to_value a) = Some a.
Proof.
  destruct a. unfold auth_of_value, auth_to_value. cbn [at_auth_type at_secret_ref at_header_name]. serde_steps.
Qed.

Lemma lookup_roundtrip l : lookup_of_value (lookup_to_value l) = Some l.
Proof.
  destruct l. unfold lookup_of_value, lookup_to_value.
  cbn [lk_method lk_url lk_path_params lk_query_params lk_headers lk_found_path]. serde_steps.
Qed.
#[export] Hint Resolve auth_roundtrip lookup_roundtrip : serde.

Lemma delivery_roundtrip d : delivery_ok d = true → delivery_of_value (delivery_to_value d) = Some d.
Proof.
  destruct d. unfold delivery_ok. cbn [dl_idempotency_retention_hours]. intros Hh.
  unfold delivery_of_value, delivery_to_value. cbn [dl_mode dl_idempotency_retention_hours dl_lookup]. serde_steps.
Qed.
#[export] Hint Resolve delivery_roundtrip : serde.

Lemma destination_roundtrip d : destination_ok d = true → destination_of_value (destination_to_value d) = Some d.
Proof.
  destruct d. unfold destination_ok. cbn [de_idempotency_key de_delivery]. intros [Hk Hd]%andb_true_iff.
  unfold destination_of_value, destination_to_value.
  cbn [de_destination_type de_method de_url de_path_params de_query_params de_headers de_auth
       de_idempotency_key de_idempotency_header de_delivery]. serde_steps.
Qed.
#[export] Hint Resolve destination_roundtrip : serde.

Lemma retry_roundtrip r : retry_ok r = true → retry_of_value (retry_to_value r) = Some r.
Proof.
  destruct r. unfold retry_ok. cbn [re_max_attempts re_initial_interval_ms]. intros [Ha Hi]%andb_true_iff.
  unfold retry_of_value, retry_to_value. cbn [re_max_attempts re_backoff re_initial_interval_ms]. serde_steps.
Qed.

Lemma mapping_roundtrip m : mapping_of_value (mapping_to_value m) = Some m.
Proof. destruct m. unfold mapping_of_value, mapping_to_value. cbn [mp_payload]. serde_steps. Qed.
#[export] Hint Resolve retry_roundtrip mapping_roundtrip : serde.

Lemma step_roundtrip s : step_ok s = true → step_of_value (step_to_value s) = Some s.
Proof.
  destruct s. unfold step_ok. cbn [st_destination]. intros Hd. unfold step_of_value, step_to_value.
  cbn [st_name st_description st_mapping st_destination st_on_failure]. serde_steps.
Qed.

Lemma column_roundtrip c : column_of_value (column_to_value c) = Some c.
Proof.
  destruct c. unfold column_of_value, column_to_value. cbn [ec_name ec_from ec_from_response ec_path]. serde_steps.
Qed.

Lemma columns_roundtrip l : list_of column_of_value (list_to column_to_value l) = Some l.
Proof. apply (list_roundtrip (λ _, true)); [auto using column_roundtrip|apply forallb_true]. Qed.
#[export] Hint Resolve columns_roundtrip : serde.

Lemma export_roundtrip e : export_of_value (export_to_value e) = Some e.
Proof. destruct e. unfold export_of_value, export_to_value. cbn [ex_columns]. serde_steps. Qed.

Lemma steps_roundtrip l : forallb step_ok l = true → list_of step_of_value (list_to step_to_value l) = Some l.
Proof. apply list_roundtrip, step_roundtrip. Qed.
Lemma preprocesses_roundtrip l :
  forallb preprocess_ok l = true → list_of preprocess_of_value (list_to preprocess_to_value l) = Some l.
Proof. apply list_roundtrip, preprocess_roundtrip. Qed.
#[export] Hint Resolve source_roundtrip export_roundtrip steps_roundtrip preprocesses_roundtrip : serde.

(** C40: a typed template survives its JSON form: decoding what a template
    serializes to gives exactly the template, for every template whose
    integers fit their types and whose free-form options are not [null]. *)
Theorem template_roundtrip t : template_ok t = true → template_of_value (template_value t) = Some t.
Proof.
  destruct t. unfold template_ok.
  cbn [tp_version tp_source tp_preprocess tp_destination tp_steps tp_retry tp_concurrency].
  rewrite !andb_true_iff. intros [[[[[[Hv Hs] Hp] Hd] Hst] Hr] Hc].
  unfold template_of_value, template_value.
  cbn [tp_id tp_version tp_name tp_source tp_preprocess tp_mapping tp_destination tp_steps tp_retry
       tp_concurrency tp_export]. serde_steps.
Qed.

(** ** Witness *)
Definition sample_destination (url : string) (params : option jmap) : Destination :=
  mkDestination "http" MPost url params None None (Some (mkAuth Bearer (Some "crm_token") None)) None
    (Some "Idempotency-Key") (Some (mkDelivery Idempotent (Some 24) None)).
Definition sample_step (name url : string) (params : option jmap) : Step :=
  mkStep name None (Some (mkMapping [("id", VObject [("$from", VString "id")])]))
    (sample_destination url params) (Some Continue).
Definition response_of (step : string) : jmap :=
  [("contactId", VObject [("$fromResponse", VString step); ("path", VString "$.id")])].
Definition sample_template : RuleTemplate :=
  mkRule "rt" 3 "two steps" (mkTemplateSource SrcCsv (Some [mkSourceField "id" FString]) None None) [] None None
    (Some [sample_step "contact" "/contacts" None;
           sample_step "address" "/contacts/{contactId}/address" (Some (response_of "contact"))])
    (Some (mkRetry (Some 5) (Some Exponential) None)) (Some 8) None.

Lemma template_roundtrip_witness :
  template_of_value (template_value sample_template) = Some sample_template.
Proof. apply template_roundtrip. vm_compute. reflexivity. Defined.
