(* ===== verification/Templates.v ===== *)
(** * Rule templates: [apps/api/src/routes/templates.rs]

    Validation of a template document beyond its JSON Schema, and the
    versioned template table: drafts, publication, deletion, listings. *)
From S2P Require Import Prelude RustStr Json Error LicenseFile Db World RuleTypes.
From Stdlib Require Import Ascii.

(** ** Validation *)

(** [collect_response_refs] *)
Fixpoint collect_response_refs (v : value) : list string :=
  match v with
  | VObject m =>
      match map_get "$fromResponse" m with Some (VString s) => [s] | _ => [] end
      ++ flat_map (λ kv, match kv with (_, w) => collect_response_refs w end) m
  | VArray l => flat_map collect_response_refs l
  | _ => []
  end.

Definition step_refs (s : Step) : list string :=
  match st_mapping s with Some m => collect_response_refs (VObject (mp_payload m)) | None => [] end
  ++ collect_response_refs (destination_to_value (st_destination s)).

(** The loop of [validate_step_references] from the steps already seen. *)
Fixpoint check_references (seen : list string) (steps : list Step) : ApiResult unit :=
  match steps with
  | [] => Ok tt
  | s :: steps =>
      if mem_str (st_name s) seen then
        Err (ValidationFailed ("duplicate step name " +:+ debug_str (st_name s)))
      else
        match List.find (λ r, negb (mem_str r seen)) (step_refs s) with
        | Some r => Err (ValidationFailed ("step " +:+ debug_str (st_name s) +:+ " references response of step "
                      +:+ debug_str r +:+ ", which is not an earlier step"))
        | None => check_references (seen ++ [st_name s]) steps
        end
  end.

Definition validate_step_references (t : RuleTemplate) : ApiResult unit :=
  check_references [] (execution_steps t).

Definition blank (o : option string) : bool := is_empty (default EmptyString o).

(** The first rule a step's destination breaks. *)
Definition destination_problem (d : Destination) : option string :=
  match
    match de_auth d with
    | Some auth =>
        match at_auth_type auth with
        | Oauth2Client => Some "auth type oauth2_client is not supported yet; use bearer, basic or api_key"
        | _ => if blank (at_secret_ref auth) then Some "auth requires secretRef naming a destination secret" else None
        end
    | None => None
    end
  with
  | Some p => Some p
  | None =>
      match de_delivery d with
      | None => None
      | Some delivery =>
          match dl_mode delivery with
          | Idempotent =>
              if blank (de_idempotency_header d) then Some "delivery mode idempotent requires idempotencyHeader"
              else if is_some (dl_lookup delivery) then Some "delivery.lookup is only used with mode lookup" else None
          | LookupMode =>
              if is_some (dl_lookup delivery) then None else Some "delivery mode lookup requires delivery.lookup"
          | Manual =>
              if is_some (dl_lookup delivery) then Some "delivery.lookup is only used with mode lookup" else None
          end
      end
  end.

Fixpoint check_destinations (steps : list Step) : ApiResult unit :=
  match steps with
  | [] => Ok tt
  | s :: steps =>
      match destination_problem (st_destination s) with
      | Some msg => Err (ValidationFailed ("step " +:+ debug_str (st_name s) +:+ ": " +:+ msg))
      | None => check_destinations steps
      end
  end.

Definition validate_destinations (t : RuleTemplate) : ApiResult unit := check_destinations (execution_steps t).

Record CreateRequest : Type := mkCreateRequest {
  cr_template_key : option string; cr_name : string; cr_schema_json : value }.

Record ListQuery : Type := mkListQuery {
  lq_template_key : option string; lq_published : option bool; lq_limit : option Z }.

Section Handlers.
Context `{Rfc3339}.
(** The JSON Schema validator: the joined errors of a document, and the text
    of a serde error; the order of text in the database. *)
Context (schema_check : value → result string unit) (shape_error : value → string)
      (collate : string → string → bool).

(** [validate_template] *)
Definition validate_template (body : value) : ApiResult RuleTemplate :=
  _ ← map_err ValidationFailed (schema_check body);
  t ← ok_or (template_of_value body) (ValidationFailed ("shape: " +:+ shape_error body));
  _ ← validate_step_references t;
  _ ← validate_destinations t;
  Ok t.

(** ** The template table *)

Definition editors : list string := ["admin"; "editor"].

Definition has_key (org_id : Z) (key : string) (t : RuleTemplateRow) : bool :=
  (rt_org_id t =? org_id) && (rt_template_key t =? key)%string.

Definition all_templates (d : Db) : list RuleTemplateRow := snd <$> by_id (rule_templates d).

(** [COALESCE(MAX(version), 0)] *)
Definition max_version (org_id : Z) (key : string) (d : Db) : Z :=
  foldr Z.max 0 (rt_version <$> List.filter (has_key org_id key) (all_templates d)).

(** INSERT under UNIQUE (org_id, template_key, version). *)
Definition insert_template (org_id : Z) (key : string) (version : Z) (name : string) (schema : value)
    (created_by : Z) (d : Db) : result string (RuleTemplateRow * Db) :=
  if i32_max <? version then Err "integer out of range"
  else if existsb (λ t, has_key org_id key t && (rt_version t =? version)) (all_templates d)
  then Err unique_violation
  else
    let row := mkTemplate (db_seq d) org_id key version name schema false (Some created_by) (db_now d) in
    Ok (row, set_seq (db_seq d + 1) (set_rule_templates (<[db_seq d := row]> (rule_templates d)) d)).

(** [uuid] is the fresh key of a template without one. *)
Definition create_template (uuid : string) (c : Claims) (req : CreateRequest) : Api RuleTemplateRow :=
  _ ← lift (require_role c editors);
  _ ← lift (validate_template (cr_schema_json req));
  let key := default ("rt_" +:+ uuid) (cr_template_key req) in
  created_by ← lift (ok_or (parse_i64 (sub c)) Unauthorized);
  row ← with_err (on_unique ("template_key " +:+ key +:+ " already exists"))
          (sql (insert_template (org c) key 1 (cr_name req) (cr_schema_json req) created_by));
  _ ← record_audit c "rule_template" (Some (show_Z (rt_id row))) "create" None (Some (template_to_value row));
  mret row.

Definition template_of (org_id id : Z) (d : Db) : option RuleTemplateRow :=
  owned rt_org_id org_id id (rule_templates d).

Definition get_template (c : Claims) (id : Z) : Api RuleTemplateRow :=
  row ← query (template_of (org c) id); lift (ok_or row NotFound).

Definition create_version (c : Claims) (id : Z) (req : CreateRequest) : Api RuleTemplateRow :=
  _ ← lift (require_role c editors);
  _ ← lift (validate_template (cr_schema_json req));
  key ← query (λ d, rt_template_key <$> template_of (org c) id d);
  key ← lift (ok_or key NotFound);
  created_by ← lift (ok_or (parse_i64 (sub c)) Unauthorized);
  row ← sql (λ d, insert_template (org c) key (max_version (org c) key d + 1) (cr_name req)
                    (cr_schema_json req) created_by d);
  _ ← record_audit c "rule_template" (Some (show_Z (rt_id row))) "create_version" None
        (Some (template_to_value row));
  mret row.

Definition publish (t : RuleTemplateRow) : RuleTemplateRow :=
  mkTemplate (rt_id t) (rt_org_id t) (rt_template_key t) (rt_version t) (rt_name t) (rt_schema_json t)
    true (rt_created_by t) (rt_created_at t).

Definition publish_effect (org_id id : Z) (d : Db) : option RuleTemplateRow * Db :=
  match template_of org_id id d with
  | Some t => (Some (publish t), set_rule_templates (<[id := publish t]> (rule_templates d)) d)
  | None => (None, d)
  end.

Definition publish_template (c : Claims) (id : Z) : Api RuleTemplateRow :=
  _ ← lift (require_role c editors);
  row ← update (publish_effect (org c) id);
  row ← lift (ok_or row NotFound);
  _ ← record_audit c "rule_template" (Some (show_Z (rt_id row))) "publish" None (Some (template_to_value row));
  mret row.

(** Rows of other tables that reference a template. *)
Definition template_referenced (id : Z) (d : Db) : bool :=
  existsb (λ kv, j_rule_template_id kv.2 =? id) (map_to_list (jobs d))
  || existsb (λ kv, sc_rule_template_id kv.2 =? id) (map_to_list (schedules d))
  || existsb (λ kv, bool_decide (bs_rule_template_id kv.2 = Some id)) (map_to_list (batch_stages d)).

(** DELETE of an unpublished template; the number of rows affected. *)
Definition delete_effect (org_id id : Z) (d : Db) : result string (Z * Db) :=
  match opt_filter (λ t, negb (rt_published t)) (template_of org_id id d) with
  | Some _ =>
      if template_referenced id d then Err foreign_key_violation
      else Ok (1, set_rule_templates (delete id (rule_templates d)) d)
  | None => Ok (0, d)
  end.

Definition delete_template (c : Claims) (id : Z) : Api value :=
  _ ← lift (require_role c ["admin"]);
  deleted ← sql (delete_effect (org c) id);
  _ ← guard_err (deleted =? 0) (Conflict "template missing or already published; cannot delete");
  _ ← record_audit c "rule_template" (Some (show_Z id)) "delete" None None;
  mret (json_obj [("deleted", VBool true)]).

(** ** Listings *)

Definition newer (a b : RuleTemplateRow) : Prop := rt_version b ≤ rt_version a.
#[local] Instance newer_dec a b : Decision (newer a b) := Z_le_dec _ _.

(** ORDER BY template_key, version DESC. *)
Definition key_order (a b : RuleTemplateRow) : Prop :=
  rt_template_key a ≠ rt_template_key b ∧ collate (rt_template_key a) (rt_template_key b) = true ∨
  rt_template_key a = rt_template_key b ∧ rt_version b ≤ rt_version a.
#[local] Instance key_order_dec a b : Decision (key_order a b).
Proof. unfold key_order. apply _. Defined.

(** DISTINCT ON (template_key): the first row of every group. *)
Fixpoint distinct_on_key (l : list RuleTemplateRow) : list RuleTemplateRow :=
  match l with
  | [] => []
  | t :: l' =>
      t :: List.filter (λ u, negb (rt_template_key u =? rt_template_key t)%string) (distinct_on_key l')
  end.

Definition versions_of (org_id : Z) (key : string) (published : option bool) (d : Db) : list RuleTemplateRow :=
  merge_sort newer
    (List.filter (λ t, has_key org_id key t && opt_matches published (rt_published t)) (all_templates d)).

Definition latest_versions (org_id : Z) (published : option bool) (d : Db) : list RuleTemplateRow :=
  distinct_on_key (merge_sort key_order
    (List.filter (λ t, (rt_org_id t =? org_id) && opt_matches published (rt_published t)) (all_templates d))).
Definition list_templates (c : Claims) (q : ListQuery) : Api (list RuleTemplateRow) :=
  let limit := Z.min (default 100 (lq_limit q)) 500 in
  query_err (λ d, sql_limit limit
    match lq_template_key q with
    | Some key => versions_of (org c) key (lq_published q) d
    | None => latest_versions (org c) (lq_published q) d
    end).

Definition list_versions (c : Claims) (id : Z) : Api (list RuleTemplateRow) :=
  key ← query (λ d, rt_template_key <$> template_of (org c) id d);
  key ← lift (ok_or key NotFound);
  query (versions_of (org c) key None).
End Handlers.
