(* ===== verification/TemplateRules.v ===== *)
(** * Rule templates: what validation accepts

    The theorems of [Templates] on documents: the references it finds, the
    exact set of accepted documents, and what it never accepts. *)
From S2P Require Import Prelude RustStr Json Error LicenseFile Db World RuleTypes Templates.
From Stdlib Require Import Ascii.

(** ** References *)

(** The document contains, at some depth, an object whose [$fromResponse] is
    the string [r]. *)
Inductive mentions (r : string) : value → Prop :=
  | mentions_here m : map_get "$fromResponse" m = Some (VString r) → mentions r (VObject m)
  | mentions_field m k w : (k, w) ∈ m → mentions r w → mentions r (VObject m)
  | mentions_item l w : w ∈ l → mentions r w → mentions r (VArray l).

Lemma elem_of_flat_map {A B} (f : A → list B) l b : b ∈ flat_map f l ↔ ∃ a, a ∈ l ∧ b ∈ f a.
Proof.
  rewrite list_elem_of_In, in_flat_map. setoid_rewrite list_elem_of_In. naive_solver.
Qed.

Lemma collect_mentions v r : r ∈ collect_response_refs v ↔ mentions r v.
Proof.
  split.
  - revert r. induction v as [|b|n|s|l IH|m IH] using value_ind'; intros r; cbn;
      try (intros Hr; by apply elem_of_nil in Hr).
    + rewrite elem_of_flat_map. intros (w & Hw & Hr). rewrite list.Forall_forall in IH.
      apply (mentions_item _ _ w); auto.
    + rewrite elem_of_app, elem_of_flat_map. rewrite list.Forall_forall in IH. intros [Hr|([k w] & Hw & Hr)].
      * destruct (map_get "$fromResponse" m) as [[]|] eqn:Hm; try by apply elem_of_nil in Hr.
        apply list_elem_of_singleton in Hr as ->. by constructor.
      * apply (mentions_field _ _ k w); [done|]. by apply (IH (k, w)).
  - induction 1 as [m Hm|m k w Hw _ IH|l w Hw _ IH]; cbn.
    + rewrite Hm. set_solver.
    + apply elem_of_app. right. apply elem_of_flat_map. by exists (k, w).
    + apply elem_of_flat_map. by exists w.
Qed.

(** A step mentions the response of a step in its payload or destination. *)
Definition step_mentions (r : string) (s : Step) : Prop :=
  (∃ m, st_mapping s = Some m ∧ mentions r (VObject (mp_payload m))) ∨
  mentions r (destination_to_value (st_destination s)).

Lemma step_refs_mentions r s : r ∈ step_refs s ↔ step_mentions r s.
Proof.
  unfold step_refs, step_mentions. rewrite elem_of_app, collect_mentions.
  destruct (st_mapping s) as [m|].
  - rewrite collect_mentions. naive_solver.
  - rewrite elem_of_nil. naive_solver.
Qed.

(** Every step has its own name and mentions earlier steps only. *)
Definition references_ok (steps : list Step) : Prop :=
  NoDup (st_name <$> steps) ∧
  ∀ i s r, steps !! i = Some s → step_mentions r s →
    ∃ k s', (k < i)%nat ∧ steps !! k = Some s' ∧ st_name s' = r.

(** The same from the names already seen. *)
Definition references_from (seen : list string) (steps : list Step) : Prop :=
  NoDup (seen ++ (st_name <$> steps)) ∧
  ∀ i s r, steps !! i = Some s → step_mentions r s →
    r ∈ seen ∨ ∃ k s', (k < i)%nat ∧ steps !! k = Some s' ∧ st_name s' = r.

Lemma find_none_mem seen l :
  List.find (λ r, negb (mem_str r seen)) l = None ↔ ∀ r, r ∈ l → r ∈ seen.
Proof.
  split.
  - intros Hf r Hr%list_elem_of_In. eapply List.find_none in Hf; [|exact Hr].
    apply mem_str_true. by apply negb_false_iff in Hf.
  - intros Hl. destruct (List.find _ l) as [r|] eqn:Hf; [|done].
    apply List.find_some in Hf as [Hr Hn]. apply negb_true_iff, mem_str_false in Hn.
    exfalso. apply Hn, Hl. by apply list_elem_of_In.
Qed.

Lemma references_cons seen s steps :
  NoDup seen →
  (references_from seen (s :: steps) ↔
   (st_name s ∉ seen) ∧ (∀ r, r ∈ step_refs s → r ∈ seen) ∧ references_from (seen ++ [st_name s]) steps).
Proof.
  intros Hnd. unfold references_from. rewrite <- app_assoc. cbn [fmap list_fmap app].
  setoid_rewrite step_refs_mentions. split.
  - intros [Hd Hr]. split_and!.
    + intros Hin. apply list.NoDup_app in Hd as (_ & Hd & _). apply (Hd _ Hin). set_solver.
    + intros r Hm. destruct (Hr 0%nat s r eq_refl Hm) as [?|(k & ? & ? & _)]; [done|lia].
    + done.
    + intros i s' r Hi Hm. destruct (Hr (S i) s' r Hi Hm) as [?|(k & s2 & Hk & Hs2 & <-)]; [set_solver|destruct k as [|k]].
      * cbn in Hs2. injection Hs2 as ->. set_solver.
      * right. exists k, s2. split_and!; [lia|done..].
  - intros (Hn & H1 & Hd & Hr). split; [done|]. intros [|i] s' r Hi Hm.
    + injection Hi as ->. left. by apply H1.
    + destruct (Hr i s' r Hi Hm) as [Hin|(k & s2 & Hk & Hs2 & <-)].
      * apply elem_of_app in Hin as [?| ->%list_elem_of_singleton]; [by left|].
        right. exists 0%nat, s. split_and!; [lia|done..].
      * right. exists (S k), s2. split_and!; [lia|done..].
Qed.

Lemma check_references_spec seen steps :
  NoDup seen → check_references seen steps = Ok tt ↔ references_from seen steps.
Proof.
  revert seen. induction steps as [|s steps IH]; intros seen Hnd; cbn.
  - split; [|done]. intros _. split; [by rewrite app_nil_r|]. intros i s r Hi. by destruct i.
  - rewrite references_cons by done. destruct (mem_str (st_name s) seen) eqn:Hs.
    + apply mem_str_true in Hs. naive_solver.
    + apply mem_str_false in Hs. destruct (List.find _ _) as [r|] eqn:Hf.
      * apply List.find_some in Hf as [Hr Hn]. apply negb_true_iff, mem_str_false in Hn.
        apply list_elem_of_In in Hr. naive_solver.
      * rewrite find_none_mem in Hf. rewrite IH; [naive_solver|].
        apply list.NoDup_app. split_and!; [done|set_solver|apply list.NoDup_singleton].
Qed.

(** ** Destinations *)

(** A call the runtime can execute: auth of a supported type that names a
    secret, a delivery policy that is complete and has nothing to spare. *)
Definition destination_executable (d : Destination) : Prop :=
  (∀ a, de_auth d = Some a →
     at_auth_type a ≠ Oauth2Client ∧ ∃ s, at_secret_ref a = Some s ∧ s ≠ EmptyString) ∧
  (∀ p, de_delivery d = Some p →
     (dl_mode p = Idempotent → ∃ h, de_idempotency_header d = Some h ∧ h ≠ EmptyString) ∧
     (dl_mode p = LookupMode ↔ is_Some (dl_lookup p))).

Lemma blank_false o : blank o = false ↔ ∃ s, o = Some s ∧ s ≠ EmptyString.
Proof. destruct o as [[]|]; cbn; naive_solver. Qed.

Lemma is_some_is_Some {A} (o : option A) : is_some o = true ↔ is_Some o.
Proof. destruct o; cbn; split; [by eexists|done|done|by intros []]. Qed.

Lemma delivery_problem_spec d :
  destination_problem d = None ↔ destination_executable d.
Proof.
  unfold destination_problem, destination_executable.
  set (auth_ok := ∀ a, de_auth d = Some a → _).
  match goal with |- context [match ?p with Some _ => _ | None => _ end] => set (ap := p) end.
  assert (ap = None ↔ auth_ok) as Ha.
  { unfold ap, auth_ok. destruct (de_auth d) as [[t s h]|]; cbn [at_auth_type at_secret_ref]; [|by split].
    destruct (blank s) eqn:Hb.
    - split; [by destruct t|]. intros Hok. destruct (Hok _ eq_refl) as [_ Hs]. cbn in Hs.
      apply blank_false in Hs. congruence.
    - apply blank_false in Hb. destruct t; split; try done; [..|intros Hok; by destruct (Hok _ eq_refl)];
        intros _ a [= <-]; cbn; done. }
  destruct ap as [p|]; [split; [done|]; intros [Hok _]; by apply Ha in Hok|].
  split.
  - intros Hd. split; [by apply Ha|]. intros p Hp. rewrite Hp in Hd. destruct p as [mode hours lk].
    cbn [dl_mode dl_lookup] in *. rewrite <- is_some_is_Some.
    destruct mode; [destruct (blank _) eqn:Hb; [done|]; apply blank_false in Hb|..];
      destruct (is_some lk); try done; naive_solver.
  - intros [_ Hd]. destruct (de_delivery d) as [[mode hours lk]|]; [|done].
    destruct (Hd _ eq_refl) as [Hi Hl]. cbn [dl_mode dl_lookup] in *. rewrite <- is_some_is_Some in Hl.
    destruct mode.
    + rewrite (proj2 (blank_false _) (Hi eq_refl)). destruct (is_some lk); [|done].
      by discriminate (proj2 Hl eq_refl).
    + by rewrite (proj1 Hl eq_refl).
    + destruct (is_some lk); [|done]. by discriminate (proj2 Hl eq_refl).
Qed.

Lemma check_destinations_spec steps :
  check_destinations steps = Ok tt ↔ ∀ s, s ∈ steps → destination_executable (st_destination s).
Proof.
  induction steps as [|s steps IH]; cbn; [split; [|done]; intros _ s Hs; by apply elem_of_nil in Hs|].
  setoid_rewrite elem_of_cons. destruct (destination_problem _) as [p|] eqn:Hp.
  - split; [done|]. intros Hs. specialize (Hs s (or_introl eq_refl)).
    apply delivery_problem_spec in Hs. congruence.
  - apply delivery_problem_spec in Hp. rewrite IH. naive_solver.
Qed.

Section Accepted.
Context (schema_check : value → result string unit) (shape_error : value → string).

(** C14: validation accepts exactly the executable templates: a document is
    accepted as a template if and only if it satisfies the JSON Schema, is the
    typed form of the template, all its steps have different names and mention
    responses of strictly earlier steps only, wherever in the payload or the
    destination the reference stands, and every destination has auth of a
    supported type with a secret and a complete delivery policy. *)
Theorem template_accepted_iff body t :
  validate_template schema_check shape_error body = Ok t ↔
  schema_check body = Ok tt ∧ template_of_value body = Some t ∧
  references_ok (execution_steps t) ∧
  ∀ s, s ∈ execution_steps t → destination_executable (st_destination s).
Proof.
  rewrite <- check_destinations_spec.
  assert (references_ok (execution_steps t) ↔ validate_step_references t = Ok tt) as ->.
  { unfold validate_step_references. rewrite check_references_spec by apply NoDup_nil_2.
    unfold references_ok, references_from. cbn. setoid_rewrite elem_of_nil. naive_solver. }
  fold (validate_destinations t). unfold validate_template.
  destruct (schema_check body) as [[]|e]; cbn; [|naive_solver].
  destruct (template_of_value body) as [t'|]; cbn; [|naive_solver].
  destruct (validate_step_references t') as [[]|e] eqn:Hr; cbn; [|split; [done|intros (_ & [= ->] & ? & _); congruence]].
  destruct (validate_destinations t') as [[]|e] eqn:Hd; cbn; [naive_solver|].
  split; [done|intros (_ & [= ->] & _ & ?); congruence].
Qed.

(** A template for a watched prefix is never accepted: the schema's name of
    the source type, [watched_prefix], is not the one the typed form reads. *)
Theorem watched_prefix_is_rejected body src :
  vget "source" body = Some src → get_str "type" src = Some "watched_prefix" →
  is_ok (validate_template schema_check shape_error body) = false.
Proof.
  intros Hs Ht. unfold validate_template.
  destruct (schema_check body) as [[]|]; cbn [map_err mbind result_bind]; [|done].
  assert (template_of_value body = None) as ->; [|done].
  destruct body as [| | | | |m]; try done. cbn in Hs.
  assert (source_of_value src = None) as Hn.
  { destruct src as [| | | | |ms]; try done. unfold get_str in Ht. cbn in Ht.
    apply bind_Some in Ht as (ty & Hty & Hstr). destruct ty; try done. injection Hstr as ->.
    unfold source_of_value. destruct (struct_of _ _ _) as [m'|] eqn:Hst; [|done].
    unfold struct_of in Hst. cbn in Hst. destruct (negb _); [done|]. injection Hst as <-.
    cbn [mbind option_bind]. unfold req at 1. rewrite Hty. done. }
  unfold template_of_value. destruct (struct_of _ _ _) as [m'|] eqn:Hst; [|done].
  unfold struct_of in Hst. cbn in Hst. destruct (negb _); [done|]. injection Hst as <-.
  cbn [mbind option_bind]. destruct (req as_str "id" m); [|done]. cbn. destruct (req as_u32 "version" m); [|done].
  cbn. destruct (req as_str "name" m); [|done]. cbn. unfold req. rewrite Hs. cbn. by rewrite Hn.
Qed.
End Accepted.

(** ** Witnesses *)
Definition watched_body : value := json_obj
  [("id", VString "rt"); ("version", json_int 1); ("name", VString "n");
   ("source", json_obj [("type", VString "watched_prefix")]); ("preprocess", VArray [])].

Lemma watched_prefix_is_rejected_witness :
  is_ok (validate_template (λ _, Ok tt) (λ _, EmptyString) watched_body) = false.
Proof.
  apply (watched_prefix_is_rejected _ _ watched_body (json_obj [("type", VString "watched_prefix")])); reflexivity.
Defined.

(** The two-step sample is accepted; with its steps swapped it is not. *)
Example sample_is_accepted :
  validate_template (λ _, Ok tt) (λ _, EmptyString) (template_value sample_template) = Ok sample_template.
Proof. vm_compute. reflexivity. Qed.
