(* ===== verification/TemplateTable.v ===== *)
(** * Rule templates: the versioned table

    The theorems of [Templates] on the stored templates: a published version
    is frozen, every stored document is valid, versions are unique, and the
    listing shows the newest version of every key. *)
From S2P Require Import Prelude RustStr Json Error LicenseFile Db World RuleTypes Templates TemplateRules Sources Jobs JobLifecycle JobListing.
From Stdlib Require Import Ascii.

(** ** The requests that change a template *)
Inductive TemplateOp : Type :=
  | TCreate (uuid : string) (req : CreateRequest)
  | TVersion (id : Z) (req : CreateRequest)
  | TPublish (id : Z)
  | TDelete (id : Z).

Section Table.
Context `{Rfc3339}.
Context (schema_check : value → result string unit) (shape_error : value → string).

Definition run_template_op (c : Claims) (o : TemplateOp) : Api unit :=
  match o with
  | TCreate uuid req => create_template schema_check shape_error uuid c req ≫= λ _, mret tt
  | TVersion id req => create_version schema_check shape_error c id req ≫= λ _, mret tt
  | TPublish id => publish_template c id ≫= λ _, mret tt
  | TDelete id => delete_template c id ≫= λ _, mret tt
  end.

Definition valid_template (t : RuleTemplateRow) : Prop :=
  is_ok (validate_template schema_check shape_error (rt_schema_json t)) = true.

Definition same_version (t u : RuleTemplateRow) : Prop :=
  rt_org_id t = rt_org_id u ∧ rt_template_key t = rt_template_key u ∧ rt_version t = rt_version u.

(** Rows are stored under their id, below the sequence, hold valid documents,
    and no two rows are the same version of the same key. *)
Definition templates_wf (d : Db) : Prop :=
  (∀ id t, rule_templates d !! id = Some t → rt_id t = id ∧ id < db_seq d ∧ valid_template t) ∧
  (∀ i j t u, rule_templates d !! i = Some t → rule_templates d !! j = Some u → same_version t u → i = j).

(** What a request may do to a stored template. *)
Definition template_kept (t : RuleTemplateRow) (o : option RuleTemplateRow) : Prop :=
  o = Some t ∨ o = Some (publish t) ∨ o = None ∧ rt_published t = false.

Definition template_step (d d' : Db) : Prop :=
  templates_wf d →
  templates_wf d' ∧
  (∀ id t, rule_templates d !! id = Some t → template_kept t (rule_templates d' !! id)) ∧
  (∀ id t, rule_templates d !! id = None → rule_templates d' !! id = Some t → rt_published t = false).

Lemma template_step_same d d' :
  rule_templates d' = rule_templates d → db_seq d ≤ db_seq d' → template_step d d'.
Proof.
  intros Ht Hs [Hi Hu]. unfold templates_wf. rewrite Ht. split_and!.
  - intros id t Hid. destruct (Hi id t Hid) as (? & ? & ?). split_and!; [done|lia|done].
  - done.
  - intros id t Hid. by left.
  - congruence.
Qed.

Lemma template_step_refl d : template_step d d.
Proof. by apply template_step_same. Qed.

Lemma template_audit c e i a b af : writes template_step (record_audit c e i a b af).
Proof. apply writes_update. intros d. by apply template_step_same. Qed.
#[local] Hint Resolve template_step_refl template_audit : writes.

Lemma all_templates_elem d t :
  t ∈ all_templates d ↔ ∃ id, rule_templates d !! id = Some t.
Proof.
  unfold all_templates. rewrite list_elem_of_fmap. split.
  - intros ([id t'] & -> & Hin%by_id_elem). by exists id.
  - intros [id Ht]. exists (id, t). split; [done|]. by apply by_id_elem.
Qed.

Lemma insert_template_step o key v name schema by_ d row d' :
  is_ok (validate_template schema_check shape_error schema) = true →
  insert_template o key v name schema by_ d = Ok (row, d') → template_step d d'.
Proof.
  intros Hv. unfold insert_template. destruct (i32_max <? v); [done|].
  destruct (existsb _ _) eqn:Hex; [done|]. intros [= _ <-] [Hi Hu].
  assert (rule_templates d !! db_seq d = None) as Hn.
  { destruct (rule_templates d !! db_seq d) as [t|] eqn:Ht; [|done]. apply Hi in Ht. lia. }
  assert (∀ j u, rule_templates d !! j = Some u → ¬ (rt_org_id u = o ∧ rt_template_key u = key ∧ rt_version u = v)) as Hfree.
  { intros j u Hj (Ho & Hk & Hvv). apply not_true_iff_false in Hex. apply Hex. apply existsb_exists. exists u.
    split; [apply list_elem_of_In, all_templates_elem; by exists j|].
    unfold has_key. by rewrite Ho, Hk, Hvv, !Z.eqb_refl, String.eqb_refl. }
  set (new := mkTemplate _ _ _ _ _ _ _ _ _).
  split_and!; [split| |].
  - intros id t. cbn. destruct (decide (id = db_seq d)) as [->|Hne].
    + rewrite lookup_insert_eq. intros [= <-]. split_and!; [done|lia|exact Hv].
    + rewrite lookup_insert_ne by done. intros Ht. destruct (Hi id t Ht) as (? & ? & ?). split_and!; [done|lia|done].
  - intros i j t u. cbn. destruct (decide (i = db_seq d)) as [->|Hni], (decide (j = db_seq d)) as [->|Hnj];
      rewrite ?lookup_insert_eq, ?lookup_insert_ne by done; [done|..].
    + intros [= <-] Hj (Ho & Hk & Hvv). by destruct (Hfree j u Hj).
    + intros Hj [= <-] (Ho & Hk & Hvv). by destruct (Hfree i t Hj).
    + apply Hu.
  - intros id t Ht. cbn. left. destruct (decide (id = db_seq d)) as [->|Hne]; [congruence|].
    by rewrite lookup_insert_ne.
  - intros id t Ht. cbn. destruct (decide (id = db_seq d)) as [->|Hne].
    + rewrite lookup_insert_eq. by intros [= <-].
    + rewrite lookup_insert_ne by done. congruence.
Qed.

Lemma template_of_Some o id d t :
  template_of o id d = Some t ↔ rule_templates d !! id = Some t ∧ rt_org_id t = o.
Proof. unfold template_of, owned. by rewrite opt_filter_Some, Z.eqb_eq. Qed.

Lemma publish_step o id d : template_step d (publish_effect o id d).2.
Proof.
  unfold publish_effect. destruct (template_of o id d) as [t|] eqn:Ht; [|apply template_step_refl].
  apply template_of_Some in Ht as [Ht _]. intros [Hi Hu]. cbn. split_and!; [split| |].
  - intros i u. cbn. destruct (decide (i = id)) as [->|Hne].
    + rewrite lookup_insert_eq. intros [= <-]. by apply (Hi id t).
    + rewrite lookup_insert_ne by done. apply Hi.
  - intros i j u v. cbn. destruct (decide (i = id)) as [->|Hni], (decide (j = id)) as [->|Hnj];
      rewrite ?lookup_insert_eq, ?lookup_insert_ne by done; [done|..].
    + intros [= <-] Hj Hs. by apply (Hu id j t v).
    + intros Hj [= <-] Hs. by apply (Hu i id u t).
    + apply Hu.
  - intros i u Hu'. cbn. destruct (decide (i = id)) as [->|Hne].
    + rewrite lookup_insert_eq. right. left. congruence.
    + rewrite lookup_insert_ne by done. by left.
  - intros i u Hn. cbn. destruct (decide (i = id)) as [->|Hne]; [congruence|].
    rewrite lookup_insert_ne by done. congruence.
Qed.

Lemma delete_step o id d n d' : delete_effect o id d = Ok (n, d') → template_step d d'.
Proof.
  unfold delete_effect. destruct (opt_filter _ _) as [t|] eqn:Ht; [|intros [= _ <-]; apply template_step_refl].
  destruct (template_referenced id d); [done|]. intros [= _ <-].
  apply opt_filter_Some in Ht as [[Ht _]%template_of_Some Hp%negb_true_iff].
  intros [Hi Hu]. split_and!; [split| |].
  - intros i u. cbn. intros [_ Hui]%lookup_delete_Some. by apply Hi.
  - intros i j u v. cbn. intros [_ Hui]%lookup_delete_Some [_ Hvj]%lookup_delete_Some. by apply Hu.
  - intros i u Hui. cbn. destruct (decide (i = id)) as [->|Hne].
    + rewrite lookup_delete_eq. right. right. split; [done|congruence].
    + rewrite lookup_delete_ne by done. by left.
  - intros i u Hn. cbn. intros [_ Hui]%lookup_delete_Some. congruence.
Qed.

Lemma writes_lift_ok {A B} (R : Db → Db → Prop) (r : ApiResult A) (f : A → Api B) :
  (∀ a, r = Ok a → writes R (f a)) → writes R (lift r ≫= f).
Proof.
  intros Hf. destruct r as [a|e]; [exact (Hf a eq_refl)|exact (writes_throw R e)].
Qed.

Lemma run_template_op_step c o : writes template_step (run_template_op c o).
Proof.
  destruct o as [uuid req|id req|id|id]; cbn [run_template_op]; (apply writes_bind; [|intros ?; apply writes_ret]).
  - unfold create_template. apply writes_bind; [apply writes_lift|intros ?].
    apply writes_lift_ok. intros t Ht. cbv zeta. apply writes_bind; [apply writes_lift|intros ?].
    apply writes_bind; [|intros ?; writes]. apply writes_with_err, writes_sql. intros d row d'.
    apply insert_template_step. by rewrite Ht.
  - unfold create_version. apply writes_bind; [apply writes_lift|intros ?].
    apply writes_lift_ok. intros t Ht. do 3 (apply writes_bind; [solve [writes]|intros ?]).
    apply writes_bind; [|intros ?; writes]. apply writes_sql. intros d row d'.
    apply insert_template_step. by rewrite Ht.
  - unfold publish_template. apply writes_bind; [apply writes_lift|intros ?].
    apply writes_bind; [apply writes_update, publish_step|intros ?]. writes.
  - unfold delete_template. apply writes_bind; [apply writes_lift|intros ?].
    apply writes_bind; [apply writes_sql; intros d n d'; apply delete_step|intros ?]. writes.
Qed.

Lemma published_kept d d' id t :
  rtc template_step d d' → templates_wf d → rule_templates d !! id = Some t → rt_published t = true →
  templates_wf d' ∧ rule_templates d' !! id = Some t.
Proof.
  induction 1 as [|d1 d2 d3 H12 _ IH]; [done|]. intros Hwf Ht Hp.
  destruct (H12 Hwf) as (Hwf2 & Hk & _). apply IH; [done| |done].
  destruct (Hk id t Ht) as [?|[He|[_ ?]]]; [done| |congruence]. rewrite He. f_equal.
  destruct t; cbn in *. by rewrite Hp.
Qed.

(** C22: a published template is frozen: over the run of any template request,
    with any other template requests interleaved, a published version stays
    stored unchanged under its id, so a job created with it runs exactly the
    published rules; and every stored document stays valid, with one row per
    version of a key. *)
Theorem published_templates_are_frozen c o w id t :
  templates_wf (w_db w) → turns_in template_step w →
  rule_templates (w_db w) !! id = Some t → rt_published t = true →
  rule_templates (w_db (run_template_op c o w).2) !! id = Some t ∧
  templates_wf (w_db (run_template_op c o w).2).
Proof.
  intros Hwf Ht Hid Hp. destruct (run_template_op_step c o w) as (_ & _ & Hr).
  destruct (published_kept (w_db w) (w_db (run_template_op c o w).2) id t) as [? ?]; try done.
  eapply rtc_subrel; [|apply (Hr _ Ht)]. intros x y [?|?]; done.
Qed.
End Table.

(** ** The listing *)
Section Listing.
(** The database orders text totally. *)
Context (collate : string → string → bool)
      (collate_total : ∀ a b, collate a b = true ∨ collate b a = true)
      (collate_trans : ∀ a b c, collate a b = true → collate b c = true → collate a c = true)
      (collate_antisym : ∀ a b, collate a b = true → collate b a = true → a = b).

Local Abbreviation order := (key_order collate).

Lemma key_order_trans : Transitive order.
Proof using collate_trans collate_antisym.
  intros a b c [[Hab Cab]|[Hab Vab]] [[Hbc Cbc]|[Hbc Vbc]].
  - destruct (decide (rt_template_key a = rt_template_key c)) as [He|Hne]; [|left; split; [done|]; by eapply collate_trans].
    exfalso. apply Hab. apply collate_antisym; [done|]. by rewrite He.
  - left. rewrite <- Hbc. done.
  - left. rewrite Hab. done.
  - right. split; [congruence|lia].
Qed.

Lemma key_order_total : Total order.
Proof using collate_total.
  intros a b. unfold key_order.
  destruct (decide (rt_template_key a = rt_template_key b)) as [He|Hne].
  - destruct (Z.le_ge_cases (rt_version b) (rt_version a)); [left; right; done|right; right; done].
  - destruct (collate_total (rt_template_key a) (rt_template_key b)); [left; left; done|right; left; done].
Qed.

Lemma distinct_on_key_elem l x :
  StronglySorted order l →
  (∀ t u, t ∈ l → u ∈ l → rt_template_key t = rt_template_key u → rt_version t = rt_version u → t = u) →
  x ∈ distinct_on_key l ↔
  x ∈ l ∧ ∀ u, u ∈ l → rt_template_key u = rt_template_key x → rt_version u ≤ rt_version x.
Proof.
  intros Hs. revert x. induction Hs as [|t l Hs IH Ht]; intros x Hinj; cbn.
  { split; [intros Hx; by apply elem_of_nil in Hx|by intros [Hx _]]. }
  assert (∀ u, u ∈ l → order t u) as Hle.
  { intros u Hu. eapply List.Forall_forall in Ht; [done|]. by apply list_elem_of_In. }
  assert (x ∈ List.filter (λ u, negb (rt_template_key u =? rt_template_key t)%string) (distinct_on_key l) ↔
          rt_template_key x ≠ rt_template_key t ∧ x ∈ distinct_on_key l) as Hf.
  { rewrite list_elem_of_In, List.filter_In, <- list_elem_of_In, negb_true_iff, String.eqb_neq. naive_solver. }
  rewrite elem_of_cons, Hf, IH by (intros u v Hu Hv; apply Hinj; by apply elem_of_cons; right).
  setoid_rewrite elem_of_cons. split.
  - intros [->|[Hk [Hx Hm]]].
    + split; [by left|]. intros u [->|Hu] He; [done|]. destruct (Hle u Hu) as [[? _]|[_ ?]]; congruence.
    + split; [by right|]. intros u [->|Hu] He; [congruence|by apply Hm].
  - intros [[->|Hx] Hm]; [by left|].
    destruct (decide (rt_template_key x = rt_template_key t)) as [He|Hne].
    + left. apply Hinj; [by apply elem_of_cons; right|by apply elem_of_cons; left|done|].
      destruct (Hle x Hx) as [[? _]|[_ ?]]; [congruence|].
      specialize (Hm t (or_introl eq_refl) (eq_sym He)). lia.
    + right. split; [done|]. split; [done|]. intros u Hu. apply Hm. by right.
Qed.

Lemma distinct_on_key_nodup l : NoDup (rt_template_key <$> distinct_on_key l).
Proof.
  induction l as [|t l IH]; cbn; [constructor|]. apply list.NoDup_cons. split.
  - rewrite list_elem_of_fmap. intros (u & He & Hu). apply list_elem_of_In, List.filter_In in Hu as [_ Hu].
    apply negb_true_iff, String.eqb_neq in Hu. congruence.
  - induction (distinct_on_key l) as [|u k IHk]; cbn in *; [constructor|].
    apply list.NoDup_cons in IH as [Hn IH]. destruct (negb _); [|by apply IHk].
    cbn. apply list.NoDup_cons. split; [|by apply IHk].
    contradict Hn. apply list_elem_of_fmap in Hn as (v & -> & Hv).
    apply list_elem_of_fmap. exists v. split; [done|].
    apply list_elem_of_In, List.filter_In in Hv as [Hv _]. by apply list_elem_of_In.
Qed.

(** The template listing shows the newest version of every key: before its
    LIMIT, the listing without a key has each key of the organization once,
    and exactly the stored versions (published ones, when asked for) that no
    version of the same key and publication state exceeds. *)
Theorem listing_shows_the_newest schema_check shape_error org published d t :
  templates_wf schema_check shape_error d →
  NoDup (rt_template_key <$> latest_versions collate org published d) ∧
  (t ∈ latest_versions collate org published d ↔
   (∃ id, rule_templates d !! id = Some t) ∧ rt_org_id t = org ∧
   opt_matches published (rt_published t) = true ∧
   ∀ id u, rule_templates d !! id = Some u → rt_org_id u = org →
     opt_matches published (rt_published u) = true → rt_template_key u = rt_template_key t →
     rt_version u ≤ rt_version t).
Proof using collate_total collate_trans collate_antisym.
  intros [_ Hu]. split; [apply distinct_on_key_nodup|]. unfold latest_versions.
  set (base := List.filter _ (all_templates d)).
  assert (∀ x, x ∈ merge_sort order base ↔ (∃ id, rule_templates d !! id = Some x) ∧ rt_org_id x = org ∧
                 opt_matches published (rt_published x) = true) as Hin.
  { intros x. rewrite merge_sort_Permutation. unfold base.
    rewrite list_elem_of_In, List.filter_In, <- list_elem_of_In, all_templates_elem, andb_true_iff, Z.eqb_eq.
    naive_solver. }
  rewrite distinct_on_key_elem.
  - rewrite Hin. setoid_rewrite Hin. naive_solver.
  - apply StronglySorted_merge_sort; [apply key_order_trans|apply key_order_total].
  - intros x y ((i & Hi) & Ho & _)%Hin ((j & Hj) & Ho' & _)%Hin Hk Hv.
    assert (i = j) as -> by (eapply Hu; [exact Hi|exact Hj|]; split_and!; congruence). congruence.
Qed.
End Listing.

(** ** Witnesses *)
Definition sample_row_of (id version : Z) (published : bool) : RuleTemplateRow :=
  mkTemplate id 1 "t" version "t" (template_value sample_template) published None 0.
Definition two_versions : Db :=
  set_rule_templates (<[3 := sample_row_of 3 2 false]> {[2 := sample_row_of 2 1 true]}) (set_seq 8 empty_db).
Definition any_schema (_ : value) : result string unit := Ok tt.
Definition no_shape (_ : value) : string := EmptyString.

Lemma two_versions_wf : templates_wf any_schema no_shape two_versions.
Proof.
  assert (∀ id t, rule_templates two_versions !! id = Some t →
    id = 3 ∧ t = sample_row_of 3 2 false ∨ id = 2 ∧ t = sample_row_of 2 1 true) as Hall.
  { intros id t Ht. change (rule_templates two_versions) with
      (<[3 := sample_row_of 3 2 false]> {[2 := sample_row_of 2 1 true]} : gmap Z RuleTemplateRow) in Ht.
    apply lookup_insert_Some in Ht as [[<- <-]|[_ Ht]]; [by left|].
    apply lookup_singleton_Some in Ht as [<- <-]. by right. }
  assert (is_ok (validate_template any_schema no_shape (template_value sample_template)) = true) as Hv
    by (vm_compute; reflexivity).
  split.
  - intros id t Ht. destruct (Hall id t Ht) as [[-> ->]|[-> ->]]; split_and!; try reflexivity; exact Hv.
  - intros i j t u Hi Hj (_ & _ & He).
    destruct (Hall i t Hi) as [[-> ->]|[-> ->]], (Hall j u Hj) as [[-> ->]|[-> ->]]; done.
Defined.

Lemma published_templates_are_frozen_witness :
  rule_templates (w_db (run_template_op (H := decimal_time) any_schema no_shape sample_claims (TDelete 2)
                          (sample_world two_versions)).2) !! 2 = Some (sample_row_of 2 1 true).
Proof.
  refine (proj1 (published_templates_are_frozen (H := decimal_time) any_schema no_shape sample_claims (TDelete 2)
                   (sample_world two_versions) 2 (sample_row_of 2 1 true) two_versions_wf _ _ eq_refl)).
  - constructor.
  - vm_compute. reflexivity.
Defined.

(** A concrete total order of text. *)
Definition code_leb (a b : string) : bool := Pos.leb (encode a) (encode b).

Lemma listing_shows_the_newest_witness :
  NoDup (rt_template_key <$> latest_versions code_leb 1 None two_versions).
Proof.
  refine (proj1 (listing_shows_the_newest code_leb _ _ _ any_schema no_shape 1 None two_versions
                   (sample_row_of 3 2 false) two_versions_wf)); unfold code_leb.
  - intros a b. rewrite !Pos.leb_le. lia.
  - intros a b c. rewrite !Pos.leb_le. lia.
  - intros a b. rewrite !Pos.leb_le. intros. apply (inj encode). lia.
Defined.
