(* ===== verification/Secrets.v ===== *)
(** * Secrets: [apps/api/src/routes/secrets.rs], [routes/connectors.rs], and
    the provider configuration of [routes/llm.rs]

    The [secrets] table is shared by three writers: destination secrets,
    connector credentials and the LLM key.  Encryption (AES-GCM with a random
    nonce) is a parameter: its ciphertext and nonce, or its error. *)
From S2P Require Import Prelude RustStr Json Error LicenseFile Db World Sources.
From Stdlib Require Import Ascii.

Definition MAX_SECRET_BYTES : Z := 8 * 1024.

Record SecretMeta : Type := mkSecretMeta {
  sm_name : string; sm_created_at : Z; sm_updated_at : Z; sm_revoked_at : option Z }.

Definition secret_char (a : ascii) : bool :=
  is_alphanumeric a || Ascii.eqb a "_" || Ascii.eqb a "." || Ascii.eqb a "-".

Definition validate_name (name : string) : ApiResult unit :=
  if (1 <=? str_len name) && (str_len name <=? 128) && all_bytes secret_char name then Ok tt
  else Err (BadRequest "secret name must be 1-128 characters of A-Z, a-z, 0-9, '_', '.', '-'").

Definition is_secret (org_id : Z) (name : string) (s : SecretRow) : bool :=
  (se_org_id s =? org_id) && (se_name s =? name)%string.

(** The row of UNIQUE (org_id, name). *)
Definition find_secret (org_id : Z) (name : string) (d : Db) : option (Z * SecretRow) :=
  List.find (λ kv, is_secret org_id name kv.2) (by_id (secrets d)).

Definition is_destination (s : SecretRow) : bool := (se_kind s =? "destination")%string.

Definition meta_of (s : SecretRow) : SecretMeta :=
  mkSecretMeta (se_name s) (se_created_at s) (se_updated_at s) (se_revoked_at s).

(** A new row under the next id. *)
Definition add_secret (org_id : Z) (name ct nonce kind : string) (d : Db) : SecretRow * Db :=
  let row := mkSecret (db_seq d) org_id name ct nonce kind None (db_now d) (db_now d) in
  (row, set_seq (db_seq d + 1) (set_secrets (<[db_seq d := row]> (secrets d)) d)).

(** INSERT ... ON CONFLICT (org_id, name) DO UPDATE of the columns [f] sets. *)
Definition upsert_secret (org_id : Z) (name ct nonce kind : string) (f : Db → SecretRow → SecretRow)
    (d : Db) : SecretRow * Db :=
  match find_secret org_id name d with
  | Some (id, s) => (f d s, set_secrets (<[id := f d s]> (secrets d)) d)
  | None => add_secret org_id name ct nonce kind d
  end.

(** The DO UPDATE of [put_secret]: new value, active again; the kind stays. *)
Definition rotate (ct nonce : string) (d : Db) (s : SecretRow) : SecretRow :=
  mkSecret (se_id s) (se_org_id s) (se_name s) ct nonce (se_kind s) None (se_created_at s) (db_now d).

(** The DO UPDATE of [put_config]: new value only. *)
Definition replace_value (ct nonce : string) (d : Db) (s : SecretRow) : SecretRow :=
  mkSecret (se_id s) (se_org_id s) (se_name s) ct nonce (se_kind s) (se_revoked_at s) (se_created_at s) (db_now d).

Definition erase (d : Db) (s : SecretRow) : SecretRow :=
  mkSecret (se_id s) (se_org_id s) (se_name s) EmptyString EmptyString (se_kind s) (Some (db_now d))
    (se_created_at s) (db_now d).

Definition revoke_effect (org_id : Z) (name : string) (d : Db) : option SecretMeta * Db :=
  match find_secret org_id name d with
  | Some (id, s) =>
      if is_destination s && bool_decide (se_revoked_at s = None)
      then (Some (meta_of (erase d s)), set_secrets (<[id := erase d s]> (secrets d)) d)
      else (None, d)
  | None => (None, d)
  end.

(** What the log says of an accepted value. *)
Definition put_action (previous : option (string * option Z)) : string :=
  match previous with
  | None => "create" | Some (_, Some _) => "reactivate" | Some (_, None) => "rotate"
  end.

(** ** The LLM configuration *)
Record PutConfig : Type := mkPutConfig {
  pc_provider : option string; pc_base_url : string; pc_model : string; pc_api_key : option string;
  pc_redact_pii : option bool; pc_enabled : option bool }.

Definition LLM_SECRET : string := "llm-api-key".

(** INSERT INTO org_llm_configs ... ON CONFLICT (org_id) DO UPDATE. *)
Definition upsert_config (org_id : Z) (provider : string) (req : PutConfig) (secret_id : option Z)
    (updated_by : Z) (d : Db) : Db :=
  set_org_llm_configs
    (<[org_id := mkLlm org_id provider (trim_end_char "/" (pc_base_url req)) (pc_model req) secret_id
                   (default true (pc_redact_pii req)) (default true (pc_enabled req)) (Some updated_by)
                   (db_now d)]> (org_llm_configs d)) d.

(** The same with a secret id read before: its foreign key. *)
Definition config_effect (org_id : Z) (provider : string) (req : PutConfig) (secret_id : option Z)
    (updated_by : Z) (d : Db) : result string (unit * Db) :=
  if negb (match secret_id with Some id => is_some (secrets d !! id) | None => true end)
  then Err foreign_key_violation
  else Ok (tt, upsert_config org_id provider req secret_id updated_by d).

(** ** Connectors *)
Record CreateConnector : Type := mkCreateConnector {
  cc_name : string; cc_connector_kind : string; cc_config_json : value; cc_secret : option string }.

Definition connector_kinds : list string := ["salesforce"; "watched_prefix"; "custom"; "watched_sftp"].

Definition canonical_kind (k : string) : string := if (k =? "sftp")%string then "watched_sftp" else k.

(** INSERT of the credential of a connector, with the column's default kind. *)
Definition insert_credential (org_id : Z) (connector_name : string) (credential : option (string * string))
    (d : Db) : ApiResult (option Z * Db) :=
  match credential with
  | None => Ok (None, d)
  | Some (ct, nonce) =>
      let name := connector_name +:+ "-secret" in
      if is_some (find_secret org_id name d) then Err (Database unique_violation)
      else let '(row, d') := add_secret org_id name ct nonce "internal" d in Ok (Some (se_id row), d')
  end.

Definition insert_connector (org_id : Z) (name kind : string) (cfg : value) (secret_id : option Z)
    (created_by : Z) (d : Db) : ApiResult (ConnectorRow * Db) :=
  if negb (mem_str kind connector_kinds) then Err (Database "invalid input value for enum connector_kind")
  else if existsb (λ kv, (cn_org_id kv.2 =? org_id) && (cn_name kv.2 =? name)%string) (by_id (connectors d))
  then Err (Conflict ("connector " +:+ name +:+ " already exists"))
  else
    let row := mkConnector (db_seq d) org_id name kind cfg secret_id (Some created_by) (db_now d) (db_now d) in
    Ok (row, set_seq (db_seq d + 1) (set_connectors (<[db_seq d := row]> (connectors d)) d)).

(** The transaction of [create_connector]. *)
Definition connector_tx (c : Claims) (name kind : string) (cfg : value) (credential : option (string * string))
    (d : Db) : ApiResult (ConnectorRow * Db) :=
  p ← insert_credential (org c) name credential d;
  created_by ← ok_or (parse_i64 (sub c)) Unauthorized;
  insert_connector (org c) name kind cfg p.1 created_by p.2.

Definition connector_of (org_id id : Z) (d : Db) : option ConnectorRow := owned cn_org_id org_id id (connectors d).

(** DELETE: schedules reference connectors, batches let go of them. *)
Definition delete_connector_effect (org_id id : Z) (d : Db) : result string (Z * Db) :=
  match connector_of org_id id d with
  | None => Ok (0, d)
  | Some _ =>
      if existsb (λ kv, sc_connector_id kv.2 =? id) (map_to_list (schedules d)) then Err foreign_key_violation
      else
        let release b := if bool_decide (ba_connector_id b = Some id) then
          mkBatch (ba_id b) (ba_org_id b) (ba_schedule_id b) None (ba_batch_key b) (ba_source_ref b)
            (ba_status b) (ba_on_stage_failure b) (ba_manifest_json b) (ba_temporal_workflow_id b)
            (ba_temporal_run_id b) (ba_error_message b) (ba_quarantine_ref b) (ba_started_at b)
            (ba_finished_at b) (ba_created_at b) (ba_updated_at b) else b in
        Ok (1, set_batches (release <$> batches d) (set_connectors (delete id (connectors d)) d))
  end.

Section Handlers.
Context `{Rfc3339}.
Context (configured : bool) (status_display : Z → string).
Context (encrypt : string → result string (string * string)).
(** The configured bucket and the allow-list of watched buckets. *)
Context (minio_bucket : string) (watch_allowed_buckets : list string) (collate : string → string → bool).

Definition sealed (v : string) : ApiResult (string * string) := map_err Internal (encrypt v).

Definition by_name (a b : SecretMeta) : Prop := collate (sm_name a) (sm_name b) = true.
#[local] Instance by_name_dec a b : Decision (by_name a b).
Proof. unfold by_name. apply _. Defined.

Definition list_secrets (c : Claims) : Api (list SecretMeta) :=
  _ ← lift (require_role c ["admin"; "editor"]);
  query (λ d, merge_sort by_name
    (meta_of <$> List.filter (λ s, (se_org_id s =? org c) && is_destination s) (snd <$> by_id (secrets d)))).

Definition get_secret (c : Claims) (name : string) : Api SecretMeta :=
  _ ← lift (require_role c ["admin"; "editor"]);
  _ ← lift (validate_name name);
  meta ← query (λ d, meta_of <$> opt_filter is_destination (snd <$> find_secret (org c) name d));
  lift (ok_or meta NotFound).

Definition put_secret (c : Claims) (name value : string) : Api SecretMeta :=
  _ ← lift (require_role c ["admin"]);
  _ ← lift (validate_name name);
  _ ← guard_err (is_empty value || (MAX_SECRET_BYTES <? str_len value))
        (BadRequest ("secret value must be 1-" +:+ show_Z MAX_SECRET_BYTES +:+ " bytes"));
  box ← lift (sealed value);
  previous ← query (λ d, (λ kv, (se_kind kv.2, se_revoked_at kv.2)) <$> find_secret (org c) name d);
  _ ← guard_err (match previous with Some (kind, _) => negb (kind =? "destination")%string | None => false end)
        (Conflict ("secret name " +:+ debug_str name
                   +:+ " is used by a connector or LLM credential; choose another name"));
  row ← update (upsert_secret (org c) name box.1 box.2 "destination" (rotate box.1 box.2));
  _ ← record_audit c "destination_secret" (Some name) (put_action previous) None None;
  mret (meta_of row).

Definition revoke_secret (c : Claims) (name : string) : Api SecretMeta :=
  _ ← lift (require_role c ["admin"]);
  _ ← lift (validate_name name);
  meta ← update (revoke_effect (org c) name);
  meta ← lift (ok_or meta NotFound);
  _ ← record_audit c "destination_secret" (Some name) "revoke" None None;
  mret meta.

(** ** [routes/llm.rs]: the configuration *)
Definition get_config (c : Claims) : Api value :=
  row ← query (λ d, org_llm_configs d !! org c);
  mret match row with
       | None => json_obj [("configured", VBool false)]
       | Some r => json_obj
           [("configured", VBool true); ("provider", VString (lc_provider r));
            ("base_url", VString (lc_base_url r)); ("model", VString (lc_model r));
            ("has_api_key", VBool (is_some (lc_secret_id r))); ("redact_pii", VBool (lc_redact_pii r));
            ("enabled", VBool (lc_enabled r))]
       end.

Definition put_config (c : Claims) (req : PutConfig) : Api value :=
  _ ← lift (require_role c ["admin"]);
  let provider := default "openai-compatible" (pc_provider req) in
  _ ← guard_err (negb (provider =? "openai-compatible")%string)
        (BadRequest ("unsupported provider " +:+ debug_str provider));
  updated_by ← lift (ok_or (parse_i64 (sub c)) Unauthorized);
  _ ← match pc_api_key req with
      | Some api_key =>
          box ← lift (sealed api_key);
          transaction (λ d,
            let '(row, d') := upsert_secret (org c) LLM_SECRET box.1 box.2 "internal" (replace_value box.1 box.2) d in
            Ok (tt, upsert_config (org c) provider req (Some (se_id row)) updated_by d'))
      | None =>
          secret_id ← query (λ d, org_llm_configs d !! org c ≫= lc_secret_id);
          sql (config_effect (org c) provider req secret_id updated_by)
      end;
  _ ← record_audit c "llm_config" None "update" None None;
  mret (json_obj [("ok", VBool true)]).

(** ** [routes/connectors.rs] *)
Definition connector_order (a b : ConnectorRow) : Prop := collate (cn_name a) (cn_name b) = true.
#[local] Instance connector_order_dec a b : Decision (connector_order a b).
Proof. unfold connector_order. apply _. Defined.

Definition list_connectors (c : Claims) : Api (list ConnectorRow) :=
  query (λ d, merge_sort connector_order (List.filter (λ r, cn_org_id r =? org c) (snd <$> by_id (connectors d)))).

Definition create_connector (c : Claims) (req : CreateConnector) : Api ConnectorRow :=
  _ ← lift (require_role c ["admin"; "editor"]);
  let kind := canonical_kind (cc_connector_kind req) in
  _ ← lift (check_connector_locations kind (cc_config_json req) (org c) (minio_bucket :: watch_allowed_buckets));
  credential ← lift (transpose (sealed <$> cc_secret req));
  row ← transaction (connector_tx c (cc_name req) kind (cc_config_json req) credential);
  _ ← record_audit c "connector" (Some (show_Z (cn_id row))) "create" None (Some (connector_to_value row));
  mret row.

Definition get_connector (c : Claims) (id : Z) : Api ConnectorRow :=
  row ← query (connector_of (org c) id); lift (ok_or row NotFound).

Definition delete_connector (c : Claims) (id : Z) : Api value :=
  _ ← lift (require_role c ["admin"]);
  affected ← sql (delete_connector_effect (org c) id);
  _ ← guard_err (affected =? 0) NotFound;
  _ ← record_audit c "connector" (Some (show_Z id)) "delete" None None;
  mret (json_obj [("deleted", VBool true)]).

Definition test_connector (c : Claims) (id : Z) : Api value :=
  _ ← lift (require_role c ["admin"; "editor"; "operator"]);
  kind ← query (λ d, cn_connector_kind <$> connector_of (org c) id d);
  kind ← lift (ok_or kind NotFound);
  _ ← guard_err (negb (kind =? "watched_sftp")%string)
        (BadRequest ("real connector test is not implemented for kind " +:+ kind));
  r ← test_sftp_connector configured status_display (org c) id;
  _ ← lift (map_err (λ e, External ("connector validation: " +:+ bridge_text e)) r);
  mret (json_obj [("id", json_int id); ("ok", VBool true);
                  ("message", VString "SFTP handshake and bounded listing succeeded")]).

Definition sf_oauth_callback : value := json_obj
  [("ok", VBool true);
   ("instructions", VString "exchange the code server-side then call POST /connectors")].
End Handlers.
