(* ===== verification/SecretRules.v ===== *)
(** * Secrets: what the writers may do to each other

    The theorems of [Secrets]: a destination secret never replaces another
    kind of secret, values are write-only and erased on revocation, and where
    the shared table lets a writer down. *)
From S2P Require Import Prelude RustStr Json Error LicenseFile Db World Sources Jobs JobLifecycle JobStart JobSignals Secrets.
From Stdlib Require Import Ascii.

(** Rows under their id, below the sequence, one per organization and name. *)
Definition secrets_wf (d : Db) : Prop :=
  (∀ id s, secrets d !! id = Some s → se_id s = id ∧ id < db_seq d) ∧
  (∀ i j s t, secrets d !! i = Some s → secrets d !! j = Some t →
     se_org_id s = se_org_id t → se_name s = se_name t → i = j).

Lemma is_secret_true o n s : is_secret o n s = true ↔ se_org_id s = o ∧ se_name s = n.
Proof. unfold is_secret. by rewrite andb_true_iff, Z.eqb_eq, String.eqb_eq. Qed.

Lemma find_secret_Some o n d id s :
  find_secret o n d = Some (id, s) → secrets d !! id = Some s ∧ se_org_id s = o ∧ se_name s = n.
Proof.
  unfold find_secret. intros [Hin Hm]%find_some. apply list_elem_of_In, by_id_elem in Hin.
  cbn in Hm. by apply is_secret_true in Hm.
Qed.

Lemma find_secret_None o n d :
  find_secret o n d = None → ∀ id s, secrets d !! id = Some s → ¬ (se_org_id s = o ∧ se_name s = n).
Proof.
  unfold find_secret. intros Hn id s Hs Hm%is_secret_true. apply by_id_elem, list_elem_of_In in Hs.
  eapply List.find_none in Hn; [|exact Hs]. cbn in Hn. congruence.
Qed.

Lemma find_secret_is o n d id s :
  secrets_wf d → secrets d !! id = Some s → se_org_id s = o → se_name s = n → find_secret o n d = Some (id, s).
Proof.
  intros [_ Hu] Hs Ho Hn. destruct (find_secret o n d) as [[i t]|] eqn:Hf.
  - apply find_secret_Some in Hf as (Ht & Ho' & Hn').
    assert (i = id) as -> by (eapply Hu; [exact Ht|exact Hs|congruence..]). congruence.
  - exfalso. eapply find_secret_None; [exact Hf|exact Hs|done].
Qed.

(** Every secret but the destination secret of that name is kept. *)
Definition only_destination (o : Z) (n : string) (d d' : Db) : Prop :=
  ∀ id s, secrets d !! id = Some s →
    secrets d' !! id = Some s ∨ se_org_id s = o ∧ se_name s = n ∧ is_destination s = true.

Lemma only_destination_refl o n d : only_destination o n d d.
Proof. intros id s Hs. by left. Qed.

Lemma upsert_only_destination o n ct nonce kind f d :
  (∀ id s, secrets d !! id = Some s → id < db_seq d) →
  (∀ kv, find_secret o n d = Some kv → is_destination kv.2 = true) →
  only_destination o n d (upsert_secret o n ct nonce kind f d).2.
Proof.
  intros Hfresh Hdest id s Hs. unfold upsert_secret, add_secret.
  destruct (find_secret o n d) as [[i t]|] eqn:Hf; cbn.
  - specialize (Hdest _ eq_refl). apply find_secret_Some in Hf as (Ht & Ho & Hn).
    destruct (decide (i = id)) as [->|Hne].
    + right. assert (t = s) as -> by congruence. done.
    + left. by rewrite lookup_insert_ne.
  - left. rewrite lookup_insert_ne; [done|]. intros <-. apply Hfresh in Hs. lia.
Qed.

Lemma revoke_only_destination o n d : only_destination o n d (revoke_effect o n d).2.
Proof.
  intros id s Hs. unfold revoke_effect. destruct (find_secret o n d) as [[i t]|] eqn:Hf; [|by left].
  apply find_secret_Some in Hf as (Ht & Ho & Hn). destruct (is_destination t) eqn:Hd; [|by left].
  destruct (bool_decide _); cbn; [|by left]. destruct (decide (i = id)) as [->|Hne].
  - right. assert (t = s) as -> by congruence. done.
  - left. by rewrite lookup_insert_ne.
Qed.

Section Secrets.
Context (encrypt : string → result string (string * string)).

(** The other transactions neither lose fresh ids nor touch the name: what the
    row lock of [put_secret] gives it once the row exists. *)
Definition name_locked (o : Z) (n : string) (d d' : Db) : Prop :=
  (secrets_wf d → secrets_wf d') ∧ find_secret o n d' = find_secret o n d.

Lemma put_keeps_others c name v w :
  secrets_wf (w_db w) → turns_in (name_locked (org c) name) w →
  did (only_destination (org c) name) w (put_secret encrypt c name v w).2.
Proof.
  intros Hwf Ht. set (R := only_destination (org c) name).
  assert (∀ d d', secrets d' = secrets d → R d d') as Hsame by (intros d d' Hs id s Hid; left; by rewrite Hs).
  assert (∀ e i a b af, writes R (record_audit c e i a b af)) as Hlog
    by (intros; apply writes_update; intros d; by apply Hsame).
  assert (∀ d, name_locked (org c) name d d) as Hlr by done.
  enough (wp (put_secret encrypt c name v) (λ _ w', did R w w') w) as Hw by exact Hw.
  unfold put_secret. apply wp_bind, wp_lift. destruct (require_role _ _); [|apply did_refl].
  apply wp_bind, wp_lift. destruct (validate_name _); [|apply did_refl].
  apply wp_bind, wp_guard; intros _; [apply did_refl|].
  apply wp_bind, wp_lift. destruct (sealed encrypt v) as [box|]; [|apply did_refl].
  apply wp_bind, (wp_query_in _ _ _ _ Ht Hlr). intros r w1 [Hwf1 _] Ht1 Hd1 Hprev.
  assert (did R w w1) as HR1.
  { destruct Hd1 as (h & Hh & HF). exists h. split; [done|]. eapply Forall_impl; [|exact HF].
    intros [x y] ->. apply only_destination_refl. }
  destruct r as [prev|e]; [|exact HR1]. specialize (Hprev prev eq_refl). specialize (Hwf1 Hwf).
  apply wp_bind, wp_guard; intros Hg; [exact HR1|].
  apply wp_bind, (wp_update_in _ _ _ _ Ht1 Hlr). intros r w2 d [Hwf2 Hf2] _ Hstep.
  assert (R d (upsert_secret (org c) name box.1 box.2 "destination" (rotate box.1 box.2) d).2) as Hup.
  { apply upsert_only_destination; [intros id s Hs; exact (proj2 (proj1 (Hwf2 Hwf1) id s Hs))|]. rewrite Hf2. intros [i s] Hs.
    rewrite Hs in Hprev. cbn in Hprev. subst prev. by apply negb_false_iff in Hg. }
  assert (did R w w2) as HR2.
  { eapply did_trans; [exact HR1|]. destruct Hstep as [(Hh & _)|(Hh & _)]; [by apply did_none|by eapply did_one]. }
  destruct r as [row|e]; [|exact HR2]. apply wp_bind. unfold wp at 1.
  pose proof (did_trans _ _ _ _ HR2 (writes_did R _ w2 (Hlog "destination_secret" (Some name) (put_action prev) None None))) as HR3.
  by destruct (record_audit _ _ _ _ _ _ w2) as [[]].
Qed.

Lemma revoke_keeps_others c name w : did (only_destination (org c) name) w (revoke_secret c name w).2.
Proof.
  set (R := only_destination (org c) name).
  assert (∀ d d', secrets d' = secrets d → R d d') as Hsame by (intros d d' Hs id s Hid; left; by rewrite Hs).
  assert (∀ e i a b af, writes R (record_audit c e i a b af)) as Hlog
    by (intros; apply writes_update; intros d; by apply Hsame).
  apply writes_did. unfold revoke_secret. do 2 (apply writes_bind; [apply writes_lift|intros ?]).
  apply writes_bind; [apply writes_update; intros d; apply revoke_only_destination|intros ?].
  apply writes_bind; [apply writes_lift|intros ?]. apply writes_bind; [apply Hlog|intros ?; apply writes_ret].
Qed.

(** The name of another kind of secret is refused. *)
Definition refuses {A} (m : Api A) (w : World) : Prop :=
  is_ok (m w).1 = false ∧ did (λ d d', d' = d) w (m w).2.

Lemma put_refuses_others c name v w kv :
  turns_in (name_locked (org c) name) w →
  find_secret (org c) name (w_db w) = Some kv → is_destination kv.2 = false →
  refuses (put_secret encrypt c name v) w.
Proof.
  intros Ht Hf Hk. enough (wp (put_secret encrypt c name v) (λ r w', is_ok r = false ∧ did (λ d d', d' = d) w w') w) as Hw.
  { unfold refuses, wp in *. by destruct (put_secret encrypt c name v w). }
  assert (∀ d, name_locked (org c) name d d) as Hlr by done.
  unfold put_secret. apply wp_bind, wp_lift. destruct (require_role _ _); [|by split; [|apply did_refl]].
  apply wp_bind, wp_lift. destruct (validate_name _); [|by split; [|apply did_refl]].
  apply wp_bind, wp_guard; intros _; [by split; [|apply did_refl]|].
  apply wp_bind, wp_lift. destruct (sealed encrypt v) as [box|]; [|by split; [|apply did_refl]].
  apply wp_bind, (wp_query_in _ _ _ _ Ht Hlr). intros r w1 [_ Hf1] _ Hd1 Hprev.
  destruct r as [prev|e]; [|done]. specialize (Hprev prev eq_refl). rewrite Hf1, Hf in Hprev. cbn in Hprev. subst prev.
  apply wp_bind, wp_guard; intros Hg; [done|]. unfold is_destination in Hk. by rewrite Hk in Hg.
Qed.

Lemma revoke_refuses_others c name w kv :
  turns_in (name_locked (org c) name) w →
  find_secret (org c) name (w_db w) = Some kv → is_destination kv.2 = false →
  refuses (revoke_secret c name) w.
Proof.
  intros Ht Hf Hk. enough (wp (revoke_secret c name) (λ r w', is_ok r = false ∧ did (λ d d', d' = d) w w') w) as Hw.
  { unfold refuses, wp in *. by destruct (revoke_secret c name w). }
  assert (∀ d, name_locked (org c) name d d) as Hlr by done.
  unfold revoke_secret. apply wp_bind, wp_lift. destruct (require_role _ _); [|by split; [|apply did_refl]].
  apply wp_bind, wp_lift. destruct (validate_name _); [|by split; [|apply did_refl]].
  apply wp_bind, (wp_update_in _ _ _ _ Ht Hlr). intros r w1 d [_ Hf1] _ Hstep.
  assert (revoke_effect (org c) name d = (None, d)) as Hr.
  { unfold revoke_effect. rewrite Hf1, Hf. destruct kv as [i s]. cbn in Hk. by rewrite Hk. }
  rewrite Hr in Hstep. cbn in Hstep. destruct Hstep as [(Hh & _ & Hok)|(Hh & _ & Ha)].
  - destruct r; [done|]. split; [done|]. by apply did_none.
  - assert (did (λ d d', d' = d) w w1) as Hd by (by eapply did_one). destruct r as [m|e]; [|done].
    rewrite (Ha m eq_refl). apply wp_bind, wp_lift. done.
Qed.

(** C36: a destination secret never replaces another secret: in any
    interleaving in which no other transaction takes the name in between,
    putting or revoking one changes no secret but the caller's destination
    secret of that name, and under the name of a secret of another kind both
    are refused and change nothing.  (Connector credentials are of another
    kind; so is the LLM key, unless its row was a destination secret before
    the configuration took it over.) *)
Theorem secrets_keep_to_their_kind c name v w :
  secrets_wf (w_db w) → turns_in (name_locked (org c) name) w →
  did (only_destination (org c) name) w (put_secret encrypt c name v w).2 ∧
  did (only_destination (org c) name) w (revoke_secret c name w).2 ∧
  ∀ kv, find_secret (org c) name (w_db w) = Some kv → is_destination kv.2 = false →
    refuses (put_secret encrypt c name v) w ∧ refuses (revoke_secret c name) w.
Proof.
  intros Hwf Ht. split_and!; [by apply put_keeps_others|apply revoke_keeps_others|].
  intros kv Hf Hk. split; [by eapply put_refuses_others|by eapply revoke_refuses_others].
Qed.

(** Secret values are write-only: with no interference, putting an
    acceptable value under a free name or a destination secret's name answers
    the name and times only, adds one audit entry that says only which secret
    was created, rotated or reactivated, and changes one row, which holds the
    encryption of the value and is active; under any other secret's name it
    is refused and nothing changes. *)
Theorem secret_values_are_write_only c name v box w :
  quiet w → role c = "admin" → validate_name name = Ok tt →
  v ≠ EmptyString → str_len v ≤ MAX_SECRET_BYTES → encrypt v = Ok box →
  let d := w_db w in
  let found := snd <$> find_secret (org c) name d in
  wp (put_secret encrypt c name v) (λ r w',
    if default true (is_destination <$> found) then
      r = Ok (mkSecretMeta name (default (db_now d) (se_created_at <$> found)) (db_now d) None) ∧
      audit_log (w_db w') = audit_log d ++
        [audit_entry c "destination_secret" (Some name)
           (put_action ((λ s, (se_kind s, se_revoked_at s)) <$> found)) None None d] ∧
      ∃ id s, secrets (w_db w') = <[id := s]> (secrets d) ∧ is_secret (org c) name s = true ∧
        is_destination s = true ∧ (se_ciphertext s, se_nonce s) = box ∧ se_revoked_at s = None
    else w_db w' = d ∧ ∃ m, r = Err (Conflict m)) w.
Proof.
  intros Hq Hrole Hn Hv Hlen Henc. cbv zeta. unfold put_secret.
  apply wp_bind, wp_lift. unfold require_role. rewrite Hrole. cbn [mem_str existsb String.eqb Ascii.eqb Bool.eqb orb].
  apply wp_bind, wp_lift. rewrite Hn. apply wp_bind, wp_guard; intros Hg.
  { exfalso. apply orb_true_iff in Hg as [He|Hl%Z.ltb_lt]; [by destruct v|lia]. }
  clear Hg. unfold sealed. rewrite Henc. cbn [map_err]. apply wp_bind, wp_lift.
  apply wp_bind, quiet_query; [done|]. intros w1 Hq1 Hd1 _ _.
  destruct (find_secret (org c) name (w_db w)) as [[id s]|] eqn:Hf; cbn [fmap option_fmap option_map snd default Datatypes.id].
  - pose proof (find_secret_Some _ _ _ _ _ Hf) as (Hs & Ho & Hname).
    apply wp_bind, wp_guard; intros Hg; unfold is_destination.
    { apply negb_true_iff in Hg. rewrite Hg. rewrite Hd1. eauto. }
    apply negb_false_iff in Hg. rewrite Hg.
    apply wp_bind, quiet_update; [done|]. intros w2 Hq2 Hd2 _ _. rewrite Hd1 in *.
    unfold upsert_secret in Hd2 |- *. rewrite Hf in Hd2 |- *. cbn [fst snd] in Hd2 |- *.
    apply wp_bind, quiet_update; [done|]. intros w3 Hq3 Hd3 _ _. apply wp_ret.
    rewrite Hd3, Hd2. cbn. split_and!; [by rewrite <- Hname|done|].
    exists id. eexists. split; [done|]. unfold is_secret, rotate. cbn.
    rewrite Ho, Hname, Z.eqb_refl, String.eqb_refl. split_and!; try done. by destruct box.
  - apply wp_bind, wp_guard; intros Hg; [done|].
    apply wp_bind, quiet_update; [done|]. intros w2 Hq2 Hd2 _ _. rewrite Hd1 in *.
    unfold upsert_secret in Hd2 |- *. rewrite Hf in Hd2 |- *. cbn [add_secret fst snd] in Hd2 |- *.
    apply wp_bind, quiet_update; [done|]. intros w3 Hq3 Hd3 _ _. apply wp_ret.
    rewrite Hd3, Hd2. cbn. split_and!; [done..|].
    eexists _, _. split; [done|]. unfold is_secret. cbn.
    rewrite Z.eqb_refl, String.eqb_refl. split_and!; try done. by destruct box.
Qed.

(** Revocation erases: a successful revocation found an active destination
    secret of the caller's name and leaves its row revoked at that instant
    with neither ciphertext nor nonce. *)
Theorem revocation_erases c name w :
  wp (revoke_secret c name) (λ r w', ∀ meta, r = Ok meta →
    ∃ d id s, (d, set_secrets (<[id := erase d s]> (secrets d)) d) ∈ w_hist w' ∧
      find_secret (org c) name d = Some (id, s) ∧ is_destination s = true ∧ se_revoked_at s = None ∧
      meta = meta_of (erase d s) ∧ se_ciphertext (erase d s) = EmptyString ∧ se_nonce (erase d s) = EmptyString) w.
Proof.
  unfold revoke_secret. apply wp_bind, wp_lift. destruct (require_role _ _); [|done].
  apply wp_bind, wp_lift. destruct (validate_name _); [|done].
  apply wp_bind, wp_update. intros r w1 _ Hstep. destruct r as [meta|e]; [|done].
  destruct Hstep as [[_ ?]|(d & Hh & Hd & Hmeta)]; [done|]. specialize (Hmeta _ eq_refl).
  apply wp_bind, wp_lift. destruct meta as [meta|]; [|done]. cbn [ok_or].
  unfold revoke_effect in Hmeta, Hd. destruct (find_secret (org c) name d) as [[id s]|] eqn:Hf; [|done].
  destruct (is_destination s) eqn:Hdest; [|done]. cbn in Hmeta, Hd.
  destruct (bool_decide (se_revoked_at s = None)) eqn:Hr; [|done]. cbn in Hmeta, Hd. bool_prop.
  injection Hmeta as ->.
  assert (∀ w', extends w1 w' → ∀ m, Ok (E := ApiError) (meta_of (erase d s)) = Ok m →
    ∃ d id s, (d, set_secrets (<[id := erase d s]> (secrets d)) d) ∈ w_hist w' ∧
      find_secret (org c) name d = Some (id, s) ∧ is_destination s = true ∧ se_revoked_at s = None ∧
      m = meta_of (erase d s) ∧ se_ciphertext (erase d s) = EmptyString ∧ se_nonce (erase d s) = EmptyString) as Hdone.
  { intros w' He m [= <-]. exists d, id, s. split_and!; try done. eapply extends_elem; [exact He|].
    rewrite Hh, Hd. set_solver. }
  apply wp_bind_silent; [apply silent_audit|apply sql_extends| |done].
  intros u w2 _ _ _ He. apply wp_ret. by apply Hdone.
Qed.
End Secrets.

(** ** Where the shared table lets a writer down *)

(** A secret of the name exists. *)
Definition has_secret (o : Z) (n : string) (d : Db) : Prop := is_some (find_secret o n d) = true.

Lemma has_secret_lookup o n d : has_secret o n d ↔ ∃ id s, secrets d !! id = Some s ∧ is_secret o n s = true.
Proof.
  unfold has_secret. split.
  - destruct (find_secret o n d) as [[id s]|] eqn:Hf; [|done]. intros _.
    apply find_secret_Some in Hf as (Hs & Ho & Hn). exists id, s. split; [done|]. by apply is_secret_true.
  - intros (id & s & Hs & Hm%is_secret_true). destruct (find_secret o n d) eqn:Hf; [done|].
    exfalso. by eapply find_secret_None.
Qed.

Lemma has_secret_same o n d d' : secrets d' = secrets d → has_secret o n d → has_secret o n d'.
Proof. intros Hs. rewrite !has_secret_lookup. by rewrite Hs. Qed.

Lemma transaction_seen {A} (f : Db → ApiResult (A * Db)) w a w' :
  transaction f w = (Ok a, w') → ∃ d, (d, w_db w') ∈ w_hist w' ∧ f d = Ok (a, w_db w').
Proof.
  unfold transaction. destruct (next_turn w) as [t ts]. set (d := t_env t (w_db w)).
  destruct (t_fault t) as [[[] e]|]; destruct (f d) as [[b d']|e'] eqn:Hd; try done.
  intros [= <- <-]. exists d. cbn. split; [|done].
  apply elem_of_app. right. by apply list_elem_of_singleton.
Qed.

(** Quiet runs stay quiet and move the database by the handler's steps alone. *)
Lemma quiet_kept {A} (I : Db → Prop) (m : Api A) w r w' :
  writes (λ d d', I d → I d') m → quiet w → m w = (r, w') → I (w_db w) → quiet w' ∧ I (w_db w').
Proof.
  intros Hm Hq Hr HI. pose proof (Hm w) as (_ & (k & Hk) & Hrun). rewrite Hr in Hk, Hrun. cbn in Hk, Hrun.
  split; [unfold quiet in *; by rewrite Hk, Hq, drop_nil|].
  assert (turns_in (λ _ _, False) w) as Ht by (unfold turns_in; by rewrite Hq).
  specialize (Hrun _ Ht). clear - Hrun HI. induction Hrun as [|x y z [[]|Hxy] _ IH]; auto.
Qed.

Lemma quiet_stays {A} R (m : Api A) w r w' : writes R m → quiet w → m w = (r, w') → quiet w'.
Proof.
  intros Hm Hq Hr. pose proof (Hm w) as (_ & (k & Hk) & _). rewrite Hr in Hk. cbn in Hk.
  unfold quiet in *. by rewrite Hk, Hq, drop_nil.
Qed.

Section Connectors.
Context `{Rfc3339}.
Context (encrypt : string → result string (string * string)) (minio_bucket : string)
      (watch_allowed_buckets : list string).

Local Abbreviation create := (create_connector encrypt minio_bucket watch_allowed_buckets).

Lemma connector_tx_secret c name kind cfg ct nonce d row d' :
  connector_tx c name kind cfg (Some (ct, nonce)) d = Ok (row, d') →
  ¬ has_secret (org c) (name +:+ "-secret") d ∧ has_secret (org c) (name +:+ "-secret") d'.
Proof.
  unfold connector_tx, insert_credential. destruct (is_some _) eqn:Hs; [done|].
  unfold add_secret. cbn [mbind result_bind fst snd]. intros Hok.
  apply result_bind_ok in Hok as (by_ & _ & Hok). split; [unfold has_secret; congruence|].
  unfold insert_connector in Hok. cbn [fst snd] in Hok. destruct (negb _); [done|].
  destruct (existsb _ _); [done|]. injection Hok as _ <-.
  apply has_secret_lookup. exists (db_seq d). eexists. cbn. rewrite lookup_insert_eq. split; [done|].
  unfold is_secret. cbn. by rewrite Z.eqb_refl, String.eqb_refl.
Qed.

Lemma connector_tx_keeps c name kind cfg cr d row d' o n :
  connector_tx c name kind cfg cr d = Ok (row, d') → (∀ id s, secrets d !! id = Some s → id < db_seq d) →
  has_secret o n d → has_secret o n d'.
Proof.
  intros Hok Hf. rewrite !has_secret_lookup. intros (id & s & Hs & Hm). exists id, s. split; [|done].
  unfold connector_tx in Hok. apply result_bind_ok in Hok as ([sid d1] & Hc & Hok).
  apply result_bind_ok in Hok as (by_ & _ & Hok).
  assert (secrets d1 !! id = Some s) as Hs1.
  { unfold insert_credential in Hc. destruct cr as [[ct nonce]|]; [|by injection Hc as _ <-].
    destruct (is_some _); [done|]. injection Hc as _ <-. cbn. rewrite lookup_insert_ne; [done|].
    intros <-. apply Hf in Hs. lia. }
  unfold insert_connector in Hok. cbn [fst snd] in Hok. destruct (negb _); [done|].
  destruct (existsb _ _); [done|]. by injection Hok as _ <-.
Qed.

Lemma delete_connector_keeps o n c id : writes (λ d d', has_secret o n d → has_secret o n d') (delete_connector c id).
Proof.
  unfold delete_connector. apply writes_bind; [apply writes_lift|intros ?].
  apply writes_bind; [|intros ?; apply writes_bind; [apply writes_guard|intros ?]].
  - apply writes_sql. intros d x d'. unfold delete_connector_effect. destruct (connector_of _ _ _); [|by intros [= _ <-]].
    destruct (existsb _ _); [done|]. intros [= _ <-]. by apply has_secret_same.
  - apply writes_bind; [|intros ?; apply writes_ret]. apply writes_update. intros d. by apply has_secret_same.
Qed.

Lemma create_connector_writes c req : writes (λ _ _, True) (create c req).
Proof.
  unfold create_connector. apply writes_bind; [apply writes_lift|intros ?]. cbv zeta.
  do 2 (apply writes_bind; [apply writes_lift|intros ?]).
  apply writes_bind; [by apply writes_transaction|intros ?].
  apply writes_bind; [by apply writes_update|intros ?; apply writes_ret].
Qed.

Lemma create_connector_has c req w row w1 :
  create c req w = (Ok row, w1) → is_some (cc_secret req) = true → quiet w →
  has_secret (org c) (cc_name req +:+ "-secret") (w_db w1).
Proof.
  intros Hc Hs Hq. unfold create_connector in Hc. inv_ok.
  destruct (cc_secret req) as [v|]; [|done]. cbn in Hrun1.
  destruct (sealed encrypt v) as [[ct nonce]|]; [|done]. injection Hrun1 as <-.
  assert (quiet s2) as Hq2 by (by eapply (quiet_stays (λ _ _, True)); [apply writes_transaction|..]).
  apply transaction_seen in Hrun2 as (d & _ & Htx%connector_tx_secret).
  eapply (quiet_kept (has_secret (org c) (cc_name req +:+ "-secret"))); [|exact Hq2|exact Hrun3|apply Htx].
  apply writes_update. intros x. by apply has_secret_same.
Qed.

(** A deleted connector's name stays taken: deleting a connector keeps its
    credential in the table of secrets, so once a connector with a secret was
    created and deleted, creating one of the same name with a secret fails. *)
Theorem recreated_connector_fails c req row w w1 c' v w2 c2 req2 :
  quiet w → create c req w = (Ok row, w1) → is_some (cc_secret req) = true →
  delete_connector c' (cn_id row) w1 = (Ok v, w2) →
  org c2 = org c → cc_name req2 = cc_name req → is_some (cc_secret req2) = true →
  is_ok (create c2 req2 w2).1 = false.
Proof.
  intros Hq Hc Hs Hd Ho Hn Hs2.
  assert (quiet w1) as Hq1 by (by eapply quiet_stays; [apply create_connector_writes|..]).
  assert (has_secret (org c) (cc_name req +:+ "-secret") (w_db w1)) as H1
    by (eapply create_connector_has; done).
  assert (has_secret (org c) (cc_name req +:+ "-secret") (w_db w2)) as H2.
  { exact (proj2 (quiet_kept _ _ _ _ _ (delete_connector_keeps (org c) (cc_name req +:+ "-secret") c' (cn_id row)) Hq1 Hd H1)). }
  assert (quiet w2) as Hq2.
  { exact (proj1 (quiet_kept _ _ _ _ _ (delete_connector_keeps (org c) (cc_name req +:+ "-secret") c' (cn_id row)) Hq1 Hd H1)). }
  destruct (create c2 req2 w2) as [[row2|e] w3] eqn:Hc2; [exfalso|done].
  unfold create_connector in Hc2. inv_ok.
  destruct (cc_secret req2) as [v2|]; [|done]. cbn in Hrun1.
  destruct (sealed encrypt v2) as [[ct nonce]|]; [|done]. injection Hrun1 as <-.
  unfold transaction, next_turn in Hrun2. rewrite Hq2 in Hrun2. cbn in Hrun2. unfold id in Hrun2.
  unfold has_secret in H2. rewrite Ho, Hn, H2 in Hrun2. done.
Qed.
End Connectors.

(** The LLM key can stay a destination secret: [put_config] under an
    existing destination secret called like the LLM key replaces its value and
    leaves it a destination secret, which templates may reference. *)
Theorem llm_key_keeps_the_kind encrypt c req key box id s w :
  quiet w → role c = "admin" → pc_provider req = None → is_some (parse_i64 (sub c)) = true →
  pc_api_key req = Some key → encrypt key = Ok box →
  find_secret (org c) LLM_SECRET (w_db w) = Some (id, s) → is_destination s = true →
  wp (put_config encrypt c req) (λ r w', is_ok r = true ∧
    ∃ s', secrets (w_db w') !! id = Some s' ∧ is_destination s' = true ∧ (se_ciphertext s', se_nonce s') = box) w.
Proof.
  intros Hq Hrole Hp Hsub Hk Henc Hf Hd. unfold put_config.
  apply wp_bind, wp_lift. unfold require_role. rewrite Hrole. cbn [mem_str existsb String.eqb Ascii.eqb Bool.eqb orb].
  cbv zeta. rewrite Hp. apply wp_bind, wp_guard; intros Hg; [done|]. clear Hg.
  destruct (parse_i64 (sub c)) as [by_|]; [|done]. apply wp_bind, wp_lift. cbn [ok_or].
  rewrite Hk. apply wp_bind, wp_bind, wp_lift. unfold sealed. rewrite Henc. cbn [map_err].
  unfold wp at 1, transaction, next_turn. rewrite Hq. cbn [t_fault t_env quiet_turn]. unfold Datatypes.id.
  unfold upsert_secret. rewrite Hf. cbn. unfold record_audit.
  apply wp_bind, quiet_update; [done|]. intros w2 _ Hd2 _ _. apply wp_ret. split; [done|].
  rewrite Hd2. cbn. rewrite lookup_insert_eq. eexists. split; [done|]. split; [exact Hd|]. by destruct box.
Qed.

(** ** Witnesses *)
Definition plain (v : string) : result string (string * string) := Ok ("sealed:" +:+ v, "nonce").
Definition admin_claims : Claims := mkClaims "3" 1 "admin".
Definition sample_secret (name kind : string) : SecretRow := mkSecret 4 1 name "ct" "n" kind None 1 1.
Definition secret_db (name kind : string) : Db :=
  set_secrets {[4 := sample_secret name kind]} (set_seq 8 empty_db).

Lemma secret_db_wf name kind : secrets_wf (secret_db name kind).
Proof.
  split.
  - intros id s Hs. change (secrets _) with ({[4 := sample_secret name kind]} : gmap Z SecretRow) in Hs.
    apply lookup_singleton_Some in Hs as [<- <-]. split; reflexivity.
  - intros i j s t Hs Ht _ _. change (secrets _) with ({[4 := sample_secret name kind]} : gmap Z SecretRow) in Hs, Ht.
    apply lookup_singleton_Some in Hs as [<- _], Ht as [<- _]. reflexivity.
Defined.

Lemma secrets_keep_to_their_kind_witness :
  let w := sample_world (secret_db "crm" "internal") in
  did (only_destination 1 "crm") w (put_secret plain admin_claims "crm" "v" w).2 ∧
  refuses (put_secret plain admin_claims "crm" "v") w.
Proof.
  cbv zeta.
  destruct (secrets_keep_to_their_kind plain admin_claims "crm" "v" (sample_world (secret_db "crm" "internal")))
    as (Hd & _ & Hr); [apply secret_db_wf|constructor|].
  split; [exact Hd|]. exact (proj1 (Hr (4, sample_secret "crm" "internal") eq_refl eq_refl)).
Defined.

Lemma secret_values_are_write_only_witness :
  (put_secret plain admin_claims "crm" "v" (sample_world (secret_db "crm" "destination"))).1
  = Ok (mkSecretMeta "crm" 1 0 None).
Proof.
  refine (proj1 (secret_values_are_write_only plain admin_claims "crm" "v" ("sealed:v", "nonce")
                   (sample_world (secret_db "crm" "destination")) _ _ _ _ _ _)); try reflexivity.
  - discriminate.
  - discriminate.
Defined.

Definition sample_connector : CreateConnector := mkCreateConnector "crm" "custom" (json_obj []) (Some "pw").
Definition connector_run : ApiResult ConnectorRow * World :=
  create_connector (H := decimal_time) plain "migration" [] admin_claims sample_connector (sample_world empty_db).

Lemma recreated_connector_fails_witness :
  is_ok (create_connector (H := decimal_time) plain "migration" [] admin_claims sample_connector
           (delete_connector admin_claims 2 connector_run.2).2).1 = false.
Proof.
  refine (recreated_connector_fails (H := decimal_time) plain "migration" [] admin_claims sample_connector
    (mkConnector 2 1 "crm" "custom" (json_obj []) (Some 1) (Some 3) 0 0) (sample_world empty_db) connector_run.2
    admin_claims (json_obj [("deleted", VBool true)]) _ admin_claims sample_connector _ _ _ _ _ _ _);
    vm_compute; reflexivity.
Defined.

Lemma llm_key_keeps_the_kind_witness :
  is_ok (put_config plain admin_claims (mkPutConfig None "https://llm" "m" (Some "key") None None)
           (sample_world (secret_db LLM_SECRET "destination"))).1 = true.
Proof.
  refine (proj1 (llm_key_keeps_the_kind plain admin_claims (mkPutConfig None "https://llm" "m" (Some "key") None None)
    "key" ("sealed:key", "nonce") 4 (sample_secret LLM_SECRET "destination")
    (sample_world (secret_db LLM_SECRET "destination")) _ _ _ _ _ _ _ _));
    vm_compute; reflexivity.
Defined.

(** Between the two statements of [put_secret] a connector takes the name, and
    its credential is overwritten: the case [secrets_keep_to_their_kind]
    excludes. *)
Definition race_world : World :=
  mkWorld (set_seq 4 empty_db)
    [quiet_turn; mkTurn (λ d, (add_secret 1 "crm-secret" "credential" "n" "internal" d).2) None] [] [] [].

Example put_secret_race :
  is_ok (put_secret plain admin_claims "crm-secret" "v" race_world).1 = true ∧
  (λ s, (se_kind s, se_ciphertext s)) <$>
    secrets (w_db (put_secret plain admin_claims "crm-secret" "v" race_world).2) !! 4
  = Some ("internal", "sealed:v").
Proof. vm_compute. split; reflexivity. Qed.
