(* ===== verification/Schedules.v ===== *)
(** * Schedules: [apps/api/src/routes/schedules.rs]

    A schedule is a row and a Temporal schedule; the handlers keep the two in
    step as far as the bridge's answers allow. *)
From S2P Require Import Prelude RustStr Json Error LicenseFile Db World Sources Jobs.
From Stdlib Require Import Ascii.

Record CreateSchedule : Type := mkCreateSchedule {
  cs_name : string; cs_rule_template_id : Z; cs_rule_template_version : Z; cs_connector_id : Z;
  cs_spec : value; cs_timezone : option string; cs_overlap_policy : option string;
  cs_catchup_window_seconds : option Z; cs_enabled : option bool }.

Record UpdateSchedule : Type := mkUpdateSchedule {
  us_spec : option value; us_enabled : option bool; us_catchup_window_seconds : option Z;
  us_timezone : option string; us_overlap_policy : option string }.

Definition overlap_policies : list string := ["skip"; "buffer_one"; "buffer_all"; "cancel_other"; "allow_all"].

Definition check_overlap (overlap : string) : ApiResult unit :=
  if mem_str overlap overlap_policies then Ok tt
  else Err (BadRequest ("invalid overlap_policy " +:+ overlap)).

Definition schedule_of (org_id id : Z) (d : Db) : option ScheduleRow := owned sc_org_id org_id id (schedules d).

Definition template_owned (org_id id : Z) (d : Db) : bool := is_some (owned rt_org_id org_id id (rule_templates d)).

(** INSERT under UNIQUE (org_id, name), UNIQUE (temporal_schedule_id) and the
    foreign keys of the template and the connector. *)
Definition insert_schedule (row_of : Z → Z → ScheduleRow) (d : Db) : result string (ScheduleRow * Db) :=
  let row := row_of (db_seq d) (db_now d) in
  if existsb (λ kv, (sc_org_id kv.2 =? sc_org_id row) && (sc_name kv.2 =? sc_name row)%string
                    || bool_decide (sc_temporal_schedule_id kv.2 = sc_temporal_schedule_id row))
       (by_id (schedules d))
  then Err unique_violation
  else if negb (is_some (rule_templates d !! sc_rule_template_id row) && is_some (connectors d !! sc_connector_id row))
  then Err foreign_key_violation
  else Ok (row, set_seq (db_seq d + 1) (set_schedules (<[db_seq d := row]> (schedules d)) d)).

Definition detach_job (id : Z) (j : JobRow) : JobRow :=
  if bool_decide (j_schedule_id j = Some id) then
    mkJob (j_id j) (j_org_id j) (j_rule_template_id j) (j_rule_template_version j) None
      (j_source_ref j) (j_status j) (j_totals_json j) (j_temporal_workflow_id j) (j_temporal_run_id j)
      (j_started_at j) (j_paused_at j) (j_finished_at j) (j_created_by j) (j_created_at j) (j_updated_at j)
      (j_batch_id j) (j_batch_stage_id j) (j_results_ref j) (j_last_error j) (j_export_status j)
      (j_export_error j)
  else j.

Definition detach_batch (id : Z) (b : BatchRow) : BatchRow :=
  if bool_decide (ba_schedule_id b = Some id) then
    mkBatch (ba_id b) (ba_org_id b) None (ba_connector_id b) (ba_batch_key b) (ba_source_ref b)
      (ba_status b) (ba_on_stage_failure b) (ba_manifest_json b) (ba_temporal_workflow_id b)
      (ba_temporal_run_id b) (ba_error_message b) (ba_quarantine_ref b) (ba_started_at b)
      (ba_finished_at b) (ba_created_at b) (ba_updated_at b)
  else b.

(** DELETE by id: its runs go, jobs and batches let go of it. *)
Definition remove_schedule (id : Z) (d : Db) : Db :=
  set_schedule_runs (base.filter (λ kv, ru_schedule_id kv.2 ≠ id) (schedule_runs d))
    (set_batches (detach_batch id <$> batches d)
       (set_jobs (detach_job id <$> jobs d) (set_schedules (delete id (schedules d)) d))).

Definition remove_owned (org_id id : Z) (d : Db) : Z * Db :=
  match schedule_of org_id id d with Some _ => (1, remove_schedule id d) | None => (0, d) end.

(** The columns [update_schedule] writes. *)
Definition rewrite_schedule (new : ScheduleRow) (now : Z) (s : ScheduleRow) : ScheduleRow :=
  mkSchedule (sc_id s) (sc_org_id s) (sc_name s) (sc_rule_template_id s) (sc_rule_template_version s)
    (sc_connector_id s) (sc_spec_json new) (sc_timezone new) (sc_overlap_policy new)
    (sc_catchup_window_seconds new) (sc_enabled new) (sc_next_run_at s) (sc_last_run_at s)
    (sc_temporal_schedule_id s) (sc_created_by s) (sc_created_at s) now.

Definition set_enabled (enabled : bool) (now : Z) (s : ScheduleRow) : ScheduleRow :=
  mkSchedule (sc_id s) (sc_org_id s) (sc_name s) (sc_rule_template_id s) (sc_rule_template_version s)
    (sc_connector_id s) (sc_spec_json s) (sc_timezone s) (sc_overlap_policy s)
    (sc_catchup_window_seconds s) enabled (sc_next_run_at s) (sc_last_run_at s)
    (sc_temporal_schedule_id s) (sc_created_by s) (sc_created_at s) now.

(** UPDATE ... WHERE id AND org_id RETURNING. *)
Definition update_schedule_row (org_id id : Z) (f : Db → ScheduleRow → ScheduleRow) (d : Db)
    : option ScheduleRow * Db :=
  match schedule_of org_id id d with
  | Some s => (Some (f d s), set_schedules (<[id := f d s]> (schedules d)) d)
  | None => (None, d)
  end.

Definition workflow_input (org_id schedule_id : Z) (req : CreateSchedule) : value := json_obj
  [("orgId", json_int org_id); ("scheduleId", json_int schedule_id);
   ("ruleTemplateId", json_int (cs_rule_template_id req));
   ("ruleTemplateVersion", json_int (cs_rule_template_version req));
   ("connectorId", json_int (cs_connector_id req))].

Definition run_desc (a b : ScheduleRun) : Prop := ru_scheduled_time b ≤ ru_scheduled_time a.
#[global] Instance run_desc_dec a b : Decision (run_desc a b) := Z_le_dec _ _.

Definition no_rows : ApiError := Database "no rows returned by a query that expected to return at least one row".

Section Handlers.
Context `{Rfc3339}.
Context (configured : bool) (status_display : Z → string) (licensed : ApiResult unit).
(** The [cron] and [humantime] parsers, and the order of text in the database. *)
Context (cron_ok interval_ok : string → bool) (collate : string → string → bool).

Definition schedule_order (a b : ScheduleRow) : Prop := collate (sc_name a) (sc_name b) = true.
#[local] Instance schedule_order_dec a b : Decision (schedule_order a b).
Proof. unfold schedule_order. apply _. Defined.

Definition list_schedules (c : Claims) : Api (list ScheduleRow) :=
  query (λ d, merge_sort schedule_order
    (List.filter (λ s, sc_org_id s =? org c) (snd <$> by_id (schedules d)))).

Definition spec_of (raw : value) : ApiResult value := map_err BadRequest (normalise_spec cron_ok interval_ok raw).

Definition external (e : BridgeError) : ApiError := External (bridge_text e).
Definition external_temporal (e : BridgeError) : ApiError := External ("temporal: " +:+ bridge_text e).

(** [uuid] is the fresh identifier of the Temporal schedule. *)
Definition create_schedule (uuid : string) (c : Claims) (req : CreateSchedule) : Api ScheduleRow :=
  _ ← lift (require_role c ["admin"; "editor"]);
  _ ← lift licensed;
  normalised_spec ← lift (spec_of (cs_spec req));
  let timezone := default "UTC" (cs_timezone req) in
  let overlap := default "skip" (cs_overlap_policy req) in
  _ ← lift (check_overlap overlap);
  let catchup := Z.max (default 3600 (cs_catchup_window_seconds req)) 0 in
  let enabled := default true (cs_enabled req) in
  _ ← require_connector (org c) (cs_connector_id req);
  owned ← query (template_owned (org c) (cs_rule_template_id req));
  _ ← guard_err (negb owned) (BadRequest "template not found");
  let schedule_id := "sch-" +:+ show_Z (org c) +:+ "-" +:+ uuid in
  created_by ← lift (ok_or (parse_i64 (sub c)) Unauthorized);
  row ← with_err (on_unique ("schedule " +:+ cs_name req +:+ " already exists"))
    (sql (insert_schedule (λ id now,
       mkSchedule id (org c) (cs_name req) (cs_rule_template_id req) (cs_rule_template_version req)
         (cs_connector_id req) normalised_spec timezone overlap catchup enabled None None
         (Some schedule_id) (Some created_by) now now)));
  r ← World.create_schedule configured status_display schedule_id normalised_spec
        (workflow_input (org c) (sc_id row) req) overlap catchup timezone;
  match r with
  | Err e =>
      _ ← attempt (F:=ApiError) (update (λ d, (tt, remove_schedule (sc_id row) d)));
      throw (external_temporal e)
  | Ok _ =>
      _ ← (if negb enabled
           then _ ← World.pause_schedule configured status_display schedule_id; mret tt
           else mret tt);
      _ ← record_audit c "schedule" (Some (show_Z (sc_id row))) "create" None (Some (schedule_to_value row));
      mret row
  end.

Definition get_schedule (c : Claims) (id : Z) : Api ScheduleRow :=
  row ← query (schedule_of (org c) id); lift (ok_or row NotFound).

(** [existing.spec_json], the first field of the new row. *)
Definition with_spec (spec : value) (s : ScheduleRow) : ScheduleRow :=
  mkSchedule (sc_id s) (sc_org_id s) (sc_name s) (sc_rule_template_id s) (sc_rule_template_version s)
    (sc_connector_id s) spec (sc_timezone s) (sc_overlap_policy s) (sc_catchup_window_seconds s)
    (sc_enabled s) (sc_next_run_at s) (sc_last_run_at s) (sc_temporal_schedule_id s)
    (sc_created_by s) (sc_created_at s) (sc_updated_at s).
Definition with_enabled (enabled : bool) (s : ScheduleRow) : ScheduleRow := set_enabled enabled (sc_updated_at s) s.
Definition with_rest (req : UpdateSchedule) (s : ScheduleRow) : ScheduleRow :=
  mkSchedule (sc_id s) (sc_org_id s) (sc_name s) (sc_rule_template_id s) (sc_rule_template_version s)
    (sc_connector_id s) (sc_spec_json s) (default (sc_timezone s) (us_timezone req))
    (default (sc_overlap_policy s) (us_overlap_policy req))
    (match us_catchup_window_seconds req with Some n => Z.max n 0 | None => sc_catchup_window_seconds s end)
    (sc_enabled s) (sc_next_run_at s) (sc_last_run_at s) (sc_temporal_schedule_id s)
    (sc_created_by s) (sc_created_at s) (sc_updated_at s).

(** A request to the schedule's Temporal schedule, when it has one. *)
Definition tell (s : ScheduleRow) (err : BridgeError → ApiError) (m : string → Bridge unit) : Api unit :=
  match sc_temporal_schedule_id s with
  | Some sid => r ← m sid; lift (map_err err r)
  | None => mret tt
  end.

Definition update_schedule (c : Claims) (id : Z) (req : UpdateSchedule) : Api ScheduleRow :=
  _ ← lift (require_role c ["admin"; "editor"]);
  _ ← (if bool_decide (us_enabled req = Some true) then lift licensed else mret tt);
  row ← query (schedule_of (org c) id);
  existing ← lift (ok_or row NotFound);
  existing ← match us_spec req with
             | None => mret existing
             | Some raw =>
                 spec ← lift (spec_of raw);
                 _ ← tell existing external_temporal
                       (λ sid, World.update_schedule configured status_display sid spec (json_obj []));
                 mret (with_spec spec existing)
             end;
  existing ← match us_enabled req with
             | None => mret existing
             | Some enabled =>
                 _ ← tell existing external
                       (λ sid, if enabled then World.unpause_schedule configured status_display sid
                               else World.pause_schedule configured status_display sid);
                 mret (with_enabled enabled existing)
             end;
  _ ← match us_overlap_policy req with Some overlap => lift (check_overlap overlap) | None => mret tt end;
  let existing := with_rest req existing in
  row ← update (update_schedule_row (org c) id (λ d, rewrite_schedule existing (db_now d)));
  row ← lift (ok_or row no_rows);
  _ ← record_audit c "schedule" (Some (show_Z id)) "update" None (Some (schedule_to_value row));
  mret row.

Definition delete_schedule (c : Claims) (id : Z) : Api value :=
  _ ← lift (require_role c ["admin"]);
  sid ← query (λ d, schedule_of (org c) id d ≫= sc_temporal_schedule_id);
  _ ← match sid with
      | Some sid => r ← World.delete_schedule configured status_display sid; lift (map_err external r)
      | None => mret tt
      end;
  affected ← update (remove_owned (org c) id);
  _ ← guard_err (affected =? 0) NotFound;
  _ ← record_audit c "schedule" (Some (show_Z id)) "delete" None None;
  mret (json_obj [("deleted", VBool true)]).

Definition temporal_id (org_id id : Z) : Api string :=
  sid ← query (λ d, schedule_of org_id id d ≫= sc_temporal_schedule_id);
  lift (ok_or sid NotFound).

Definition pause_schedule (c : Claims) (id : Z) : Api value :=
  _ ← lift (require_role c OPERATORS);
  sid ← temporal_id (org c) id;
  r ← World.pause_schedule configured status_display sid;
  _ ← lift (map_err external r);
  _ ← update (update_schedule_row (org c) id (λ d, set_enabled false (db_now d)));
  _ ← record_audit c "schedule" (Some (show_Z id)) "pause" None None;
  mret (json_obj [("id", json_int id); ("enabled", VBool false)]).

Definition resume_schedule (c : Claims) (id : Z) : Api value :=
  _ ← lift (require_role c OPERATORS);
  _ ← lift licensed;
  sid ← temporal_id (org c) id;
  r ← World.unpause_schedule configured status_display sid;
  _ ← lift (map_err external r);
  _ ← update (update_schedule_row (org c) id (λ d, set_enabled true (db_now d)));
  _ ← record_audit c "schedule" (Some (show_Z id)) "resume" None None;
  mret (json_obj [("id", json_int id); ("enabled", VBool true)]).

Definition trigger_schedule (c : Claims) (id : Z) : Api value :=
  _ ← lift (require_role c OPERATORS);
  _ ← lift licensed;
  sid ← temporal_id (org c) id;
  r ← World.trigger_schedule configured status_display sid;
  _ ← lift (map_err external r);
  _ ← record_audit c "schedule" (Some (show_Z id)) "trigger_now" None None;
  mret (json_obj [("id", json_int id); ("triggered", VBool true)]).

Definition run_to_value (r : ScheduleRun) : value := json_obj
  [("id", json_int (ru_id r)); ("job_id", json_opt_int (ru_job_id r));
   ("scheduled_time", json_time (ru_scheduled_time r));
   ("actual_start_time", json_opt_time (ru_actual_start_time r));
   ("status", VString (job_status_text (ru_status r)))].

Definition list_runs (c : Claims) (id : Z) : Api value :=
  owned ← query (λ d, is_some (schedule_of (org c) id d));
  _ ← guard_err (negb owned) NotFound;
  rows ← query (λ d, take 100 (merge_sort run_desc
           (List.filter (λ r, ru_schedule_id r =? id) (snd <$> by_id (schedule_runs d)))));
  mret (json_obj [("items", VArray (map run_to_value rows))]).
End Handlers.
