(* ===== verification/Batches.v ===== *)
(** * Batches: [apps/api/src/routes/batches.rs]

    The manual start of an archive's batch, and the listings. *)
From S2P Require Import Prelude RustStr Json Error LicenseFile Db World Sources Jobs.
From Stdlib Require Import Ascii.

Definition batch_statuses : list string := ["pending"; "running"; "succeeded"; "failed"; "partial"; "quarantined"].

Record BatchesQuery : Type := mkBatchesQuery {
  bq_cursor : option Z; bq_limit : option Z; bq_status : option string }.

Record BatchCreate : Type := mkBatchCreate { bc_source_ref : value; bc_connector_id : option Z }.

Definition set_batch_status (status : string) (run_id error : option string) (finished : option Z) (now : Z)
    (b : BatchRow) : BatchRow :=
  mkBatch (ba_id b) (ba_org_id b) (ba_schedule_id b) (ba_connector_id b) (ba_batch_key b) (ba_source_ref b)
    status (ba_on_stage_failure b) (ba_manifest_json b) (ba_temporal_workflow_id b) run_id error
    (ba_quarantine_ref b) (ba_started_at b) finished (ba_created_at b) now.

(** The two UPDATEs after the start: neither looks at the status. *)
Definition batch_failed (message : string) (now : Z) (b : BatchRow) : BatchRow :=
  set_batch_status "failed" (ba_temporal_run_id b) (Some message) (Some now) now b.
Definition batch_running (run_id : string) (now : Z) (b : BatchRow) : BatchRow :=
  set_batch_status "running" (Some run_id) (ba_error_message b) (ba_finished_at b) now b.

Definition update_batch (id : Z) (f : Db → BatchRow → BatchRow) (d : Db) : option BatchRow * Db :=
  match batches d !! id with
  | Some b => (Some (f d b), set_batches (<[id := f d b]> (batches d)) d)
  | None => (None, d)
  end.

(** INSERT under UNIQUE (temporal_workflow_id) and the connector's foreign key. *)
Definition insert_batch (org_id : Z) (connector_id : option Z) (src : value) (workflow_id : string) (d : Db)
    : result string (BatchRow * Db) :=
  if existsb (λ kv, bool_decide (ba_temporal_workflow_id kv.2 = Some workflow_id)) (by_id (batches d))
  then Err unique_violation
  else if negb (match connector_id with Some id => is_some (connectors d !! id) | None => true end)
  then Err foreign_key_violation
  else
    let row := mkBatch (db_seq d) org_id None connector_id None src "pending" "stop" None (Some workflow_id)
                 None None None (Some (db_now d)) None (db_now d) (db_now d) in
    Ok (row, set_seq (db_seq d + 1) (set_batches (<[db_seq d := row]> (batches d)) d)).

Definition batch_input (org_id batch_id : Z) (connector_id : option Z) (s : SourceRow) : value := json_obj
  [("orgId", json_int org_id); ("batchId", json_int batch_id); ("connectorId", json_opt_int connector_id);
   ("sourceId", json_int (sr_id s)); ("bucket", VString (sr_bucket s)); ("key", VString (sr_object_key s));
   ("etag", VString (default EmptyString (sr_etag s))); ("size", json_int (default 0 (sr_size_bytes s)))].

Definition batch_of (org_id id : Z) (d : Db) : option BatchRow := owned ba_org_id org_id id (batches d).

Definition stage_le (a b : BatchStageRow) : Prop := bs_stage_index a ≤ bs_stage_index b.
#[global] Instance stage_le_dec a b : Decision (stage_le a b) := Z_le_dec _ _.

Section Handlers.
Context `{Rfc3339}.
Context (configured : bool) (status_display : Z → string) (licensed : ApiResult unit).

Definition batch_to_value (b : BatchRow) : value := json_obj
  [("id", json_int (ba_id b)); ("org_id", json_int (ba_org_id b));
   ("schedule_id", json_opt_int (ba_schedule_id b)); ("connector_id", json_opt_int (ba_connector_id b));
   ("batch_key", json_opt_str (ba_batch_key b)); ("source_ref", ba_source_ref b);
   ("status", VString (ba_status b)); ("on_stage_failure", VString (ba_on_stage_failure b));
   ("manifest_json", json_opt_val (ba_manifest_json b));
   ("temporal_workflow_id", json_opt_str (ba_temporal_workflow_id b));
   ("temporal_run_id", json_opt_str (ba_temporal_run_id b));
   ("error_message", json_opt_str (ba_error_message b));
   ("quarantine_ref", json_opt_val (ba_quarantine_ref b)); ("started_at", json_opt_time (ba_started_at b));
   ("finished_at", json_opt_time (ba_finished_at b)); ("created_at", json_time (ba_created_at b));
   ("updated_at", json_time (ba_updated_at b))].

Definition select_batches (org_id : Z) (q : BatchesQuery) (d : Db) : result string (list BatchRow) :=
  let limit := Z.min (Z.max (default 50 (bq_limit q)) 1) 200 in
  let cursor := default i64_max (bq_cursor q) in
  status ← cast_opt (λ t, if mem_str t batch_statuses then Some t else None)
             "invalid input value for enum batch_status" (bq_status q);
  sql_limit limit (List.filter (λ b, (ba_org_id b =? org_id) && (ba_id b <? cursor)
                                     && opt_matches status (ba_status b))
                     (reverse (snd <$> by_id (batches d)))).

Definition list_batches (c : Claims) (q : BatchesQuery) : Api value :=
  items ← query_err (select_batches (org c) q);
  mret (json_obj [("items", VArray (map batch_to_value items))]).

Definition get_batch (c : Claims) (id : Z) : Api (BatchRow * list BatchStageRow) :=
  row ← query (batch_of (org c) id);
  batch ← lift (ok_or row NotFound);
  stages ← query (λ d, merge_sort stage_le
             (List.filter (λ s, bs_batch_id s =? id) (snd <$> by_id (batch_stages d))));
  mret (batch, stages).

(** [uuid] is the fresh identifier of the workflow. *)
Definition create_batch (uuid : string) (c : Claims) (req : BatchCreate) : Api BatchRow :=
  _ ← lift (require_role c OPERATORS);
  _ ← lift licensed;
  source_req ← lift (parse_source_request (bc_source_ref req));
  source ← resolve_object (org c) source_req;
  let archive_name := default (sr_object_key source) (sr_filename source) in
  _ ← guard_err (negb (format_from_filename archive_name =? "archive")%string)
        (BadRequest "batch source must be .tar.gz, .tgz, or .zip");
  _ ← match bc_connector_id req with
      | Some connector_id => _ ← require_connector (org c) connector_id; mret tt
      | None => mret tt
      end;
  let src := object_source_ref source in
  let workflow_id := "batch-" +:+ show_Z (org c) +:+ "-" +:+ uuid in
  row ← sql (insert_batch (org c) (bc_connector_id req) src workflow_id);
  start ← start_workflow configured status_display workflow_id "BatchWorkflow"
            (batch_input (org c) (ba_id row) (bc_connector_id req) source);
  match start with
  | Err e =>
      _ ← update (update_batch (ba_id row) (λ d, batch_failed ("temporal: " +:+ bridge_text e) (db_now d)));
      throw (External ("temporal: " +:+ bridge_text e))
  | Ok run_id =>
      row ← update (update_batch (ba_id row) (λ d, batch_running run_id (db_now d)));
      row ← lift (ok_or row (Database "no rows returned by a query that expected to return at least one row"));
      _ ← record_audit c "batch" (Some (show_Z (ba_id row))) "create" None (Some (batch_to_value row));
      mret row
  end.
End Handlers.
