(* ===== verification/ScheduleRules.v ===== *)
(** * Schedules and batches: the row and the workflow engine

    The theorems of [Schedules] and [Batches]: a schedule's row follows
    Temporal's answers, batches start on registered archives only, and no
    request that starts work does anything without a license. *)
From S2P Require Import Prelude RustStr Json Error LicenseFile Db World Sources JobSource Jobs JobLifecycle JobStart JobSignals Schedules Batches.
From Stdlib Require Import Ascii.

(** ** The license gate *)

(** A refused request: an error, and a world exactly as it was. *)
Definition refused {A} (m : Api A) : Prop := ∀ w, ∃ e, m w = (Err e, w).

Lemma refused_lift {A B} (r : ApiResult A) (f : A → Api B) :
  (∀ a, refused (f a)) → refused (lift r ≫= f).
Proof.
  intros Hf w. unfold mbind, stM_bind, lift. destruct r as [a|e]; [apply Hf|by exists e].
Qed.

Lemma refused_err {A B} e (f : A → Api B) : refused (lift (Err e) ≫= f).
Proof. intros w. by exists e. Qed.

Section Gate.
Context `{Rfc3339}.
Context (configured : bool) (status_display : Z → string) (licensed : ApiResult unit)
      (cron_ok interval_ok : string → bool).

(** The requests that start or resume work. *)
Inductive WorkOp : Type :=
  | WCreateJob (uuid : string) (req : JobCreate)
  | WResumeJob (id : Z)
  | WRetryRow (id row_index : Z) (body : option RetryOptions)
  | WRetryAll (id : Z) (body : option RetryOptions)
  | WCreateBatch (uuid : string) (req : BatchCreate)
  | WCreateSchedule (uuid : string) (req : CreateSchedule)
  | WEnableSchedule (id : Z) (spec : option value) (rest : UpdateSchedule)
  | WResumeSchedule (id : Z)
  | WTriggerSchedule (id : Z).

Definition run_work (c : Claims) (o : WorkOp) : Api unit :=
  match o with
  | WCreateJob uuid req => create_job configured status_display licensed uuid c req ≫= λ _, mret tt
  | WResumeJob id => resume_job configured status_display licensed c id ≫= λ _, mret tt
  | WRetryRow id i body => retry_row configured status_display licensed c id i body ≫= λ _, mret tt
  | WRetryAll id body => retry_all_failed configured status_display licensed c id body ≫= λ _, mret tt
  | WCreateBatch uuid req => create_batch configured status_display licensed uuid c req ≫= λ _, mret tt
  | WCreateSchedule uuid req =>
      create_schedule configured status_display licensed cron_ok interval_ok uuid c req ≫= λ _, mret tt
  | WEnableSchedule id spec rest =>
      update_schedule configured status_display licensed cron_ok interval_ok c id
        (mkUpdateSchedule spec (Some true) (us_catchup_window_seconds rest) (us_timezone rest)
           (us_overlap_policy rest)) ≫= λ _, mret tt
  | WResumeSchedule id => resume_schedule configured status_display licensed c id ≫= λ _, mret tt
  | WTriggerSchedule id => trigger_schedule configured status_display licensed c id ≫= λ _, mret tt
  end.

Lemma refused_unit {A} (m : Api A) : refused m → refused (m ≫= λ _, mret tt).
Proof. intros Hm w. destruct (Hm w) as [e He]. exists e. unfold mbind, stM_bind. by rewrite He. Qed.

(** Without a license no request starts work: when the license gate
    refuses, creating a job, a batch or a schedule, resuming a job or a
    schedule, enabling or triggering a schedule, and retrying rows all fail
    before any statement and any request: the database, the bridge and the
    history are exactly as they were. *)
Theorem unlicensed_requests_do_nothing e c o w :
  licensed = Err e → ∃ e', run_work c o w = (Err e', w).
Proof.
  intros Hl. revert w. fold (refused (run_work c o)). destruct o; cbn [run_work]; apply refused_unit;
    first [unfold create_job|unfold resume_job|unfold retry_row|unfold retry_all_failed|unfold create_batch
          |unfold create_schedule|unfold update_schedule|unfold resume_schedule|unfold trigger_schedule];
    apply refused_lift; intros _; rewrite Hl; apply refused_err.
Qed.
End Gate.

(** ** Schedules and Temporal *)
Section Schedules.
Context `{Rfc3339}.
Context (configured : bool) (status_display : Z → string) (licensed : ApiResult unit)
      (cron_ok interval_ok : string → bool).

(** The sequence is ahead of the stored schedules. *)
Definition schedules_fresh (d : Db) : Prop := ∀ id s, schedules d !! id = Some s → id < db_seq d.

Lemma quiet_sql {A} (f : Db → result string (A * Db)) w (Q : ApiResult A → World → Prop) :
  quiet w →
  (∀ w', quiet w' → w_bridge w' = w_bridge w → w_calls w' = w_calls w →
     match f (w_db w) with
     | Ok (a, d') => w_db w' = d' → Q (Ok a) w'
     | Err e => w_db w' = w_db w → Q (Err (Database e)) w'
     end) →
  wp (sql f) Q w.
Proof.
  unfold quiet, wp, sql, next_turn. intros -> HQ. cbn. unfold Datatypes.id.
  destruct (f (w_db w)) as [[a d']|e]; cbn; by apply HQ.
Qed.

Lemma quiet_attempt_update (f : Db → Db) w (Q : ApiResult (ApiResult unit) → World → Prop) :
  quiet w →
  (∀ w', quiet w' → w_db w' = f (w_db w) → Q (Ok (Ok tt)) w') →
  wp (attempt (update (λ d, (tt, f d)))) Q w.
Proof. intros Hq HQ. apply wp_attempt, quiet_update; [done|]. intros w' Hq' Hd _ _. by apply HQ. Qed.

(** Reads leave a quiet world's database and bridge alone. *)
Lemma quiet_reads {A} (m : Api A) w (Q : ApiResult A → World → Prop) :
  quiet w → writes (λ d d', d' = d) m → silent m →
  (∀ r w', quiet w' → w_db w' = w_db w → w_bridge w' = w_bridge w → Q r w') → wp m Q w.
Proof.
  intros Hq Hw Hs HQ. unfold wp. destruct (Hw w) as (_ & (k & Hk) & Hrun). destruct (Hs w) as [_ Hb].
  apply HQ; [|..|done].
  - unfold quiet in *. by rewrite Hk, Hq, drop_nil.
  - assert (turns_in (λ _ _, False) w) as Ht by (unfold turns_in; by rewrite Hq).
    specialize (Hrun _ Ht). remember (w_db w) as d0. clear - Hrun.
    induction Hrun as [|x y z [[]| ->] _ IH]; auto.
Qed.

Lemma post_unit_quiet path body w (Q : ApiResult (result BridgeError unit) → World → Prop) :
  quiet w →
  (∀ w', quiet w' → w_db w' = w_db w →
     Q (Ok ((λ _, tt) <$> next_reply configured status_display path w)) w') →
  wp (post_unit configured status_display path body) Q w.
Proof.
  intros Hq HQ. edestruct (post_unit_run configured status_display path body w) as (w' & Hrun & _ & Hd & _ & Ht).
  eapply wp_run; [exact Hrun|]. apply HQ; [|done]. unfold quiet in *. congruence.
Qed.

Lemma remove_inserted id s d :
  schedules d !! id = None → schedules (remove_schedule id (set_schedules (<[id := s]> (schedules d)) d)) = schedules d.
Proof. intros Hn. cbn. apply delete_insert_id. done. Qed.

(** Creating a schedule is all or nothing: with no interference, a success
    means that Temporal accepted the schedule and exactly its row was added,
    and on every error, a refusal by Temporal included, the schedules are as
    they were before the request. *)
Theorem schedule_creation_is_atomic uuid c req w :
  quiet w → schedules_fresh (w_db w) →
  wp (create_schedule configured status_display licensed cron_ok interval_ok uuid c req) (λ r w',
    match r with
    | Ok row =>
        is_ok (next_reply configured status_display "/v1/schedules/create" w) = true ∧
        schedules (w_db w) !! sc_id row = None ∧
        schedules (w_db w') = <[sc_id row := row]> (schedules (w_db w))
    | Err _ => schedules (w_db w') = schedules (w_db w)
    end) w.
Proof.
  intros Hq Hf. unfold create_schedule.
  apply wp_bind, wp_lift. destruct (require_role _ _); [|done].
  apply wp_bind, wp_lift. destruct licensed; [|done].
  apply wp_bind, wp_lift. destruct (spec_of _ _ _) as [spec|]; [|done]. cbv zeta.
  apply wp_bind, wp_lift. destruct (check_overlap _); [|done].
  apply wp_bind, (quiet_reads _ _ _ Hq); [unfold require_connector; writes|unfold require_connector; silent|].
  intros r w1 Hq1 Hd1 Hb1. destruct r as [kind|]; [|by rewrite Hd1].
  apply wp_bind, quiet_query; [done|]. intros w2 Hq2 Hd2 Hb2 _.
  apply wp_bind, wp_guard; intros _; [by rewrite Hd2, Hd1|].
  apply wp_bind, wp_lift. destruct (ok_or _ _) as [by_|]; [|by rewrite Hd2, Hd1].
  apply wp_bind, wp_with_err, quiet_sql; [done|]. intros w3 Hq3 Hb3 _. rewrite Hd2, Hd1.
  unfold insert_schedule at 1. destruct (existsb _ _); [intros Hd3; cbn; by rewrite Hd3|].
  destruct (negb (_ && _)); [intros Hd3; cbn; by rewrite Hd3|].
  intros Hd3. cbn [map_err]. cbv beta iota.
  match goal with |- context [sc_id ?x] => set (row := x) in * end.
  assert (schedules (w_db w) !! sc_id row = None) as Hn.
  { cbn. destruct (schedules (w_db w) !! _) as [s|] eqn:Hs; [|done]. apply Hf in Hs. lia. }
  apply wp_bind, post_unit_quiet; [done|]. intros w4 Hq4 Hd4.
  assert (next_reply configured status_display "/v1/schedules/create" w3
          = next_reply configured status_display "/v1/schedules/create" w) as Hreply
    by (unfold next_reply; by rewrite Hb3, Hb2, Hb1).
  rewrite Hreply. destruct (next_reply _ _ "/v1/schedules/create" w) as [v|e]; cbn [fmap result_fmap].
  - assert (wp (if negb (default true (cs_enabled req))
                then _ ← World.pause_schedule configured status_display ("sch-" +:+ show_Z (org c) +:+ "-" +:+ uuid); mret tt
                else mret tt) (λ r w', r = Ok tt ∧ quiet w' ∧ w_db w' = w_db w4) w4) as Hpause.
    { destruct (negb _); [|by apply wp_ret]. apply wp_bind, post_unit_quiet; [done|].
      intros w5 Hq5 Hd5. by apply wp_ret. }
    apply wp_bind. eapply wp_mono; [exact Hpause|]. cbv beta. intros r w5 (-> & Hq5 & Hd5).
    apply wp_bind, quiet_update; [done|]. intros w6 _ Hd6 _ _. apply wp_ret. split_and!; [done..|].
    rewrite Hd6, Hd5, Hd4, Hd3. done.
  - apply wp_bind, quiet_attempt_update; [done|]. intros w5 _ Hd5. apply wp_throw.
    rewrite Hd5, Hd4, Hd3. by apply (remove_inserted _ row (w_db w)).
Qed.
(** ** The row follows Temporal *)
Definition same_schedules (d d' : Db) : Prop := schedules d' = schedules d.

(** The caller's schedule, as a statement of this request saw it, was sent the
    action, and Temporal accepted it. *)
Definition accepted_action (c : Claims) (id : Z) (action : string) (w w' : World) : Prop :=
  ∃ d s sid, (d, d) ∈ w_hist w' ∧ schedule_of (org c) id d = Some s ∧ sc_temporal_schedule_id s = Some sid ∧
    w_calls w' = w_calls w ++ [("/v1/schedules/" +:+ action, json_obj [("scheduleId", VString sid)])] ∧
    is_ok (next_reply configured status_display ("/v1/schedules/" +:+ action) w) = true.

Lemma accepted_later c id action w w1 w2 :
  accepted_action c id action w w1 → w_calls w2 = w_calls w1 → extends w1 w2 → accepted_action c id action w w2.
Proof.
  intros (d & s & sid & Hd & Hs & Hsid & Hc & Ha) Hc2 He. exists d, s, sid.
  split_and!; try done; [by eapply extends_elem|by rewrite Hc2].
Qed.

Lemma did_same_schedules {A} (m : Api A) w : writes (λ d d', d' = d) m → did same_schedules w (m w).2.
Proof.
  intros Hm. destruct (writes_did _ m w Hm) as (h & Hh & HF). exists h. split; [done|].
  eapply Forall_impl; [|exact HF]. intros [x y]. cbn. by intros ->.
Qed.

Lemma tell_schedule {A} c id action sid (f : result BridgeError unit → Api A) d s w w1 :
  configured = true → (d, d) ∈ w_hist w1 → schedule_of (org c) id d = Some s →
  sc_temporal_schedule_id s = Some sid → w_calls w1 = w_calls w → w_bridge w1 = w_bridge w →
  did same_schedules w w1 →
  (∀ w', wp (f (Ok tt)) (λ _ w'', w_calls w'' = w_calls w' ∧ extends w' w'') w') →
  (∀ e, f (Err e) = throw (external e)) →
  wp (r ← schedule_call configured status_display action sid; f r)
     (λ _ w', did same_schedules w w' ∨ accepted_action c id action w w') w1.
Proof.
  intros Hcf Hd Hs Hsid Hc1 Hb1 Hdid Hok Herr.
  edestruct (post_unit_run configured status_display ("/v1/schedules/" +:+ action)
    (json_obj [("scheduleId", VString sid)]) w1) as (w2 & Hrun & Hc2 & _ & Hh2 & _).
  apply wp_bind. eapply wp_run; [exact Hrun|]. cbv beta iota.
  assert (next_reply configured status_display ("/v1/schedules/" +:+ action) w1
          = next_reply configured status_display ("/v1/schedules/" +:+ action) w) as ->
    by (unfold next_reply; by rewrite Hb1).
  destruct (next_reply _ _ _ w) as [v|e] eqn:Hr; cbn [fmap result_fmap].
  - eapply wp_mono; [apply Hok|]. cbv beta. intros r w3 [Hc3 He3]. right.
    eapply accepted_later; [|exact Hc3|exact He3]. exists d, s, sid. rewrite Hh2, Hr.
    unfold asked in Hc2. rewrite Hcf, Hc1 in Hc2. by split_and!.
  - rewrite Herr. apply wp_throw. left. eapply did_trans; [exact Hdid|by apply did_none].
Qed.

Lemma rest_keeps {A} (m : Api A) w :
  silent m → writes (λ _ _, True) m → wp m (λ _ w', w_calls w' = w_calls w ∧ extends w w') w.
Proof. intros Hs Hw. split; [apply Hs|by apply (writes_extends (λ _ _, True))]. Qed.

Lemma set_flag_tells c id enabled action label (v : value) w :
  configured = true →
  wp (sid ← temporal_id (org c) id;
      r ← schedule_call configured status_display action sid;
      _ ← lift (map_err external r);
      _ ← update (update_schedule_row (org c) id (λ d, set_enabled enabled (db_now d)));
      _ ← record_audit c "schedule" (Some (show_Z id)) label None None;
      mret v)
     (λ _ w', did same_schedules w w' ∨ accepted_action c id action w w') w.
Proof.
  intros Hcf.
  assert (writes (λ d d', d' = d) (temporal_id (org c) id)) as Hw by (unfold temporal_id; writes).
  assert (silent (temporal_id (org c) id)) as Hsi by (unfold temporal_id; silent).
  pose proof (did_same_schedules _ w Hw) as Hdid. destruct (Hsi w) as [Hc1 Hb1].
  apply wp_bind. unfold wp at 1. destruct (temporal_id (org c) id w) as [[sid|e] w1] eqn:Ht; cbn in *; [|by left].
  unfold temporal_id in Ht. inv_ok. apply query_seen in Hrun as [Hseen Ha].
  destruct (schedule_of (org c) id _) as [sch|] eqn:Hs; cbn in Ha; [|congruence].
  eapply (tell_schedule c id action sid); try done; [by rewrite <- Ha|].
  intros w'. cbn [map_err]. apply rest_keeps.
  - silent.
  - apply writes_bind; [apply writes_lift|intros ?]. apply writes_bind; [by apply writes_update|intros ?].
    apply writes_bind; [by apply writes_update|intros ?; apply writes_ret].
Qed.

(** A schedule's row never runs ahead of Temporal: in any interleaving,
    pausing or resuming changes the stored schedules only after Temporal
    accepted the same action for the caller's schedule, and resuming only
    under a license. *)
Theorem schedule_flag_follows_temporal c id w :
  configured = true →
  wp (pause_schedule configured status_display c id) (λ _ w',
    did same_schedules w w' ∨ accepted_action c id "pause" w w') w ∧
  wp (resume_schedule configured status_display licensed c id) (λ _ w',
    did same_schedules w w' ∨ licensed = Ok tt ∧ accepted_action c id "unpause" w w') w.
Proof.
  intros Hcf. split.
  - unfold pause_schedule. apply wp_bind, wp_lift. destruct (require_role _ _); [|left; apply did_refl].
    by apply set_flag_tells.
  - unfold resume_schedule. apply wp_bind, wp_lift. destruct (require_role _ _); [|left; apply did_refl].
    apply wp_bind, wp_lift. destruct licensed as [[]|]; [|left; apply did_refl].
    eapply wp_mono; [by apply set_flag_tells|]. cbv beta. intros r w' [?|?]; [by left|by right].
Qed.
End Schedules.

(** ** Batches *)
Section Batches.
Context `{Rfc3339}.
Context (configured : bool) (status_display : Z → string) (licensed : ApiResult unit).

(** The batch a start is for. *)
Definition batch_committed (c : Claims) (uuid : string) (req : BatchCreate) (s : SourceRow) (b : BatchRow)
    (h : list (Db * Db)) : Prop :=
  source_seen (org c) (RObject s) h ∧
  format_from_filename (default (sr_object_key s) (sr_filename s)) = "archive" ∧
  ∃ d d', (d, d') ∈ h ∧ batches d' !! ba_id b = Some b ∧ ba_org_id b = org c ∧ ba_status b = "pending" ∧
    ba_source_ref b = object_source_ref s ∧ ba_connector_id b = bc_connector_id req ∧
    ba_temporal_workflow_id b = Some ("batch-" +:+ show_Z (org c) +:+ "-" +:+ uuid).

(** Batches run registered archives only: if creating a batch asks anything
    of the bridge, the caller is an operator with a license, and it asked once,
    for the batch workflow of a stored pending batch of an archive that a
    statement of this request saw registered to the caller's organization, and
    the workflow is given exactly that object. *)
Theorem batches_start_archives uuid c req w :
  configured = true →
  wp (create_batch configured status_display licensed uuid c req) (λ r w',
    w_calls w' = w_calls w ∧ is_ok r = false ∨
    role c ∈ OPERATORS ∧ licensed = Ok tt ∧
    ∃ s b, batch_committed c uuid req s b (w_hist w') ∧
      w_calls w' = w_calls w ++ [start_request ("batch-" +:+ show_Z (org c) +:+ "-" +:+ uuid) "BatchWorkflow"
        (batch_input (org c) (ba_id b) (bc_connector_id req) s)]) w.
Proof.
  intros Hcf. unfold create_batch.
  apply wp_bind, wp_lift. destruct (require_role c OPERATORS) as [[]|] eqn:Hrole; [|by left].
  apply wp_bind, wp_lift. destruct licensed as [[]|] eqn:Hlic; [|by left].
  apply wp_bind, wp_lift. destruct (parse_source_request _) as [sreq|e] eqn:Hreq; [|by left].
  assert (silent (resolve_object (org c) sreq)) as Hsi.
  { apply resolve_object_silent. }
  assert (writes (λ _ _, True) (resolve_object (org c) sreq)) as Hwr.
  { unfold resolve_object. apply writes_bind; [by apply writes_resolve|intros []; writes]. }
  apply wp_bind_silent; [exact Hsi|by apply (writes_extends (λ _ _, True))| |by left].
  intros s w1 Hs%resolve_object_seen Hc1 _ He1. cbv zeta.
  apply wp_bind, wp_guard; intros Hg; [by left|]. apply negb_false_iff, String.eqb_eq in Hg.
  apply wp_bind_silent; [destruct (bc_connector_id req); [unfold require_connector|]; silent| | |left; split; [congruence|done]].
  { apply (writes_extends (λ _ _, True)). destruct (bc_connector_id req); [unfold require_connector|]; writes. }
  intros u w2 _ Hc2 _ He2. set (wid := "batch-" +:+ show_Z (org c) +:+ "-" +:+ uuid).
  apply wp_bind_silent; [apply silent_sql|apply sql_extends| |left; split; [congruence|done]].
  intros b w3 (d & Hd & Hins)%sql_seen Hc3 _ He3.
  edestruct (start_workflow_run configured status_display wid "BatchWorkflow"
    (batch_input (org c) (ba_id b) (bc_connector_id req) s) w3) as (w4 & Hrun & Hc4 & _ & Hh4 & _).
  unfold asked in Hc4. rewrite Hcf, Hc3, Hc2, Hc1 in Hc4.
  apply wp_bind. eapply wp_run; [exact Hrun|]. cbv beta iota.
  assert (batch_committed c uuid req s b (w_hist w4)) as Hb.
  { rewrite Hh4. split_and!; [eapply source_seen_extends; [|exact Hs]; by etrans|done|].
    exists d, (w_db w3). split; [done|]. unfold insert_batch in Hins. destruct (existsb _ _); [done|]. destruct (negb _); [done|].
    injection Hins as <- <-. cbn. by rewrite lookup_insert_eq. }
  assert (∀ A (m : Api A), silent m → writes (λ _ _, True) m → wp m (λ r w',
    w_calls w' = w_calls w ∧ is_ok r = false ∨
    role c ∈ OPERATORS ∧ (Ok tt : ApiResult unit) = Ok tt ∧
    ∃ s b, batch_committed c uuid req s b (w_hist w') ∧
      w_calls w' = w_calls w ++ [start_request wid "BatchWorkflow"
        (batch_input (org c) (ba_id b) (bc_connector_id req) s)]) w4) as Hrest.
  { intros A m Hm1 Hm2. right. split_and!; [by apply require_role_Ok|done|]. exists s, b.
    destruct (Hm1 w4) as [-> _]. split; [|exact Hc4].
    destruct Hb as (Hseen & Ha & x & y & Hxy & Hrow). pose proof (writes_extends _ m w4 Hm2) as He.
    split_and!; [by eapply source_seen_extends|done|]. exists x, y. split; [by eapply extends_elem|done]. }
  destruct (run_id_of wid <$> _) as [run|e]; apply Hrest; try silent.
  - apply writes_bind; [by apply writes_update|intros ?]. apply writes_bind; [apply writes_lift|intros ?].
    apply writes_bind; [by apply writes_update|intros ?; apply writes_ret].
  - apply writes_bind; [by apply writes_update|intros ?; apply writes_throw].
Qed.
End Batches.

(** ** Witnesses *)
Definition sample_schedule : ScheduleRow :=
  mkSchedule 6 1 "nightly" 2 4 3 (json_obj [("every", VString "1d")]) "UTC" "skip" 3600 true None None
    (Some "sch-1-u") (Some 3) 0 0.
Definition sample_connector_row : ConnectorRow := mkConnector 3 1 "crm" "salesforce" (json_obj []) None (Some 3) 0 0.
(** A template, a connector and a registered archive. *)
Definition work_db : Db :=
  set_connectors {[3 := sample_connector_row]}
    (set_sources {[7 := mkSource 7 1 "migration" "uploads/1/ab/march.zip" (Some "ab") None (Some 128)
                          (Some "march.zip") (Some "archive") "upload" (Some 3)]} template_db).
Definition schedule_db : Db := set_schedules {[6 := sample_schedule]} work_db.
Definition editor_claims : Claims := mkClaims "3" 1 "editor".
Definition sample_create_schedule : CreateSchedule :=
  mkCreateSchedule "nightly" 2 4 3 (json_obj [("every", VString "1d")]) None None None (Some false).
Definition any_text (_ : string) : bool := true.

Lemma unlicensed_requests_do_nothing_witness :
  ∃ e, run_work (H := decimal_time) true no_text (Err (LicenseRequired EmptyString)) any_text any_text sample_claims
         (WTriggerSchedule 6) (answering schedule_db) = (Err e, answering schedule_db).
Proof. apply (unlicensed_requests_do_nothing (H := decimal_time) true no_text _ any_text any_text (LicenseRequired EmptyString)). reflexivity. Defined.

Definition schedule_run : ApiResult ScheduleRow * World :=
  create_schedule (H := decimal_time) true no_text (Ok tt) any_text any_text "u" editor_claims
    sample_create_schedule (answering work_db).

(** A created schedule, and one that Temporal refused. *)
Lemma schedule_creation_is_atomic_witness :
  (∃ row, schedule_run.1 = Ok row ∧ schedules (w_db schedule_run.2) = <[8 := row]> ∅) ∧
  schedules (w_db (create_schedule (H := decimal_time) true no_text (Ok tt) any_text any_text "u" editor_claims
    sample_create_schedule (mkWorld work_db [] [Answer 409 None] [] [])).2) = ∅.
Proof.
  assert (schedules_fresh work_db) as Hf by (intros id s; cbn; rewrite lookup_empty; discriminate).
  split.
  - pose proof (schedule_creation_is_atomic (H := decimal_time) true no_text (Ok tt) any_text any_text "u"
      editor_claims sample_create_schedule (answering work_db) eq_refl Hf) as Hrun.
    assert (∃ row, schedule_run.1 = Ok row ∧ sc_id row = 8) as (row & Hok & Hid)
      by (eexists; split; vm_compute; reflexivity).
    unfold wp in Hrun. fold schedule_run in Hrun. rewrite Hok in Hrun. destruct Hrun as (_ & _ & Hrun).
    exists row. split; [exact Hok|]. rewrite Hid in Hrun. exact Hrun.
  - pose proof (schedule_creation_is_atomic (H := decimal_time) true no_text (Ok tt) any_text any_text "u"
      editor_claims sample_create_schedule (mkWorld work_db [] [Answer 409 None] [] []) eq_refl Hf) as Hrun.
    unfold wp in Hrun. destruct (create_schedule _ _ _ _ _ _ _ _ _) as [[row|e] w'] eqn:Hw.
    + vm_compute in Hw. discriminate Hw.
    + exact Hrun.
Defined.

Lemma schedule_flag_follows_temporal_witness :
  accepted_action true no_text sample_claims 6 "pause" (answering schedule_db)
    (pause_schedule true no_text sample_claims 6 (answering schedule_db)).2 ∧
  sc_enabled <$> schedules (w_db (pause_schedule true no_text sample_claims 6 (answering schedule_db)).2) !! 6 = Some false.
Proof.
  split; [|vm_compute; reflexivity].
  destruct (schedule_flag_follows_temporal true no_text (Ok tt) sample_claims 6 (answering schedule_db) eq_refl) as [[Hs|Ha] _];
    [exfalso|exact Ha].
  destruct Hs as (h & Hh & HF). cbn [w_hist answering] in Hh. rewrite app_nil_l in Hh. rewrite <- Hh in HF.
  assert (Forall (λ ab : Db * Db, sc_enabled <$> schedules ab.2 !! 6 = sc_enabled <$> schedules ab.1 !! 6)
            (w_hist (pause_schedule true no_text sample_claims 6 (answering schedule_db)).2)) as Hbad.
  { eapply Forall_impl; [|exact HF]. intros [x y]. cbn. unfold same_schedules. intros ->. reflexivity. }
  vm_compute in Hbad. inversion_clear Hbad as [|? ? _ Hbad2]. inversion_clear Hbad2 as [|? ? Hb _]. discriminate Hb.
Defined.

Definition sample_batch_create : BatchCreate := mkBatchCreate (json_obj [("source_id", json_int 7)]) (Some 3).

Lemma batches_start_archives_witness :
  ∃ s b, batch_committed sample_claims "u" sample_batch_create s b
    (w_hist (create_batch (H := decimal_time) true no_text (Ok tt) "u" sample_claims sample_batch_create (answering work_db)).2).
Proof.
  destruct (batches_start_archives (H := decimal_time) true no_text (Ok tt) "u" sample_claims sample_batch_create
              (answering work_db) eq_refl) as [[_ Hno]|(_ & _ & s & b & Hb & _)].
  - vm_compute in Hno. discriminate Hno.
  - exists s, b. exact Hb.
Defined.
