(* ===== verification/Sampling.v ===== *)
(** * Sampling: [apps/api/src/sampling/mod.rs] and [sampling/type_infer.rs]

    The result of every sampler, the strict type inference they share, and
    the table of columns the JSON and XML samplers build.  chrono's parsers
    are parameters; [str::parse::<f64>] is the standard library's, of which
    only the accepted grammar matters here. *)
From S2P Require Import Prelude RustStr Json.
From Stdlib Require Import Ascii.

Definition DEFAULT_BYTE_CAP : Z := 8 * 1024 * 1024.
Definition MAX_ROW_CAP : Z := 200.
Definition DEFAULT_ROW_CAP : Z := 25.

Record SampleColumn : Type := mkColumn { col_name : string; col_type : string; col_nullable : bool }.

Record SampleResult : Type := mkSample {
  sp_format : string; sp_columns : list SampleColumn; sp_rows : list jmap; sp_row_count : Z;
  sp_truncated : bool; sp_bytes_read : Z }.

Inductive SampleError : Type :=
  | SEmpty
  | SInvalid (format message : string)
  | SUnsupported (format : string).

Abbreviation Sampled := (result SampleError).

(** ** [str::parse::<f64>]: the grammar of the standard library's documentation *)

Definition strip_sign (s : string) : string :=
  match s with String "+" r | String "-" r => r | _ => s end.

(** [Exp ::= 'e' Sign? Digit+], or nothing. *)
Definition exponent_ok (s : string) : bool :=
  match s with
  | EmptyString => true
  | String a r =>
      (Ascii.eqb a "e" || Ascii.eqb a "E")
      && (let '(d, r') := span_digits (strip_sign r) in negb (is_empty d) && is_empty r')
  end.

(** [Number ::= ( Digit+ | Digit+ '.' Digit* | Digit* '.' Digit+ ) Exp?] *)
Definition decimal_ok (s : string) : bool :=
  let '(whole, r) := span_digits s in
  match r with
  | String "." r' =>
      let '(frac, r'') := span_digits r' in
      (negb (is_empty whole) || negb (is_empty frac)) && exponent_ok r''
  | _ => negb (is_empty whole) && exponent_ok r
  end.

Definition parse_f64_ok (s : string) : bool :=
  let r := strip_sign s in
  mem_str (to_ascii_lowercase r) ["inf"; "infinity"; "nan"] || decimal_ok r.

Definition is_nil {A} (l : list A) : bool := match l with [] => true | _ => false end.

(** ** Type inference *)
Definition is_bool (v : string) : bool := mem_str (to_ascii_lowercase v) ["true"; "false"; "0"; "1"].

Section Infer.
(** chrono: [DateTime::parse_from_rfc3339] and [NaiveDate::parse_from_str]
    with [%Y-%m-%d] succeed. *)
Context (rfc3339_ok date_ok : string → bool).

Definition is_datetime (v : string) : bool := rfc3339_ok v || date_ok v.

Definition is_int (v : string) : bool := is_some (parse_i64 v).

(** The loop's flags. *)
Record Flags : Type := mkFlags { all_bool : bool; all_int : bool; all_num : bool; all_dt : bool; had_any : bool }.

Definition flags_start : Flags := mkFlags true true true true false.

Definition flags_step (v : string) (f : Flags) : Flags :=
  mkFlags (all_bool f && is_bool v) (all_int f && is_int v) (all_num f && parse_f64_ok v)
    (all_dt f && is_datetime v) true.

Definition flags_answer (f : Flags) : string :=
  if negb (had_any f) then "string"
  else if all_bool f then "boolean"
  else if all_int f then "integer"
  else if all_num f then "number"
  else if all_dt f then "datetime"
  else "string".

Fixpoint infer_loop (f : Flags) (values : list string) : string :=
  match values with
  | [] => flags_answer f
  | raw :: values =>
      let v := trim raw in
      if is_empty v then infer_loop f values
      else
        let f' := flags_step v f in
        if negb (all_bool f' || all_int f' || all_num f' || all_dt f') then "string"
        else infer_loop f' values
  end.

Definition infer_column_type (values : list string) : string := infer_loop flags_start values.

(** ** The columns of a list of objects (JSON and XML samplers) *)

(** The keys in the order they are first seen. *)
Definition add_key (order : list string) (k : string) : list string :=
  if mem_str k order then order else order ++ [k].
Definition key_order (rows : list jmap) : list string :=
  fold_left (λ order row, fold_left add_key (map fst row) order) rows [].

Definition is_null_cell (o : option value) : bool :=
  match o with None | Some VNull => true | _ => false end.

(** [show] is the text of a value that is neither null nor a string. *)
Definition raw_cell (show : value → string) (o : option value) : string :=
  match o with
  | None | Some VNull => EmptyString
  | Some (VString s) => s
  | Some v => show v
  end.

Definition column_of (show : value → string) (rows : list jmap) (k : string) : SampleColumn :=
  mkColumn k (infer_column_type (map (λ row, raw_cell show (map_get k row)) rows))
    (existsb (λ row, is_null_cell (map_get k row)) rows).

Definition columns_of (show : value → string) (rows : list jmap) : list SampleColumn :=
  map (column_of show rows) (key_order rows).

(** ** Theorems *)

(** The reference: the first type of the list all the non-blank values have. *)
Definition type_of_values (vs : list string) : string :=
  if is_nil vs then "string"
  else if forallb is_bool vs then "boolean"
  else if forallb is_int vs then "integer"
  else if forallb parse_f64_ok vs then "number"
  else if forallb is_datetime vs then "datetime"
  else "string".

Definition non_blank_values (values : list string) : list string :=
  List.filter (λ v, negb (is_empty v)) (map trim values).

Lemma infer_loop_spec f values :
  let vs := non_blank_values values in
  infer_loop f values =
    flags_answer (mkFlags (all_bool f && forallb is_bool vs) (all_int f && forallb is_int vs)
      (all_num f && forallb parse_f64_ok vs) (all_dt f && forallb is_datetime vs)
      (had_any f || negb (is_nil vs))).
Proof.
  revert f. induction values as [|raw values IH]; intros f vs.
  - subst vs. cbn [non_blank_values List.filter map forallb infer_loop is_nil negb].
    rewrite !andb_true_r, orb_false_r. by destruct f.
  - unfold vs, non_blank_values. cbn [map List.filter infer_loop].
    destruct (is_empty (trim raw)) eqn:He; cbn [negb]; [apply IH|]. cbv zeta in IH |- *.
    set (v := trim raw) in *. fold (non_blank_values values). set (vs' := non_blank_values values) in *.
    cbn [forallb is_nil negb]. rewrite orb_true_r, !andb_assoc.
    change (flags_step v f) with (mkFlags (all_bool f && is_bool v) (all_int f && is_int v)
      (all_num f && parse_f64_ok v) (all_dt f && is_datetime v) true).
    cbn [all_bool all_int all_num all_dt].
    destruct (negb (all_bool f && is_bool v || _ || _ || _)) eqn:Hany.
    + apply negb_true_iff, orb_false_iff in Hany as [[[Hb Hi]%orb_false_iff Hn]%orb_false_iff Hd].
      by rewrite Hb, Hi, Hn, Hd.
    + by rewrite IH.
Qed.

(** Column types are inferred exactly as documented: blank values do not
    count, no value at all is a string, and otherwise the type is the first of
    boolean, integer, number and datetime that every value has, or string;
    the early exit changes nothing. *)
Theorem infer_column_type_spec values :
  infer_column_type values = type_of_values (non_blank_values values).
Proof.
  unfold infer_column_type. rewrite infer_loop_spec. unfold type_of_values.
  by destruct (non_blank_values values).
Qed.
End Infer.

(** *** The columns *)
Lemma add_key_spec order k :
  NoDup order → NoDup (add_key order k) ∧ (∀ x, x ∈ add_key order k ↔ x ∈ order ∨ x = k).
Proof.
  intros Hnd. unfold add_key. destruct (mem_str k order) eqn:Hm.
  - apply mem_str_true in Hm. split; [done|]. naive_solver.
  - apply mem_str_false in Hm. split.
    + apply list.NoDup_app. split_and!; [done| |apply NoDup_singleton].
      intros x Hx ->%list_elem_of_singleton. done.
    + intros x. by rewrite elem_of_app, list_elem_of_singleton.
Qed.

Lemma add_keys_spec order ks :
  NoDup order → let order' := fold_left add_key ks order in
  NoDup order' ∧ (∀ x, x ∈ order' ↔ x ∈ order ∨ x ∈ ks) ∧ order `prefix_of` order'.
Proof.
  revert order. induction ks as [|k ks IH]; intros order Hnd; cbn.
  - split_and!; [done|set_solver|done].
  - destruct (add_key_spec order k Hnd) as [Hnd' Hin]. destruct (IH _ Hnd') as (H1 & H2 & H3).
    split_and!; [done| |].
    + intros x. rewrite H2, Hin. set_solver.
    + etrans; [|exact H3]. unfold add_key. destruct (mem_str k order); [done|by apply prefix_app_r].
Qed.

(** The columns are the union of the rows' keys, each once, and seeing more
    rows only appends. *)
Lemma key_order_spec rows :
  NoDup (key_order rows) ∧ (∀ k, k ∈ key_order rows ↔ ∃ row, row ∈ rows ∧ k ∈ map fst row).
Proof.
  unfold key_order. assert (∀ order, NoDup order →
    let order' := fold_left (λ order row, fold_left add_key (map fst row) order) rows order in
    NoDup order' ∧ (∀ x, x ∈ order' ↔ x ∈ order ∨ ∃ row, row ∈ rows ∧ x ∈ map fst row)) as H.
  { induction rows as [|row rows IH]; intros order Hnd; cbn; [set_solver|].
    destruct (add_keys_spec order (map fst row) Hnd) as (H1 & H2 & _). destruct (IH _ H1) as [H3 H4].
    split; [done|]. intros x. rewrite H4, H2. set_solver. }
  destruct (H [] (NoDup_nil_2)) as [H1 H2]. split; [done|]. intros k. rewrite H2. set_solver.
Qed.

Lemma key_order_app rows rows' : key_order rows `prefix_of` key_order (rows ++ rows').
Proof.
  unfold key_order. rewrite fold_left_app.
  assert (∀ order, NoDup order →
    order `prefix_of` fold_left (λ order row, fold_left add_key (map fst row) order) rows' order) as H.
  { induction rows' as [|row rows' IH]; intros order Hnd; cbn; [done|].
    destruct (add_keys_spec order (map fst row) Hnd) as (H1 & _ & H2). etrans; [exact H2|by apply IH]. }
  apply H. apply key_order_spec.
Qed.

Lemma map_get_None k m : map_get k m = None ↔ k ∉ map fst m.
Proof.
  induction m as [|[k' v] m IH]; cbn; [set_solver|].
  destruct (String.eqb_spec k k') as [->|Hne]; [set_solver|]. rewrite IH. set_solver.
Qed.

(** What the columns say about the rows. *)
Definition columns_describe (infer : list string → string) (show : value → string) (rows : list jmap)
    (columns : list SampleColumn) : Prop :=
  NoDup (map col_name columns) ∧
  (∀ k, k ∈ map col_name columns ↔ ∃ row, row ∈ rows ∧ map_get k row ≠ None) ∧
  ∀ c, c ∈ columns →
    (col_nullable c = true ↔ ∃ row, row ∈ rows ∧ is_null_cell (map_get (col_name c) row) = true) ∧
    col_type c = infer (map (λ row, raw_cell show (map_get (col_name c) row)) rows).

Lemma columns_of_describe rfc3339_ok date_ok show rows :
  columns_describe (infer_column_type rfc3339_ok date_ok) show rows (columns_of rfc3339_ok date_ok show rows).
Proof.
  unfold columns_of. destruct (key_order_spec rows) as [Hnd Hin].
  assert (map col_name (map (column_of rfc3339_ok date_ok show rows) (key_order rows)) = key_order rows) as Hn.
  { rewrite map_map. apply map_id. }
  split_and!.
  - by rewrite Hn.
  - intros k. rewrite Hn, Hin. setoid_rewrite map_get_None.
    split; intros (row & ? & Hk); exists row; (split; [done|]); [naive_solver|by apply dec_stable].
  - intros c (k & -> & _)%list_elem_of_fmap. cbn. split; [|done].
    rewrite existsb_exists. setoid_rewrite list_elem_of_In. done.
Qed.
