(* ===== verification/SampleJson.v ===== *)
(** * The JSON sampler: [apps/api/src/sampling/json.rs]

    An array of objects, or one object per line; an array cut by the byte cap
    is salvaged by walking brace depth.  JSON parsing is serde_json's
    ([JsonText], whose [from_json_str] is [None] on malformed text); the text
    of its errors is a parameter. *)
From S2P Require Import Prelude RustStr Json Sampling.
From Stdlib Require Import Ascii.

(** [str::from_utf8]: the well-formed byte sequences of the Unicode standard. *)
Fixpoint utf8_valid (s : string) : bool :=
  match s with
  | EmptyString => true
  | String a s1 =>
      let n := byte_val a in
      if n <? 128 then utf8_valid s1
      else if (194 <=? n) && (n <=? 223) then
        match s1 with String b s2 => is_cont b && utf8_valid s2 | _ => false end
      else if (224 <=? n) && (n <=? 239) then
        match s1 with
        | String b (String c s3) =>
            is_cont b && (if n =? 224 then 160 <=? byte_val b else if n =? 237 then byte_val b <? 160 else true)
            && is_cont c && utf8_valid s3
        | _ => false
        end
      else if (240 <=? n) && (n <=? 244) then
        match s1 with
        | String b (String c (String d s4)) =>
            is_cont b && (if n =? 240 then 144 <=? byte_val b else if n =? 244 then byte_val b <? 144 else true)
            && is_cont c && is_cont d && utf8_valid s4
        | _ => false
        end
      else false
  end.

Definition from_utf8 (s : string) : option string := if utf8_valid s then Some s else None.

Definition is_ascii_whitespace (a : ascii) : bool :=
  let n := byte_val a in (n =? 32) || (n =? 9) || (n =? 10) || (n =? 12) || (n =? 13).

Definition bom : string := utf8 [239; 187; 191]%N.
Definition strip_bom (s : string) : string := default s (strip_prefix bom s).

Definition type_of (v : value) : string :=
  match v with
  | VNull => "null" | VBool _ => "bool" | VNumber _ => "number" | VString _ => "string"
  | VArray _ => "array" | VObject _ => "object"
  end.

(** ** The brace walk of [best_effort_array]

    [ch] is a character of valid UTF-8; all characters the walk looks at are
    ASCII, and no byte of another character equals one, so it walks bytes. *)
Record Walk : Type := mkWalk { wk_depth : Z; wk_start : option nat; wk_in_string : bool; wk_escape : bool }.

Definition walk_start : Walk := mkWalk 0 None false false.

(** One character at index [i]: the next state, and the slice to parse. *)
Definition walk_step (i : nat) (ch : ascii) (w : Walk) : Walk * option (nat * nat) :=
  let 'mkWalk depth start in_string escape := w in
  if in_string then
    if escape then (mkWalk depth start true false, None)
    else if Ascii.eqb ch "\" then (mkWalk depth start true true, None)
    else if Ascii.eqb ch dquote then (mkWalk depth start false escape, None)
    else (w, None)
  else if Ascii.eqb ch dquote then (mkWalk depth start true escape, None)
  else if Ascii.eqb ch "{" then
    (mkWalk (depth + 1) (if depth =? 0 then Some i else start) in_string escape, None)
  else if Ascii.eqb ch "}" then
    if depth - 1 =? 0 then (mkWalk (depth - 1) None in_string escape, (λ st, (st, i)) <$> start)
    else (mkWalk (depth - 1) start in_string escape, None)
  else (w, None).

(** The slices of the text from index [i] on. *)
Fixpoint walk (i : nat) (s : string) (w : Walk) : list (nat * nat) :=
  match s with
  | EmptyString => []
  | String ch s' =>
      let '(w', slice) := walk_step i ch w in
      match slice with Some p => [p] | None => [] end ++ walk (S i) s' w'
  end.

(** [&s[st..=i]] *)
Definition slice_incl (s : string) (p : nat * nat) : string := String.substring p.1 (p.2 + 1 - p.1) s.

(** The text of a cell: [bool]'s and [Number]'s own, and JSON for the rest. *)
Definition show_cell `{JsonText} (v : value) : string :=
  match v with VBool true => "true" | VBool false => "false" | _ => to_json_string v end.

Section Sampler.
Context `{JsonText} (json_error : string → string).
Context (rfc3339_ok date_ok : string → bool).

Definition best_effort_array (bytes : string) : Sampled (list value) :=
  s ← ok_or (from_utf8 bytes) (SInvalid "json" "non-utf8 input");
  let out := omap (λ p, from_json_str (slice_incl s p)) (walk 0 s walk_start) in
  if is_nil out then Err (SInvalid "json" "could not extract any complete records") else Ok out.

(** [serde_json::from_slice::<Vec<Value>>] *)
Definition from_slice_array (bytes : string) : option (list value) :=
  s ← from_utf8 bytes; from_json_str s ≫= as_array.

Definition parse_array (bytes : string) (truncated_input : bool) : Sampled (list value) :=
  match from_slice_array bytes with
  | Some v => Ok v
  | None =>
      if truncated_input then best_effort_array bytes
      else Err (SInvalid "json" (json_error bytes))
  end.

(** A line, when it holds a value. *)
Definition parse_line (line : string) : option value :=
  let s := trim (default EmptyString (from_utf8 line)) in
  if is_empty s then None else from_json_str s.

Definition parse_ndjson (bytes : string) : list value :=
  omap parse_line (split_char (ascii_of_N 10) bytes).

(** The loop over the sampled records: objects only. *)
Fixpoint object_rows (records : list value) : Sampled (list jmap) :=
  match records with
  | [] => Ok []
  | VObject o :: records => rows ← object_rows records; Ok (o :: rows)
  | other :: _ => Err (SInvalid "json" ("expected object record, got " +:+ type_of other))
  end.

Definition first_non_ws (s : string) : option ascii := List.find (λ a, negb (is_ascii_whitespace a)) (bytes s).

Definition read_records (input : string) (truncated_input : bool) : Sampled (list value) :=
  let trimmed := strip_bom input in
  if bool_decide (first_non_ws trimmed = Some "["%char) then parse_array trimmed truncated_input
  else Ok (parse_ndjson trimmed).

Definition sample (input : string) (row_cap : nat) (truncated_input : bool) : Sampled SampleResult :=
  if is_empty input then Err SEmpty
  else
    records ← read_records input truncated_input;
    if is_nil records then Err (SInvalid "json" "no records")
    else
      let over := (row_cap <? length records)%nat in
      rows ← object_rows (take (if over then row_cap else length records) records);
      Ok (mkSample "json" (columns_of rfc3339_ok date_ok show_cell rows) rows
            (Z.of_nat (length rows)) (over || truncated_input) (str_len input)).
End Sampler.

(** ** Texts whose quotes close and whose braces match

    Every JSON text is one, whatever its escapes and nesting. *)
Inductive string_body : string → Prop :=
  | body_nil : string_body EmptyString
  | body_char c s : c ≠ dquote → c ≠ "\"%char → string_body s → string_body (String c s)
  | body_escape c s : string_body s → string_body (String "\" (String c s)).

Definition plain_char (c : ascii) : Prop := c ≠ dquote ∧ c ≠ "{"%char ∧ c ≠ "}"%char.

Inductive lexed : string → Prop :=
  | lexed_nil : lexed EmptyString
  | lexed_char c s : plain_char c → lexed s → lexed (String c s)
  | lexed_string body s : string_body body → lexed s → lexed (String dquote (body +:+ String dquote s))
  | lexed_object t s : lexed t → lexed s → lexed (String "{" (t +:+ String "}" s)).

Definition object_text (o : string) : Prop := ∃ t, lexed t ∧ o = String "{" (t +:+ "}").
(** Between objects: commas, blanks, brackets. *)
Definition inert (s : string) : Prop := Forall plain_char (bytes s).
(** What the cut leaves after the last complete object. *)
Definition clipped (s : string) : Prop :=
  ∃ sep p, s = sep +:+ p ∧ inert sep ∧ (p = EmptyString ∨ ∃ rest, rest ≠ EmptyString ∧ object_text (p +:+ rest)).

Abbreviation len := String.length.

Fixpoint walk_end (i : nat) (s : string) (w : Walk) : Walk :=
  match s with EmptyString => w | String ch s' => walk_end (S i) s' (walk_step i ch w).1 end.

Lemma walk_app i s t w : walk i (s +:+ t) w = walk i s w ++ walk (i + len s) t (walk_end i s w).
Proof.
  revert i w. induction s as [|a s IH]; intros i w; cbn; [by rewrite Nat.add_0_r|].
  destruct (walk_step i a w) as [w' o]. rewrite IH, app_assoc. cbn. do 2 f_equal. lia.
Qed.

Lemma walk_bound i s w p : p ∈ walk i s w → (p.2 < i + len s)%nat.
Proof.
  revert i w. induction s as [|a s IH]; intros i w; cbn; [by rewrite elem_of_nil|].
  destruct (walk_step i a w) as [w' o] eqn:Hs. intros [Hp|Hp]%elem_of_app; [|specialize (IH _ _ Hp); lia].
  destruct o as [q|]; [|by apply elem_of_nil in Hp]. apply list_elem_of_singleton in Hp as ->.
  destruct w as [d st ins esc]. unfold walk_step in Hs.
  repeat case_match; simplify_eq; destruct st; cbn in *; simplify_eq; cbn; lia.
Qed.

(** The walk passes [s] and is back where it was. *)
Definition passes (i : nat) (s : string) (w : Walk) : Prop := walk i s w = [] ∧ walk_end i s w = w.

Lemma passes_cons i a s w :
  (walk_step i a w).2 = None → passes (S i) s (walk_step i a w).1 →
  walk_end (S i) s (walk_step i a w).1 = w → passes i (String a s) w.
Proof. intros Ho [Hs _] He. split; cbn; [|done]. destruct (walk_step i a w) as [w' o]. cbn in *. by subst. Qed.

Lemma walk_end_app i s t w : walk_end i (s +:+ t) w = walk_end (i + len s) t (walk_end i s w).
Proof.
  revert i w. induction s as [|a s IH]; intros i w; cbn; [by rewrite Nat.add_0_r|].
  rewrite IH. f_equal. lia.
Qed.

Lemma passes_app i s t w : passes i s w → passes (i + len s) t w → passes i (s +:+ t) w.
Proof.
  intros [Hs He] [Ht He']. split; [by rewrite walk_app, Hs, He, Ht|by rewrite walk_end_app, He].
Qed.

Lemma plain_step i a d st : plain_char a → walk_step i a (mkWalk d st false false) = (mkWalk d st false false, None).
Proof.
  intros (H1 & H2 & H3). unfold walk_step.
  destruct (Ascii.eqb_spec a dquote); [done|]. destruct (Ascii.eqb_spec a "{"); [done|].
  by destruct (Ascii.eqb_spec a "}").
Qed.

Lemma body_passes i s d st : string_body s → passes i s (mkWalk d st true false).
Proof.
  intros Hs. revert i. induction Hs as [|c s Hq Hb _ IH|c s _ IH]; intros i; [done|..].
  - assert (walk_step i c (mkWalk d st true false) = (mkWalk d st true false, None)) as Hc.
    { unfold walk_step. destruct (Ascii.eqb_spec c "\"); [done|]. by destruct (Ascii.eqb_spec c dquote). }
    apply passes_cons; rewrite Hc; [done|apply IH|apply IH].
  - destruct (IH (S (S i))) as [H1 H2]. split; cbn; done.
Qed.

Lemma lexed_passes i s d st : lexed s → 0 < d → passes i s (mkWalk d st false false).
Proof.
  intros Hs. revert i d st. induction Hs as [|c s Hc _ IH|body s Hb _ IH|t s _ IHt _ IHs]; intros i d st Hd; [done|..].
  - apply passes_cons; rewrite plain_step by done; [done|by apply IH|by apply IH].
  - destruct (body_passes (S i) body d st Hb) as [H1 H2].
    destruct (IH (S (S i + len body)) d st Hd) as [H3 H4]. split; cbn.
    + rewrite walk_app, H1, H2. cbn. exact H3.
    + rewrite walk_end_app, H2. cbn. exact H4.
  - destruct (IHt (S i) (d + 1) st ltac:(lia)) as [H1 H2].
    destruct (IHs (S (S i + len t)) d st Hd) as [H3 H4].
    assert ((d =? 0) = false) as Hz by lia. assert ((d + 1 - 1 =? 0) = false) as Hz' by lia.
    assert (d + 1 - 1 = d) as Hdd by lia. split; cbn; rewrite Hz.
    + rewrite walk_app, H1, H2. cbn. rewrite Hz', Hdd. exact H3.
    + rewrite walk_end_app, H2. cbn. rewrite Hz', Hdd. exact H4.
Qed.

(** A complete object is one slice. *)
Lemma object_walk i o :
  object_text o → walk i o walk_start = [(i, (i + len o - 1)%nat)] ∧ walk_end i o walk_start = walk_start.
Proof.
  intros (t & Ht & ->). destruct (lexed_passes (S i) t 1 (Some i) Ht ltac:(lia)) as [H1 H2]. split; cbn; change (0 + 1) with 1.
  - rewrite walk_app, H1, H2. cbn. change (1 - 1 =? 0) with true. cbn. rewrite length_append. cbn.
    do 2 f_equal. lia.
  - by rewrite walk_end_app, H2.
Qed.

Lemma inert_passes i s : inert s → passes i s walk_start.
Proof.
  revert i. induction s as [|a s IH]; intros i Hs; [done|]. apply Forall_cons_iff in Hs as [Ha Hs].
  apply passes_cons; unfold walk_start; rewrite plain_step by done; [done|by apply IH|by apply IH].
Qed.

(** An incomplete one is none. *)
Lemma clipped_walk i s : clipped s → walk i s walk_start = [].
Proof.
  intros (sep & p & -> & Hsep & Hp). destruct (inert_passes i sep Hsep) as [H1 H2].
  rewrite walk_app, H1, H2. cbn. destruct Hp as [->|(rest & Hne & Ho)]; [done|].
  destruct (object_walk (i + len sep) _ Ho) as [Hw _]. rewrite walk_app in Hw.
  destruct (walk _ p walk_start) as [|q l] eqn:Hq; [done|]. exfalso.
  assert (q ∈ walk (i + len sep) p walk_start) as Hb by (rewrite Hq; apply list_elem_of_here).
  apply walk_bound in Hb. injection Hw as -> _. cbn in Hb. rewrite length_append in Hb.
  destruct rest; [done|]. cbn in Hb. lia.
Qed.

Lemma substring_skip pre s n m : String.substring (len pre + n) m (pre +:+ s) = String.substring n m s.
Proof. induction pre as [|a pre IH]; cbn; [done|]. by destruct m. Qed.

Lemma substring_prefix o s : String.substring 0 (len o) (o +:+ s) = o.
Proof. induction o as [|a o IH]; cbn; [by destruct s|]. by rewrite IH. Qed.

Lemma slice_middle pre o s :
  o ≠ EmptyString → slice_incl (pre +:+ o +:+ s) (len pre, (len pre + len o - 1)%nat) = o.
Proof.
  intros Ho. unfold slice_incl. cbn.
  replace (len pre + len o - 1 + 1 - len pre)%nat with (len o) by (destruct o; [done|cbn; lia]).
  rewrite <- (Nat.add_0_r (len pre)) at 1. by rewrite substring_skip, substring_prefix.
Qed.

Lemma object_text_nonempty o : object_text o → o ≠ EmptyString.
Proof. by intros (t & _ & ->). Qed.

(** Objects with what separates them. *)
Definition items_text (items : list (string * string)) : string :=
  str_concat (map (λ it, it.1 +:+ it.2) items).

Lemma walk_items {A} (f : string → option A) pre items tail :
  walk_end 0 pre walk_start = walk_start →
  Forall (λ it, object_text it.1 ∧ inert it.2) items → clipped tail →
  let s := pre +:+ items_text items +:+ tail in
  omap (λ p, f (slice_incl s p)) (walk (len pre) (items_text items +:+ tail) walk_start)
  = omap f (map fst items).
Proof.
  intros Hpre Hit Htail. revert pre Hpre.
  induction Hit as [|[o sep] items [Ho Hs] _ IH]; intros pre Hpre s.
  - change (items_text [] +:+ tail) with tail. by rewrite clipped_walk.
  - cbn [fst snd] in Ho, Hs. destruct (object_walk (len pre) o Ho) as [H1 H2].
    destruct (inert_passes (len pre + len o) sep Hs) as [H3 H4].
    set (tl := items_text items +:+ tail) in *.
    assert (items_text ((o, sep) :: items) +:+ tail = o +:+ sep +:+ tl) as Ht.
    { unfold items_text, tl. cbn. by rewrite !append_assoc. }
    assert (s = pre +:+ o +:+ sep +:+ tl) as -> by (unfold s; by rewrite Ht).
    rewrite Ht, walk_app, H1, H2, walk_app, H3, H4. cbn.
    rewrite slice_middle by (by apply object_text_nonempty).
    specialize (IH (pre +:+ o +:+ sep)). cbv zeta in IH.
    rewrite !append_assoc, !length_append in IH. fold tl in IH.
    replace (len pre + len o + len sep)%nat with (len pre + (len o + len sep))%nat by lia.
    destruct (f o); [f_equal|]; apply IH; rewrite !walk_end_app, Hpre; cbn; by rewrite H2, H4.
Qed.

Section Theorems.
Context `{JsonText} (json_error : string → string).

(** C33: an array cut by the byte cap between two characters keeps its complete
    records: when the whole text does not parse and the input was cut, the
    sampler gets exactly the values of the objects that are complete, in
    order, whatever nested objects, arrays, braces and quotes in strings they
    contain, and reports an error when there is none.  A cut inside a character
    of several bytes keeps nothing: what is left is not UTF-8, and the answer is
    an error however many records are complete. *)
Theorem clipped_array_keeps_records pre items tail vs :
  let s := pre +:+ items_text items +:+ tail in
  inert pre → Forall (λ it, object_text it.1 ∧ inert it.2) items → clipped tail →
  from_json_str s = None → Forall2 (λ it v, from_json_str it.1 = Some v) items vs →
  parse_array json_error s true =
    if utf8_valid s then
      match vs with
      | [] => Err (SInvalid "json" "could not extract any complete records")
      | _ => Ok vs
      end
    else Err (SInvalid "json" "non-utf8 input").
Proof.
  intros s Hpre Hit Htail Hs Hvs. unfold parse_array, from_slice_array, best_effort_array, from_utf8.
  destruct (utf8_valid s); cbn; [|done]. rewrite Hs. cbn. destruct (inert_passes 0 pre Hpre) as [H1 H2].
  assert (omap (λ p, from_json_str (slice_incl s p)) (walk 0 s walk_start) = vs) as ->.
  { unfold s at 2. rewrite walk_app, H1, H2. cbn [app Nat.add].
    etrans; [by apply walk_items|]. clear - Hvs. induction Hvs as [|it v items vs Hv _ IH]; cbn; [done|].
    by rewrite Hv, IH. }
  by destruct vs.
Qed.

Context (rfc3339_ok date_ok : string → bool).

Lemma object_rows_Ok records rows : object_rows records = Ok rows → map VObject rows = records.
Proof.
  revert rows. induction records as [|r records IH]; intros rows; cbn; [by intros [= <-]|].
  destruct r; try done. intros (rows' & Hr & [= <-])%result_bind_ok. cbn. by rewrite (IH _ Hr).
Qed.

(** A JSON sample is a faithful preview: its rows are the first [row_cap]
    records, all objects, it is marked truncated exactly when the input was cut
    or holds more records, and its columns are the union of the rows' keys,
    each once, nullable exactly when a row has no value there, and typed from
    all the rows' values. *)
Theorem json_sample_is_a_preview input row_cap truncated_input r :
  sample json_error rfc3339_ok date_ok input row_cap truncated_input = Ok r →
  ∃ records, read_records json_error input truncated_input = Ok records ∧ records ≠ [] ∧
    map VObject (sp_rows r) = take row_cap records ∧
    sp_row_count r = Z.of_nat (length (sp_rows r)) ∧ sp_bytes_read r = str_len input ∧
    (sp_truncated r = true ↔ truncated_input = true ∨ (row_cap < length records)%nat) ∧
    columns_describe (infer_column_type rfc3339_ok date_ok) show_cell (sp_rows r) (sp_columns r).
Proof.
  unfold sample. destruct (is_empty input); [done|]. intros (records & Hrec & Hr)%result_bind_ok.
  exists records. split; [done|]. destruct (is_nil records) eqn:Hn; [done|]. cbv zeta in Hr.
  apply result_bind_ok in Hr as (rows & Hrows & [= <-]). apply object_rows_Ok in Hrows. cbn [sp_rows sp_row_count sp_bytes_read sp_truncated sp_columns].
  split_and!; try done.
  - by destruct records.
  - rewrite Hrows. destruct (Nat.ltb_spec row_cap (length records)); [done|].
    by rewrite !take_ge.
  - rewrite orb_true_iff, Nat.ltb_lt. naive_solver.
  - apply columns_of_describe.
Qed.
End Theorems.

Lemma json_rows_bound `{JsonText} json_error rfc3339_ok date_ok input row_cap trunc r :
  sample json_error rfc3339_ok date_ok input row_cap trunc = Ok r → (length (sp_rows r) ≤ row_cap)%nat.
Proof.
  unfold sample. destruct (is_empty input); [done|]. intros (records & _ & Hr)%result_bind_ok.
  destruct (is_nil records); [done|]. cbv zeta in Hr.
  apply result_bind_ok in Hr as (rows & Hrows%object_rows_Ok & [= <-]). cbn [sp_rows].
  rewrite <- (length_map VObject rows), Hrows, length_take.
  destruct (Nat.ltb_spec row_cap (length records)); lia.
Qed.

(** ** Witnesses *)

(** A text form that keeps the braces of an object: the bits of the tree
    encoding between them. *)
Definition braced_parse (s : string) : option value :=
  match s with
  | String "{" s' => rsplit_once "}" s' ≫= λ p, if is_empty p.2 then bits_parse p.1 else None
  | _ => None
  end.
Definition braced_print (v : value) : string := String "{" (bits_print v +:+ "}").

Lemma rsplit_once_snoc s : rsplit_once "}" (s +:+ "}") = Some (s, EmptyString).
Proof. induction s as [|a s IH]; [done|]. cbn. by rewrite IH. Qed.

Lemma braced_roundtrip v : braced_parse (braced_print v) = Some v.
Proof. unfold braced_parse, braced_print. rewrite rsplit_once_snoc. cbn. apply bits_roundtrip. Qed.

Definition braced_json : JsonText := {|
    to_json_string := braced_print; to_json_pretty := braced_print; from_json_str := braced_parse;
    json_string_roundtrip v _ := braced_roundtrip v;
    json_pretty_roundtrip v _ := braced_roundtrip v;
  |}.

Definition no_msg (_ : string) : string := EmptyString.
Definition never (_ : string) : bool := false.
Definition demo_row (n : Z) : value := VObject [("id", json_int n)].

Lemma clipped_array_keeps_records_witness :
  parse_array (H := braced_json) no_msg
    ("[" +:+ items_text [(braced_print (demo_row 1), ", "); (braced_print (demo_row 2), ",")] +:+ " {01") true
  = Ok [demo_row 1; demo_row 2].
Proof.
  assert (∀ s, forallb (λ a, negb (Ascii.eqb a dquote || Ascii.eqb a "{" || Ascii.eqb a "}")) (bytes s) = true →
    inert s ∧ lexed s) as Hplain.
  { induction s as [|a s IH]; [split; constructor|]. cbn [bytes String.list_ascii_of_string forallb].
    intros [Ha Hs]%andb_true_iff. destruct (IH Hs) as [H1 H2]. assert (plain_char a) as Hp.
    { apply negb_true_iff, orb_false_iff in Ha as [[H3 H4]%orb_false_iff H5].
      split_and!; intros ->; discriminate. }
    split; by constructor. }
  refine (clipped_array_keeps_records (H := braced_json) no_msg "["
    [(braced_print (demo_row 1), ", "); (braced_print (demo_row 2), ",")] " {01" [demo_row 1; demo_row 2] _ _ _ _ _).
  - by apply Hplain.
  - assert (∀ n, (0 <= n < 3)%Z → object_text (braced_print (demo_row n))) as Ho.
    { intros n Hn. exists (bits_print (demo_row n)). split; [|reflexivity]. apply Hplain.
      assert (n = 0 ∨ n = 1 ∨ n = 2) as [->|[->| ->]] by lia; vm_compute; reflexivity. }
    constructor; [split; [apply Ho; lia|apply Hplain; reflexivity]|].
    constructor; [split; [apply Ho; lia|apply Hplain; reflexivity]|constructor].
  - exists " ", "{01". split_and!; [reflexivity|by apply Hplain|]. right. exists "}". split; [discriminate|].
    exists "01". split; [by apply Hplain|reflexivity].
  - vm_compute. reflexivity.
  - constructor; [vm_compute; reflexivity|]. constructor; [vm_compute; reflexivity|constructor].
Defined.

Lemma json_sample_is_a_preview_witness :
  let r := sample (H := braced_json) no_msg never never
             (braced_print (demo_row 1) +:+ String (ascii_of_N 10) (braced_print (demo_row 2))) 1 false in
  ∃ p, r = Ok p ∧ map VObject (sp_rows p) = [demo_row 1] ∧ sp_truncated p = true.
Proof.
  intros r. assert (is_ok r = true) as Hok by (vm_compute; reflexivity).
  destruct r as [p|e] eqn:Hr; [|discriminate Hok]. exists p. split; [reflexivity|].
  destruct (json_sample_is_a_preview (H := braced_json) _ _ _ _ _ _ _ Hr) as (records & Hrec & _ & Hrows & _ & _ & Ht & _).
  assert (read_records (H := braced_json) no_msg
    (braced_print (demo_row 1) +:+ String (ascii_of_N 10) (braced_print (demo_row 2))) false
    = Ok [demo_row 1; demo_row 2]) as Hrec' by (vm_compute; reflexivity).
  rewrite Hrec' in Hrec. injection Hrec as <-. split; [exact Hrows|]. apply Ht. right. cbn. lia.
Defined.
