(* ===== verification/SampleCsv.v ===== *)
(** * The CSV sampler: [apps/api/src/sampling/csv.rs]

    Delimiter detection is the source's; splitting the text into a header and
    records is the [csv] crate's and a parameter: for a delimiter, the header
    record and the stream of records, each with its possible error. *)
From S2P Require Import Prelude RustStr Json Sampling SampleJson.
From Stdlib Require Import Ascii.

(** [line.iter().filter(|b| **b == c).count() as i32] *)
Definition count_byte (c : ascii) (line : string) : Z :=
  Z.of_nat (length (List.filter (λ b, Ascii.eqb b c) (bytes line))).

Definition tab : ascii := ascii_of_N 9.
Definition candidates : list ascii := [","%char; ";"%char; tab; "|"%char].

Definition first_line (input : string) : string :=
  default EmptyString (List.find (λ l, negb (is_empty l)) (split_char (ascii_of_N 10) input)).

Definition better (line : string) (best : ascii * Z) (c : ascii) : ascii * Z :=
  let count := count_byte c line in if best.2 <? count then (c, count) else best.

Definition detect_delimiter (input : string) : ascii :=
  (fold_left (better (first_line input)) candidates (","%char, -1)).1.

Record CsvReader : Type := mkCsv { csv_headers : result string (list string); csv_records : list (result string (list string)) }.

(** [record.get(i).unwrap_or("")] *)
Definition cell (record : list string) (i : nat) : string := default EmptyString (record !! i).

Definition cell_value (s : string) : value := if is_empty s then VNull else VString s.

(** The row of a record: the headers' keys, inserted in order. *)
Definition csv_row (headers record : list string) : jmap :=
  obj_entries (imap (λ i h, (h, cell_value (cell record i))) headers).

Section Sampler.
Context (read_csv : ascii → string → CsvReader).
Context (rfc3339_ok date_ok : string → bool).

(** The loop: the records read so far, and whether the sample is truncated. *)
Fixpoint read_rows (row_cap : nat) (truncated_input truncated : bool) (got : list (list string))
    (records : list (result string (list string))) : Sampled (list (list string) * bool) :=
  match records with
  | [] => Ok (got, truncated)
  | r :: records =>
      if (length got =? row_cap)%nat then Ok (got, true)
      else
        match r with
        | Ok rec => read_rows row_cap truncated_input truncated (got ++ [rec]) records
        | Err e =>
            if truncated_input then Ok (got, true)
            else Err (SInvalid "csv" ("row " +:+ show_Z (Z.of_nat (length got) + 1) +:+ ": " +:+ e))
        end
  end.

Definition csv_column (records : list (list string)) (i : nat) (name : string) : SampleColumn :=
  let raw := map (λ record, cell record i) records in
  mkColumn name (infer_column_type rfc3339_ok date_ok raw) (existsb is_empty raw).

Definition sample (input : string) (row_cap : nat) (truncated_input : bool) : Sampled SampleResult :=
  if is_empty input then Err SEmpty
  else
    let reader := read_csv (detect_delimiter input) input in
    headers ← map_err (λ e, SInvalid "csv" ("reading header: " +:+ e)) (csv_headers reader);
    if is_nil headers then Err (SInvalid "csv" "no header row")
    else
      p ← read_rows row_cap truncated_input truncated_input [] (take (row_cap + 1) (csv_records reader));
      Ok (mkSample "csv" (imap (csv_column p.1) headers) (map (csv_row headers) p.1)
            (Z.of_nat (length p.1)) p.2 (str_len input)).
End Sampler.

(** ** Theorems *)

Lemma fold_better line l best :
  let r := fold_left (better line) l best in
  best.2 ≤ r.2 ∧ (∀ c, c ∈ l → count_byte c line ≤ r.2) ∧
  (r = best ∨ r.1 ∈ l ∧ r.2 = count_byte r.1 line).
Proof.
  revert best. induction l as [|c l IH]; intros best; cbn [fold_left].
  - cbv zeta. split_and!; [lia|set_solver|by left].
  - destruct (IH (better line best c)) as (H1 & H2 & H3). cbv zeta in *.
    set (r := fold_left (better line) l (better line best c)) in *.
    assert (best.2 ≤ (better line best c).2 ∧ count_byte c line ≤ (better line best c).2
            ∧ (better line best c = best ∨ better line best c = (c, count_byte c line))) as (H4 & H5 & H6).
    { unfold better. destruct (Z.ltb_spec best.2 (count_byte c line)); cbn; split_and!; first [lia|by left|by right|done]. }
    split_and!; [lia| |].
    + intros x [->|Hx]%elem_of_cons; [lia|by apply H2].
    + destruct H3 as [->|[H3 H3']]; [|right; set_solver].
      destruct H6 as [->| ->]; [by left|right]. cbn. set_solver.
Qed.

(** The detected delimiter is the candidate that occurs most often on the
    first non-empty line, and the comma when no candidate occurs more often
    than it. *)
Theorem delimiter_is_most_frequent input :
  let d := detect_delimiter input in
  d ∈ candidates ∧
  (∀ c, c ∈ candidates → count_byte c (first_line input) ≤ count_byte d (first_line input)) ∧
  ((∀ c, c ∈ candidates → count_byte c (first_line input) ≤ count_byte "," (first_line input)) → d = ","%char).
Proof.
  intros d. set (line := first_line input) in *.
  assert (∀ c, 0 ≤ count_byte c line) as H0 by (intros c; unfold count_byte; lia).
  assert (better line (","%char, -1) ","%char = (","%char, count_byte "," line)) as Hb0.
  { unfold better. cbn [fst snd]. specialize (H0 ","%char). by destruct (Z.ltb_spec (-1) (count_byte "," line)); [|lia]. }
  assert (fold_left (better line) candidates (","%char, -1)
          = fold_left (better line) [";"%char; tab; "|"%char] (","%char, count_byte "," line)) as Hf.
  { unfold candidates. cbn [fold_left]. by rewrite Hb0. }
  assert (d = (fold_left (better line) [";"%char; tab; "|"%char] (","%char, count_byte "," line)).1) as Hd.
  { unfold d, detect_delimiter. fold line. by rewrite Hf. }
  destruct (fold_better line [";"%char; tab; "|"%char] (","%char, count_byte "," line)) as (H1 & H2 & H3).
  cbv zeta in *. clear Hf. set (r := fold_left (better line) _ _) in *. cbn [snd] in H1.
  assert (d ∈ candidates ∧ r.2 = count_byte d line) as [Hin Hc].
  { rewrite Hd. destruct H3 as [Hr|[Hin Hr]].
    - rewrite Hr. cbn [fst snd]. split; [left|reflexivity].
    - split; [by right|exact Hr]. }
  split_and!; [done| |].
  - intros c [->|Hx]%elem_of_cons; [lia|]. rewrite <- Hc. by apply H2.
  - intros Hmax. rewrite Hd. unfold r. cbn [fold_left].
    assert (∀ c, c ∈ candidates → better line (","%char, count_byte "," line) c = (","%char, count_byte "," line)) as Hb.
    { intros c Hcc. unfold better. cbn. specialize (Hmax c Hcc).
      destruct (Z.ltb_spec (count_byte "," line) (count_byte c line)); [lia|done]. }
    by rewrite !Hb by (unfold candidates; set_solver).
Qed.

Lemma read_rows_spec row_cap trunc tr got records got' t :
  read_rows row_cap trunc tr got (take (row_cap + 1 - length got) records) = Ok (got', t) →
  (length got ≤ row_cap)%nat → (trunc = true → tr = true) →
  ∃ more, got' = got ++ more ∧ map Ok more `prefix_of` records ∧ (length got' ≤ row_cap)%nat ∧
    (t = true ↔ tr = true ∨ (length more < length records)%nat) ∧
    (trunc = false → (length more < length records)%nat → length got' = row_cap).
Proof.
  revert got. induction records as [|r records IH]; intros got.
  - rewrite take_nil. cbn. intros [= <- <-] Hl Ht. exists []. rewrite app_nil_r. cbn. split_and!; try done.
    + split; [by left|]. intros [?|?]; [done|lia].
    + intros; lia.
  - intros Hr Hl Ht. destruct (row_cap + 1 - length got)%nat as [|k] eqn:Hk; [lia|].
    cbn [take read_rows] in Hr. destruct (Nat.eqb_spec (length got) row_cap) as [He|He].
    + injection Hr as <- <-. exists []. rewrite app_nil_r. cbn. split_and!; try done; [apply prefix_nil|].
      split; [intros _; right; lia|done].
    + destruct r as [rec|e].
      * assert (k = (row_cap + 1 - length (got ++ [rec]))%nat) as -> by (rewrite length_app; cbn; lia).
        destruct (IH _ Hr) as (more & -> & Hp & Hc & Hi & Hf); [rewrite length_app; cbn; lia|done|].
        exists (rec :: more). rewrite <- app_assoc in *. cbn in *. split_and!; try done.
        -- by apply prefix_cons.
        -- rewrite Hi. by rewrite <- Nat.succ_lt_mono.
        -- intros Hff Hlt. apply Hf; [done|lia].
      * destruct trunc; [|done]. injection Hr as <- <-. exists []. rewrite app_nil_r. cbn.
        split_and!; try done; [apply prefix_nil|]. split; [intros _; left; by apply Ht|done].
Qed.

Lemma csv_rows_bound read_csv rfc3339_ok date_ok input row_cap trunc r :
  sample read_csv rfc3339_ok date_ok input row_cap trunc = Ok r → (length (sp_rows r) ≤ row_cap)%nat.
Proof.
  unfold sample. destruct (is_empty input); [done|]. cbv zeta. intros (headers & _ & Hr)%result_bind_ok.
  destruct (is_nil headers); [done|]. apply result_bind_ok in Hr as ([got t] & Hr & [= <-]).
  cbn [sp_rows fst]. rewrite length_map.
  pose proof (read_rows_spec row_cap trunc trunc [] (csv_records (read_csv (detect_delimiter input) input)) got t) as Hs.
  cbn [length] in Hs. rewrite Nat.sub_0_r in Hs. by destruct (Hs Hr ltac:(lia) id) as (more & _ & _ & Hc & _).
Qed.

Section Theorems.
Context (read_csv : ascii → string → CsvReader) (rfc3339_ok date_ok : string → bool).

(** A CSV sample is a faithful preview: its rows are those of the first
    records, at most [row_cap] of them and exactly that many when the file
    has more and was read whole, one cell per header with missing and empty
    cells null; it is marked truncated exactly when the input was cut or
    holds more records than the cap; and every column is named by its header,
    nullable exactly when a row has no value there, and typed from all the
    rows' cells. *)
Theorem csv_sample_is_a_preview input row_cap truncated_input r :
  sample read_csv rfc3339_ok date_ok input row_cap truncated_input = Ok r →
  let reader := read_csv (detect_delimiter input) input in
  ∃ headers records, csv_headers reader = Ok headers ∧ headers ≠ [] ∧
    map Ok records `prefix_of` csv_records reader ∧ (length records ≤ row_cap)%nat ∧
    (truncated_input = false → length records = min row_cap (length (csv_records reader))) ∧
    sp_rows r = map (csv_row headers) records ∧ sp_row_count r = Z.of_nat (length (sp_rows r)) ∧
    (sp_truncated r = true ↔ truncated_input = true ∨ (row_cap < length (csv_records reader))%nat) ∧
    map col_name (sp_columns r) = headers ∧
    ∀ i c, sp_columns r !! i = Some c →
      col_type c = infer_column_type rfc3339_ok date_ok (map (λ rec, cell rec i) records) ∧
      (col_nullable c = true ↔ ∃ rec, rec ∈ records ∧ cell rec i = EmptyString).
Proof.
  unfold sample. destruct (is_empty input); [done|]. cbv zeta. intros (headers & Hh & Hr)%result_bind_ok.
  apply map_err_Ok in Hh. exists headers. destruct (is_nil headers) eqn:Hn; [done|].
  apply result_bind_ok in Hr as ([got t] & Hr & [= <-]). cbn [fst snd] in *. exists got.
  pose proof (read_rows_spec row_cap truncated_input truncated_input [] (csv_records (read_csv (detect_delimiter input) input)) got t) as Hs.
  cbn [length] in Hs. rewrite Nat.sub_0_r in Hs. destruct (Hs Hr ltac:(lia) id) as (more & -> & Hp & Hc & Hi & Hf).
  cbn [app sp_rows sp_row_count sp_truncated sp_columns] in *.
  pose proof (prefix_length _ _ Hp) as Hpl. rewrite length_map in Hpl.
  split_and!; try done.
  - by destruct headers.
  - intros Hff. specialize (Hf Hff). destruct (decide (length more = length (csv_records (read_csv (detect_delimiter input) input)))); lia.
  - by rewrite length_map.
  - rewrite Hi. destruct truncated_input; [naive_solver|]. specialize (Hf eq_refl). split; intros [?|?]; try done; right; lia.
  - apply list_eq. intros i. rewrite list_lookup_fmap, list_lookup_imap. by destruct (headers !! i).
  - intros i c. rewrite list_lookup_imap. intros (h & Hh' & ->)%fmap_Some. cbn. split; [done|].
    rewrite existsb_exists. setoid_rewrite in_map_iff. setoid_rewrite list_elem_of_In. split.
    + intros (s & (rec & <- & Hrec) & He). exists rec. split; [done|]. by destruct (cell rec i).
    + intros (rec & Hrec & He). exists EmptyString. split; [|done]. by exists rec.
Qed.
End Theorems.

(** ** Witness *)
Definition demo_reader (_ : ascii) (_ : string) : CsvReader :=
  mkCsv (Ok ["id"; "email"]) [Ok ["1"; "ada@example.com"]; Ok ["2"]; Ok ["3"; "x"]].

Lemma csv_sample_is_a_preview_witness :
  ∃ r, sample demo_reader never never "id;email" 2 false = Ok r ∧ sp_truncated r = true ∧
    ∃ c, sp_columns r !! 1%nat = Some c ∧ col_nullable c = true.
Proof.
  destruct (sample demo_reader never never "id;email" 2 false) as [r|e] eqn:Hr; [|vm_compute in Hr; discriminate Hr].
  exists r. split; [reflexivity|].
  destruct (csv_sample_is_a_preview demo_reader never never _ _ _ _ Hr)
    as (headers & records & _ & _ & Hp & _ & Hl & _ & _ & Ht & Hn & Hc).
  split; [apply Ht; right; cbn; lia|].
  destruct (sp_columns r !! 1%nat) as [c|] eqn:Hcol.
  - exists c. split; [reflexivity|]. apply (Hc 1%nat c Hcol). exists ["2"]. split; [|reflexivity].
    specialize (Hl eq_refl). cbn in Hl, Hp.
    destruct records as [|r1 [|r2 records]]; [discriminate Hl..|].
    destruct Hp as [k Hk]. injection Hk as _ <- _. right. left.
  - exfalso. vm_compute in Hr. injection Hr as <-. vm_compute in Hcol. discriminate Hcol.
Defined.
