(* ===== verification/SampleXml.v ===== *)
(** * The XML sampler: [apps/api/src/sampling/xml.rs]

    quick-xml's reader is a parameter: for an input, the events it gives
    (with [trim_text]) before the end of the input, each with its possible
    error.  An attribute comes with its local name and its decoded value, when
    it decodes; undecodable attribute syntax is already dropped
    ([attributes().flatten()]). *)
From S2P Require Import Prelude RustStr Json Sampling SampleJson.
From Stdlib Require Import Ascii.

Abbreviation Attrs := (list (string * option string)).

Inductive Event : Type :=
  | EvStart (name : string) (attrs : Attrs)
  | EvEnd
  | EvEmpty (name : string) (attrs : Attrs)
  | EvText (unescaped : result string string)
  | EvOther.

Abbreviation Events := (list (result string Event)).

Definition utf8_or_empty (s : string) : string := default EmptyString (from_utf8 s).

Definition is_colon (a : ascii) : bool := Ascii.eqb a ":".
Definition local_name (qname : string) : string := rsplit_next is_colon (utf8_or_empty qname).
Definition local_name_eq (qname wanted : string) : bool := (local_name qname =? wanted)%string.

Definition attr_entry (a : string * option string) : string * value :=
  ("@" +:+ utf8_or_empty a.1, VString (default EmptyString a.2)).
Definition attr_map (attrs : Attrs) : jmap := obj_entries (map attr_entry attrs).

Definition simplify (m : jmap) : value :=
  match m with
  | [_] => match map_get "$text" m with Some v => v | None => VObject m end
  | _ => VObject m
  end.

Definition insert_first_only (out : jmap) (key : string) (v : value) : jmap :=
  if map_contains key out then out else map_insert key v out.

Definition text_entry (txt : string) (out : jmap) : jmap :=
  if is_empty (trim txt) then out else map_insert "$text" (VString txt) out.

Definition empty_value (attrs : Attrs) : value :=
  let child := attr_map attrs in if is_nil child then VNull else simplify child.

(** [decode_record], with the events left after the element.  The recursion
    goes through nested elements; [None] is out of fuel. *)
Fixpoint decode_record (fuel : nat) (evs : Events) (out : jmap) : option (result string (jmap * Events)) :=
  match fuel with
  | O => None
  | S fuel =>
      match evs with
      | [] => Some (Ok (out, []))
      | Err e :: _ => Some (Err e)
      | Ok EvEnd :: evs => Some (Ok (out, evs))
      | Ok (EvStart name attrs) :: evs =>
          r ← decode_record fuel evs (attr_map attrs);
          match r with
          | Err e => Some (Err e)
          | Ok (child, evs) => decode_record fuel evs (insert_first_only out (local_name name) (simplify child))
          end
      | Ok (EvText (Err e)) :: _ => Some (Err e)
      | Ok (EvText (Ok txt)) :: evs => decode_record fuel evs (text_entry txt out)
      | Ok (EvEmpty name attrs) :: evs =>
          decode_record fuel evs (insert_first_only out (local_name name) (empty_value attrs))
      | Ok EvOther :: evs => decode_record fuel evs out
      end
  end.

Definition decode (evs : Events) (out : jmap) : result string (jmap * Events) :=
  default (Err EmptyString) (decode_record (S (length evs)) evs out).

Fixpoint read_next_record (tag : string) (evs : Events) : result string (option (jmap * Events)) :=
  match evs with
  | [] => Ok None
  | Err e :: _ => Err e
  | Ok (EvStart name attrs) :: evs =>
      if local_name_eq name tag then p ← decode evs (attr_map attrs); Ok (Some p)
      else read_next_record tag evs
  | Ok _ :: evs => read_next_record tag evs
  end.

(** The loop: [room] more rows are wanted. *)
Fixpoint sample_loop (tag : string) (truncated_input : bool) (room : nat) (evs : Events) (rows : list jmap)
    (truncated : bool) : Sampled (list jmap * bool) :=
  match read_next_record tag evs with
  | Err e => if truncated_input then Ok (rows, true) else Err (SInvalid "xml" e)
  | Ok None => Ok (rows, truncated)
  | Ok (Some (row, evs)) =>
      match room with
      | O => Ok (rows, true)
      | S room => sample_loop tag truncated_input room evs (rows ++ [row]) truncated
      end
  end.

Section Sampler.
Context `{JsonText} (read_xml : string → Events) (rfc3339_ok date_ok : string → bool).

Definition sample (input : string) (row_cap : nat) (record_tag : string) (truncated_input : bool)
    : Sampled SampleResult :=
  if is_empty input then Err SEmpty
  else
    let tag := if is_empty record_tag then "record" else record_tag in
    p ← sample_loop tag truncated_input row_cap (read_xml input) [] truncated_input;
    if is_nil p.1 then Err (SInvalid "xml" ("no <" +:+ tag +:+ "> records found"))
    else
      Ok (mkSample "xml" (columns_of rfc3339_ok date_ok to_json_string p.1) p.1
            (Z.of_nat (length p.1)) p.2 (str_len input)).
End Sampler.

(** ** Theorems *)

(** C35: the XML decoder terminates on every event stream, well-formed or not:
    the fuel it is given is enough, it only moves forward, and any larger fuel
    gives the same answer. *)
Theorem xml_decoder_terminates evs out :
  ∃ r, decode_record (S (length evs)) evs out = Some r ∧ decode evs out = r ∧
    (∀ m rest, r = Ok (m, rest) → (length rest ≤ length evs)%nat) ∧
    ∀ fuel, (length evs < fuel)%nat → decode_record fuel evs out = Some r.
Proof.
  assert (∀ n evs out, (length evs < n)%nat → ∃ r,
    (∀ m rest, r = Ok (m, rest) → (length rest ≤ length evs)%nat) ∧
    ∀ fuel, (length evs < fuel)%nat → decode_record fuel evs out = Some r) as Hall.
  { clear. induction n as [|n IH]; intros evs out Hn; [lia|].
    assert (∀ r, (∀ m rest, r = Ok (m, rest) → (length rest ≤ length evs)%nat) →
      (∀ fuel, decode_record (S fuel) evs out = Some r) → ∃ r,
      (∀ m rest, r = Ok (m, rest) → (length rest ≤ length evs)%nat) ∧
      ∀ fuel, (length evs < fuel)%nat → decode_record fuel evs out = Some r) as Hone.
    { intros r H1 H2. exists r. split; [done|]. intros [|fuel] Hf; [lia|apply H2]. }
    assert (∀ a evs' out', evs = a :: evs' →
      (∀ fuel, decode_record (S fuel) evs out = decode_record fuel evs' out') → ∃ r,
      (∀ m rest, r = Ok (m, rest) → (length rest ≤ length evs)%nat) ∧
      ∀ fuel, (length evs < fuel)%nat → decode_record fuel evs out = Some r) as Htail.
    { intros a evs' out' -> Heq. cbn in Hn. destruct (IH evs' out' ltac:(lia)) as (r & H1 & H2). exists r. split.
      - intros m rest Hr. specialize (H1 m rest Hr). cbn. lia.
      - intros [|fuel] Hf; [cbn in Hf; lia|]. rewrite Heq. apply H2. cbn in Hf. lia. }
    destruct evs as [|[[name attrs| |name attrs|[txt|e]|]|e] evs].
    - apply (Hone (Ok (out, []))); [|done]. by intros m rest [= _ <-].
    - cbn in Hn. destruct (IH evs (attr_map attrs) ltac:(lia)) as (r & H1 & H2). destruct r as [[child evs']|e].
      + specialize (H1 _ _ eq_refl).
        destruct (IH evs' (insert_first_only out (local_name name) (simplify child)) ltac:(lia)) as (r' & H3 & H4).
        exists r'. split.
        * intros m rest Hr. specialize (H3 m rest Hr). cbn. lia.
        * intros [|fuel] Hf; cbn in Hf; [lia|]. cbn. rewrite H2 by lia. cbn. apply H4. lia.
      + exists (Err e). split; [done|]. intros [|fuel] Hf; cbn in Hf; [lia|]. cbn. by rewrite H2 by lia.
    - apply (Hone (Ok (out, evs))); [|done]. intros m rest [= _ <-]. cbn. lia.
    - by eapply Htail.
    - by eapply Htail.
    - by apply (Hone (Err e)).
    - by eapply Htail.
    - by apply (Hone (Err e)). }
  destruct (Hall (S (length evs)) evs out ltac:(lia)) as (r & H1 & H2). exists r.
  unfold decode. rewrite H2 by lia. by split_and!.
Qed.

(** *** Documents *)
Inductive node : Type :=
  | Elem (name : string) (attrs : Attrs) (kids : list node)
  | Leaf (name : string) (attrs : Attrs)
  | Text (txt : string)
  | Other.

Lemma node_ind' (P : node → Prop) :
  (∀ name attrs kids, Forall P kids → P (Elem name attrs kids)) →
  (∀ name attrs, P (Leaf name attrs)) → (∀ txt, P (Text txt)) → P Other → ∀ x, P x.
Proof.
  intros He Hl Ht Ho. fix IH 1. intros [name attrs kids|name attrs|txt|]; [|done..].
  apply He. induction kids as [|x kids IHk]; constructor; [apply IH|apply IHk].
Qed.

(** The events of a well-formed document. *)
Fixpoint node_events (x : node) : list Event :=
  match x with
  | Elem name attrs kids => EvStart name attrs :: flat_map node_events kids ++ [EvEnd]
  | Leaf name attrs => [EvEmpty name attrs]
  | Text txt => [EvText (Ok txt)]
  | Other => [EvOther]
  end.
Definition nodes_events (l : list node) : Events := map Ok (flat_map node_events l).

(** What the decoder's own steps make of a document. *)
Fixpoint insert_node (out : jmap) (x : node) : jmap :=
  match x with
  | Elem name attrs kids =>
      insert_first_only out (local_name name) (simplify (fold_left insert_node kids (attr_map attrs)))
  | Leaf name attrs => insert_first_only out (local_name name) (empty_value attrs)
  | Text txt => text_entry txt out
  | Other => out
  end.

(** *** The value of an element

    The reference, by recursion on the document.  An element is the object of
    its fields, a later field of the list replacing an earlier one of the same
    name: its children backwards, so that the first of repeated children is the
    one that stays; its attributes, keyed by [@]; its texts that are not blank,
    the last of which is its [$text].  An element that has nothing but text is
    that text, and an empty-element tag without attributes is null. *)
Definition attr_fields (attrs : Attrs) : list (string * value) :=
  map (λ '(name, v), ("@" +:+ utf8_or_empty name, VString (default EmptyString v))) attrs.
Definition text_fields (kids : list node) : list (string * value) :=
  flat_map (λ x, match x with Text txt => if is_empty (trim txt) then [] else [("$text", VString txt)] | _ => [] end) kids.

Fixpoint node_value (x : node) : value :=
  match x with
  | Elem _ attrs kids =>
      let children :=
        flat_map (λ x, match x with Elem name _ _ | Leaf name _ => [(local_name name, node_value x)] | _ => [] end) kids in
      match obj_entries (rev children ++ attr_fields attrs ++ text_fields kids) with
      | [(k, v)] => if (k =? "$text")%string then v else VObject [(k, v)]
      | m => VObject m
      end
  | Leaf _ [] => VNull
  | Leaf _ attrs => VObject (obj_entries (attr_fields attrs))
  | Text txt => VString txt
  | Other => VNull
  end.

Definition child_fields (kids : list node) : list (string * value) :=
  flat_map (λ x, match x with Elem name _ _ | Leaf name _ => [(local_name name, node_value x)] | _ => [] end) kids.
(** The row of a record element. *)
Definition record_value (attrs : Attrs) (kids : list node) : jmap :=
  obj_entries (rev (child_fields kids) ++ attr_fields attrs ++ text_fields kids).

Lemma obj_entries_keys l : keys_sorted (obj_entries l) = true.
Proof.
  unfold obj_entries. assert (∀ m, keys_sorted m = true →
    keys_sorted (fold_left (λ m kv, map_insert kv.1 kv.2 m) l m) = true) as H; [|by apply H].
  induction l as [|kv l IH]; intros m Hm; [done|]. apply IH. by apply map_insert_sorted.
Qed.

Lemma map_get_below k m : Forall (λ kv, String.compare k kv.1 = Lt) m → map_get k m = None.
Proof.
  induction 1 as [|[k1 v1] m Hk _ IH]; [done|]. cbn in *. destruct (String.eqb_spec k k1) as [->|]; [|done].
  by rewrite compare_refl in Hk.
Qed.

(** Sorted objects with the same fields are the same. *)
Lemma sorted_map_ext m m' :
  keys_sorted m = true → keys_sorted m' = true → (∀ k, map_get k m = map_get k m') → m = m'.
Proof.
  revert m'. induction m as [|[k v] m IH]; intros [|[k' v'] m'] Hs Hs' Hg; [done|..].
  - specialize (Hg k'). cbn in Hg. by rewrite String.eqb_refl in Hg.
  - specialize (Hg k). cbn in Hg. by rewrite String.eqb_refl in Hg.
  - apply keys_sorted_head in Hs as [Hb Hs], Hs' as [Hb' Hs'].
    assert (k = k') as ->.
    { destruct (String.compare k k') eqn:Hc; [by apply String.compare_eq_iff| |].
      - pose proof (Hg k) as Hk. cbn in Hk. rewrite String.eqb_refl in Hk.
        destruct (String.eqb_spec k k') as [->|_]; [done|]. rewrite map_get_below in Hk; [done|].
        eapply list.Forall_impl; [exact Hb'|]. intros kv. by apply compare_lt_trans.
      - pose proof (Hg k') as Hk. cbn in Hk. rewrite String.eqb_refl in Hk.
        destruct (String.eqb_spec k' k) as [->|_]; [done|]. rewrite map_get_below in Hk; [done|].
        eapply list.Forall_impl; [exact Hb|]. intros kv. apply compare_lt_trans.
        by rewrite String.compare_antisym, Hc. }
    pose proof (Hg k') as Hk. cbn in Hk. rewrite String.eqb_refl in Hk. injection Hk as ->. f_equal.
    apply IH; [done..|]. intros i. specialize (Hg i). cbn in Hg.
    destruct (String.eqb_spec i k') as [Hi|]; [|done]. by rewrite Hi, !map_get_below.
Qed.

(** The first child of a name stays. *)
Lemma obj_entries_first k v l : obj_entries ((k, v) :: l) = insert_first_only (obj_entries l) k v.
Proof.
  apply sorted_map_ext; [apply obj_entries_keys| |].
  - unfold insert_first_only. destruct (map_contains _ _); [|apply map_insert_sorted]; apply obj_entries_keys.
  - intros k'. rewrite map_get_entries. unfold insert_first_only, map_contains. rewrite map_get_entries. cbn.
    destruct (assoc_last k l) as [w|] eqn:Hk.
    + rewrite map_get_entries. destruct (String.eqb_spec k' k) as [->|]; [by rewrite Hk|apply opt_or_None_r].
    + destruct (String.eqb_spec k' k) as [->|Hne]; [by rewrite Hk, map_get_insert|].
      rewrite map_get_insert_ne by done. rewrite map_get_entries. apply opt_or_None_r.
Qed.

Lemma obj_entries_snoc l k v : obj_entries (l ++ [(k, v)]) = map_insert k v (obj_entries l).
Proof. unfold obj_entries. by rewrite fold_left_app. Qed.

Lemma attr_fields_entries attrs : map attr_entry attrs = attr_fields attrs.
Proof. unfold attr_fields. apply map_ext. by intros []. Qed.

(** No attribute is a text. *)
Lemma attr_text attrs : map_get "$text" (obj_entries (attr_fields attrs)) = None.
Proof. rewrite map_get_entries. induction attrs as [|[n v] attrs IH]; [done|].
  change (opt_or (assoc_last "$text" (attr_fields attrs)) None = None). by rewrite IH.
Qed.

Lemma empty_value_leaf name attrs : empty_value attrs = node_value (Leaf name attrs).
Proof.
  unfold empty_value, attr_map. rewrite attr_fields_entries. pose proof (attr_text attrs) as Ht. cbn [node_value].
  destruct attrs as [|a attrs]; [done|]. destruct (obj_entries (attr_fields (a :: attrs))) as [|kv m] eqn:Hm.
  - exfalso. pose proof (f_equal (map_get (fst (attr_entry a))) Hm) as Hg. rewrite map_get_entries in Hg.
    destruct a as [n v]. cbn in Hg. rewrite String.eqb_refl in Hg. by destruct (assoc_last _ _).
  - unfold simplify. cbn [is_nil]. destruct m; [|done]. by rewrite Ht.
Qed.

Lemma simplify_fields m : simplify m = match m with
  | [(k, v)] => if (k =? "$text")%string then v else VObject [(k, v)] | m => VObject m end.
Proof. destruct m as [|[k v] [|]]; [done| |done].
  unfold simplify. cbn [map_get]. rewrite String.eqb_sym. by destruct (k =? "$text")%string.
Qed.

(** The decoder's steps give the reference. *)
Lemma fold_kids kids attrs :
  Forall (λ x, ∀ name attrs kids, x = Elem name attrs kids → fold_left insert_node kids (attr_map attrs) = record_value attrs kids) kids →
  fold_left insert_node kids (attr_map attrs) = record_value attrs kids.
Proof.
  intros Hk. induction kids as [|x kids IH] using rev_ind.
  { cbn. unfold attr_map, record_value. by rewrite attr_fields_entries, app_nil_r. }
  apply Forall_app in Hk as [Hk Hx]. apply Forall_cons_iff in Hx as [Hx _].
  rewrite fold_left_app, (IH Hk). clear IH. cbn [fold_left]. unfold record_value, child_fields, text_fields.
  rewrite !flat_map_app, rev_app_distr. cbn [flat_map].
  destruct x as [name' attrs' kids'|name' attrs'|txt|]; cbn [insert_node]; rewrite ?app_nil_r; cbn [rev app].
  - rewrite obj_entries_first, (Hx _ _ _ eq_refl), simplify_fields.
    unfold record_value, child_fields. cbn [node_value]. f_equal. by destruct (obj_entries _) as [|[k v] [|]].
  - by rewrite obj_entries_first, (empty_value_leaf name').
  - unfold text_entry. destruct (is_empty (trim txt)); [by rewrite app_nil_r|].
    by rewrite !app_assoc, obj_entries_snoc.
  - done.
Qed.

Lemma fold_record_value x name attrs kids :
  x = Elem name attrs kids → fold_left insert_node kids (attr_map attrs) = record_value attrs kids.
Proof.
  revert name attrs kids. induction x as [n a k IH|n a|t|] using node_ind'; intros name attrs kids; [|done..].
  intros [= <- <- <-]. apply fold_kids. exact IH.
Qed.

Lemma decode_node x fuel evs out :
  (length (map (Ok (E:=string)) (node_events x) ++ evs) < fuel)%nat →
  ∃ fuel', (length evs < fuel')%nat ∧
    decode_record fuel (map Ok (node_events x) ++ evs) out = decode_record fuel' evs (insert_node out x).
Proof.
  revert fuel evs out. induction x as [name attrs kids IH|name attrs|txt|] using node_ind';
    intros [|fuel] evs out Hf; cbn in Hf; try lia; try (exists fuel; split; [lia|done]).
  cbn [node_events map app decode_record].
  rewrite map_app, <- app_assoc. cbn [map app].
  assert (∀ evs' fuel out', (length (map (Ok (E:=string)) (flat_map node_events kids) ++ evs') < fuel)%nat →
    ∃ fuel', (length evs' < fuel')%nat ∧
      decode_record fuel (map Ok (flat_map node_events kids) ++ evs') out'
      = decode_record fuel' evs' (fold_left insert_node kids out')) as Hkids.
  { clear - IH. induction IH as [|x kids Hx _ IHk]; intros evs' fuel out' Hf; [by exists fuel|].
    cbn [flat_map fold_left] in *. rewrite map_app, <- app_assoc in *.
    destruct (Hx _ _ out' Hf) as (fuel1 & Hf1 & ->). by apply IHk. }
  assert (length (map (Ok (E:=string)) (flat_map node_events kids) ++ Ok EvEnd :: evs) < fuel)%nat as Hf'.
  { rewrite map_app, <- app_assoc in Hf. exact (proj2 (Nat.succ_lt_mono _ _) Hf). }
  destruct (Hkids _ _ (attr_map attrs) Hf') as ([|fuel1] & Hf1 & ->); [lia|]. cbn in Hf1. cbn [decode_record].
  exists fuel. split; [|done]. rewrite length_app in Hf'. cbn in Hf'. lia.
Qed.

Lemma decode_nodes l evs out :
  decode (nodes_events l ++ Ok EvEnd :: evs) out = Ok (fold_left insert_node l out, evs).
Proof.
  unfold decode.
  assert (∀ fuel out, (length (nodes_events l ++ Ok EvEnd :: evs) < fuel)%nat →
    decode_record fuel (nodes_events l ++ Ok EvEnd :: evs) out = Some (Ok (fold_left insert_node l out, evs))) as H.
  { unfold nodes_events. induction l as [|x l IH]; intros fuel out' Hf.
    - destruct fuel; [cbn in Hf; lia|done].
    - cbn [flat_map fold_left] in *. rewrite map_app, <- app_assoc in *.
      destruct (decode_node _ _ _ out' Hf) as (fuel' & Hf' & ->). by apply IH. }
  by rewrite H by lia.
Qed.

(** What the reader passes between records: no error, no start of a record. *)
Definition between (tag : string) (ev : Event) : Prop :=
  match ev with EvStart name _ => local_name_eq name tag = false | _ => True end.

Definition record_events (name : string) (attrs : Attrs) (kids : list node) : Events :=
  Ok (EvStart name attrs) :: nodes_events kids ++ [Ok EvEnd].

Record RecordDoc : Type := mkRecordDoc { rd_before : list Event; rd_name : string; rd_attrs : Attrs; rd_kids : list node }.

Definition doc_events (docs : list RecordDoc) (rest : list Event) : Events :=
  flat_map (λ r, map Ok (rd_before r) ++ record_events (rd_name r) (rd_attrs r) (rd_kids r)) docs ++ map Ok rest.

Definition doc_ok (tag : string) (r : RecordDoc) : Prop :=
  Forall (between tag) (rd_before r) ∧ local_name_eq (rd_name r) tag = true.

Lemma read_next_between tag before evs :
  Forall (between tag) before → read_next_record tag (map Ok before ++ evs) = read_next_record tag evs.
Proof.
  induction 1 as [|ev before Hev _ IH]; [done|]. cbn. destruct ev; cbn in *; try done. by rewrite Hev.
Qed.

Lemma read_next_docs tag docs rest :
  Forall (doc_ok tag) docs → Forall (between tag) rest →
  read_next_record tag (doc_events docs rest) =
    match docs with
    | [] => Ok None
    | r :: docs => Ok (Some (record_value (rd_attrs r) (rd_kids r), doc_events docs rest))
    end.
Proof.
  intros Hd Hr. destruct Hd as [|[before name attrs kids] docs [Hb Hn] _]; unfold doc_events; cbn [flat_map app].
  - rewrite <- (app_nil_r (map Ok rest)). by rewrite read_next_between.
  - cbn in Hb, Hn. cbn [rd_before rd_name rd_attrs rd_kids]. rewrite <- !app_assoc, read_next_between by done.
    unfold record_events. cbn [app read_next_record]. rewrite Hn, <- app_assoc. cbn [app].
    rewrite decode_nodes. by rewrite (fold_record_value (Elem name attrs kids) name).
Qed.

Lemma sample_loop_docs tag trunc room docs rest rows tr :
  Forall (doc_ok tag) docs → Forall (between tag) rest →
  sample_loop tag trunc room (doc_events docs rest) rows tr =
    Ok (rows ++ map (λ r, record_value (rd_attrs r) (rd_kids r)) (take room docs),
        if (room <? length docs)%nat then true else tr).
Proof.
  intros Hd Hr. revert docs rows Hd. induction room as [|room IH]; intros docs rows Hd;
    cbn [sample_loop]; rewrite read_next_docs by done; destruct docs as [|r docs].
  - by rewrite app_nil_r.
  - cbn. by rewrite app_nil_r.
  - by rewrite app_nil_r.
  - apply Forall_cons_iff in Hd as [_ Hd]. rewrite IH by done. cbn [take map length].
    by rewrite <- app_assoc.
Qed.

Section Theorems.
Context `{JsonText} (read_xml : string → Events) (rfc3339_ok date_ok : string → bool).

(** C34: the XML sampler decodes documents: on the events of a well-formed
    document that holds the records [docs], the rows are the objects of the
    first [row_cap] records: children under their local names, the first of
    repeated ones, attributes under [@name], the last text that is not blank
    under [$text], and a child that has nothing but text hoisted to its text;
    the sample is marked truncated exactly when the input was cut or there are
    more records, and the columns are typed from the values so kept.  (The
    documentation holds the column of a repeated child at string; the code
    infers its type from the first child.) *)
Theorem xml_sample_decodes_documents input row_cap tag truncated_input docs rest :
  input ≠ EmptyString → tag ≠ EmptyString → docs ≠ [] → (0 < row_cap)%nat →
  read_xml input = doc_events docs rest → Forall (doc_ok tag) docs → Forall (between tag) rest →
  ∃ r, sample read_xml rfc3339_ok date_ok input row_cap tag truncated_input = Ok r ∧
    sp_rows r = map (λ d, record_value (rd_attrs d) (rd_kids d)) (take row_cap docs) ∧
    sp_row_count r = Z.of_nat (length (sp_rows r)) ∧
    (sp_truncated r = true ↔ truncated_input = true ∨ (row_cap < length docs)%nat) ∧
    columns_describe (infer_column_type rfc3339_ok date_ok) to_json_string (sp_rows r) (sp_columns r).
Proof.
  intros Hi Ht Hd Hc Hread Hok Hrest. unfold sample.
  destruct input as [|a input]; [done|]. destruct tag as [|b tag]; [done|]. cbn [is_empty]. cbv zeta.
  rewrite Hread, (sample_loop_docs (String b tag)) by done. cbn [mbind result_bind app fst snd].
  destruct docs as [|d docs]; [done|]. destruct row_cap as [|k]; [lia|].
  destruct (is_nil _) eqn:Hn; [done|]. eexists. split; [done|]. cbn [sp_rows sp_row_count sp_truncated sp_columns].
  split_and!; try done.
  - destruct (Nat.ltb_spec (S k) (length (d :: docs))); [naive_solver|]. split; [by left|]. intros [?|?]; [done|lia].
  - apply columns_of_describe.
Qed.
End Theorems.

Lemma sample_loop_bound tag trunc room evs rows tr rows' tr' :
  sample_loop tag trunc room evs rows tr = Ok (rows', tr') → (length rows' ≤ length rows + room)%nat.
Proof.
  revert evs rows. induction room as [|room IH]; intros evs rows; cbn [sample_loop];
    destruct (read_next_record tag evs) as [[[row evs']|]|e]; intros Hr; try (injection Hr as <- <-; lia);
    try (destruct trunc; [injection Hr as <- <-; lia|done]).
  apply IH in Hr. rewrite length_app in Hr. cbn in Hr. lia.
Qed.

Lemma xml_rows_bound `{JsonText} read_xml rfc3339_ok date_ok input row_cap tag trunc r :
  sample read_xml rfc3339_ok date_ok input row_cap tag trunc = Ok r → (length (sp_rows r) ≤ row_cap)%nat.
Proof.
  unfold sample. destruct (is_empty input); [done|]. cbv zeta. intros ([rows t] & Hr & Hs)%result_bind_ok.
  apply sample_loop_bound in Hr. cbn in Hs. destruct (is_nil rows); [done|]. by injection Hs as <-.
Qed.

(** ** Witness *)
Definition person (id name : string) : RecordDoc :=
  mkRecordDoc [EvText (Ok " ")] "record" [("id", Some id)]
    [Elem "name" [] [Text name]; Elem "name" [] [Text "again"]].
Definition demo_xml (_ : string) : Events := doc_events [person "1" "Ada"; person "2" "Bob"] [EvEnd].

Lemma xml_sample_decodes_documents_witness :
  ∃ r, sample (H := bits_json) demo_xml never never "<root>" 1 "record" false = Ok r ∧
    sp_rows r = [[("@id", VString "1"); ("name", VString "Ada")]] ∧ sp_truncated r = true.
Proof.
  destruct (xml_sample_decodes_documents (H := bits_json) demo_xml never never "<root>" 1 "record" false
    [person "1" "Ada"; person "2" "Bob"] [EvEnd]) as (r & Hr & Hrows & _ & Ht & _).
  - discriminate.
  - discriminate.
  - discriminate.
  - lia.
  - reflexivity.
  - repeat constructor.
  - repeat constructor.
  - exists r. split; [exact Hr|]. split; [rewrite Hrows; vm_compute; reflexivity|]. apply Ht. right. cbn. lia.
Defined.
