(* ===== verification/Net.v ===== *)
(** * Handlers that also call other services

    The spec importer, the file routes and the mapping suggestions call a
    resolver, the object store and HTTP servers besides the database.  Their
    state adds to the [World] a script of replies and the list of the requests
    sent; the clients (reqwest, the AWS SDK, tokio's resolver) are seen only
    through these. *)
From S2P Require Import Prelude RustStr Json Error LicenseFile Db World.
From Stdlib Require Import Ascii.

(** [std::net::IpAddr]: octets, or 16-bit segments. *)
Inductive Ip : Type :=
  | V4 (a b c d : Z)
  | V6 (s0 s1 s2 s3 s4 s5 s6 s7 : Z).
#[global] Instance Ip_eq_dec : EqDecision Ip.
Proof. solve_decision. Defined.

Inductive Request : Type :=
  | ReqLookup (host : string) (port : Z)
  | ReqGet (url : string)
  | ReqLlm (url api_key : string) (body : value)
  | ReqPut (bucket key content filename : string)
  | ReqRange (bucket key : string) (last : Z).

(** A failure with its text, or an answer; reading a body may fail too.  A
    [Redirect] is an answer whose Location the client follows, resolved
    against the address asked, with the client's text when it follows no
    further; an answer with a redirection status that has no such Location is
    an [Http]. *)
Inductive Reply : Type :=
  | NoReply (error : string)
  | Redirect (location refusal : string)
  | Addresses (l : list Ip)
  | Http (status : Z) (body : result string string)
  | Stored (etag : option string)
  | Chunk (content_length : option Z) (body : result string string).

Record Net : Type := mkNet { net_world : World; net_replies : list Reply; net_sent : list Request }.

Abbreviation NetM := (stM Net ApiError).

Definition next_answer (n : Net) : Reply := hd (NoReply EmptyString) (net_replies n).

Definition ask (q : Request) : NetM Reply := λ n,
  (Ok (next_answer n), mkNet (net_world n) (tl (net_replies n)) (net_sent n ++ [q])).

(** The handler's statements and bridge calls. *)
Definition api {A} (m : Api A) : NetM A := λ n,
  let '(r, w) := m (net_world n) in (r, mkNet w (net_replies n) (net_sent n)).

Definition reply_error (r : Reply) : string := match r with NoReply e | Redirect _ e => e | _ => EmptyString end.

(** [tokio::net::lookup_host] *)
Definition lookup_host (host : string) (port : Z) : NetM (result string (list Ip)) :=
  r ← ask (ReqLookup host port);
  mret match r with Addresses l => Ok l | r => Err (reply_error r) end.

(** A GET by a client with [Policy::limited(hops)]: the status and the body of
    the last answer. *)
Fixpoint http_get (hops : nat) (url : string) : NetM (result string (Z * result string string)) :=
  r ← ask (ReqGet url);
  match r with
  | Http status body => mret (Ok (status, body))
  | Redirect location refusal =>
      match hops with S hops => http_get hops location | O => mret (Err refusal) end
  | r => mret (Err (reply_error r))
  end.

(** A POST; the client's default redirect policy is not modelled, the reply is
    its final answer. *)
Definition llm_post (url api_key : string) (body : value) : NetM (result string (Z * result string string)) :=
  r ← ask (ReqLlm url api_key body);
  mret match r with Http status body => Ok (status, body) | r => Err (reply_error r) end.

(** S3 [put_object]: the ETag. *)
Definition put_object (bucket key content filename : string) : NetM (result string (option string)) :=
  r ← ask (ReqPut bucket key content filename);
  mret match r with Stored etag => Ok etag | r => Err (reply_error r) end.

(** S3 [get_object] of the bytes [0..=last]. *)
Definition get_range (bucket key : string) (last : Z) : NetM (result string (option Z * result string string)) :=
  r ← ask (ReqRange bucket key last);
  mret match r with Chunk n body => Ok (n, body) | r => Err (reply_error r) end.

(** ** Lemmas *)
Section Wp.
Lemma wp_ask q (Q : ApiResult Reply → Net → Prop) n :
  Q (Ok (next_answer n)) (mkNet (net_world n) (tl (net_replies n)) (net_sent n ++ [q])) → wp (ask q) Q n.
Proof. done. Qed.

Lemma wp_api {A} (m : Api A) (Q : ApiResult A → Net → Prop) n :
  wp m (λ r w, Q r (mkNet w (net_replies n) (net_sent n))) (net_world n) → wp (api m) Q n.
Proof. unfold wp, api. by destruct (m (net_world n)). Qed.

(** A statement or program of which only the run is known. *)
Lemma wp_api_run {A} (m : Api A) (Q : ApiResult A → Net → Prop) n :
  (∀ r w, m (net_world n) = (r, w) → Q r (mkNet w (net_replies n) (net_sent n))) → wp (api m) Q n.
Proof. intros HQ. unfold wp, api. destruct (m (net_world n)) as [r w] eqn:Hm. by apply HQ. Qed.

(** What a GET sends: each request after the first goes where the answer
    before it pointed. *)
Fixpoint get_requests (hops : nat) (url : string) (replies : list Reply) : list Request :=
  ReqGet url ::
  match hops, replies with
  | S hops, Redirect location _ :: rest => get_requests hops location rest
  | _, _ => []
  end.

Lemma wp_http_get hops url n (Q : ApiResult (result string (Z * result string string)) → Net → Prop) :
  (∀ r n', net_world n' = net_world n → net_sent n' = net_sent n ++ get_requests hops url (net_replies n) →
     (∀ status body, r = Ok (status, body) → Http status body ∈ take (S hops) (net_replies n)) → Q (Ok r) n') →
  wp (http_get hops url) Q n.
Proof.
  revert url n. induction hops as [|hops IH]; intros url [w replies sent] HQ; cbn [http_get];
    apply wp_bind, wp_ask; cbn in *; destruct replies as [|[e|l e|a|st b|et|cl b] rest]; cbn;
    try (apply wp_ret, HQ; [done|done|intros ?? [= <- <-]; by left]);
    try (apply wp_ret, HQ; [done|done|by intros ?? [=]]).
  apply IH. cbn. intros r n' Hw Hs Hr. apply HQ; [done|by rewrite Hs, <- app_assoc|].
  intros st b Hb. right. by apply Hr.
Qed.
End Wp.

(** A program that only reads the database and asks the bridge nothing. *)
Definition reads {A} (m : Api A) : Prop := writes (λ d d', d' = d) m ∧ silent m.

Lemma reads_did {A} (m : Api A) w r w' :
  reads m → m w = (r, w') → did (λ d d', d' = d) w w' ∧ w_calls w' = w_calls w.
Proof.
  intros [Hw Hs] Hr. pose proof (writes_did _ m w Hw) as Hd. destruct (Hs w) as [Hc _].
  by rewrite Hr in Hd, Hc.
Qed.

Lemma reads_query {A} (f : Db → A) : reads (query f).
Proof. split; [by apply writes_query|apply silent_query]. Qed.

(** A wp that follows a program that reads. *)
Lemma wp_api_reads {A} (m : Api A) (Q : ApiResult A → Net → Prop) n :
  reads m →
  (∀ r w, m (net_world n) = (r, w) → did (λ d d', d' = d) (net_world n) w → Q r (mkNet w (net_replies n) (net_sent n))) →
  wp (api m) Q n.
Proof. intros Hm HQ. apply wp_api_run. intros r w Hr. apply HQ; [done|]. by eapply reads_did. Qed.
