(* ===== verification/Files.v ===== *)
(** * Files: [apps/api/src/routes/files.rs]

    Upload into the object store under the content's hash, and the sampling
    endpoint.  Multipart parsing (axum), SHA-256 in hex and the parsers of the
    samplers are parameters. *)
From S2P Require Import Prelude RustStr Json Error LicenseFile Db World Sources JobLifecycle JobStart Net Sampling SampleJson SampleCsv SampleXml.
From Stdlib Require Import Ascii.

Record Field : Type := mkField {
  fd_name : option string; fd_file_name : option string; fd_bytes : result string string }.

Record SampleRequest : Type := mkSampleRequest {
  sq_source_id : option Z; sq_bucket : option string; sq_key : string; sq_format : option string;
  sq_rows : option Z; sq_record_tag : option string }.

Record SampleResponse : Type := mkSampleResponse {
  rs_sample : SampleResult; rs_source_id : Z; rs_bucket : string; rs_key : string }.

Definition upload_ref (source_id : Z) (bucket key : string) (size : Z) (sha filename : string) : value := json_obj
  [("source_id", json_int source_id);
   ("source_ref", json_obj
      [("type", VString "minio"); ("source_id", json_int source_id); ("bucket", VString bucket);
       ("key", VString key); ("size", json_int size); ("sha256", VString sha);
       ("filename", VString filename)])].

Definition upload_key (org_id : Z) (sha : string) : string :=
  "uploads/" +:+ show_Z org_id +:+ "/" +:+ String.substring 0 2 sha +:+ "/" +:+ sha.

Definition sniff_format_from_key (key : string) : option string :=
  let lower := to_ascii_lowercase key in
  if ends_with ".csv" lower || ends_with ".tsv" lower then Some "csv"
  else if ends_with ".json" lower then Some "json"
  else if ends_with ".ndjson" lower || ends_with ".jsonl" lower then Some "ndjson"
  else if ends_with ".xml" lower then Some "xml"
  else None.

Definition clamp (lo hi z : Z) : Z := Z.min (Z.max z lo) hi.

Definition sample_row_cap (req : SampleRequest) : Z := clamp 1 MAX_ROW_CAP (default DEFAULT_ROW_CAP (sq_rows req)).

(** The loop over the parts, up to the first one named [file]. *)
Fixpoint file_part (parts : list (result string Field)) : ApiResult Field :=
  match parts with
  | [] => Err (BadRequest "missing file part")
  | Err e :: _ => Err (BadRequest ("multipart: " +:+ e))
  | Ok f :: parts => if bool_decide (fd_name f = Some "file") then Ok f else file_part parts
  end.

Definition source_request (minio_bucket : string) (req : SampleRequest) : ApiResult SourceRequest :=
  match sq_source_id req with
  | Some id => Ok (ById id)
  | None =>
      if is_empty (trim (sq_key req)) then Err (BadRequest "source_id or key is required")
      else Ok (Object (default minio_bucket (sq_bucket req)) (sq_key req))
  end.

Definition sample_error (e : SampleError) : ApiError :=
  match e with
  | SEmpty => ValidationFailed "file is empty"
  | SInvalid format message => ValidationFailed (format +:+ ": " +:+ message)
  | SUnsupported s => BadRequest s
  end.

Section Handlers.
Context `{JsonText} (minio_bucket : string) (sha256_hex : string → string).
Context (json_error : string → string) (read_csv : ascii → string → CsvReader) (read_xml : string → Events).
Context (rfc3339_ok date_ok : string → bool).

Definition new_upload (c : Claims) (sha content filename : string) (etag : option string) : NewUpload :=
  mkUpload (org c) (parse_i64 (sub c)) minio_bucket (upload_key (org c) sha) sha
    (trim_char dquote <$> etag) (str_len content) filename.

Definition upload_file (c : Claims) (parts : list (result string Field)) : NetM value :=
  _ ← lift (require_role c ["admin"; "editor"; "operator"]);
  field ← lift (file_part parts);
  let filename := default "upload.bin" (fd_file_name field) in
  bytes ← lift (map_err (λ e, BadRequest ("read: " +:+ e)) (fd_bytes field));
  let sha := sha256_hex bytes in
  let key := upload_key (org c) sha in
  put ← put_object minio_bucket key bytes filename;
  etag ← lift (map_err (λ e, External ("s3 put: " +:+ e)) put);
  source ← api (register_upload (new_upload c sha bytes filename etag));
  mret (upload_ref (sr_id source) minio_bucket key (str_len bytes) sha filename).

Definition run_sampler (format : string) (bytes : string) (row_cap : Z) (record_tag : option string)
    (truncated_input : bool) : ApiResult SampleResult :=
  let cap := Z.to_nat row_cap in
  if (format =? "csv")%string then
    map_err sample_error (SampleCsv.sample read_csv rfc3339_ok date_ok bytes cap truncated_input)
  else if mem_str format ["json"; "ndjson"; "jsonl"] then
    map_err sample_error (SampleJson.sample json_error rfc3339_ok date_ok bytes cap truncated_input)
  else if (format =? "xml")%string then
    map_err sample_error (SampleXml.sample read_xml rfc3339_ok date_ok bytes cap
      (default "record" record_tag) truncated_input)
  else Err (BadRequest ("unsupported format: " +:+ format)).

Definition sample_format (req : SampleRequest) (source : SourceRow) : option string :=
  opt_or (sq_format req)
    (opt_or (sr_filename source ≫= sniff_format_from_key) (sniff_format_from_key (sr_object_key source))).

Definition sample_file (c : Claims) (req : SampleRequest) : NetM SampleResponse :=
  _ ← lift (require_role c ["admin"; "editor"; "operator"; "viewer"]);
  source_req ← lift (source_request minio_bucket req);
  source ← api (resolve_object (org c) source_req);
  let bucket := sr_bucket source in
  let key := sr_object_key source in
  format ← lift (ok_or (sample_format req source)
             (BadRequest "could not determine format; pass `format` (csv|json|xml)"));
  got ← get_range bucket key (DEFAULT_BYTE_CAP - 1);
  got ← lift (map_err (λ e, External ("s3 get: " +:+ e)) got);
  let total_size := default (-1) got.1 in
  body ← lift (map_err (λ e, External ("s3 read: " +:+ e)) got.2);
  let truncated_input := (total_size <? 0) || (str_len body <? total_size) in
  result ← lift (run_sampler (to_ascii_lowercase format) body (sample_row_cap req) (sq_record_tag req) truncated_input);
  mret (mkSampleResponse result (sr_id source) bucket key).
End Handlers.

(** ** Theorems *)
Section Theorems.
Context `{JsonText} (minio_bucket : string) (sha256_hex : string → string).
Context (json_error : string → string) (read_csv : ascii → string → CsvReader) (read_xml : string → Events).
Context (rfc3339_ok date_ok : string → bool).

Lemma run_sampler_bound format bytes row_cap tag trunc r :
  run_sampler json_error read_csv read_xml rfc3339_ok date_ok format bytes row_cap tag trunc = Ok r →
  (length (sp_rows r) ≤ Z.to_nat row_cap)%nat.
Proof.
  unfold run_sampler. repeat case_match; try done; intros Hr%map_err_Ok;
    [by eapply csv_rows_bound|by eapply json_rows_bound|by eapply xml_rows_bound].
Qed.

(** Nothing is registered before it is stored: an upload sends at most one
    request, to store the uploaded bytes in the upload bucket under the key
    made of the organization and the hash of those bytes; its only database
    step registers exactly that object, with the bytes' hash and length, for
    the caller's organization, and runs only after the store accepted the
    object; without a step there was nothing stored or the request failed. *)
Theorem uploads_register_what_they_store c parts n :
  wp (upload_file minio_bucket sha256_hex c parts) (λ r n',
    net_sent n' = net_sent n ∧ net_world n' = net_world n ∧ is_ok r = false ∨
    ∃ content filename, role c ∈ ["admin"; "editor"; "operator"] ∧
      net_sent n' = net_sent n ++
        [ReqPut minio_bucket (upload_key (org c) (sha256_hex content)) content filename] ∧
      (w_hist (net_world n') = w_hist (net_world n) ∧ is_ok r = false ∨
       ∃ etag d, next_answer n = Stored etag ∧
         let row := upload_row (new_upload minio_bucket c (sha256_hex content) content filename etag) d in
         w_hist (net_world n') = w_hist (net_world n)
           ++ [(d, set_seq (db_seq d + 1) (set_sources (<[sr_id row := row]> (sources d)) d))] ∧
         ∀ v, r = Ok v → v = upload_ref (sr_id row) minio_bucket (upload_key (org c) (sha256_hex content))
                               (str_len content) (sha256_hex content) filename)) n.
Proof.
  unfold upload_file. apply wp_bind, wp_lift. destruct (require_role c _) as [[]|] eqn:Hrole; [|by left].
  apply wp_bind, wp_lift. destruct (file_part parts) as [f|]; [|by left]. cbv zeta.
  apply wp_bind, wp_lift. destruct (fd_bytes f) as [content|]; [|by left]. cbn [map_err].
  set (filename := default "upload.bin" (fd_file_name f)).
  unfold put_object. apply wp_bind, wp_bind, wp_ask, wp_ret, wp_bind, wp_lift.
  set (n1 := mkNet _ _ _).
  assert (role c ∈ ["admin"; "editor"; "operator"]) as Hr by (by apply require_role_Ok).
  destruct (next_answer n) as [e|l e|l|st b|etag|cl b] eqn:Ha;
    try (right; exists content, filename; split_and!; [done|done|]; by left). cbn [map_err].
  apply wp_bind, wp_api_run. intros r w Hw.
  unfold register_upload, update, sql in Hw.
  destruct (next_turn _) as [t ts]. set (d := t_env t _) in *.
  set (u := new_upload minio_bucket c (sha256_hex content) content filename etag) in *.
  destruct (t_fault t) as [[[] e]|]; cbn in Hw; injection Hw as <- <-; try apply wp_ret;
    right; exists content, filename; cbn [net_sent net_world w_hist n1]; (split_and!; [done|done|]).
  - right. exists etag, d. split_and!; [done|done|]. by intros.
  - by left.
  - right. exists etag, d. split_and!; [done|done|]. by intros v [= <-].
Qed.

(** C38: sampling stays in the organization and within its bounds: a sample
    request changes nothing, asks the store at most once, for at most the
    first 8 MiB of an object that a statement of this request saw registered
    to the caller's organization, and answers at most the requested rows (a
    request for less than one counts as one) and never more than 200, with
    that source's identity. *)
Theorem sampling_stays_in_bounds c req n :
  wp (sample_file minio_bucket json_error read_csv read_xml rfc3339_ok date_ok c req) (λ r n',
    did (λ d d', d' = d) (net_world n) (net_world n') ∧
    (net_sent n' = net_sent n ∧ is_ok r = false ∨
     ∃ s, source_seen (org c) (RObject s) (w_hist (net_world n')) ∧
       net_sent n' = net_sent n ++ [ReqRange (sr_bucket s) (sr_object_key s) (8 * 1024 * 1024 - 1)] ∧
       ∀ resp, r = Ok resp →
         rs_source_id resp = sr_id s ∧ rs_bucket resp = sr_bucket s ∧ rs_key resp = sr_object_key s ∧
         Z.of_nat (length (sp_rows (rs_sample resp))) ≤ 200 ∧
         (0 < default 25 (sq_rows req) → Z.of_nat (length (sp_rows (rs_sample resp))) ≤ default 25 (sq_rows req)))) n.
Proof.
  unfold sample_file. apply wp_bind, wp_lift. destruct (require_role c _); [|split; [apply did_refl|by left]].
  apply wp_bind, wp_lift. destruct (source_request _ _) as [sreq|]; [|split; [apply did_refl|by left]].
  apply wp_bind, wp_api_reads.
  { split; [apply resolve_object_writes|apply resolve_object_silent]. }
  intros r w Hw Hdid. destruct r as [s|]; [|split; [done|by left]]. cbv zeta.
  assert (source_seen (org c) (RObject s) (w_hist w)) as Hseen.
  { by eapply resolve_object_seen. }
  apply wp_bind, wp_lift. destruct (sample_format req s) as [format|]; [|split; [done|by left]]. cbn [ok_or].
  unfold get_range. apply wp_bind, wp_bind, wp_ask, wp_ret, wp_bind, wp_lift.
  set (ans := match next_answer _ with Chunk _ _ => _ | _ => _ end).
  destruct ans as [[total body]|e]; [|split; [done|]; right; exists s; by split_and!]. cbn [map_err fst snd].
  apply wp_bind, wp_lift. destruct body as [bytes|e]; [|split; [done|]; right; exists s; by split_and!]. cbn [map_err].
  apply wp_bind, wp_lift. destruct (run_sampler _ _ _ _ _ _ _ _ _ _) as [result|e] eqn:Hres;
    [|split; [done|]; right; exists s; by split_and!].
  apply wp_ret. split; [done|]. right. exists s. split_and!; [done|done|]. intros resp [= <-]. cbn.
  apply run_sampler_bound in Hres. unfold sample_row_cap, clamp, MAX_ROW_CAP, DEFAULT_ROW_CAP in Hres.
  split_and!; try done; lia.
Qed.
End Theorems.
