(* ===== verification/Specs.v ===== *)
(** * Imported OpenAPI specs: [apps/api/src/routes/specs.rs]

    Import by upload or by URL with its address guard, the stored documents,
    and the operations read from a document.  URL parsing (the [url] crate),
    the resolver and the HTTP client ([Net]) are parameters; the store keeps
    [openapi_specs] rows of [Db]. *)
From S2P Require Import Prelude RustStr Json Error LicenseFile LicenseIO Db World JobStart Net SampleJson.
From Stdlib Require Import Ascii.

Definition MAX_SPEC_BYTES : Z := 4 * 1024 * 1024.

Record CreateSpec : Type := mkCreateSpec {
  cp_name : string; cp_spec : option value; cp_url : option string }.

(** What the sources ask of a parsed [url::Url]; [u_port] omits the scheme's
    default port, [u_port_or_known] adds it. *)
Record Url : Type := mkUrl {
  u_scheme : string; u_host : option string; u_port : option Z; u_port_or_known : option Z;
  u_text : string }.

(** ** JSON pointers ([serde_json::Value::pointer]) *)

(** [str::replace] of a two-byte pattern. *)
Fixpoint replace2 (a b : ascii) (r s : string) : string :=
  match s with
  | String x (String y s2 as s1) =>
      if Ascii.eqb x a && Ascii.eqb y b then r +:+ replace2 a b r s2 else String x (replace2 a b r s1)
  | s => s
  end.

Definition unescape_token (t : string) : string := replace2 "~" "0" "~" (replace2 "~" "1" "/" t).

(** An array index: digits without a superfluous leading zero, in [usize]. *)
Definition parse_index (t : string) : option nat :=
  if starts_with "+" t || (starts_with "0" t && negb (str_len t =? 1)) then None
  else match parse_digits t with
       | Some z => if z <=? u64_max then Some (Z.to_nat z) else None
       | None => None
       end.

Definition pointer_step (token : string) (v : value) : option value :=
  match v with
  | VObject m => map_get token m
  | VArray l => parse_index token ≫= λ i, l !! i
  | _ => None
  end.

Definition pointer (p : string) (v : value) : option value :=
  if is_empty p then Some v
  else if negb (starts_with "/" p) then None
  else fold_left (λ o t, o ≫= pointer_step (unescape_token t)) (tl (split_char "/" p)) (Some v).

(** ** Addresses *)
Definition v4_is_loopback (a : Z) : bool := a =? 127.
Definition v4_is_private (a b : Z) : bool :=
  (a =? 10) || ((a =? 172) && ((16 <=? b) && (b <=? 31))) || ((a =? 192) && (b =? 168)).
Definition v4_is_link_local (a b : Z) : bool := (a =? 169) && (b =? 254).
Definition v4_is_unspecified (a b c d : Z) : bool := (a =? 0) && (b =? 0) && (c =? 0) && (d =? 0).

Definition v6_is (last : Z) (ip : Ip) : bool := bool_decide (ip = V6 0 0 0 0 0 0 0 last).

Definition ip_is_private (ip : Ip) : bool :=
  match ip with
  | V4 a b c d =>
      v4_is_loopback a || v4_is_private a b || v4_is_link_local a b
      || v4_is_unspecified a b c d
      || ((a =? 100) && ((64 <=? b) && (b <? 128)))
  | V6 s0 _ _ _ _ _ _ _ =>
      v6_is 1 ip || v6_is 0 ip || (Z.land s0 0xfe00 =? 0xfc00) || (Z.land s0 0xffc0 =? 0xfe80)
  end.

(** ** Validation *)
Definition validate_openapi (spec : value) : ApiResult unit :=
  version ← ok_or (get_str "openapi" spec)
    (ValidationFailed "missing `openapi` version field (3.x required)");
  if negb (starts_with "3" version) then
    Err (ValidationFailed ("unsupported OpenAPI version " +:+ version +:+ "; 3.x required"))
  else if negb (default false (is_object <$> vget "paths" spec)) then
    Err (ValidationFailed "spec has no `paths` object")
  else Ok tt.

(** ** References *)
Definition lookup_pointer (spec : value) (reference : string) : option value :=
  p ← strip_prefix "#" reference; pointer p spec.

(** The target of a node's [$ref], when it has one that resolves. *)
Definition ref_target (spec node : value) : option value := get_str "$ref" node ≫= lookup_pointer spec.

(** [budget] is what the depth guard [depth > 8] leaves: [9 - depth]. *)
Fixpoint resolve_ref_in (budget : nat) (spec node : value) : value :=
  match budget with
  | O => node
  | S budget =>
      match get_str "$ref" node with
      | Some r =>
          match lookup_pointer spec r with
          | Some target => resolve_ref_in budget spec target
          | None => node
          end
      | None => node
      end
  end.
Definition resolve_ref (spec node : value) (depth : nat) : value := resolve_ref_in (9 - depth) spec node.

Definition truncation_marker : value := json_obj [("$comment", VString "truncated (max ref depth)")].

(** The same for [depth > 6]. *)
Fixpoint resolve_schema_in (budget : nat) (spec node : value) : value :=
  match budget with
  | O => truncation_marker
  | S budget =>
      match get_str "$ref" node with
      | Some r =>
          match lookup_pointer spec r with
          | Some target => resolve_schema_in budget spec target
          | None => node
          end
      | None =>
          match node with
          | VObject m => VObject (obj_entries (map (λ kv, (kv.1, resolve_schema_in budget spec kv.2)) m))
          | VArray l => VArray (map (resolve_schema_in budget spec) l)
          | _ => node
          end
      end
  end.
Definition resolve_schema (spec node : value) (depth : nat) : value := resolve_schema_in (7 - depth) spec node.

(** ** Operations *)
Definition METHODS : list string := ["get"; "post"; "put"; "patch"; "delete"].

Definition str_or (default_ k : string) (v : value) : value := VString (default default_ (get_str k v)).

Definition parameter_entry (spec p0 : value) : value :=
  let p := resolve_ref spec p0 0 in
  json_obj [("name", str_or EmptyString "name" p); ("in", str_or "query" "in" p);
            ("required", VBool (default false (vget "required" p ≫= as_bool)));
            ("schema", resolve_ref spec (default VNull (vget "schema" p)) 0)].

(** [content["application/json"].schema], resolved. *)
Definition json_schema_of (spec body : value) : option value :=
  c ← vget "content" body; j ← vget "application/json" c; s ← vget "schema" j;
  Some (resolve_schema spec s 0).

Section Parse.
Context (parse_url : string → result string Url).

Definition resolve_operation_url (server_url path : string) (source_url : option string) : string :=
  let server := trim_end_char "/" server_url in
  let path := if starts_with "/" path then path else "/" +:+ path in
  if starts_with "http://" server || starts_with "https://" server then server +:+ path
  else
    match source_url with
    | Some src =>
        match parse_url src with
        | Ok u =>
            let host := default EmptyString (u_host u) in
            let origin := u_scheme u +:+ "://" +:+ host in
            let origin := match u_port u with Some p => origin +:+ ":" +:+ show_Z p | None => origin end in
            if is_empty server then origin +:+ path else origin +:+ server +:+ path
        | Err _ => server +:+ path
        end
    | None => server +:+ path
    end.

Definition operation_id (method path : string) (op : value) : string :=
  default (method +:+ "_" +:+ replace_char "/" "_" (trim_char "/" path)) (get_str "operationId" op).

Definition operation (spec : value) (base_url : string) (source_url : option string) (path : string)
    (shared_params : value) (method : string) (op : value) : value :=
  let params := map (parameter_entry spec)
    (mjoin (map (λ src, default [] (as_array src)) [shared_params; default VNull (vget "parameters" op)])) in
  let request_schema := default VNull
    (rb ← vget "requestBody" op; json_schema_of spec (resolve_ref spec rb 0)) in
  let response_schema := default VNull
    (r ← vget "responses" op; r ← as_object r;
     resp ← head (omap (λ code, map_get code r) ["200"; "201"; "202"]);
     json_schema_of spec (resolve_ref spec resp 0)) in
  json_obj [("operation_id", VString (operation_id method path op));
            ("method", VString (to_ascii_uppercase method)); ("path", VString path);
            ("url", VString (resolve_operation_url base_url path source_url));
            ("summary", str_or EmptyString "summary" op);
            ("description", str_or EmptyString "description" op);
            ("parameters", VArray params); ("request_schema", request_schema);
            ("response_schema", response_schema)].

(** The operations of one entry of [paths]. *)
Definition path_operations (spec : value) (base_url : string) (source_url : option string)
    (entry : string * value) : list value :=
  match as_object entry.2 with
  | None => []
  | Some item =>
      let shared_params := default (VArray []) (map_get "parameters" item) in
      omap (λ method, operation spec base_url source_url entry.1 shared_params method <$> map_get method item)
        METHODS
  end.

Definition base_url_of (spec : value) : string :=
  default EmptyString (s ← vget "servers" spec; arr ← as_array s; s ← head arr; get_str "url" s).

Definition parse_operations (spec : value) (source_url : option string) : list value :=
  mjoin (map (path_operations spec (base_url_of spec) source_url)
           (default [] (vget "paths" spec ≫= as_object))).
End Parse.

(** ** The table *)
Definition is_spec (org_id : Z) (name : string) (s : SpecRow) : bool :=
  (sp_org_id s =? org_id) && (sp_name s =? name)%string.

(** INSERT ... ON CONFLICT (org_id, name) DO UPDATE. *)
Definition upsert_spec (org_id : Z) (name : string) (source_url : option string) (spec : value)
    (created_by : Z) (d : Db) : Z * Db :=
  match List.find (λ kv, is_spec org_id name kv.2) (by_id (openapi_specs d)) with
  | Some (id, s) =>
      (sp_id s, set_openapi_specs (<[id := mkSpec (sp_id s) (sp_org_id s) (sp_name s) source_url spec
                    (sp_created_by s) (sp_created_at s) (db_now d)]> (openapi_specs d)) d)
  | None =>
      (db_seq d, set_seq (db_seq d + 1) (set_openapi_specs
         (<[db_seq d := mkSpec (db_seq d) org_id name source_url spec (Some created_by) (db_now d) (db_now d)]>
            (openapi_specs d)) d))
  end.

Definition spec_of (org_id id : Z) (d : Db) : option SpecRow := owned sp_org_id org_id id (openapi_specs d).

Definition delete_spec_effect (org_id id : Z) (d : Db) : Z * Db :=
  match spec_of org_id id d with
  | Some _ => (1, set_openapi_specs (delete id (openapi_specs d)) d)
  | None => (0, d)
  end.

(** ** Handlers *)
Section Handlers.
Context `{JsonText} `{Rfc3339}.
Context (parse_url : string → result string Url) (json_error : string → string).
Context (status_display : Z → string) (collate : string → string → bool).
(** ALLOW_PRIVATE_DESTINATIONS is "true". *)
Context (allow_private : bool).

(** The address guard of [fetch_spec]. *)
Definition check_destination (u : Url) : NetM unit :=
  host ← lift (ok_or (u_host u) (BadRequest "url missing host"));
  addrs ← lookup_host host (default 443 (u_port_or_known u));
  addrs ← lift (map_err (λ e, BadRequest ("cannot resolve " +:+ host +:+ ": " +:+ e)) addrs);
  guard_err (existsb ip_is_private addrs)
    (BadRequest ("url host " +:+ host +:+ " resolves to a private/internal address")).

(** [reqwest::redirect::Policy::limited(3)] *)
Definition MAX_REDIRECTS : nat := 3.

Definition fetch_spec (url : string) : NetM value :=
  parsed ← lift (map_err (λ e, BadRequest ("invalid url: " +:+ e)) (parse_url url));
  _ ← guard_err (negb (u_scheme parsed =? "https")%string && negb (u_scheme parsed =? "http")%string)
        (BadRequest "url must be http(s)");
  _ ← (if allow_private then mret tt else check_destination parsed);
  resp ← http_get MAX_REDIRECTS (u_text parsed);
  resp ← lift (map_err (λ e, External ("fetch spec: " +:+ e)) resp);
  _ ← guard_err (negb (is_success resp.1)) (External ("fetch spec: status " +:+ status_display resp.1));
  bytes ← lift (map_err (λ e, External ("read spec: " +:+ e)) resp.2);
  _ ← guard_err (MAX_SPEC_BYTES <? str_len bytes) (BadRequest "spec too large");
  lift (ok_or (from_utf8 bytes ≫= from_json_str)
          (BadRequest ("spec is not valid JSON: " +:+ json_error bytes
                       +:+ " (YAML specs must be converted to JSON)"))).

(** The document and where it came from. *)
Definition spec_input (req : CreateSpec) : NetM (value * option string) :=
  match cp_spec req, cp_url req with
  | Some spec, _ => mret (spec, None)
  | None, Some url => spec ← fetch_spec url; mret (spec, Some url)
  | None, None => throw (BadRequest "provide spec or url")
  end.

Definition create_spec (c : Claims) (req : CreateSpec) : NetM value :=
  _ ← lift (require_role c ["admin"; "editor"]);
  input ← spec_input req;
  let '(spec, source_url) := input in
  let size := str_len (to_json_string spec) in
  _ ← guard_err (MAX_SPEC_BYTES <? size)
        (BadRequest ("spec too large (" +:+ show_Z size +:+ " bytes, max " +:+ show_Z MAX_SPEC_BYTES +:+ ")"));
  _ ← lift (validate_openapi spec);
  created_by ← lift (ok_or (parse_i64 (sub c)) Unauthorized);
  id ← api (update (upsert_spec (org c) (cp_name req) source_url spec created_by));
  _ ← api (record_audit c "openapi_spec" (Some (show_Z id)) "import" None None);
  let ops := parse_operations parse_url spec source_url in
  mret (json_obj [("id", json_int id); ("name", VString (cp_name req));
                  ("operation_count", json_int (Z.of_nat (length ops))); ("operations", VArray ops)]).

Definition spec_order (a b : SpecRow) : Prop := collate (sp_name a) (sp_name b) = true.
#[local] Instance spec_order_dec a b : Decision (spec_order a b).
Proof. unfold spec_order. apply _. Defined.

Definition list_specs (c : Claims) : Api value :=
  rows ← query (λ d, merge_sort spec_order
    (List.filter (λ s, sp_org_id s =? org c) (snd <$> by_id (openapi_specs d))));
  mret (json_obj [("items", VArray (map (λ s, json_obj
    [("id", json_int (sp_id s)); ("name", VString (sp_name s));
     ("source_url", json_opt_str (sp_source_url s)); ("updated_at", json_time (sp_updated_at s))]) rows))]).

Definition get_spec (c : Claims) (id : Z) : Api value :=
  row ← query (spec_of (org c) id);
  s ← lift (ok_or row NotFound);
  mret (json_obj [("id", json_int id); ("name", VString (sp_name s));
                  ("source_url", json_opt_str (sp_source_url s)); ("spec", sp_spec_json s)]).

Definition delete_spec (c : Claims) (id : Z) : Api value :=
  _ ← lift (require_role c ["admin"; "editor"]);
  n ← update (delete_spec_effect (org c) id);
  _ ← guard_err (n =? 0) NotFound;
  _ ← record_audit c "openapi_spec" (Some (show_Z id)) "delete" None None;
  mret (json_obj [("deleted", VBool true)]).

Definition list_operations (c : Claims) (id : Z) : Api value :=
  row ← query (spec_of (org c) id);
  s ← lift (ok_or row NotFound);
  mret (json_obj [("items", VArray (parse_operations parse_url (sp_spec_json s) (sp_source_url s)))]).

Definition parse_preview (spec : value) : Api value :=
  _ ← lift (validate_openapi spec);
  mret (json_obj [("items", VArray (parse_operations parse_url spec None))]).
End Handlers.
