(* ===== verification/SpecRules.v ===== *)
(** * Theorems on imported specs

    The address ranges the import refuses, what it fetches and stores, and
    what the operation list says of a document. *)
From S2P Require Import Prelude RustStr Json Error LicenseFile LicenseIO Db World JobStart Net SampleJson Specs.
From Stdlib Require Import Ascii.

(** ** Address ranges *)

(** A block of addresses of [width] bits: a base and a prefix length. *)
Definition in_cidr (width addr : Z) (block : Z * Z) : bool :=
  Z.shiftr addr (width - block.2) =? Z.shiftr block.1 (width - block.2).

Fixpoint big_endian (base : Z) (l : list Z) (acc : Z) : Z :=
  match l with [] => acc | x :: l => big_endian base l (acc * base + x) end.

Definition v4 (a b c d : Z) : Z := big_endian 256 [a; b; c; d] 0.
Definition v6 (s0 s1 s2 s3 s4 s5 s6 s7 : Z) : Z := big_endian 65536 [s0; s1; s2; s3; s4; s5; s6; s7] 0.

Definition private_v4 : list (Z * Z) :=
  [(v4 127 0 0 0, 8); (v4 10 0 0 0, 8); (v4 172 16 0 0, 12); (v4 192 168 0 0, 16);
   (v4 169 254 0 0, 16); (v4 0 0 0 0, 32); (v4 100 64 0 0, 10)].
Definition private_v6 : list (Z * Z) :=
  [(v6 0 0 0 0 0 0 0 1, 128); (0, 128); (v6 0xfc00 0 0 0 0 0 0 0, 7); (v6 0xfe80 0 0 0 0 0 0 0, 10)].

Definition ip_bits (ip : Ip) : Z * Z :=
  match ip with
  | V4 a b c d => (32, v4 a b c d)
  | V6 s0 s1 s2 s3 s4 s5 s6 s7 => (128, v6 s0 s1 s2 s3 s4 s5 s6 s7)
  end.
Definition private_blocks (ip : Ip) : list (Z * Z) :=
  match ip with V4 _ _ _ _ => private_v4 | V6 _ _ _ _ _ _ _ _ => private_v6 end.

Definition ip_ok (ip : Ip) : Prop :=
  match ip with
  | V4 a b c d => Forall (λ x, 0 ≤ x < 256) [a; b; c; d]
  | V6 s0 s1 s2 s3 s4 s5 s6 s7 => Forall (λ x, 0 ≤ x < 65536) [s0; s1; s2; s3; s4; s5; s6; s7]
  end.

(** Masking the high bits of a number below [2 ^ n]. *)
Lemma land_high x n k : 0 ≤ k ≤ n → 0 ≤ x < 2 ^ n → Z.land x (2 ^ n - 2 ^ k) = x / 2 ^ k * 2 ^ k.
Proof.
  intros Hk Hx. replace (2 ^ n - 2 ^ k) with (Z.shiftl (Z.ones (n - k)) k).
  2: { rewrite Z.shiftl_mul_pow2, Z.ones_equiv by lia. unfold Z.pred.
       replace (2 ^ n) with (2 ^ (n - k) * 2 ^ k) by (rewrite <- Z.pow_add_r by lia; f_equal; lia). lia. }
  rewrite <- Z.shiftr_div_pow2, <- Z.shiftl_mul_pow2 by lia. apply Z.bits_inj'. intros i Hi.
  rewrite Z.land_spec, !Z.shiftl_spec by lia. destruct (decide (i < k)).
  - by rewrite (Z.testbit_neg_r (Z.ones _)), (Z.testbit_neg_r (Z.shiftr x k)), andb_false_r by lia.
  - rewrite Z.shiftr_spec by lia. replace (i - k + k) with i by lia.
    destruct (decide (i < n)); [by rewrite Z.ones_spec_low, andb_true_r by lia|].
    rewrite Z.ones_spec_high, andb_false_r by lia. symmetry. destruct (decide (x = 0)) as [->|]; [apply Z.bits_0|].
    apply Z.bits_above_log2; [lia|]. enough (Z.log2 x < n) by lia. apply Z.log2_lt_pow2; lia.
Qed.

Lemma eqb_iff (a b : bool) : (a = true ↔ b = true) → a = b.
Proof. destruct a, b; naive_solver. Qed.

(** The leading part [x] of an address with [y] below it, seen at a prefix. *)
Lemma prefix_div x y k j : 0 ≤ y < 2 ^ k → 0 ≤ k → 0 ≤ j → (x * 2 ^ k + y) / 2 ^ (k + j) = x / 2 ^ j.
Proof.
  intros Hy Hk Hj. rewrite Z.pow_add_r, <- Z.div_div, Z.div_add_l, (Z.div_small y), Z.add_0_r by lia. done.
Qed.

Lemma v4_prefixes a b c d : ip_ok (V4 a b c d) →
  v4 a b c d / 2 ^ 24 = a ∧ v4 a b c d / 2 ^ 16 = a * 256 + b ∧
  v4 a b c d / 2 ^ 20 = (a * 256 + b) / 16 ∧ v4 a b c d / 2 ^ 22 = (a * 256 + b) / 64.
Proof.
  cbn [ip_ok]. rewrite !list.Forall_cons. intros Hip.
  assert (v4 a b c d = a * 2 ^ 24 + (b * 65536 + c * 256 + d)) as H1 by (unfold v4, big_endian; lia).
  assert (v4 a b c d = (a * 256 + b) * 2 ^ 16 + (c * 256 + d)) as H2 by (unfold v4, big_endian; lia).
  split_and!; [rewrite H1; etrans; [apply (prefix_div _ _ 24 0)|]|rewrite H2; etrans; [apply (prefix_div _ _ 16 0)|]
    |rewrite H2; apply (prefix_div _ _ 16 4)|rewrite H2; apply (prefix_div _ _ 16 6)]; try lia; apply Z.div_1_r.
Qed.

Lemma v6_prefixes s0 s1 s2 s3 s4 s5 s6 s7 : ip_ok (V6 s0 s1 s2 s3 s4 s5 s6 s7) →
  v6 s0 s1 s2 s3 s4 s5 s6 s7 / 2 ^ 121 = s0 / 512 ∧ v6 s0 s1 s2 s3 s4 s5 s6 s7 / 2 ^ 118 = s0 / 64 ∧
  ∀ last, 0 ≤ last ≤ 1 → v6 s0 s1 s2 s3 s4 s5 s6 s7 = last ↔ V6 s0 s1 s2 s3 s4 s5 s6 s7 = V6 0 0 0 0 0 0 0 last.
Proof.
  cbn [ip_ok]. rewrite !list.Forall_cons. intros Hip.
  assert (v6 s0 s1 s2 s3 s4 s5 s6 s7 = s0 * 2 ^ 112
    + (s1 * 2 ^ 96 + s2 * 2 ^ 80 + s3 * 2 ^ 64 + s4 * 2 ^ 48 + s5 * 2 ^ 32 + s6 * 2 ^ 16 + s7)) as ->
    by (unfold v6, big_endian; lia).
  split_and!; [apply (prefix_div _ _ 112 9); lia|apply (prefix_div _ _ 112 6); lia|].
  intros last Hl. split; [|intros [= -> -> -> -> -> -> -> ->]; lia]. intros. f_equal; lia.
Qed.

(** The guard's bit tests are the reserved ranges: an address is refused
    exactly when it lies in one of 127.0.0.0/8, 10.0.0.0/8, 172.16.0.0/12,
    192.168.0.0/16, 169.254.0.0/16, 0.0.0.0/32, 100.64.0.0/10, or for IPv6
    ::1/128, ::/128, fc00::/7, fe80::/10. *)
Theorem private_addresses_are_the_ranges ip :
  ip_ok ip →
  ip_is_private ip = existsb (in_cidr (ip_bits ip).1 (ip_bits ip).2) (private_blocks ip).
Proof.
  intros Hip. apply eqb_iff. destruct ip as [a b c d|s0 s1 s2 s3 s4 s5 s6 s7]; unfold in_cidr;
    cbn [existsb private_blocks private_v4 private_v6 fst snd ip_bits ip_is_private].
  - destruct (v4_prefixes a b c d Hip) as (H24 & H16 & H20 & H22). cbn in Hip. rewrite !list.Forall_cons in Hip.
    unfold v4_is_loopback, v4_is_private, v4_is_link_local, v4_is_unspecified.
    rewrite !(Z.shiftr_div_pow2 (v4 a b c d)) by done.
    change (2 ^ (32 - 8)) with (2 ^ 24). change (2 ^ (32 - 12)) with (2 ^ 20).
    change (2 ^ (32 - 16)) with (2 ^ 16). change (2 ^ (32 - 10)) with (2 ^ 22). rewrite H24, H16, H20, H22.
    repeat match goal with |- context [Z.shiftr (v4 ?x ?y ?z ?t) ?k] => is_ground x;
      let v := eval vm_compute in (Z.shiftr (v4 x y z t) k) in change (Z.shiftr (v4 x y z t) k) with v end.
    rewrite !orb_true_iff, !andb_true_iff, !Z.eqb_eq, !Z.leb_le, Z.ltb_lt. change (2 ^ (32 - 32)) with 1.
    rewrite Z.div_1_r. clear H24 H16 H20 H22.
    assert ((a * 256 + b) / 16 = a * 16 + b / 16 ∧ (a * 256 + b) / 64 = a * 4 + b / 64) as [-> ->]
      by (split; Z.to_euclidean_division_equations; lia).
    assert (v4 a b c d = 0 ↔ a = 0 ∧ b = 0 ∧ c = 0 ∧ d = 0) as -> by (unfold v4, big_endian; lia).
    assert (∀ k, b / 16 = k ↔ 16 * k ≤ b < 16 * k + 16) by (intros; Z.to_euclidean_division_equations; lia).
    assert (∀ k, b / 64 = k ↔ 64 * k ≤ b < 64 * k + 64) by (intros; Z.to_euclidean_division_equations; lia).
    assert (a * 16 + b / 16 = 2753 ↔ a = 172 ∧ b / 16 = 1) as -> by (Z.to_euclidean_division_equations; lia).
    assert (a * 4 + b / 64 = 401 ↔ a = 100 ∧ b / 64 = 1) as -> by (Z.to_euclidean_division_equations; lia).
    assert (b / 16 = 1 ↔ 16 ≤ b ≤ 31) as -> by (Z.to_euclidean_division_equations; lia).
    assert (b / 64 = 1 ↔ 64 ≤ b < 128) as -> by (Z.to_euclidean_division_equations; lia).
    assert (a * 256 + b = 49320 ↔ a = 192 ∧ b = 168) as -> by lia.
    assert (a * 256 + b = 43518 ↔ a = 169 ∧ b = 254) as -> by lia.
    intuition discriminate.
  - destruct (v6_prefixes s0 s1 s2 s3 s4 s5 s6 s7 Hip) as (H9 & H6 & Hl). cbn in Hip. rewrite !list.Forall_cons in Hip.
    assert (0 ≤ s0 < 2 ^ 16) as Hs by lia.
    pose proof (land_high s0 16 9 ltac:(lia) Hs) as L9. pose proof (land_high s0 16 6 ltac:(lia) Hs) as L6.
    change (2 ^ 16 - 2 ^ 9) with 0xfe00 in L9. change (2 ^ 16 - 2 ^ 6) with 0xffc0 in L6. rewrite L9, L6.
    unfold v6_is. rewrite !(Z.shiftr_div_pow2 (v6 s0 s1 s2 s3 s4 s5 s6 s7)) by done.
    change (2 ^ (128 - 128)) with 1. change (2 ^ (128 - 7)) with (2 ^ 121). change (2 ^ (128 - 10)) with (2 ^ 118).
    rewrite Z.div_1_r, H9, H6.
    repeat match goal with |- context [Z.shiftr ?x (128 - ?k)] => is_ground x;
      let v := eval vm_compute in (Z.shiftr x (128 - k)) in change (Z.shiftr x (128 - k)) with v end.
    rewrite !orb_true_iff, !bool_decide_eq_true, !Z.eqb_eq, <- !Hl by lia.
    change (2 ^ 9) with 512. change (2 ^ 6) with 64. clear - Hip. lia.
Qed.

Lemma private_addresses_are_the_ranges_witness :
  existsb (in_cidr 32 (v4 100 64 1 1)) private_v4 = true ∧ existsb (in_cidr 32 (v4 8 8 8 8)) private_v4 = false.
Proof.
  split; (etrans; [symmetry|]);
    [apply (private_addresses_are_the_ranges (V4 100 64 1 1))| |apply (private_addresses_are_the_ranges (V4 8 8 8 8))|];
    try reflexivity; cbn; repeat constructor; lia.
Defined.

(** An IPv4 address in its IPv6-mapped form is never refused. *)
Lemma mapped_addresses_pass x y : ip_is_private (V6 0 0 0 0 0 0xffff x y) = false.
Proof. reflexivity. Qed.

(** ** Import *)
Section Importer.
Context `{JsonText} `{Rfc3339}.
Context (parse_url : string → result string Url) (json_error : string → string).
Context (status_display : Z → string) (collate : string → string → bool) (allow_private : bool).

(** What the import of [url] sends, given the replies it gets: nothing, a
    lookup of the URL's host, and a GET of that very URL once every address
    of the host is public (or private destinations are allowed), which is
    followed by a GET of the location each answer redirects to. *)
Definition guarded (url : string) (replies : list Reply) (sent : list Request) : Prop :=
  sent = [] ∨
  ∃ u, parse_url url = Ok u ∧ u_scheme u ∈ ["https"; "http"] ∧
    (allow_private = true ∧ sent = get_requests 3 (u_text u) replies ∨
     allow_private = false ∧ ∃ host, u_host u = Some host ∧
       let lookup := ReqLookup host (default 443 (u_port_or_known u)) in
       (sent = [lookup] ∨
        ∃ addrs rest, replies = Addresses addrs :: rest ∧ Forall (λ ip, ip_is_private ip = false) addrs ∧
          sent = lookup :: get_requests 3 (u_text u) rest)).

(** The guard: a lookup, passed only on public addresses. *)
Lemma check_destination_sends u n :
  wp (check_destination u) (λ r n',
    net_world n' = net_world n ∧
    (net_sent n' = net_sent n ∧ is_ok r = false ∨
     ∃ host, u_host u = Some host ∧
       net_sent n' = net_sent n ++ [ReqLookup host (default 443 (u_port_or_known u))] ∧
       (r = Ok tt → ∃ addrs, net_replies n = Addresses addrs :: net_replies n' ∧
          Forall (λ ip, ip_is_private ip = false) addrs))) n.
Proof.
  unfold check_destination. apply wp_bind, wp_lift.
  destruct (u_host u) as [host|]; cbn [ok_or]; [|split; [done|by left]].
  unfold lookup_host. apply wp_bind, wp_bind, wp_ask, wp_ret, wp_bind, wp_lift.
  destruct n as [w replies sent]. unfold next_answer. cbn.
  destruct replies as [|[e|l e|addrs|status b|etag|cl b] rest]; cbn; try (split; [done|]; right; by exists host).
  apply wp_guard; intros Hex; (split; [done|]); right; exists host; split_and!; try done.
  intros _. exists addrs. split; [done|]. apply list.Forall_forall. intros ip Hip.
  destruct (ip_is_private ip) eqn:Hpr; [|done]. rewrite <- Hex. symmetry. apply existsb_exists.
  exists ip. by rewrite <- list_elem_of_In.
Qed.

(** The GET and what follows it. *)
Lemma get_document u n :
  wp (resp ← http_get MAX_REDIRECTS (u_text u);
      resp ← lift (map_err (λ e, External ("fetch spec: " +:+ e)) resp);
      _ ← guard_err (negb (is_success resp.1)) (External ("fetch spec: status " +:+ status_display resp.1));
      bytes ← lift (map_err (λ e, External ("read spec: " +:+ e)) resp.2);
      _ ← guard_err (MAX_SPEC_BYTES <? str_len bytes) (BadRequest "spec too large");
      lift (ok_or (from_utf8 bytes ≫= from_json_str)
          (BadRequest ("spec is not valid JSON: " +:+ json_error bytes
                       +:+ " (YAML specs must be converted to JSON)"))))
    (λ r n', net_world n' = net_world n ∧ net_sent n' = net_sent n ++ get_requests 3 (u_text u) (net_replies n) ∧
       ∀ spec, r = Ok spec → ∃ status bytes, Http status (Ok bytes) ∈ take 4 (net_replies n) ∧ 200 ≤ status < 300 ∧
         str_len bytes ≤ MAX_SPEC_BYTES ∧ from_utf8 bytes ≫= from_json_str = Some spec) n.
Proof.
  apply wp_bind, wp_http_get. intros r n' Hw Hs Hr. apply wp_bind, wp_lift.
  destruct r as [[status body]|e]; cbn [map_err]; [|by split_and!].
  apply wp_bind, wp_guard; intros Hst; [by split_and!|]. apply wp_bind, wp_lift.
  cbn [fst snd] in *. destruct body as [bytes|]; cbn [map_err]; [|by split_and!].
  apply wp_bind, wp_guard; intros Hlen; [by split_and!|]. apply wp_lift. split_and!; [done..|].
  intros spec Hspec%ok_or_Ok. apply negb_false_iff in Hst. unfold is_success in Hst. bool_prop.
  exists status, bytes. split_and!; try done. by apply Hr.
Qed.

Lemma url_import_sends url n :
  wp (fetch_spec parse_url json_error status_display allow_private url) (λ r n',
    net_world n' = net_world n ∧
    (∃ sent, net_sent n' = net_sent n ++ sent ∧ guarded url (net_replies n) sent) ∧
    ∀ spec, r = Ok spec → ∃ status bytes,
      Http status (Ok bytes) ∈ take 5 (net_replies n) ∧ 200 ≤ status < 300 ∧
      str_len bytes ≤ MAX_SPEC_BYTES ∧ from_utf8 bytes ≫= from_json_str = Some spec) n.
Proof.
  assert (∀ e : ApiError, net_world n = net_world n ∧
    (∃ sent, net_sent n = net_sent n ++ sent ∧ guarded url (net_replies n) sent) ∧
    ∀ spec, @Err ApiError value e = Ok spec → ∃ status bytes,
      Http status (Ok bytes) ∈ take 5 (net_replies n) ∧ 200 ≤ status < 300 ∧
      str_len bytes ≤ MAX_SPEC_BYTES ∧ from_utf8 bytes ≫= from_json_str = Some spec) as Hnone.
  { intros e. split_and!; [done| |done]. exists []. rewrite app_nil_r. split; [done|by left]. }
  unfold fetch_spec. apply wp_bind, wp_lift.
  destruct (parse_url url) as [u|] eqn:Hu; cbn [map_err]; [|apply Hnone].
  apply wp_bind, wp_guard; intros Hs; [apply Hnone|].
  assert (u_scheme u ∈ ["https"; "http"]) as Hscheme.
  { bool_prop. destruct Hs as [Hs|Hs]; bool_prop; rewrite Hs; [by left|by right; left]. }
  apply wp_bind. destruct allow_private eqn:Hp.
  - apply wp_ret. eapply wp_mono; [apply get_document|]. cbv beta. intros r n' (Hw & Hsent & Hr).
    split_and!; [done|eexists; split; [exact Hsent|]; right; exists u; split_and!; [done..|by left]|].
    intros spec Hspec. destruct (Hr spec Hspec) as (st & b & Hn & ?). exists st, b. split; [|done].
    rewrite <- (take_drop 4 (take 5 (net_replies n))), take_take. apply elem_of_app. by left.
  - eapply wp_mono; [apply check_destination_sends|]. cbv beta. intros r n1 (Hw1 & [[Hs1 Hr]|(host & Hh & Hs1 & Hr)]).
    + destruct r; [done|]. split_and!; [done|exists []; rewrite app_nil_r; split; [done|by left]|by intros].
    + destruct r as [[]|e].
      2:{ split_and!; [done|eexists; split; [exact Hs1|]|by intros]. right. exists u. split_and!; [done..|].
          right. split; [done|]. exists host. split; [done|by left]. }
      destruct (Hr eq_refl) as (addrs & Hrep & Hpub). eapply wp_mono; [apply get_document|]. cbv beta.
      intros r n' (Hw & Hsent & Hspec). split_and!; [congruence| |].
      * eexists. split; [by rewrite Hsent, Hs1, <- app_assoc|]. right. exists u. split_and!; [done..|].
        right. split; [done|]. exists host. split; [done|]. right. by exists addrs, (net_replies n1).
      * intros spec Hok. destruct (Hspec spec Hok) as (st & b & Hn & ?). exists st, b. split; [|done].
        rewrite Hrep. by right.
Qed.

(** C18: what a URL import sends: it changes no state, and sends nothing but a
    lookup of the URL's host and, only after every address in the answer was
    found public or private destinations are allowed, a GET of that URL; then,
    when the answer redirects, a GET of the location it names, at most three
    times in a row.  The guard covers the first of these requests, by the
    importer's own resolution: no location redirected to is checked.  What the
    import returns is the JSON text of a successful answer of at most 4 MiB. *)
Theorem url_imports_are_guarded url n :
  wp (fetch_spec parse_url json_error status_display allow_private url) (λ r n',
    net_world n' = net_world n ∧
    (∃ sent, net_sent n' = net_sent n ++ sent ∧ guarded url (net_replies n) sent) ∧
    ∀ spec, r = Ok spec → ∃ status bytes,
      Http status (Ok bytes) ∈ take 5 (net_replies n) ∧ 200 ≤ status < 300 ∧
      str_len bytes ≤ MAX_SPEC_BYTES ∧ from_utf8 bytes ≫= from_json_str = Some spec) n.
Proof. apply url_import_sends. Qed.

(** The guard ends at the first address: a public server that redirects gets the
    importer to ask an internal one. *)
Definition metadata_url (_ : string) : result string Url :=
  Ok (mkUrl "https" (Some "spec.example") None (Some 443) "https://spec.example/").
Lemma redirects_are_not_guarded (w : World) :
  net_sent (fetch_spec metadata_url (λ _, EmptyString) (λ _, EmptyString) false "https://spec.example/"
    (mkNet w [Addresses [V4 93 184 216 34]; Redirect "http://169.254.169.254/" EmptyString; NoReply EmptyString] [])).2 =
  [ReqLookup "spec.example" 443; ReqGet "https://spec.example/"; ReqGet "http://169.254.169.254/"].
Proof. reflexivity. Qed.

(** ** The table *)

Inductive SpecOp : Type :=
  | OpImport (req : CreateSpec) | OpList | OpGet (id : Z) | OpDelete (id : Z) | OpOperations (id : Z)
  | OpPreview (spec : value).

Definition run_spec (c : Claims) (o : SpecOp) : NetM value :=
  match o with
  | OpImport req => create_spec parse_url json_error status_display allow_private c req
  | OpList => api (list_specs collate c)
  | OpGet id => api (get_spec c id)
  | OpDelete id => api (delete_spec c id)
  | OpOperations id => api (list_operations parse_url c id)
  | OpPreview spec => api (parse_preview parse_url spec)
  end.

(** What one database step of a request leaves: rows that are new or changed
    are the caller's, imported by an editor after the checks; rows that are
    gone are the caller's; the log only grows, by the caller's entries. *)
Definition spec_step (c : Claims) (d d' : Db) : Prop :=
  (∀ i s, openapi_specs d !! i = Some s → i < db_seq d) →
  (∀ i s', openapi_specs d' !! i = Some s' → openapi_specs d !! i = Some s' ∨
     role c ∈ ["admin"; "editor"] ∧ sp_org_id s' = org c ∧ validate_openapi (sp_spec_json s') = Ok tt ∧
     str_len (to_json_string (sp_spec_json s')) ≤ MAX_SPEC_BYTES) ∧
  (∀ i s, openapi_specs d !! i = Some s → sp_org_id s ≠ org c → openapi_specs d' !! i = Some s) ∧
  (∃ l, audit_log d' = audit_log d ++ l ∧ Forall (λ e, au_org_id e = org c ∧ au_actor e = sub c) l) ∧
  ∃ q specs log, d' = set_audit_log log (set_openapi_specs specs (set_seq q d)).

Lemma spec_step_refl c d : spec_step c d d.
Proof.
  intros _. split_and!; [by left|done|exists []; by rewrite app_nil_r|].
  exists (db_seq d), (openapi_specs d), (audit_log d). by destruct d.
Qed.

Lemma spec_step_log c e d : au_org_id e = org c → au_actor e = sub c →
  spec_step c d (set_audit_log (audit_log d ++ [e]) d).
Proof.
  intros Ho Ha _. split_and!; [by left|done|exists [e]; split; [done|by repeat constructor]|].
  exists (db_seq d), (openapi_specs d), (audit_log d ++ [e]). by destruct d.
Qed.

Lemma spec_step_import c name url spec by_ d :
  role c ∈ ["admin"; "editor"] → validate_openapi spec = Ok tt → str_len (to_json_string spec) ≤ MAX_SPEC_BYTES →
  spec_step c d (upsert_spec (org c) name url spec by_ d).2.
Proof.
  intros Hr Hv Hl Hf. unfold upsert_spec. destruct (List.find _ _) as [[k s]|] eqn:Hk; cbn;
    (split_and!; [| |exists []; by rewrite app_nil_r|]).
  - intros i s'. destruct (decide (i = k)) as [->|]; [|rewrite lookup_insert_ne by done; by left].
    apply find_some in Hk as [_ Hk]. unfold is_spec in Hk. cbn in Hk. bool_prop.
    rewrite lookup_insert_eq. intros [= <-]. by right.
  - intros i s' Hi Ho. apply find_some in Hk as [Hin Hk]. unfold is_spec in Hk. cbn in Hk. bool_prop.
    apply list_elem_of_In, by_id_elem in Hin. rewrite lookup_insert_ne; [done|]. intros ->. congruence.
  - do 3 eexists. reflexivity.
  - intros i s'. destruct (decide (i = db_seq d)) as [->|]; [|rewrite lookup_insert_ne by done; by left].
    rewrite lookup_insert_eq. intros [= <-]. by right.
  - intros i s' Hi Ho. rewrite lookup_insert_ne; [done|]. specialize (Hf _ _ Hi). lia.
  - exists (db_seq d + 1). do 2 eexists. reflexivity.
Qed.

Lemma spec_step_delete c id d : spec_step c d (delete_spec_effect (org c) id d).2.
Proof.
  unfold delete_spec_effect. destruct (spec_of (org c) id d) as [s|] eqn:Hs; [|apply spec_step_refl].
  apply owned_Some in Hs as [Hs Ho]. intros _. cbn. split_and!.
  - intros i s' [_ Hi]%lookup_delete_Some. by left.
  - intros i s' Hi Hne. rewrite lookup_delete_ne; [done|]. intros ->. congruence.
  - exists []. by rewrite app_nil_r.
  - do 3 eexists. reflexivity.
Qed.

Lemma spec_step_audit c e i a : writes (spec_step c) (record_audit c e i a None None).
Proof. apply writes_update. intros d. by apply spec_step_log. Qed.

(** A handler that sends nothing. *)
Lemma api_did {A} R (m : Api A) n : writes R m → did R (net_world n) (net_world (api m n).2).
Proof. intros Hm. pose proof (writes_did R m (net_world n) Hm). unfold api. by destruct (m (net_world n)). Qed.

Lemma did_same R w w' : w' = w → did R w w'.
Proof. intros ->. apply did_refl. Qed.

Lemma did_wp {A B} R (m : Api A) (f : A → NetM B) w n :
  did R w (net_world n) → writes R m →
  (∀ a n', did R w (net_world n') → wp (f a) (λ _ n'', did R w (net_world n'')) n') →
  wp (api m ≫= f) (λ _ n', did R w (net_world n')) n.
Proof.
  intros Hd Hm Hf. apply wp_bind. unfold wp. pose proof (api_did R m n Hm) as Ha.
  destruct (api m n) as [[a|e] n']; cbn in *; [apply Hf|]; by eapply did_trans.
Qed.


Lemma spec_input_keeps req n :
  wp (spec_input parse_url json_error status_display allow_private req)
    (λ _ n', net_world n' = net_world n) n.
Proof.
  unfold spec_input. destruct (cp_spec req); [by apply wp_ret|]. destruct (cp_url req) as [url|]; [|done].
  apply wp_bind. eapply wp_mono; [apply url_import_sends|]. cbv beta. by intros [] n' (Hw & _).
Qed.

(** Spec requests stay in the caller's organization: whatever request is
    run, among whatever other transactions and answers of the network, each of
    its database steps leaves the documents of other organizations and every
    other table alone, adds or replaces only documents of the caller's that
    passed the version, [paths] and size checks, and only for an editor, and
    only appends log entries of the caller. *)
Theorem spec_requests_stay_in_org c o n :
  did (spec_step c) (net_world n) (net_world (run_spec c o n).2).
Proof.
  pose proof (spec_step_refl c) as Hrefl. destruct o as [req| |id|id|id|spec]; cbn [run_spec].
  2-6: apply api_did; unfold list_specs, get_spec, delete_spec, list_operations, parse_preview; writes.
  2: apply writes_update; intros d; apply spec_step_delete.
  2: apply spec_step_audit.
  change (wp (create_spec parse_url json_error status_display allow_private c req)
            (λ _ n', did (spec_step c) (net_world n) (net_world n')) n).
  unfold create_spec. apply wp_bind, wp_lift. destruct (require_role c _) as [[]|] eqn:Hr; [|apply did_refl].
  apply require_role_Ok in Hr.
  apply wp_bind. eapply wp_mono; [apply spec_input_keeps|]. cbv beta. intros [[spec url]|] n1 Hn1; [|by apply did_same].
  cbv zeta. apply wp_bind, wp_guard; intros Hlen; [by apply did_same|]. bool_prop.
  apply wp_bind, wp_lift. destruct (validate_openapi spec) as [[]|] eqn:Hv; [|by apply did_same].
  apply wp_bind, wp_lift. destruct (ok_or _ _) as [by_|]; [|by apply did_same].
  apply did_wp; [by apply did_same|apply writes_update; intros d; by apply spec_step_import|].
  intros id n2 Hn2. apply did_wp; [done|apply spec_step_audit|]. intros [] n3 Hn3. by apply wp_ret.
Qed.
End Importer.

(** ** References in schemas *)

(** Every object's keys are in order, as in any value of the program. *)
Fixpoint objects_sorted (v : value) : bool :=
  match v with
  | VArray l => forallb objects_sorted l
  | VObject m => keys_sorted m && forallb (λ kv, match kv with (_, w) => objects_sorted w end) m
  | _ => true
  end.

(** The inlining of references without a bound: [n] counts the levels of the
    node, a reference and its target being one level each. *)
Inductive Inlines (spec : value) : nat → value → value → Prop :=
  | in_ref n r node target out :
      get_str "$ref" node = Some r → lookup_pointer spec r = Some target →
      Inlines spec n target out → Inlines spec (S n) node out
  | in_dangling n r node :
      get_str "$ref" node = Some r → lookup_pointer spec r = None → Inlines spec (S n) node node
  | in_object n m m' :
      get_str "$ref" (VObject m) = None →
      Forall2 (λ kv kv', kv.1 = kv'.1 ∧ Inlines spec n kv.2 kv'.2) m m' →
      Inlines spec (S n) (VObject m) (VObject m')
  | in_array n l l' : Forall2 (Inlines spec n) l l' → Inlines spec (S n) (VArray l) (VArray l')
  | in_scalar n v : as_object v = None → as_array v = None → Inlines spec (S n) v v.

(** The truncation marker occurs in the value. *)
Fixpoint has_marker (v : value) : bool :=
  bool_decide (v = truncation_marker) ||
  match v with
  | VArray l => existsb has_marker l
  | VObject m => existsb (λ kv, match kv with (_, w) => has_marker w end) m
  | _ => false
  end.

Section Schemas.
Context (spec : value).

Lemma objects_sorted_object m :
  objects_sorted (VObject m) = true → keys_sorted m = true ∧ ∀ k w, (k, w) ∈ m → objects_sorted w = true.
Proof.
  cbn. intros [Hk Hm]%andb_true_iff. split; [done|]. intros k w Hin.
  rewrite forallb_forall in Hm. apply (Hm (k, w)). by apply list_elem_of_In.
Qed.

Lemma objects_sorted_array l v : objects_sorted (VArray l) = true → v ∈ l → objects_sorted v = true.
Proof. cbn. rewrite forallb_forall. intros Hl Hin. apply Hl. by apply list_elem_of_In. Qed.

Lemma map_get_elem k m v : map_get k m = Some v → (k, v) ∈ m.
Proof.
  induction m as [|[k1 v1] m IH]; cbn; [done|]. destruct (String.eqb_spec k k1) as [->|]; [intros [= ->]; by left|].
  intros H. right. by apply IH.
Qed.

Lemma lookup_pointer_sorted r v :
  objects_sorted spec = true → lookup_pointer spec r = Some v → objects_sorted v = true.
Proof.
  intros Hs. unfold lookup_pointer. destruct (strip_prefix "#" r) as [p|]; [|done]. cbn. unfold pointer.
  destruct (is_empty p); [by intros [= <-]|]. destruct (negb _); [done|].
  enough (∀ l o, (∀ v, o = Some v → objects_sorted v = true) →
    fold_left (λ o t, o ≫= pointer_step (unescape_token t)) l o = Some v → objects_sorted v = true) as H
    by (apply H; by intros ? [= <-]).
  induction l as [|t l IH]; intros o Ho; cbn; [apply Ho|]. apply IH. intros w (u & -> & Hw)%bind_Some.
  specialize (Ho u eq_refl). destruct u as [| | | |items|m]; cbn in Hw; try done.
  - apply bind_Some in Hw as (i & _ & Hi). eapply objects_sorted_array; [exact Ho|]. by eapply list_elem_of_lookup_2.
  - apply objects_sorted_object in Ho as [_ Ho]. by eapply Ho, map_get_elem.
Qed.

(** A member list resolved element by element. *)
Lemma Forall2_map_l {A B} (f : A → B) (R : A → B → Prop) l l' :
  Forall2 R l l' → (∀ x y, x ∈ l → R x y → f x = y) → map f l = l'.
Proof.
  induction 1 as [|x y l l' Hxy _ IH]; intros Hf; cbn; [done|].
  rewrite (Hf x y ltac:(by left) Hxy). f_equal. apply IH. intros a b Ha. apply Hf. by right.
Qed.

Lemma inlines_resolve (Hspec : objects_sorted spec = true) n node out :
  Inlines spec n node out → objects_sorted node = true → resolve_schema_in n spec node = out.
Proof.
  revert node out. induction n as [|n IH]; intros node out Hin Hnode; [by inversion Hin|].
  inversion Hin as [? r ? target ? Hr Hl Ht|? r ? Hr Hl|? m m' Hr Hm|? l l' Hl|? v Ho Ha]; subst;
    cbn [resolve_schema_in].
  - rewrite Hr, Hl. apply IH; [done|]. by eapply lookup_pointer_sorted.
  - by rewrite Hr, Hl.
  - rewrite Hr. apply objects_sorted_object in Hnode as [Hk Hmem].
    assert (map (λ kv, (kv.1, resolve_schema_in n spec kv.2)) m = m') as Hmm.
    { eapply Forall2_map_l; [exact Hm|]. intros [k v] [k' v'] Hkv [Hk' Hv']. cbn in *. subst.
      f_equal. apply IH; [done|]. by eapply Hmem. }
    rewrite obj_entries_sorted; [by rewrite Hmm|].
    rewrite (keys_sorted_map _ _ m); [done|]. by rewrite map_map.
  - rewrite (Forall2_map_l _ _ _ _ Hl); [done|]. intros x y Hx Hxy. apply IH; [done|]. by eapply objects_sorted_array.
  - by destruct out.
Qed.

Lemma resolve_inlines (Hspec : objects_sorted spec = true) n node :
  objects_sorted node = true → has_marker (resolve_schema_in n spec node) = false →
  Inlines spec n node (resolve_schema_in n spec node).
Proof.
  revert node. induction n as [|n IH]; intros node Hnode Hm; [by vm_compute in Hm|].
  cbn [resolve_schema_in] in *. destruct (get_str "$ref" node) as [r|] eqn:Hr.
  { destruct (lookup_pointer spec r) as [t|] eqn:Hl; [|by eapply in_dangling].
    eapply in_ref; [done..|]. apply IH; [|done]. by eapply lookup_pointer_sorted. }
  destruct node as [| | | |l|m]; try (by apply in_scalar).
  - apply in_array. cbn in Hm. apply orb_false_iff in Hm as [_ Hm].
    apply Forall2_fmap_r, Forall_Forall2_diag, list.Forall_forall. intros x Hx.
    apply IH; [by eapply objects_sorted_array|].
    apply not_true_iff_false. intros Hx'. apply not_true_iff_false in Hm. apply Hm, existsb_exists.
    eexists. split; [|exact Hx']. apply in_map. by apply list_elem_of_In.
  - apply objects_sorted_object in Hnode as [Hk Hmem]. rewrite obj_entries_sorted in *;
      try (rewrite (keys_sorted_map _ _ m); [done|]; by rewrite map_map).
    apply in_object; [done|]. cbn in Hm. apply orb_false_iff in Hm as [_ Hm].
    apply Forall2_fmap_r, Forall_Forall2_diag, list.Forall_forall. intros [k v] Hx. split; [done|].
    apply IH; [by eapply Hmem|]. cbn.
    apply not_true_iff_false. intros Hx'. apply not_true_iff_false in Hm. apply Hm, existsb_exists.
    exists (k, resolve_schema_in n spec v). split; [|exact Hx'].
    apply (in_map (λ kv, (kv.1, resolve_schema_in n spec kv.2)) m (k, v)). by apply list_elem_of_In.
Qed.
End Schemas.

(** C29: resolving a schema is inlining, cut at seven levels: whenever
    unbounded inlining finishes within seven levels the resolved schema is its
    result, and conversely a resolved schema without the truncation marker is
    a complete inlining; a cyclic schema always shows the marker. *)
Theorem schema_resolution_inlines spec node :
  objects_sorted spec = true → objects_sorted node = true →
  (∀ out, Inlines spec 7 node out → resolve_schema spec node 0 = out) ∧
  (has_marker (resolve_schema spec node 0) = false → Inlines spec 7 node (resolve_schema spec node 0)).
Proof.
  intros Hs Hn. split.
  - intros out Hout. by apply inlines_resolve.
  - by apply resolve_inlines.
Qed.

Definition pet_spec : value := json_obj
  [("Pet", json_obj [("tag", json_obj [("$ref", VString "#/Tag")])]); ("Tag", VString "string");
   ("Loop", VArray [json_obj [("$ref", VString "#/Loop")]])].

Lemma schema_resolution_inlines_witness :
  Inlines pet_spec 7 (json_obj [("$ref", VString "#/Pet")]) (json_obj [("tag", VString "string")]) ∧
  has_marker (resolve_schema pet_spec (json_obj [("$ref", VString "#/Loop")]) 0) = true.
Proof.
  split; [|by vm_compute].
  apply (schema_resolution_inlines pet_spec (json_obj [("$ref", VString "#/Pet")])); by vm_compute.
Defined.

(** The bound on depth is none on size: a schema of [k] references to itself
    resolves to [k ^ 4] markers. *)
Definition self_reference : value := json_obj [("$ref", VString "#/s")].
Definition wide_spec (k : nat) : value := json_obj [("s", VArray (repeat self_reference k))].

Fixpoint leaves (v : value) : nat :=
  match v with VArray l => list_sum (map leaves l) | _ => 1 end.

Lemma leaves_repeat (f : value → value) x k : leaves (VArray (map f (repeat x k))) = (k * leaves (f x))%nat.
Proof.
  cbn [leaves]. induction k as [|k IH]; [done|].
  cbn [repeat map Nat.mul]. by rewrite <- IH.
Qed.

Lemma wide_level k n :
  leaves (resolve_schema_in (S (S n)) (wide_spec k) self_reference)
  = (k * leaves (resolve_schema_in n (wide_spec k) self_reference))%nat.
Proof.
  cbn [resolve_schema_in].
  assert (get_str "$ref" self_reference = Some "#/s") as -> by reflexivity.
  assert (lookup_pointer (wide_spec k) "#/s" = Some (VArray (repeat self_reference k))) as -> by reflexivity.
  cbn [get_str vget mbind option_bind]. apply leaves_repeat.
Qed.

Lemma cyclic_schema_expands k :
  leaves (resolve_schema (wide_spec k) (VArray (repeat self_reference k)) 0) = (k ^ 4)%nat.
Proof.
  change (resolve_schema ?s ?n 0) with (resolve_schema_in 7 s n).
  assert (leaves (resolve_schema_in 7 (wide_spec k) (VArray (repeat self_reference k)))
          = (k * leaves (resolve_schema_in 6 (wide_spec k) self_reference))%nat) as ->.
  { cbn [resolve_schema_in get_str vget mbind option_bind]. apply leaves_repeat. }
  rewrite !wide_level. cbn [resolve_schema_in]. change (leaves truncation_marker) with 1%nat. cbn. lia.
Qed.

(** ** The operation list *)

(** The methods of an OpenAPI path item that are listed; its others, head,
    options and trace, are not. *)
Definition listed_methods : list string := ["get"; "post"; "put"; "patch"; "delete"].

(** Every (path, method, operation) of a document, in its order. *)
Definition document_operations (spec : value) : list (string * string * value) :=
  match spec with
  | VObject doc =>
      match map_get "paths" doc with
      | Some (VObject paths) =>
          flat_map (λ '(path, item),
            match item with
            | VObject fields =>
                flat_map (λ m, match map_get m fields with Some op => [(path, m, op)] | None => [] end) listed_methods
            | _ => []
            end) paths
      | _ => []
      end
  | _ => []
  end.

(** The identifier: the operation's own, or the method and the path without
    its outer slashes, the inner ones as underscores. *)
Definition identifier (m path : string) (op : value) : string :=
  match op with
  | VObject fields =>
      match map_get "operationId" fields with
      | Some (VString own) => own
      | _ => m +:+ "_" +:+ replace_char "/" "_" (trim_char "/" path)
      end
  | _ => m +:+ "_" +:+ replace_char "/" "_" (trim_char "/" path)
  end.

(** The address of the first server, when it names one. *)
Definition first_server (spec : value) : string :=
  match spec with
  | VObject doc =>
      match map_get "servers" doc with
      | Some (VArray (VObject server :: _)) => match map_get "url" server with Some (VString u) => u | _ => EmptyString end
      | _ => EmptyString
      end
  | _ => EmptyString
  end.

(** Where an operation of a server lives: under the server's address, which,
    when it is relative and the document was imported from a URL, is put behind
    that URL's origin. *)
Definition lives_at (parse_url : string → result string Url) (server path : string) (src : option string)
    (url : string) : Prop :=
  let base := trim_end_char "/" server in
  let slashed := if starts_with "/" path then path else "/" +:+ path in
  let absolute := starts_with "http://" base = true ∨ starts_with "https://" base = true in
  (absolute ∨ src = None ∨ (∃ s e, src = Some s ∧ parse_url s = Err e) → url = base +:+ slashed) ∧
  (∀ s u, ¬ absolute → src = Some s → parse_url s = Ok u →
     url = u_scheme u +:+ "://" +:+ default EmptyString (u_host u) +:+
           match u_port u with Some port => ":" +:+ show_Z port | None => EmptyString end +:+ base +:+ slashed).

Lemma base_url_first spec : base_url_of spec = first_server spec.
Proof.
  unfold base_url_of, first_server. destruct spec as [| | | | |doc]; try done. cbn [vget mbind option_bind].
  destruct (map_get "servers" doc) as [[| | | |[|server l]|]|]; try done. cbn. destruct server as [| | | | |f]; try done.
  unfold get_str. cbn. by destruct (map_get "url" f) as [[]|].
Qed.

Lemma operation_identifier m path op : operation_id m path op = identifier m path op.
Proof.
  unfold operation_id, identifier, get_str. destruct op as [| | | | |f]; try done. cbn.
  by destruct (map_get "operationId" f) as [[]|].
Qed.

Lemma operation_lives parse_url server path src :
  lives_at parse_url server path src (resolve_operation_url parse_url server path src).
Proof.
  unfold lives_at, resolve_operation_url. set (base := trim_end_char "/" server).
  set (slashed := if starts_with "/" path then path else _).
  destruct (starts_with "http://" base || starts_with "https://" base) eqn:Ha.
  - split; [done|]. intros s u Hn. exfalso. apply Hn. by apply orb_true_iff in Ha.
  - apply orb_false_iff in Ha as [H1 H2]. split.
    + intros [[?|?]|[->|(s & e & -> & Hp)]]; [congruence..|done|by rewrite Hp].
    + intros s u _ -> ->. destruct (is_empty base) eqn:Hb; [destruct base; [|done]|];
        destruct (u_port u); by rewrite !append_assoc.
Qed.

Lemma path_operations_entries parse_url spec base src path fields :
  Forall2 (λ '(path', m, op) o,
      o = operation parse_url spec base src path (default (VArray []) (map_get "parameters" fields)) m op ∧ path' = path)
    (flat_map (λ m, match map_get m fields with Some op => [(path, m, op)] | None => [] end) listed_methods)
    (path_operations parse_url spec base src (path, VObject fields)).
Proof.
  unfold path_operations. cbn [fst snd as_object]. change METHODS with listed_methods.
  induction listed_methods as [|me l IH]; [constructor|]. cbn [flat_map omap list_omap].
  destruct (map_get me fields) as [op|]; cbn; [by constructor|exact IH].
Qed.


(** A relative server that does not begin with a slash runs into the host. *)
Definition host_only (_ : string) : result string Url := Ok (mkUrl "https" (Some "api.example") None (Some 443) "https://api.example/").
Lemma relative_server_joins_the_host :
  resolve_operation_url host_only "v1" "/pets" (Some "https://api.example/openapi.json") = "https://api.examplev1/pets".
Proof. reflexivity. Qed.
