(* ===== verification/MasterKey.v ===== *)
(** * Secret encryption: [apps/api/src/security/secrets.rs]

    AES-256-GCM, SHA-256 and standard base64 are an interface ([Aead]) with
    the round trip AES-GCM documents; the random nonce of an encryption is its
    argument.  [Nonce::from_slice] panics unless it is given 12 bytes. *)
From S2P Require Import Prelude RustStr.
From Stdlib Require Import Ascii.

Class Aead := {
  sha256 : string → string;
  std_decode : string → option string;
  aead_seal : string → string → string → result string string;
  aead_open : string → string → string → result string string;
  sha256_len : ∀ s, str_len (sha256 s) = 32;
  seal_open : ∀ key nonce m ct, aead_seal key nonce m = Ok ct → aead_open key nonce ct = Ok m;
}.

(** The 32 bytes of a key. *)
Record MasterKey : Type := mkMasterKey { mk_bytes : string }.

(** A call that may panic. *)
Inductive attempted (A : Type) : Type :=
  | Returned (a : A)
  | Panicked.
Arguments Returned {A} a.
Arguments Panicked {A}.

Section Keys.
Context `{Aead}.

Definition decode_master_key (value : string) : result string string :=
  match opt_filter (λ bytes, str_len bytes =? 32) (std_decode value) with
  | Some bytes => Ok bytes
  | None =>
      if str_len value <? 32
      then Err "MASTER_KEY must be base64 of 32 bytes or a raw string >= 32 chars"
      else Ok (sha256 value)
  end.

Definition from_env_value (value : string) : result string MasterKey := mkMasterKey <$> decode_master_key value.

(** [nonce] is the 12 random bytes. *)
Definition encrypt (key : MasterKey) (nonce plaintext : string) : result string (string * string) :=
  ct ← map_err (λ e, "aes-gcm encrypt: " +:+ e) (aead_seal (mk_bytes key) nonce plaintext);
  Ok (ct, nonce).

Definition decrypt (key : MasterKey) (ciphertext nonce : string) : attempted (result string string) :=
  if str_len nonce =? 12
  then Returned (map_err (λ e, "aes-gcm decrypt: " +:+ e) (aead_open (mk_bytes key) nonce ciphertext))
  else Panicked.

Lemma decrypt_encrypt key nonce m box :
  str_len nonce = 12 → encrypt key nonce m = Ok box → decrypt key box.1 box.2 = Returned (Ok m).
Proof.
  unfold encrypt, decrypt. intros Hn Hb. apply result_bind_ok in Hb as (ct & Hct & [= <-]).
  apply map_err_Ok in Hct. cbn. by rewrite Hn, (seal_open _ _ _ _ Hct).
Qed.

(** Master keys: the setting is accepted exactly when it is the base64 of
    32 bytes, which are then the key, or has at least 32 bytes, whose SHA-256
    is the key; every accepted key has 32 bytes and decrypts what it
    encrypted, whatever the nonce drawn. *)
Theorem master_keys_round_trip value :
  (is_ok (from_env_value value) = true ↔
     (∃ bytes, std_decode value = Some bytes ∧ str_len bytes = 32) ∨ 32 ≤ str_len value) ∧
  ∀ key, from_env_value value = Ok key →
    str_len (mk_bytes key) = 32 ∧
    (∀ bytes, std_decode value = Some bytes → str_len bytes = 32 → mk_bytes key = bytes) ∧
    ∀ nonce m box, str_len nonce = 12 → encrypt key nonce m = Ok box →
      decrypt key box.1 box.2 = Returned (Ok m).
Proof.
  assert (∀ k, decode_master_key value = Ok k →
    (∃ b, std_decode value = Some b ∧ str_len b = 32 ∧ k = b) ∨ 32 ≤ str_len value ∧ k = sha256 value ∧
      ∀ b, std_decode value = Some b → str_len b ≠ 32) as Hd.
  { intros k. unfold decode_master_key. destruct (std_decode value) as [b|]; cbn.
    - destruct (str_len b =? 32) eqn:Hb; bool_prop; [intros [= <-]; left; eauto|].
      destruct (str_len value <? 32) eqn:Hv; bool_prop; [done|]. intros [= <-]. right. naive_solver.
    - destruct (str_len value <? 32) eqn:Hv; bool_prop; [done|]. intros [= <-]. right. naive_solver. }
  split.
  - unfold from_env_value. split.
    + destruct (decode_master_key value) as [k|] eqn:Hk; [|done].
      intros _. destruct (Hd k eq_refl) as [(b & ? & ? & _)|[? _]]; eauto.
    + unfold decode_master_key. intros [(b & -> & Hb)|Hl]; cbn; [by rewrite Hb|].
      destruct (opt_filter _ _); [done|]. by destruct (Z.ltb_spec (str_len value) 32); [lia|].
  - unfold from_env_value. intros key Hk. destruct (decode_master_key value) as [k|] eqn:Hdk; [|done].
    injection Hk as <-. cbn. destruct (Hd k eq_refl) as [(b & Hb & Hl & ->)|(Hl & -> & Hno)].
    + split_and!; [done|congruence|]. intros. by apply decrypt_encrypt with nonce.
    + split_and!; [apply sha256_len| |].
      * intros b Hb Hl'. by destruct (Hno b Hb).
      * intros. by apply decrypt_encrypt with nonce.
Qed.
End Keys.

(** An instance: the ciphertext is the plaintext behind the key. *)
Definition clear_aead : Aead := {|
  sha256 s := "0123456789abcdef0123456789abcdef";
  std_decode _ := None;
  aead_seal key _ m := Ok (key +:+ m);
  aead_open key _ ct := ok_or (strip_prefix key ct) "authentication failed";
  sha256_len _ := eq_refl;
  seal_open key nonce m ct := ltac:(intros [= <-]; by rewrite (proj2 (strip_prefix_Some _ _ _) eq_refl));
|}.
