(* ===== verification/Suggest.v ===== *)
(** * Mapping suggestions: [apps/api/src/routes/llm.rs]

    The provider's key is decrypted, sample rows are redacted, and a model is
    asked for a template, once more with the validation error.  The regexes of
    the redaction ([regex] crate) and the schema text read from the repository
    are parameters.  Slicing and decryption may panic, so the handler stops
    with an error or a panic. *)
From S2P Require Import Prelude RustStr Json Error LicenseFile LicenseIO Db World RuleTypes Templates Secrets JobStart Net SampleJson Specs MasterKey.
From Stdlib Require Import Ascii.

(** How a handler stops short. *)
Inductive Stop : Type :=
  | Fails (e : ApiError)
  | Panics.

Abbreviation StopM := (stM Net Stop).

(** The part of a handler that cannot panic. *)
Definition safe {A} (m : NetM A) : StopM A := with_err Fails m.
Definition or_panic {A} (a : attempted A) : StopM A :=
  match a with Returned x => mret x | Panicked => throw Panics end.

Record SuggestRequest : Type := mkSuggest {
  sg_columns : list value; sg_sample_rows : list value; sg_spec_id : option Z;
  sg_operation_id : option string; sg_instructions : option string; sg_source_type : option string }.

Definition MAX_SAMPLE_ROWS : nat := 20.

(** ** Extraction *)

(** [str::find] and [str::rfind] of an ASCII character. *)
Fixpoint find_char (c : ascii) (s : string) : option nat :=
  match s with
  | EmptyString => None
  | String a s => if Ascii.eqb a c then Some 0%nat else S <$> find_char c s
  end.
Fixpoint rfind_char (c : ascii) (s : string) : option nat :=
  match s with
  | EmptyString => None
  | String a s =>
      match rfind_char c s with
      | Some i => Some (S i)
      | None => if Ascii.eqb a c then Some 0%nat else None
      end
  end.

(** [&s[start..=stop]] for indices of ASCII characters of [s]: it panics when
    [start] exceeds [stop + 1]. *)
Definition slice_inclusive (start stop : nat) (s : string) : attempted string :=
  if (S stop <? start)%nat then Panicked else Returned (String.substring start (S stop - start) s).

(** ** Redaction *)
Section Redact.
Context (email_re long_digits_re phone_re : string → string → string).

(** [replace_all]s of the text. *)
Definition redact_text (s : string) : string :=
  phone_re "+10000000000" (long_digits_re "000000000" (email_re "user@example.com" s)).

Fixpoint redact_value (v : value) : value :=
  match v with
  | VString s => VString (redact_text s)
  | VObject m => VObject (map (λ kv, match kv with (k, w) => (k, redact_value w) end) m)
  | VArray l => VArray (map redact_value l)
  | v => v
  end.
End Redact.

(** ** Prompts *)
Definition nl : string := String "010" EmptyString.
Definition q (s : string) : string := quote +:+ s +:+ quote.

Definition SYSTEM_PROMPT : string := str_concat
  ["You are a data-migration mapping assistant. You produce RuleTemplate JSON documents that map rows from a source file onto HTTP API calls."; nl; nl;
   "Rules:"; nl;
   "- Output ONLY a single JSON object, no prose and no markdown fences."; nl;
   "- The document must validate against the RuleTemplate JSON Schema provided by the user."; nl;
   "- Reference source columns with {"; q "$from"; ": "; q "columnName"; "} — only columns that actually exist."; nl;
   "- Fixed strings use {"; q "$literal"; ": "; q "value"; "}."; nl;
   "- For multi-step chains use "; q "steps"; ": [{name, mapping, destination}, ...] and reference earlier responses with {";
   q "$fromResponse"; ": "; q "stepName"; ", "; q "path"; ": "; q "$.jsonpath.to.field";
   "}. Step names must be [A-Za-z_][A-Za-z0-9_]* and unique; $fromResponse may only reference strictly earlier steps. Do NOT include top-level ";
   q "mapping"; "/"; q "destination"; " when "; q "steps"; " is used."; nl;
   "- For a single call use top-level "; q "mapping"; " + "; q "destination"; " and no "; q "steps"; "."; nl;
   "- destination.url may contain {placeholders} bound via destination.pathParams."; nl;
   "- Use "; q "preprocess";
   " entries (fn like builtin.uppercase, builtin.lowercase, builtin.trim, builtin.date_format) only when sample values clearly need normalization."; nl;
   "- Set source.schema to the provided columns. Set id to a short slug, version to 1, and pick a descriptive name."].

Definition message (role content : string) : value :=
  json_obj [("role", VString role); ("content", VString content)].

Definition redactor (redact_pii : bool) (email_re long_digits_re phone_re : string → string → string)
    (v : value) : value :=
  if redact_pii then redact_value email_re long_digits_re phone_re v else v.

Section Suggest.
Context `{JsonText} `{Rfc3339} `{Aead}.
Context (schema_check : value → result string unit) (shape_error : value → string).
Context (parse_url : string → result string Url) (status_display : Z → string) (json_error : string → string).
Context (email_re long_digits_re phone_re : string → string → string).
(** The text of packages/rule-schema/schema/rule-template.schema.json. *)
Context (RULE_SCHEMA_TEXT : string) (master_key : MasterKey).

Definition build_prompt (columns rows : list value) (operation : option value)
    (instructions source_type : option string) : string :=
  "RuleTemplate JSON Schema:" +:+ nl +:+ RULE_SCHEMA_TEXT
  +:+ nl +:+ nl +:+ "Source type: " +:+ default "csv" source_type
  +:+ nl +:+ nl +:+ "Source columns:" +:+ nl +:+ to_json_pretty (VArray columns)
  +:+ nl +:+ nl +:+ "Sample rows (values may be redacted):" +:+ nl +:+ to_json_pretty (VArray rows)
  +:+ match operation with
      | Some op => nl +:+ nl +:+ "Target API operation (from the OpenAPI spec). Map source columns onto its request schema; required fields first:"
                   +:+ nl +:+ to_json_pretty op
      | None => EmptyString
      end
  +:+ match instructions with
      | Some instr => nl +:+ nl +:+ "User instructions:" +:+ nl +:+ instr
      | None => EmptyString
      end
  +:+ nl +:+ nl +:+ "Produce the RuleTemplate JSON now.".

(** The request body; the temperature 0.1 by its bits. *)
Definition llm_request (model : string) (messages : list value) : value := json_obj
  [("model", VString model); ("messages", VArray messages);
   ("temperature", VNumber (Float 0x3fb999999999999a));
   ("response_format", json_obj [("type", VString "json_object")])].

Definition call_llm (base_url api_key model : string) (messages : list value) : NetM string :=
  resp ← llm_post (base_url +:+ "/chat/completions") api_key (llm_request model messages);
  resp ← lift (map_err (λ e, External ("llm request: " +:+ e)) resp);
  body ← lift (map_err (λ e, External ("llm response: " +:+ e))
           (bytes ← resp.2; ok_or (from_utf8 bytes ≫= from_json_str) (json_error bytes)));
  _ ← guard_err (negb (is_success resp.1))
        (External ("llm provider " +:+ status_display resp.1 +:+ ": "
                   +:+ default "unknown provider error" (pointer "/error/message" body ≫= as_str)));
  lift (ok_or (pointer "/choices/0/message/content" body ≫= as_str) (External "llm response missing content")).

Definition extract_json (content : string) : attempted (option value) :=
  let trimmed := trim content in
  match from_json_str trimmed with
  | Some v => Returned (Some v)
  | None =>
      match find_char "{" trimmed, rfind_char "}" trimmed with
      | Some start, Some stop =>
          match slice_inclusive start stop trimmed with
          | Returned s => Returned (from_json_str s)
          | Panicked => Panicked
          end
      | _, _ => Returned None
      end
  end.

(** The key of the stored configuration. *)
Definition load_api_key (c : Claims) (secret_id : option Z) : StopM string :=
  match secret_id with
  | None => throw (Fails (BadRequest "LLM API key not set; PUT /llm-config with api_key"))
  | Some sid =>
      row ← safe (api (query (λ d, owned se_org_id (org c) sid (secrets d))));
      row ← safe (lift (ok_or row (BadRequest "LLM API key secret missing")));
      plain ← or_panic (decrypt master_key (se_ciphertext row) (se_nonce row));
      plain ← safe (lift (map_err Internal plain));
      safe (lift (ok_or (from_utf8 plain) (Internal "api key not utf8")))
  end.

Definition operation_context (c : Claims) (req : SuggestRequest) : NetM (option value) :=
  match sg_spec_id req, sg_operation_id req with
  | Some spec_id, Some op_id =>
      spec ← api (query (spec_of (org c) spec_id));
      s ← lift (ok_or spec NotFound);
      let op := List.find (λ o, bool_decide (get_str "operation_id" o = Some op_id))
                  (parse_operations parse_url (sp_spec_json s) (sp_source_url s)) in
      _ ← guard_err (negb (is_some op))
            (BadRequest ("operation " +:+ debug_str op_id +:+ " not found in spec " +:+ show_Z spec_id));
      mret op
  | _, _ => mret None
  end.

Definition correction (content error : string) : list value :=
  [message "assistant" content;
   message "user" ("That template failed schema validation with: " +:+ error +:+ nl
                   +:+ "Return the corrected template as pure JSON only.")].

(** The attempts left, the messages so far and the last validation error. *)
Fixpoint ask_model (attempts : nat) (c : Claims) (req : SuggestRequest) (base_url api_key model : string)
    (redact_pii : bool) (messages : list value) (last_err : string) : StopM value :=
  match attempts with
  | O => throw (Fails (External ("LLM could not produce a schema-valid template: " +:+ last_err)))
  | S attempts =>
      content ← safe (call_llm base_url api_key model messages);
      candidate ← or_panic (extract_json content);
      candidate ← safe (lift (ok_or candidate (External "LLM returned no parseable JSON")));
      match validate_template schema_check shape_error candidate with
      | Ok _ =>
          _ ← safe (api (record_audit c "mapping_suggestion" None "generate" None
                (Some (json_obj [("model", VString model); ("redacted", VBool redact_pii);
                                 ("operation", json_opt_str (sg_operation_id req))]))));
          mret (json_obj [("template", candidate); ("model", VString model); ("redacted", VBool redact_pii)])
      | Err e =>
          ask_model attempts c req base_url api_key model redact_pii
            (messages ++ correction content (error_display e)) (error_display e)
      end
  end.

Definition suggest_mapping (c : Claims) (req : SuggestRequest) : StopM value :=
  _ ← safe (lift (require_role c ["admin"; "editor"]));
  _ ← safe (guard_err (match sg_columns req with [] => true | _ => false end)
        (BadRequest "columns must not be empty"));
  cfg ← safe (api (query (λ d, org_llm_configs d !! org c)));
  cfg ← safe (lift (ok_or cfg
          (BadRequest "LLM is not configured for this organization; PUT /llm-config first")));
  _ ← safe (guard_err (negb (lc_enabled cfg))
        (BadRequest "LLM suggestions are disabled for this organization"));
  api_key ← load_api_key c (lc_secret_id cfg);
  operation ← safe (operation_context c req);
  let rows := map (redactor (lc_redact_pii cfg) email_re long_digits_re phone_re)
                (take MAX_SAMPLE_ROWS (sg_sample_rows req)) in
  let prompt := build_prompt (sg_columns req) rows operation (sg_instructions req) (sg_source_type req) in
  ask_model 2 c req (lc_base_url cfg) api_key (lc_model cfg) (lc_redact_pii cfg)
    [message "system" SYSTEM_PROMPT; message "user" prompt] EmptyString.
End Suggest.
