(* ===== verification/SuggestRules.v ===== *)
(** * Theorems on mapping suggestions

    What leaves for the provider, under which key, and what comes back to the
    caller. *)
From S2P Require Import Prelude RustStr Json Error LicenseFile LicenseIO Db World Sources RuleTypes Templates Secrets JobLifecycle SecretRules JobStart JobSignals Net SampleJson Specs MasterKey Suggest.
From Stdlib Require Import Ascii.

(** ** Redaction *)

(** The texts of a value: its strings, and its numbers and keys. *)
Fixpoint string_values (v : value) : list string :=
  match v with
  | VString s => [s]
  | VArray l => mjoin (map string_values l)
  | VObject m => mjoin (map (λ kv, match kv with (_, w) => string_values w end) m)
  | _ => []
  end.
Fixpoint other_values (v : value) : list (string + value) :=
  match v with
  | VString _ => []
  | VArray l => mjoin (map other_values l)
  | VObject m => mjoin (map (λ kv, match kv with (k, w) => inl k :: other_values w end) m)
  | v => [inr v]
  end.

(** Redaction rewrites every string value of a row, at any depth, with the
    three expressions, and nothing else: keys, numbers, booleans and the shape
    stay as they are. *)
Theorem redaction_reaches_every_string email digits phone v :
  string_values (redact_value email digits phone v) = map (redact_text email digits phone) (string_values v) ∧
  other_values (redact_value email digits phone v) = other_values v.
Proof.
  induction v as [|b|n|s|l IH|m IH] using value_ind'; try done; cbn.
  - induction IH as [|v l [Hs Ho] _ [IHs IHo]]; [done|]. cbn. rewrite map_app. by split; f_equal.
  - induction IH as [|[k v] m [Hs Ho] _ [IHs IHo]]; [done|]. cbn in *. rewrite map_app. split; [by f_equal|]. f_equal. by f_equal.
Qed.

(** ** Extraction *)
Lemma find_char_bound c s i : find_char c s = Some i → (i < String.length s)%nat.
Proof.
  revert i. induction s as [|a s IH]; intros i; cbn; [done|]. destruct (Ascii.eqb a c); [intros [= <-]; lia|].
  intros (j & Hj & ->)%fmap_Some. specialize (IH j Hj). lia.
Qed.

(** A closing brace before every opening one. *)
Lemma extract_json_panics `{JsonText} :
  from_json_str "} {" = None → extract_json "} {" = Panicked.
Proof. unfold extract_json. change (trim "} {") with "} {". by intros ->. Qed.

(** ** The handler *)
Section Suggest.
Context `{JsonText} `{Rfc3339} `{Aead}.
Context (schema_check : value → result string unit) (shape_error : value → string).
Context (parse_url : string → result string Url) (status_display : Z → string) (json_error : string → string).
Context (email_re long_digits_re phone_re : string → string → string).
Context (RULE_SCHEMA_TEXT : string) (master_key : MasterKey).

(** The only database step: an entry of the caller in the log. *)
Definition log_step (c : Claims) (d d' : Db) : Prop :=
  d' = d ∨ ∃ e, d' = set_audit_log (audit_log d ++ [e]) d ∧ au_org_id e = org c ∧ au_actor e = sub c ∧
    au_entity e = "mapping_suggestion" ∧ au_action e = "generate".

Lemma did_seen R w w' s : did R w w' → s ∈ w_hist w → s ∈ w_hist w'.
Proof. intros (h & -> & _) Hs. apply elem_of_app. by left. Qed.

Lemma did_weaken (R R' : Db → Db → Prop) w w' : (∀ d d', R d d' → R' d d') → did R w w' → did R' w w'.
Proof. intros HR (h & Hh & Hf). exists h. split; [done|]. eapply list.Forall_impl; [exact Hf|]. intros [] ?. by apply HR. Qed.

Lemma wp_safe_query {A} (f : Db → A) (Q : result Stop A → Net → Prop) c n :
  (∀ d w, did (log_step c) (net_world n) w → (d, d) ∈ w_hist w →
     Q (Ok (f d)) (mkNet w (net_replies n) (net_sent n))) →
  (∀ e w, did (log_step c) (net_world n) w → Q (Err (Fails e)) (mkNet w (net_replies n) (net_sent n))) →
  wp (safe (api (query f))) Q n.
Proof.
  intros Hok Herr. apply wp_with_err, wp_api_reads; [apply reads_query|]. intros r w Hr Hd.
  assert (did (log_step c) (net_world n) w) as Hl by (eapply did_weaken; [|exact Hd]; intros; by left).
  destruct r as [a|e]; cbn [map_err]; [|by apply Herr]. apply query_seen in Hr as [Hs ->]. by apply Hok.
Qed.

(** The requests of the attempts: the given messages and what the model and
    the validation said after them. *)
Definition model_calls (base_url api_key model : string) (messages : list value) (l : list Request) : Prop :=
  Forall (λ q, ∃ extra, q = ReqLlm (base_url +:+ "/chat/completions") api_key (llm_request model (messages ++ extra))) l.

Lemma call_llm_sends base_url api_key model messages n :
  wp (call_llm status_display json_error base_url api_key model messages) (λ r n',
    net_world n' = net_world n ∧
    net_sent n' = net_sent n ++ [ReqLlm (base_url +:+ "/chat/completions") api_key (llm_request model messages)]) n.
Proof.
  unfold call_llm, llm_post. apply wp_bind, wp_bind, wp_ask, wp_ret, wp_bind, wp_lift.
  set (got := match next_answer n with Http _ _ => _ | _ => _ end). destruct got as [[st b]|]; [|done].
  cbn [map_err fst snd]. apply wp_bind, wp_lift. destruct (b ≫= _) as [body|]; [|done]. cbn [map_err].
  by apply wp_bind, wp_guard; intros _.
Qed.

Lemma ask_model_runs attempts c req base_url api_key model redact messages err n :
  wp (ask_model schema_check shape_error status_display json_error attempts c req base_url api_key model redact
        messages err) (λ r n',
    did (log_step c) (net_world n) (net_world n') ∧
    ∃ l, net_sent n' = net_sent n ++ l ∧ (length l ≤ attempts)%nat ∧
      model_calls base_url api_key model messages l ∧
      ∀ v, r = Ok v → ∃ t, vget "template" v = Some t ∧ is_ok (validate_template schema_check shape_error t) = true) n.
Proof.
  assert (∀ messages n n', net_world n' = net_world n →
    net_sent n' = net_sent n ++ [ReqLlm (base_url +:+ "/chat/completions") api_key (llm_request model messages)] →
    did (log_step c) (net_world n) (net_world n') ∧
    ∃ l, net_sent n' = net_sent n ++ l ∧ (length l ≤ 1)%nat ∧ model_calls base_url api_key model messages l) as Hone.
  { intros ms m m' Hw Hs. split; [rewrite Hw; apply did_refl|]. eexists. split_and!; [exact Hs|done|].
    constructor; [|constructor]. exists []. by rewrite app_nil_r. }
  revert messages err n. induction attempts as [|k IH]; intros messages err n; cbn [ask_model].
  { split; [apply did_refl|]. exists []. rewrite app_nil_r. split_and!; [done|cbn; lia|constructor|by intros]. }
  apply wp_bind, wp_with_err. eapply wp_mono; [apply call_llm_sends|]. cbv beta. intros r n1 [Hw Hs].
  destruct (Hone messages n n1 Hw Hs) as (Hd & l & Hl & Hlen & Hm).
  assert (∀ (r : result Stop value) n', (∀ v, r ≠ Ok v) → did (log_step c) (net_world n) (net_world n') →
    net_sent n' = net_sent n1 → did (log_step c) (net_world n) (net_world n') ∧
    ∃ l, net_sent n' = net_sent n ++ l ∧ (length l ≤ S k)%nat ∧ model_calls base_url api_key model messages l ∧
      ∀ v, r = Ok v → ∃ t, vget "template" v = Some t ∧ is_ok (validate_template schema_check shape_error t) = true) as Hstop.
  { intros r' n' Hr' Hd' Hs'. split; [done|]. exists l. rewrite Hs'. split_and!; [done|lia|done|]. intros v Hv.
    by destruct (Hr' v). }
  destruct r as [content|e]; cbn [map_err]; [|by apply Hstop].
  apply wp_bind. destruct (extract_json content) as [candidate|]; cbn [or_panic]; [|by apply Hstop].
  apply wp_ret, wp_bind, wp_with_err, wp_lift.
  destruct candidate as [t|]; cbn [ok_or map_err]; [|by apply Hstop].
  destruct (validate_template schema_check shape_error t) as [tpl|e] eqn:Ht.
  - apply wp_bind, wp_with_err, wp_api_run. intros r w Hr.
    assert (did (log_step c) (net_world n1) w) as Hd2.
    { pose proof (writes_did (log_step c) _ (net_world n1) (writes_update (log_step c) (λ d,
        (tt, set_audit_log (audit_log d ++ [audit_entry c "mapping_suggestion" None "generate" None
          (Some (json_obj [("model", VString model); ("redacted", VBool redact);
                           ("operation", json_opt_str (sg_operation_id req))])) d]) d))
        ltac:(intros d; right; eexists; split; [reflexivity|done]))) as Hw'.
      unfold record_audit in Hr. by rewrite Hr in Hw'. }
    assert (did (log_step c) (net_world n) w) as Hd3 by (by eapply did_trans).
    destruct r as [[]|e]; cbn [map_err]; [|by apply Hstop]. apply wp_ret. split; [done|]. exists l.
    split_and!; [done|lia|done|]. intros v [= <-]. exists t. split; [by rewrite vget_json_obj|by rewrite Ht].
  - eapply wp_mono; [apply IH|]. cbv beta. intros r n' (Hd' & l' & Hl' & Hlen' & Hm' & Hr).
    split; [by eapply did_trans|]. exists (l ++ l'). rewrite Hl', Hl, app_assoc.
    split_and!; [done|rewrite length_app; lia| |done]. apply Forall_app. split; [done|].
    eapply list.Forall_impl; [exact Hm'|]. intros q' (extra & ->). eexists. by rewrite <- app_assoc.
Qed.

(** The configuration and key a request used, as its statements saw them. *)
Definition provider_seen (c : Claims) (h : list (Db * Db)) (cfg : LlmConfig) (api_key : string) : Prop :=
  (∃ d, (d, d) ∈ h ∧ org_llm_configs d !! org c = Some cfg) ∧ lc_enabled cfg = true ∧
  ∃ d sid s, (d, d) ∈ h ∧ lc_secret_id cfg = Some sid ∧ secrets d !! sid = Some s ∧ se_org_id s = org c ∧
    decrypt master_key (se_ciphertext s) (se_nonce s) = Returned (Ok api_key).

Lemma load_api_key_seen c cfg n :
  wp (load_api_key master_key c (lc_secret_id cfg)) (λ r n',
    did (log_step c) (net_world n) (net_world n') ∧ net_sent n' = net_sent n ∧
    ∀ api_key, r = Ok api_key → ∃ d sid s, (d, d) ∈ w_hist (net_world n') ∧ lc_secret_id cfg = Some sid ∧
      secrets d !! sid = Some s ∧ se_org_id s = org c ∧
      decrypt master_key (se_ciphertext s) (se_nonce s) = Returned (Ok api_key)) n.
Proof.
  unfold load_api_key. destruct (lc_secret_id cfg) as [sid|]; [|split_and!; [apply did_refl|done|by intros]].
  apply wp_bind, (wp_safe_query _ _ c); [|by intros e w Hd; split_and!; [|done|by intros]].
  intros d w Hd Hs. apply wp_bind, wp_with_err, wp_lift.
  destruct (owned se_org_id (org c) sid (secrets d)) as [s|] eqn:Ho; cbn [ok_or map_err];
    [|by split_and!; [|done|by intros]].
  apply owned_Some in Ho as [Ho Horg].
  apply wp_bind. destruct (decrypt master_key _ _) as [plain|] eqn:Hdec; cbn [or_panic];
    [|by split_and!; [|done|by intros]].
  apply wp_ret, wp_bind, wp_with_err, wp_lift.
  destruct plain as [plain|]; cbn [map_err]; [|by split_and!; [|done|by intros]].
  apply wp_with_err, wp_lift. split_and!; [done|done|]. intros api_key Hk%map_err_Ok%ok_or_Ok.
  unfold from_utf8 in Hk. destruct (utf8_valid plain); [|done]. injection Hk as <-. by exists d, sid, s.
Qed.

Lemma operation_context_reads c req n :
  wp (operation_context parse_url c req) (λ _ n',
    did (log_step c) (net_world n) (net_world n') ∧ net_sent n' = net_sent n) n.
Proof.
  unfold operation_context. destruct (sg_spec_id req), (sg_operation_id req); try (by split; [apply did_refl|]).
  apply wp_bind, wp_api_reads; [apply reads_query|]. intros r w _ Hd.
  assert (did (log_step c) (net_world n) w) as Hl by (eapply did_weaken; [|exact Hd]; intros; by left).
  destruct r as [row|]; [|done]. apply wp_bind, wp_lift. destruct row as [s1|]; [|done]. cbn [ok_or]. cbv zeta.
  by apply wp_bind, wp_guard; intros _.
Qed.

(** C19: a suggestion works with the organization's own provider and returns a
    valid template: nothing is sent, or at most two requests (each with
    the redirects its client follows by default, which are not modelled) go to
    the configured address under the key stored for this organization, each
    starting with the system prompt and a prompt holding at most twenty rows,
    redacted when the configuration says so; the only database step is a log
    entry of the caller; and a template that is returned passed validation. *)
Theorem suggestions_use_the_own_provider c req n :
  wp (suggest_mapping schema_check shape_error parse_url status_display json_error email_re long_digits_re phone_re
        RULE_SCHEMA_TEXT master_key c req) (λ r n',
    did (log_step c) (net_world n) (net_world n') ∧
    (net_sent n' = net_sent n ∧ (∀ v, r ≠ Ok v) ∨
     ∃ cfg api_key operation l, role c ∈ ["admin"; "editor"] ∧
       provider_seen c (w_hist (net_world n')) cfg api_key ∧
       net_sent n' = net_sent n ++ l ∧ (length l ≤ 2)%nat ∧
       model_calls (lc_base_url cfg) api_key (lc_model cfg)
         [message "system" SYSTEM_PROMPT;
          message "user" (build_prompt RULE_SCHEMA_TEXT (sg_columns req)
            (map (redactor (lc_redact_pii cfg) email_re long_digits_re phone_re) (take 20 (sg_sample_rows req)))
            operation (sg_instructions req) (sg_source_type req))] l ∧
       ∀ v, r = Ok v → ∃ t, vget "template" v = Some t ∧
         is_ok (validate_template schema_check shape_error t) = true)) n.
Proof.
  unfold suggest_mapping. apply wp_bind, wp_with_err, wp_lift.
  destruct (require_role c _) as [[]|] eqn:Hrole; cbn [map_err]; [|split; [apply did_refl|by left]].
  apply require_role_Ok in Hrole.
  apply wp_bind, wp_with_err, wp_guard; intros _; cbn [map_err]; [split; [apply did_refl|by left]|].
  apply wp_bind, (wp_safe_query _ _ c); [|intros e w Hd; split; [done|by left]]. intros d w Hd Hseen.
  apply wp_bind, wp_with_err, wp_lift.
  destruct (org_llm_configs d !! org c) as [cfg|] eqn:Hcfg; cbn [ok_or map_err]; [|split; [done|by left]].
  apply wp_bind, wp_with_err, wp_guard; intros Hen; cbn [map_err]; [split; [done|by left]|]. apply negb_false_iff in Hen.
  apply wp_bind. eapply wp_mono; [apply load_api_key_seen|]. cbv beta. intros r n1 (Hd1 & Hs1 & Hkey). cbn in Hd1, Hs1.
  assert (did (log_step c) (net_world n) (net_world n1)) as Hd1' by (by eapply did_trans).
  destruct r as [api_key|e]; [|split; [done|left; by split]]. destruct (Hkey _ eq_refl) as (d2 & sid & s & Hsec).
  apply wp_bind, wp_with_err. eapply wp_mono; [apply operation_context_reads|]. cbv beta. intros r n2 (Hd2 & Hs2).
  assert (did (log_step c) (net_world n) (net_world n2)) as Hd2' by (by eapply did_trans).
  destruct r as [operation|e]; cbn [map_err]; [|split; [done|left; split; [congruence|done]]]. cbv zeta.
  eapply wp_mono; [apply ask_model_runs|]. cbv beta. intros r n' (Hd3 & l & Hl & Hlen & Hm & Hr).
  split; [by eapply did_trans|]. right. exists cfg, api_key, operation, l.
  split_and!; [done| |by rewrite Hl, Hs2, Hs1|done|exact Hm|done].
  assert (∀ s, s ∈ w_hist (net_world n1) → s ∈ w_hist (net_world n')) as Hk
    by (intros x Hx; eapply did_seen; [exact Hd3|]; eapply did_seen; [exact Hd2|done]).
  split_and!; [exists d; split; [apply Hk; eapply did_seen; [exact Hd1|done]|done]|done|].
  destruct Hsec as (? & ?). exists d2, sid, s. split; [by apply Hk|done].
Qed.
End Suggest.

(** ** The stored key, from configuration to use *)
Section Configured.
Context `{JsonText} `{Rfc3339} `{Aead}.

Lemma quiet_transaction {A} (f : Db → ApiResult (A * Db)) w (Q : ApiResult A → World → Prop) a d' :
  quiet w → f (w_db w) = Ok (a, d') →
  (∀ w', quiet w' → w_db w' = d' → Q (Ok a) w') → wp (transaction f) Q w.
Proof.
  unfold quiet, wp, transaction, next_turn. intros -> Hf HQ. cbn. unfold id. rewrite Hf. cbn. by apply HQ.
Qed.

(** The row an upsert of the key leaves under its own id. *)
Lemma upsert_secret_row o n ct nonce kind d :
  secrets_wf d →
  let '(row, d') := upsert_secret o n ct nonce kind (replace_value ct nonce) d in
  secrets d' !! se_id row = Some row ∧ se_org_id row = o ∧ se_ciphertext row = ct ∧ se_nonce row = nonce.
Proof.
  intros [Hid _]. unfold upsert_secret, add_secret. destruct (find_secret o n d) as [[i s]|] eqn:Hf; cbn.
  - apply find_secret_Some in Hf as (Hs & Ho & _). destruct (Hid _ _ Hs) as [-> _]. by rewrite lookup_insert_eq.
  - by rewrite lookup_insert_eq.
Qed.

(** A stored provider key comes back: without interference, an
    administrator's configuration with a key is accepted, and the next
    suggestion of the organization finds that configuration enabled, with the
    address less its trailing slashes, and decrypts exactly that key. *)
Theorem configured_key_is_used key nonce c req api_key w :
  quiet w → secrets_wf (w_db w) → role c = "admin" → is_some (parse_i64 (sub c)) = true →
  default "openai-compatible" (pc_provider req) = "openai-compatible" →
  pc_api_key req = Some api_key → utf8_valid api_key = true → pc_enabled req ≠ Some false →
  str_len nonce = 12 → is_ok (encrypt key nonce api_key) = true →
  wp (put_config (encrypt key nonce) c req) (λ r w',
    is_ok r = true ∧
    ∃ cfg, org_llm_configs (w_db w') !! org c = Some cfg ∧ lc_enabled cfg = true ∧
      lc_base_url cfg = trim_end_char "/" (pc_base_url req) ∧
      ∀ replies sent, (load_api_key key c (lc_secret_id cfg) (mkNet w' replies sent)).1 = Ok api_key) w.
Proof.
  intros Hq Hwf Hrole Hsub Hprov Hkey Hutf Hen Hnonce Henc. unfold put_config. rewrite Hprov, Hkey.
  apply wp_bind, wp_lift. assert (require_role c ["admin"] = Ok tt) as -> by (unfold require_role; by rewrite Hrole).
  apply wp_bind, wp_guard; intros Hg; [done|].
  apply wp_bind, wp_lift. destruct (parse_i64 (sub c)) as [by_|]; [cbn [ok_or]|done].
  apply wp_bind, wp_bind, wp_lift. unfold sealed. destruct (encrypt key nonce api_key) as [box|] eqn:Hbox; [|done].
  cbn [map_err]. pose proof (upsert_secret_row (org c) LLM_SECRET box.1 box.2 "internal" (w_db w) Hwf) as Hrow.
  destruct (upsert_secret _ _ _ _ _ _ _) as [row d'] eqn:Hup. destruct Hrow as (Hs & Ho & Hct & Hno).
  eapply quiet_transaction; [done|by rewrite Hup|]. intros w1 Hq1 Hd1.
  apply wp_bind, quiet_update; [done|]. intros w2 Hq2 Hd2 _ _. apply wp_ret. split; [done|].
  rewrite Hd2, Hd1. cbn. rewrite lookup_insert_eq. eexists. split; [done|]. cbn.
  split_and!; [by destruct (pc_enabled req) as [[]|]|done|]. intros replies sent.
  change (wp (load_api_key key c (Some (se_id row))) (λ r _, r = Ok api_key) (mkNet w2 replies sent)).
  unfold load_api_key. apply wp_bind, wp_with_err, wp_api, quiet_query; [done|]. intros w3 _ _ _ _. cbn [map_err].
  cbn [net_world]. rewrite Hd2, Hd1. cbn. unfold owned. rewrite Hs. cbn. rewrite Ho, Z.eqb_refl.
  apply wp_bind, wp_with_err, wp_lift. cbn [ok_or map_err]. rewrite Hct, Hno.
  apply wp_bind. rewrite (decrypt_encrypt _ _ _ _ Hnonce Hbox). apply wp_ret, wp_bind, wp_with_err, wp_lift.
  cbn [map_err]. apply wp_with_err, wp_lift. unfold from_utf8. by rewrite Hutf.
Qed.
End Configured.

(** ** Concrete runs *)
Definition dev_key : MasterKey := mkMasterKey "0123456789abcdef0123456789abcdef".
Definition provider_config : PutConfig := mkPutConfig None "https://llm.example/" "m" (Some "sk-1") None None.
Definition sealing : string → result string (string * string) := encrypt (H := clear_aead) dev_key "nonce-12byte".

Lemma configured_key_is_used_witness :
  is_ok (put_config sealing admin_claims provider_config (sample_world empty_db)).1 = true.
Proof.
  apply (configured_key_is_used (H1 := clear_aead) dev_key "nonce-12byte" admin_claims provider_config "sk-1"
           (sample_world empty_db)); 
    try reflexivity; try done.
Defined.

(** A provider key stored over a destination secret of its name can be revoked
    with the destination secrets; its empty nonce then panics the next
    suggestion. *)
Lemma revoked_provider_key_panics :
  let w1 := (put_config sealing admin_claims provider_config
               (sample_world (secret_db LLM_SECRET "destination"))).2 in
  let w2 := (revoke_secret admin_claims LLM_SECRET w1).2 in
  ∃ cfg, org_llm_configs (w_db w2) !! 1 = Some cfg ∧
    (load_api_key (H1 := clear_aead) dev_key admin_claims (lc_secret_id cfg) (mkNet w2 [] [])).1 = Err Panics.
Proof. vm_compute. eexists. split; reflexivity. Qed.
