(* ===== verification/DryRun.v ===== *)
(** * Dry runs: [apps/api/src/routes/dry_run.rs]

    The payloads a template would send for sample rows, read off the untyped
    document; [RuleTypes] has the typed form the other routes validate. *)
From S2P Require Import Prelude RustStr Json LicenseFile RuleTypes TemplateRules.
From Stdlib Require Import Ascii.

(** [mapping.payload] of a template or step, empty when it is not an object. *)
Definition payload_of (v : value) : jmap :=
  default [] (m ← vget "mapping" v; p ← vget "payload" m; as_object p).

Definition extract_steps (template : value) : list (string * jmap) :=
  match vget "steps" template ≫= as_array with
  | Some steps => map (λ s, (default "step" (get_str "name" s), payload_of s)) steps
  | None => [("main", payload_of template)]
  end.

(** The value of a directive object: [$from], [$py], [$fromResponse] and
    [$literal], in this order. *)
Definition directive (obj : jmap) (row : value) : option value :=
  match map_get "$from" obj ≫= as_str with
  | Some field => Some (default VNull (vget field row))
  | None =>
      match map_get "$py" obj ≫= as_str with
      | Some expr => Some (VString ("<py: " +:+ expr +:+ ">"))
      | None =>
          match map_get "$fromResponse" obj ≫= as_str with
          | Some step =>
              let path := default "$" (map_get "path" obj ≫= as_str) in
              Some (VString ("<response of " +:+ step +:+ ": " +:+ path +:+ ">"))
          | None => map_get "$literal" obj
          end
      end
  end.

Fixpoint resolve (template row : value) : value :=
  match template with
  | VObject obj =>
      match directive obj row with
      | Some v => v
      | None => VObject (obj_entries (map (λ kv, match kv with (k, v) => (k, resolve v row) end) obj))
      end
  | VArray arr => VArray (map (λ v, resolve v row) arr)
  | v => v
  end.

Definition render (mapping : jmap) (row : value) : value :=
  VObject (obj_entries (map (λ kv, (kv.1, resolve kv.2 row)) mapping)).

(** The preview of a row: the flat shape for a single step. *)
Definition preview (steps : list (string * jmap)) (row : value) : value :=
  let per_step := map (λ s, json_obj [("step", VString s.1); ("payload", render s.2 row)]) steps in
  match per_step with
  | [s] => default VNull (vget "payload" s)
  | _ => json_obj [("steps", VArray per_step)]
  end.

Definition dry_run (template : value) (rows : list value) : value :=
  json_obj [("previews", VArray (map (preview (extract_steps template)) (take 20 rows)))].

(** ** Theorems *)

(** *** Reading the steps off a document *)

(** A document whose template, steps and mappings are objects; serde also
    decodes an array of a structure's fields, which the preview does not read. *)
Definition plain_mapping (m : jmap) : bool :=
  match map_get "mapping" m with None | Some VNull | Some (VObject _) => true | _ => false end.
Definition plain_step (v : value) : bool := match v with VObject m => plain_mapping m | _ => false end.
Definition plain_document (v : value) : bool :=
  match v with
  | VObject m => plain_mapping m && match map_get "steps" m with Some (VArray l) => forallb plain_step l | _ => true end
  | _ => false
  end.

Definition step_payload (s : Step) : string * jmap := (st_name s, default [] (mp_payload <$> st_mapping s)).

Lemma payload_of_mapping m mp :
  plain_mapping m = true → opt_field mapping_of_value "mapping" m = Some mp →
  payload_of (VObject m) = default [] (mp_payload <$> mp).
Proof.
  unfold plain_mapping, opt_field, payload_of. cbn. destruct (map_get "mapping" m) as [[| | | | |f]|]; try done.
  - by intros _ [= <-].
  - intros _. unfold mapping_of_value, struct_of, req. cbn. destruct (negb (known _ f)); [done|]. cbn.
    destruct (map_get "payload" f) as [[| | | | |p]|]; try done. by intros [= <-].
  - by intros _ [= <-].
Qed.

Lemma steps_read l steps :
  forallb plain_step l = true → map_opt step_of_value l = Some steps →
  map (λ s, (default "step" (get_str "name" s), payload_of s)) l = map step_payload steps.
Proof.
  revert steps. induction l as [|v l IH]; intros steps; cbn; [by intros _ [= <-]|].
  intros [Hv Hl]%andb_true_iff (s & Hs & Hr)%bind_Some. apply bind_Some in Hr as (ss & Hss & [= <-]).
  cbn. f_equal; [|by apply IH]. destruct v as [| | | | |m]; try done. cbn in Hv.
  unfold step_of_value, req in Hs. apply bind_Some in Hs as (m' & Hm & Hs).
  unfold struct_of in Hm. cbn in Hm. destruct (negb (known _ m)); [done|]. injection Hm as <-.
  apply bind_Some in Hs as (n & Hn & Hs). apply bind_Some in Hs as (d & _ & Hs). apply bind_Some in Hs as (mp & Hmp & Hs).
  apply bind_Some in Hs as (de & _ & Hs). apply bind_Some in Hs as (f & _ & [= <-]). unfold step_payload. cbn [st_name st_mapping].
  rewrite (payload_of_mapping m mp) by done. unfold get_str. cbn [vget]. by rewrite Hn.
Qed.

(** The steps of a document are those of the template it decodes to. *)
Lemma document_steps v t :
  template_of_value v = Some t → plain_document v = true →
  is_some (tp_steps t) || (is_some (tp_mapping t) && is_some (tp_destination t)) = true →
  extract_steps v = map step_payload (execution_steps t).
Proof.
  intros Ht Hp Hshape. destruct v as [| | | | |m]; try done. cbn in Hp. apply andb_true_iff in Hp as [Hm Hl].
  unfold template_of_value in Ht. apply bind_Some in Ht as (m' & Hm' & Ht). unfold struct_of in Hm'. cbn in Hm'.
  destruct (negb (known _ m)); [done|]. injection Hm' as <-.
  do 5 (apply bind_Some in Ht as (? & _ & Ht)). apply bind_Some in Ht as (mp & Hmp & Ht).
  apply bind_Some in Ht as (de & _ & Ht). apply bind_Some in Ht as (st & Hst & Ht).
  do 3 (apply bind_Some in Ht as (? & _ & Ht)). injection Ht as <-. cbn [tp_steps tp_mapping tp_destination] in Hshape.
  unfold extract_steps, execution_steps. cbn [tp_steps tp_mapping tp_destination vget].
  unfold opt_field in Hst. destruct (map_get "steps" m) as [[| | | |l|]|]; cbn in Hst; try done.
  1,3: injection Hst as <-; cbn [mbind option_bind as_array]; rewrite (payload_of_mapping m mp) by done; by destruct mp, de.
  unfold list_of in Hst. cbn in Hst. destruct (map_opt step_of_value l) as [steps|] eqn:Hs; [|done].
  injection Hst as <-. cbn [mbind option_bind as_array]. by apply steps_read.
Qed.

(** *** What a preview shows *)

Definition lacks_text (k : string) (obj : jmap) : Prop := ∀ s, map_get k obj ≠ Some (VString s).

(** A payload mapping filled from a row: a field reference is the row's field,
    or null; code and responses of other steps are named, not run; a literal
    is itself; everything else is copied through objects and arrays. *)
Inductive Fills (row : value) : value → value → Prop :=
  | fills_field obj field : map_get "$from" obj = Some (VString field) →
      Fills row (VObject obj) (match row with VObject r => default VNull (map_get field r) | _ => VNull end)
  | fills_code obj expr : lacks_text "$from" obj → map_get "$py" obj = Some (VString expr) →
      Fills row (VObject obj) (VString ("<py: " +:+ expr +:+ ">"))
  | fills_response obj step : lacks_text "$from" obj → lacks_text "$py" obj → map_get "$fromResponse" obj = Some (VString step) →
      Fills row (VObject obj)
        (VString ("<response of " +:+ step +:+ ": " +:+
                  match map_get "path" obj with Some (VString p) => p | _ => "$" end +:+ ">"))
  | fills_literal obj v : lacks_text "$from" obj → lacks_text "$py" obj → lacks_text "$fromResponse" obj →
      map_get "$literal" obj = Some v → Fills row (VObject obj) v
  | fills_object obj fields : lacks_text "$from" obj → lacks_text "$py" obj → lacks_text "$fromResponse" obj →
      map_get "$literal" obj = None → Forall2 (λ kv kv', kv'.1 = kv.1 ∧ Fills row kv.2 kv'.2) obj fields →
      Fills row (VObject obj) (VObject (obj_entries fields))
  | fills_array l l' : Forall2 (Fills row) l l' → Fills row (VArray l) (VArray l')
  | fills_scalar v : match v with VObject _ | VArray _ => False | _ => True end → Fills row v v.

(** The payload of a step for a row. *)
Definition fills_payload (row : value) (mapping : jmap) (payload : value) : Prop :=
  ∃ fields, payload = VObject (obj_entries fields) ∧
    Forall2 (λ kv kv', kv'.1 = kv.1 ∧ Fills row kv.2 kv'.2) mapping fields.

(** The preview of a row: the payload of a template's only step, or every
    step's name and payload, in order. *)
Definition shows (steps : list Step) (row preview : value) : Prop :=
  ∃ payloads, Forall2 (λ s p, fills_payload row (default [] (mp_payload <$> st_mapping s)) p) steps payloads ∧
    match payloads with
    | [payload] => preview = payload
    | _ => preview = json_obj [("steps", VArray (zip_with (λ s p,
             json_obj [("step", VString (st_name s)); ("payload", p)]) steps payloads))]
    end.

Lemma text_cases k obj : (∃ s, map_get k obj = Some (VString s)) ∨ lacks_text k obj ∧ map_get k obj ≫= as_str = None.
Proof.
  destruct (map_get k obj) as [v|] eqn:Hk; [|right; split; [unfold lacks_text; by rewrite Hk|done]].
  destruct v; [..|left; by eexists| |]; (right; split; [unfold lacks_text; by rewrite Hk|done]).
Qed.

Lemma resolve_fills row v : Fills row v (resolve v row).
Proof.
  induction v as [|b|n|s|l IH|m IH] using value_ind'; try by apply fills_scalar.
  - cbn. constructor. induction IH; cbn; by constructor.
  - cbn [resolve]. unfold directive.
    destruct (text_cases "$from" m) as [[f Hf]|[Hf Hf']]; [|rewrite Hf'].
    { rewrite Hf. pose proof (fills_field row m f Hf) as Hx. by destruct row. }
    destruct (text_cases "$py" m) as [[e He]|[He He']]; [rewrite He; exact (fills_code row m e Hf He)|rewrite He'].
    destruct (text_cases "$fromResponse" m) as [[r Hr]|[Hr Hr']].
    { rewrite Hr. cbn. pose proof (fills_response row m r Hf He Hr) as H.
      by destruct (map_get "path" m) as [[]|]. }
    rewrite Hr'. destruct (map_get "$literal" m) as [v|] eqn:Hl; [by apply fills_literal|].
    apply fills_object; [done..|]. clear - IH. induction IH as [|[k v] m Hv _ IHm]; cbn; by constructor.
Qed.

Lemma render_fills row mapping : fills_payload row mapping (render mapping row).
Proof.
  unfold fills_payload, render. eexists. split; [done|].
  induction mapping as [|[k v] m IH]; cbn; constructor; [|done]. split; [done|]. apply resolve_fills.
Qed.

Lemma preview_shows steps row : shows steps row (preview (map step_payload steps) row).
Proof.
  exists (map (λ s, render (step_payload s).2 row) steps). split.
  - induction steps as [|s l IH]; cbn; constructor; [apply render_fills|done].
  - assert (∀ ss, map (λ s, json_obj [("step", VString s.1); ("payload", render s.2 row)]) (map step_payload ss) =
      zip_with (λ s p, json_obj [("step", VString (st_name s)); ("payload", p)]) ss
        (map (λ s, render (step_payload s).2 row) ss)) as Hz.
    { induction ss as [|s ss IH]; [done|]. cbn [map zip_with]. by rewrite IH. }
    destruct steps as [|s [|s' l]]; [done| |exact (f_equal (λ l, json_obj [("steps", VArray l)]) (Hz (s :: s' :: l)))].
    change (default VNull (vget "payload" (json_obj
      [("step", VString (step_payload s).1); ("payload", render (step_payload s).2 row)])) = render (step_payload s).2 row).
    by rewrite vget_json_obj.
Qed.


