(* ===== verification/LicenseRoutes.v ===== *)
(** * License routes: [apps/api/src/routes/license.rs] and the work
    authorization of [apps/api/src/routes/health.rs]

    What the process tells of its license, the activation of a trial by an
    administrator, and the answer the orchestrator's work depends on.  The
    state joins the license process ([LicenseIO.Proc]) and the handler's world
    (the audit log). *)
From S2P Require Import Prelude RustStr Json Error License LicenseFile LicenseIO Db World Sources JobStart.
From Stdlib Require Import Ascii.

Record Node : Type := mkNode { n_proc : Proc; n_world : World }.

Abbreviation NodeM := (stM Node ApiError).

(** The license process's part of a handler: its error is a value. *)
Definition on_proc {A} (m : io A) : NodeM (result string A) := λ n,
  let '(r, p) := m (n_proc n) in (Ok r, mkNode p (n_world n)).
(** A computation of the process that cannot fail. *)
Definition on_proc_ok {A} (m : io A) : NodeM A :=
  r ← on_proc m; lift (map_err Internal r).
Definition on_world {A} (m : Api A) : NodeM A := λ n,
  let '(r, w) := m (n_world n) in (r, mkNode (n_proc n) w).

Definition kind_str (k : LicenseKind) : string :=
  match k with Trial => "trial" | Commercial => "commercial" end.

Definition activation_hint (enforce : bool) (licensed_kind : option LicenseKind)
    (problem : option LicenseProblem) (server_configured : bool) : string :=
  match licensed_kind with
  | Some Commercial => "Commercial license active. To renew or re-issue, mount the new vendor-signed file via LICENSE_FILE (or copy it to LICENSE_STORE_PATH); the API adopts a changed store file within a minute."
  | Some Trial => "To replace a trial with a commercial license, mount a vendor-signed file via LICENSE_FILE (or copy it to LICENSE_STORE_PATH); the API adopts a changed store file within a minute."
  | None =>
      match problem with
      | Some HeartbeatGraceExpired => "The license server has been unreachable for more than 72 hours. Restore connectivity to LICENSE_SERVER_URL (the next heartbeat re-attests automatically) or mount a commercial LICENSE_FILE."
      | Some Revoked => "The vendor revoked this license. Contact support, then mount a new LICENSE_FILE."
      | Some FingerprintMismatch => "This license is bound to a different install ID. Request a license for the install ID shown above."
      | _ =>
          if enforce then
            if server_configured
            then "No valid license. An admin can start a 10-day trial below with a contact email, or mount a commercial LICENSE_FILE signed with migration-admin license-sign."
            else "No valid license. Configure LICENSE_SERVER_URL + LICENSE_SERVER_TOKEN to start a trial, or mount a commercial LICENSE_FILE signed with migration-admin license-sign."
          else "Development mode (LICENSE_ENFORCE unset). For production set LICENSE_ENFORCE=true and either LICENSE_FILE or LICENSE_SERVER_URL for a 10-day trial."
      end
  end.

(** The problem shown: a revocation before anything else. *)
Definition shown_problem (state : LicenseState) (fp : string) (t : Z) : option LicenseProblem :=
  d ← doc state;
  if is_some (revoked_reason state) then Some Revoked else err_opt (validity d fp t).

Definition heartbeat_status (state : LicenseState) (d : LicenseDoc) (problem : option LicenseProblem) : string :=
  if negb (requires_heartbeat d) then "not_required"
  else if is_some (revoked_reason state) then "revoked"
  else if bool_decide (problem = Some HeartbeatGraceExpired) then "grace_expired"
  else if is_some (last_heartbeat_error state) then "degraded"
  else "ok".

Definition problem_mode (enforce : bool) (problem : option LicenseProblem) : string :=
  match problem with
  | Some Revoked => "revoked"
  | Some HeartbeatGraceExpired => "grace_expired"
  | Some FingerprintMismatch => "fingerprint_mismatch"
  | _ => if enforce then "expired" else "development"
  end.

Section Routes.
Context `{JsonText} `{Rfc3339} `{Crypto}.
Context (env : string → option string) (embedded_pem : string) (clock : nat → Z)
      (client_builds : bool) (writable : string → bool)
      (product_version pid : string) (status_display : Z → string).

Definition server_configured : bool := is_some (from_env env).

Definition heartbeat_json (state : LicenseState) (problem : option LicenseProblem) (t : Z) : value :=
  json_opt (λ d, json_obj
    [("required", VBool (requires_heartbeat d)); ("status", VString (heartbeat_status state d problem));
     ("last_attested_at", json_opt_time (issued_at d)); ("grace_until", json_opt_time (grace_until d));
     ("due", VBool (heartbeat_due (heartbeat_interval (env "LICENSE_HEARTBEAT_INTERVAL_SECS")) state t));
     ("last_attempt_at", json_opt_time (last_heartbeat_attempt state));
     ("last_error", json_opt_str (last_heartbeat_error state));
     ("server_configured", VBool server_configured)]) (doc state).

(** The clock is read once for the problem and once for the days left. *)
Definition status_json (state : LicenseState) : io value :=
  w ← st_get;
  t ← now clock;
  let fp := process_fingerprint w in
  let enforce := enforce_enabled w in
  let problem := shown_problem state fp t in
  let heartbeat := heartbeat_json state problem t in
  match doc state with
  | Some d =>
      if negb (is_some problem) then
        t2 ← now clock;
        mret (json_obj
          [("licensed", VBool true); ("enforce", VBool enforce); ("kind", VString (kind_str (kind d)));
           ("licensee", VString (licensee d)); ("expires_at", json_time (expires_at d));
           ("days_remaining", json_int (days_remaining d t2)); ("features", json_strs (features d));
           ("max_seats", json_opt_int (max_seats d)); ("fingerprint", VString (short_fingerprint fp));
           ("heartbeat", heartbeat);
           ("trial_available", VBool (server_configured && negb (bool_decide (kind d = Commercial))));
           ("activation_hint", VString (activation_hint enforce (Some (kind d)) None server_configured))])
      else
        mret (json_obj
          [("licensed", VBool false); ("enforce", VBool enforce); ("kind", VString (kind_str (kind d)));
           ("licensee", VString (licensee d)); ("expires_at", json_time (expires_at d));
           ("days_remaining", json_int 0); ("mode", VString (problem_mode enforce problem));
           ("problem", json_opt (λ p, VString (problem_as_str p)) problem);
           ("revoked_reason", json_opt_str (revoked_reason state));
           ("fingerprint", VString (short_fingerprint fp)); ("heartbeat", heartbeat);
           ("trial_available", VBool server_configured);
           ("activation_hint", VString (activation_hint enforce None problem server_configured))])
  | None =>
      mret (json_obj
        [("licensed", VBool false); ("enforce", VBool enforce);
         ("mode", VString (if enforce then "unlicensed" else "development"));
         ("days_remaining", json_int 0); ("fingerprint", VString (short_fingerprint fp));
         ("trial_available", VBool server_configured);
         ("activation_hint", VString (activation_hint enforce None None server_configured))])
  end.

Definition with_install_id (w : Proc) (body : value) : value :=
  index_assign "install_id_full" (VString (process_fingerprint w)) body.

Definition license_status (c : Claims) : io value :=
  state ← snapshot;
  body ← status_json state;
  w ← st_get;
  mret (if (role c =? "admin")%string then with_install_id w body else body).

(** [license::is_licensed] *)
Definition is_licensed_now : io bool :=
  state ← snapshot; w ← st_get; t ← now clock;
  mret (is_licensed state (process_fingerprint w) t).

(** A commercial license that is valid now. *)
Definition commercial_active : io bool :=
  state ← snapshot;
  match doc state with
  | Some d => if bool_decide (kind d = Commercial) then is_licensed_now else mret false
  | None => mret false
  end.

Definition start_trial (c : Claims) (email : string) : NodeM value :=
  _ ← lift (require_role c ["admin"]);
  email ← lift (map_err BadRequest (validate_trial_email email));
  _ ← guard_err (negb server_configured)
        (BadRequest "LICENSE_SERVER_URL and LICENSE_SERVER_TOKEN must be configured on the API to start a trial");
  active ← on_proc_ok commercial_active;
  _ ← guard_err active
        (Conflict "a valid commercial license is already active; a trial would not replace it");
  d ← on_proc (LicenseIO.start_trial env embedded_pem clock client_builds writable product_version pid
                 status_display email);
  d ← lift (map_err (λ e, External ("trial activation failed: " +:+ e)) d);
  w ← on_proc_ok st_get;
  _ ← on_world (record_audit c "license" (Some (short_fingerprint (process_fingerprint w))) "trial_start" None
        (Some (json_obj [("licensee", VString (licensee d)); ("expires_at", json_time (expires_at d));
                         ("kind", VString "trial")])));
  state ← on_proc_ok snapshot;
  body ← on_proc_ok (status_json state);
  mret (with_install_id w body).

(** ** [routes/health.rs] *)

(** [bridge_token] is the configured token, [header] the Authorization header
    when it is printable: the status and the body. *)
Definition authorize_work (bridge_token header : option string) : io (Z * value) :=
  let expected := default EmptyString bridge_token in
  let supplied := default EmptyString (header ≫= strip_prefix "Bearer ") in
  if is_empty expected || negb (supplied =? expected)%string then
    mret (401, json_obj [("authorized", VBool false); ("reason", VString "unauthorized")])
  else
    w ← st_get; t ← now clock;
    mret match require_licensed w t with
         | Ok _ => (200, json_obj [("authorized", VBool true)])
         | Err _ => (402, json_obj [("authorized", VBool false); ("reason", VString "license_required")])
         end.
End Routes.

Definition health : value := json_obj [("status", VString "ok")].

(** The readiness probe: one statement. *)
Definition ready : Api (Z * value) :=
  r ← attempt (query (λ _, 1));
  let db_ok := is_ok r in
  mret (if db_ok then 200 else 503,
        json_obj [("status", VString (if db_ok then "ok" else "degraded")); ("db", VBool db_ok)]).

(** ** Theorems *)
Section Theorems.
Context `{JsonText} `{Rfc3339} `{Crypto}.
Context (env : string → option string) (embedded_pem : string) (clock : nat → Z)
      (client_builds : bool) (writable : string → bool)
      (product_version pid : string) (status_display : Z → string).

Lemma shown_problem_problem state fp t d :
  doc state = Some d → shown_problem state fp t = problem_for state fp t.
Proof.
  unfold shown_problem, problem_for. intros ->. cbn. unfold is_some, License.is_some.
  by destruct (revoked_reason state).
Qed.

Lemma status_json_spec state w :
  wp (status_json env clock state) (λ r w', quiet w w' ∧ ∃ body m, r = Ok body ∧ body = VObject m ∧
    let b := is_licensed state (process_fingerprint w) (clock (p_clock w)) in
    vget "licensed" body = Some (VBool b) ∧
    vget "enforce" body = Some (VBool (enforce_enabled w)) ∧
    vget "fingerprint" body = Some (VString (short_fingerprint (process_fingerprint w))) ∧
    vget "install_id_full" body = None ∧
    (b = false → is_some (doc state) = true →
       vget "problem" body = Some (json_opt (λ p, VString (problem_as_str p))
         (problem_for state (process_fingerprint w) (clock (p_clock w)))))) w.
Proof.
  unfold status_json. wp_steps. eapply wp_mono; [apply now_quiet|]. cbv beta. intros r w1 (-> & Hq & _).
  cbv beta iota zeta. unfold is_licensed.
  destruct (doc state) as [d|] eqn:Hd; cbn [License.is_some andb].
  - rewrite (shown_problem_problem _ _ _ d Hd).
    destruct (problem_for state _ _) as [p|] eqn:Hp; cbn [is_some License.is_some negb].
    + wp_steps. split; [done|]. eexists _, _. split; [done|]. split; [done|]. rewrite !vget_json_obj. by split_and!.
    + wp_steps. eapply wp_mono; [apply now_quiet|]. cbv beta. intros r w2 (-> & Hq2 & _). cbv iota. wp_steps.
      split; [by eapply quiet_trans|]. eexists _, _. split; [done|]. split; [done|]. rewrite !vget_json_obj.
      by split_and!.
  - wp_steps. split; [done|]. eexists _, _. split; [done|]. split; [done|]. rewrite !vget_json_obj. by split_and!.
Qed.

(** The status page tells what the gate does: reading the status changes
    nothing, and what it shows as licensed is what the gate would decide at
    the same instant whenever enforcement is on; with a document that does not
    count, it names the gate's own reason; and only an administrator sees the
    full installation identifier. *)
Theorem status_agrees_with_the_gate c w :
  wp (license_status env clock c) (λ r w', quiet w w' ∧ ∃ body b, r = Ok body ∧
    vget "licensed" body = Some (VBool b) ∧
    (enforce_enabled w = true → (b = true ↔ require_licensed w (clock (p_clock w)) = Ok tt)) ∧
    (enforce_enabled w = true → b = false → is_some (doc (p_state w)) = true →
       ∃ p, vget "problem" body = Some (VString (problem_as_str p)) ∧
         require_licensed w (clock (p_clock w))
         = Err (LicenseRequired (license_hint (Some p) +:+ " (reason: " +:+ problem_as_str p +:+ ")"))) ∧
    vget "install_id_full" body
      = (if (role c =? "admin")%string then Some (VString (process_fingerprint w)) else None)) w.
Proof.
  unfold license_status, snapshot. wp_steps. eapply wp_mono; [apply status_json_spec|]. cbv beta.
  intros r w1 (Hq & body & m & -> & -> & Hl & _ & _ & Hi & Hp). cbv iota. wp_steps. split; [done|].
  eexists _, (is_licensed (p_state w) (process_fingerprint w) (clock (p_clock w))). split; [done|].
  assert (∀ k, k ≠ "install_id_full" → vget k (if (role c =? "admin")%string
    then with_install_id w1 (VObject m) else VObject m) = vget k (VObject m)) as Hk.
  { intros k Hne. destruct (role c =? "admin")%string; [|done]. unfold with_install_id. cbn.
    by apply map_get_insert_ne. }
  rewrite !Hk by done. unfold require_licensed, is_licensed. unfold is_licensed in Hl, Hp. split_and!; [done|..].
  - intros ->. cbn.
    destruct (doc (p_state w)), (problem_for _ _ _); cbn; naive_solver.
  - intros -> Hb Hdoc. cbn. destruct (doc (p_state w)) as [d|]; [|done]. cbn in *.
    destruct (problem_for _ _ _) as [p|] eqn:Hpr; [|done]. exists p. split; [by apply Hp|done].
  - destruct (role c =? "admin")%string; [|done]. unfold with_install_id. cbn. rewrite map_get_insert.
    unfold process_fingerprint. by destruct Hq as (_ & _ & -> & _).
Qed.

Lemma commercial_active_spec p :
  wp (commercial_active clock) (λ r p', quiet p p' ∧ ∃ b, r = Ok b ∧
    (b = true ↔ ∃ d, doc (p_state p) = Some d ∧ kind d = Commercial ∧
       is_licensed (p_state p) (process_fingerprint p) (clock (p_clock p)) = true)) p.
Proof.
  unfold commercial_active, snapshot. wp_steps. destruct (doc (p_state p)) as [d|] eqn:Hd.
  - case_bool_decide as Hk.
    + unfold is_licensed_now, snapshot. wp_steps. eapply wp_mono; [apply now_quiet|]. cbv beta.
      intros r p1 (-> & Hq & _). cbv iota. wp_steps. split; [done|]. eexists. split; [done|]. naive_solver.
    + wp_steps. split; [done|]. exists false. split; [done|]. naive_solver.
  - wp_steps. split; [done|]. exists false. split; [done|]. naive_solver.
Qed.

(** The orchestrator's work is authorized only by the shared token and
    the license gate: the answer is 200 exactly when a bridge token is
    configured and not empty, the caller presents it, and the gate lets work
    through at that instant. *)
Theorem work_needs_token_and_license bridge_token header w :
  wp (authorize_work clock bridge_token header) (λ r w', quiet w w' ∧ ∃ status body, r = Ok (status, body) ∧
    (status = 200 ↔ ∃ token, bridge_token = Some token ∧ token ≠ EmptyString ∧
       header = Some ("Bearer " +:+ token) ∧ require_licensed w (clock (p_clock w)) = Ok tt)) w.
Proof.
  unfold authorize_work. set (bad := is_empty _ || _). destruct bad eqn:Hbad; subst bad.
  - wp_steps. split; [done|]. eexists _, _. split; [done|]. split; [done|].
    intros (token & -> & Hne & -> & _). exfalso. cbn [default mbind option_bind] in Hbad.
    rewrite (proj2 (strip_prefix_Some "Bearer " ("Bearer " +:+ token) token) eq_refl) in Hbad.
    cbn [default from_option id] in Hbad. rewrite String.eqb_refl in Hbad. by destruct token.
  - apply orb_false_iff in Hbad as [He Hs]. apply negb_false_iff, String.eqb_eq in Hs.
    wp_steps. eapply wp_mono; [apply now_quiet|]. cbv beta. intros r w1 (-> & Hq & _). cbv iota. wp_steps.
    split; [done|]. destruct bridge_token as [token|]; [cbn [default from_option id] in He, Hs|done].
    destruct header as [h|]; cbn [default from_option id mbind option_bind] in Hs; [|by subst].
    destruct (strip_prefix "Bearer " h) as [t|] eqn:Hh; cbn [default from_option id] in Hs; [|by subst]. subst t.
    apply strip_prefix_Some in Hh as ->.
    destruct (require_licensed w _) as [[]|e]; (eexists _, _; split; [done|]); split; try done; intros Ht.
    + exists token. split_and!; try done. by intros ->.
    + by destruct Ht as (? & _ & _ & _ & ?).
Qed.

(** The vendor's key, with no rotation key configured. *)
Context (key : pubkey) (Hkey : public_from_pem embedded_pem = Some key)
      (Hrot : non_empty_var env "LICENSE_PUBLIC_KEY_PATH" = None).

Local Abbreviation route :=
  (start_trial env embedded_pem clock client_builds writable product_version pid status_display).

(** The process part of the route. *)
Lemma trial_activates email p :
  wp (LicenseIO.start_trial env embedded_pem clock client_builds writable product_version pid status_display email)
    (λ r p', p_fp p' = p_fp p ∧ p_enforce p' = p_enforce p ∧ match r with
      | Ok d => doc (p_state p') = Some d ∧ kind d = Trial ∧ fingerprint d = Some (process_fingerprint p) ∧
                revoked_reason (p_state p') = None
      | Err _ => p_state p' = p_state p
      end) p.
Proof.
  unfold LicenseIO.start_trial, with_state. wp_steps; [done|].
  eapply wp_mono; [by apply (activate_trial_bound _ _ _ _ _ _ _ _ key)|]. cbv beta.
  intros [l|e] p1 ((Hs & He & Hf) & Hl); cbv iota; wp_steps; [|done].
  destruct (Hl l eq_refl) as (_ & Hk & Hb). cbn. by split_and!.
Qed.

Lemma wp_on_proc {A} (m : io A) (Q : ApiResult (result string A) → Node → Prop) n :
  wp m (λ r p, Q (Ok r) (mkNode p (n_world n))) (n_proc n) → wp (on_proc m) Q n.
Proof. unfold wp, on_proc. by destruct (m (n_proc n)). Qed.

Lemma wp_on_proc_ok {A} (m : io A) (Q : ApiResult A → Node → Prop) n :
  wp m (λ r p, ∃ a, r = Ok a ∧ Q (Ok a) (mkNode p (n_world n))) (n_proc n) → wp (on_proc_ok m) Q n.
Proof.
  intros Hm. unfold on_proc_ok. apply wp_bind, wp_on_proc. eapply wp_mono; [exact Hm|]. cbv beta.
  by intros r p (a & -> & HQ).
Qed.

(** One audit entry, of the caller's own. *)
Lemma wp_on_world_audit c entity id action after n :
  wp (on_world (record_audit c entity id action None after)) (λ r n', n_proc n' = n_proc n ∧
    ∀ u, r = Ok u → ∃ db e, w_hist (n_world n') = w_hist (n_world n) ++ [(db, set_audit_log (audit_log db ++ [e]) db)] ∧
      au_org_id e = org c ∧ au_actor e = sub c ∧ au_action e = action ∧ au_entity e = entity) n.
Proof.
  unfold wp, on_world, record_audit.
  match goal with |- context [update ?f ?w] => pose proof (update_effect f w) as Heff; destruct (update f w) as [ra wa] end.
  destruct Heff as (_ & Heff). cbn in *. split; [done|]. intros u ->.
  destruct Heff as [[_ Hno]|(db & Hh & Hdb & _)]; [done|]. rewrite Hdb in Hh. eexists db, _. split; [exact Hh|]. by split_and!.
Qed.

(** A trial started from the settings never costs a better license: only
    an administrator gets past the role check, and when a commercial license
    is valid at that moment the request is refused with nothing sent and the
    license untouched; a request that fails before the activation leaves the
    license as it was; and a request that succeeds has activated a trial bound
    to this installation and has logged it as the caller's. *)
Theorem trials_never_replace_a_commercial_license c email n :
  wp (route c email) (λ r n',
    (role c ≠ "admin" → r = Err Forbidden ∧ n' = n) ∧
    (∀ d, doc (p_state (n_proc n)) = Some d → kind d = Commercial →
       is_licensed (p_state (n_proc n)) (process_fingerprint (n_proc n)) (clock (p_clock (n_proc n))) = true →
       is_ok r = false ∧ quiet (n_proc n) (n_proc n') ∧ n_world n' = n_world n) ∧
    (p_state (n_proc n') = p_state (n_proc n) ∧ is_ok r = false ∧ n_world n' = n_world n ∨
     ∃ d, doc (p_state (n_proc n')) = Some d ∧ kind d = Trial ∧
       fingerprint d = Some (process_fingerprint (n_proc n)) ∧
       ∀ body, r = Ok body → ∃ db e, w_hist (n_world n') = w_hist (n_world n) ++ [(db, set_audit_log (audit_log db ++ [e]) db)] ∧
         au_org_id e = org c ∧ au_actor e = sub c ∧ au_action e = "trial_start" ∧ au_entity e = "license")) n.
Proof.
  unfold start_trial. apply wp_bind, wp_lift.
  destruct (require_role c _) as [[]|e] eqn:Hrole.
  2: { unfold require_role in Hrole. destruct (mem_str _ _); [done|]. injection Hrole as <-.
       split_and!; [done|done|by left]. }
  apply require_role_Ok in Hrole. apply list_elem_of_singleton in Hrole.
  apply wp_bind, wp_lift. destruct (validate_trial_email email) as [em|e]; cbn [map_err];
    [|split_and!; [done|done|by left]].
  apply wp_bind, wp_guard; intros Hsrv; [split_and!; [done|done|by left]|].
  apply wp_bind, wp_on_proc_ok. eapply wp_mono; [apply commercial_active_spec|]. cbv beta.
  intros r p1 (Hq & b & -> & Hb). exists b. split; [done|].
  apply wp_bind, wp_guard; intros Hg; cbn [n_proc n_world].
  { split_and!; [done|done|]. left. split_and!; [apply Hq|done|done]. }
  assert (¬ ∃ d, doc (p_state (n_proc n)) = Some d ∧ kind d = Commercial ∧
    is_licensed (p_state (n_proc n)) (process_fingerprint (n_proc n)) (clock (p_clock (n_proc n))) = true) as Hnc.
  { intros Hd. apply Hb in Hd. congruence. }
  apply wp_bind, wp_on_proc. eapply wp_mono; [apply trial_activates|]. cbv beta. cbn [n_proc n_world].
  destruct Hq as (Hqs & _ & Hqf & _).
  intros r p2 (Hf & _ & Hr). apply wp_bind, wp_lift. destruct r as [d|e]; cbn [map_err].
  2: { split_and!; [done|naive_solver|]. left. cbn. split_and!; [congruence|done|done]. }
  destruct Hr as (Hd & Hk & Hfp & _).
  assert (process_fingerprint p1 = process_fingerprint (n_proc n)) as Hpf by (unfold process_fingerprint; by rewrite Hqf).
  rewrite Hpf in Hfp.
  apply wp_bind, wp_on_proc_ok. wp_steps. eexists. split; [done|]. cbn [n_proc n_world].
  apply wp_bind. eapply wp_mono; [apply wp_on_world_audit|]. cbn [n_proc n_world].
  intros ra n3 (Hp3 & Ha). destruct ra as [[]|e].
  2: { split_and!; [done|naive_solver|]. right. exists d. rewrite Hp3. by split_and!. }
  apply wp_bind, wp_on_proc_ok. unfold snapshot. wp_steps. eexists. split; [done|]. cbn [n_proc n_world].
  apply wp_bind, wp_on_proc_ok. eapply wp_mono; [apply status_json_spec|]. cbv beta.
  intros r p4 ((Hs4 & _) & body & m & -> & _). exists body. split; [done|]. apply wp_ret. cbn [n_proc n_world].
  split_and!; [done|naive_solver|]. right. exists d. rewrite Hs4, Hp3. split_and!; [done..|].
  intros _ _. by apply (Ha tt).
Qed.
End Theorems.

(** ** Concrete runs *)
Definition commercial_license : LicenseDoc := mkLicenseDoc "acme" (hours 48) [] None None Commercial None false.
Definition demo_node : Node :=
  mkNode (mkProc (activate (mkLoaded commercial_license "file" None) default_state) (Some true) (Some "fp-1") ∅ 0 [] [])
    (mkWorld empty_db [] [] [] []).

Lemma trials_never_replace_a_commercial_license_witness :
  is_ok (@start_trial bits_json decimal_time shared_key demo_env "vendor" demo_clock true (λ _, true) "0.1" "1"
           show_Z (mkClaims "3" 1 "admin") "ops@example.com" demo_node).1 = false.
Proof.
  apply (@trials_never_replace_a_commercial_license bits_json decimal_time shared_key demo_env "vendor" demo_clock
           true (λ _, true) "0.1" "1" show_Z "vendor" eq_refl eq_refl (mkClaims "3" 1 "admin") "ops@example.com"
           demo_node) with commercial_license; reflexivity.
Defined.
