(* ===== verification/Sessions.v ===== *)
(** * Sessions: [apps/api/src/security/jwt.rs], [security/passwords.rs],
    [routes/auth.rs]

    Password login, the signed token it hands out and the request it later
    authenticates.  JSON web tokens and Argon2 are interfaces with the laws
    their crates document; instants are nanoseconds, token times seconds. *)
From S2P Require Import Prelude RustStr Json Error LicenseFile Db World.
From Stdlib Require Import Ascii.

(** ** Accounts (migration 0001) *)
Record User : Type := mkUser {
  u_id : Z; u_org_id : Z; u_email : option string; u_role : string; u_password_hash : string; u_disabled : bool }.

Record Accounts : Type := mkAccounts {
  ac_seq : Z; organizations : gmap Z string; users : gmap Z User }.

(** ** Tokens *)
Record JwtClaims : Type := mkJwt {
  jc_sub : string; jc_org : Z; jc_role : string; jc_iss : string; jc_aud : string; jc_iat : Z; jc_exp : Z }.

(** The [jsonwebtoken] crate with RS256: its validation checks the signature,
    the issuer, the audience and, with a leeway of 60 seconds, the expiry. *)
Class JwtCrate := {
  signing : Type;
  verifying : Type;
  paired : signing → verifying → Prop;
  jwt_encode : signing → JwtClaims → result string string;
  jwt_decode : verifying → string → string → Z → string → option JwtClaims;
  jwt_decode_encode : ∀ s v c t now, paired s v → jwt_encode s c = Ok t → now ≤ jc_exp c + 60 →
    jwt_decode v (jc_iss c) (jc_aud c) now t = Some c;
  jwt_decode_checks : ∀ v iss aud now t c, jwt_decode v iss aud now t = Some c →
    jc_iss c = iss ∧ jc_aud c = aud ∧ now ≤ jc_exp c + 60;
  jwt_decode_time : ∀ v iss aud now now' t c c',
    jwt_decode v iss aud now t = Some c → jwt_decode v iss aud now' t = Some c' → c = c';
  jwt_text : ∀ s c t, jwt_encode s c = Ok t → existsb char_is_whitespace (chars t) = false;
}.

(** The [argon2] crate: PHC strings. *)
Class Argon2 := {
  argon_hash : string → string → result string string;   (** salt, password *)
  phc_ok : string → bool;
  phc_error : string → string;
  argon_verify : string → string → bool;
  argon_hash_ok : ∀ salt pw h, argon_hash salt pw = Ok h → phc_ok h = true ∧ argon_verify pw h = true;
}.

Record JwtKeys `{JwtCrate} : Type := mkKeys {
  encoding : signing; decoding : verifying; issuer : string; audience : string }.

Record LoginRequest : Type := mkLogin { lr_email : string; lr_password : string }.
Record LoginResponse : Type := mkLoginResponse {
  ls_token : string; ls_role : string; ls_org_id : Z; ls_user_id : Z }.
Record MeResponse : Type := mkMe { me_id : Z; me_email : string; me_org_id : Z; me_role : string }.

(** [email = $1]: never for a row without an address. *)
Definition has_email (email_eq : string → string → bool) (email : string) (u : User) : bool :=
  match u_email u with Some e => email_eq e email | None => false end.

(** [DateTime::timestamp] *)
Definition timestamp (t : Z) : Z := t / 10 ^ 9.
Definition session_length : Z := 12 * 3600 * 10 ^ 9.

Section Sessions.
Context `{JwtCrate} `{Argon2}.
(** The comparison of [email = $1]. *)
Context (email_eq : string → string → bool).

Definition issue (keys : JwtKeys) (now user_id org_id : Z) (role : string) : ApiResult string :=
  let claims := mkJwt (show_Z user_id) org_id role (issuer keys) (audience keys)
                  (timestamp now) (timestamp (now + session_length)) in
  map_err (λ e, Internal ("jwt encode: " +:+ e)) (jwt_encode (encoding keys) claims).

Definition verify (keys : JwtKeys) (now : Z) (token : string) : ApiResult JwtClaims :=
  ok_or (jwt_decode (decoding keys) (issuer keys) (audience keys) (timestamp now) token) Unauthorized.

Definition hash_password (salt password : string) : ApiResult string :=
  map_err (λ e, Internal ("argon2: " +:+ e)) (argon_hash salt password).

Definition verify_password (password hash : string) : ApiResult bool :=
  if phc_ok hash then Ok (argon_verify password hash) else Err (Internal ("argon2 parse: " +:+ phc_error hash)).

Definition find_user (email : string) (a : Accounts) : option User :=
  snd <$> List.find (λ kv, has_email email_eq email kv.2) (by_id (users a)).

(** sqlx: a NULL in a column read as a string. *)
Definition null_column : string := "error occurred while decoding column 0: unexpected null; try decoding as an `Option`".

(** [accounts] is what the statement saw, or its error. *)
Definition login (keys : JwtKeys) (accounts : result string Accounts) (now : Z) (req : LoginRequest)
    : ApiResult LoginResponse :=
  a ← map_err Database accounts;
  user ← ok_or (find_user (lr_email req) a) Unauthorized;
  if u_disabled user then Err Forbidden
  else
    ok ← verify_password (lr_password req) (u_password_hash user);
    if negb ok then Err Unauthorized
    else
      token ← issue keys now (u_id user) (u_org_id user) (u_role user);
      Ok (mkLoginResponse token (u_role user) (u_org_id user) (u_id user)).

Definition me (accounts : result string Accounts) (c : Claims) : ApiResult MeResponse :=
  id ← ok_or (parse_i64 (sub c)) Unauthorized;
  a ← map_err Database accounts;
  user ← ok_or (owned u_org_id (org c) id (users a)) Unauthorized;
  email ← ok_or (u_email user) (Database null_column);
  Ok (mkMe id email (org c) (role c)).

(** The claims the handlers see. *)
Definition claims_of (c : JwtClaims) : Claims := mkClaims (jc_sub c) (jc_org c) (jc_role c).
Definition authenticate (keys : JwtKeys) (now : Z) (header : option string) : result Rejection Claims :=
  auth_user (λ t, match verify keys now t with Ok c => Some (claims_of c) | Err _ => None end) header.

(** ** Theorems *)

Lemma strip_bearer t : strip_prefix "Bearer " ("Bearer " +:+ t) = Some t.
Proof. by apply strip_prefix_Some. Qed.

(** A token authenticates as what [verify] reads from it. *)
Lemma authenticate_token keys now t :
  existsb char_is_whitespace (chars t) = false →
  authenticate keys now (Some ("Bearer " +:+ t))
  = match verify keys now t with Ok c => Ok (claims_of c) | Err _ => Err (AsError Unauthorized) end.
Proof.
  intros Ht. unfold authenticate, auth_user. rewrite strip_bearer. cbn [fmap option_fmap option_map].
  rewrite trim_id by done. by destruct (verify keys now t).
Qed.

(** Rows under their id, which fits a BIGINT. *)
Definition accounts_wf (a : Accounts) : Prop :=
  ∀ id u, users a !! id = Some u → u_id u = id ∧ in_i64 id = true.

Lemma find_user_Some email a u : find_user email a = Some u → ∃ id, users a !! id = Some u ∧ has_email email_eq email u = true.
Proof.
  unfold find_user. intros ([id u'] & Hf & ->)%fmap_Some. apply find_some in Hf as [Hin Hm].
  exists id. split; [|done]. by apply by_id_elem, list_elem_of_In.
Qed.

(** C31: a login is a twelve-hour session of the user it names: it succeeds
    only for an enabled user with that address and password, and its token,
    presented to a process with the paired key and the same issuer and
    audience, authenticates as that user's id, organization and role until
    twelve hours have passed, and no longer than the 61 seconds of leeway and
    rounding after that; meanwhile the profile page finds the user. *)
Theorem login_opens_a_session keys keys' a t0 req resp :
  accounts_wf a → paired (encoding keys) (decoding keys') →
  issuer keys' = issuer keys → audience keys' = audience keys →
  login keys (Ok a) t0 req = Ok resp →
  ∃ u email, users a !! u_id u = Some u ∧ u_email u = Some email ∧ email_eq email (lr_email req) = true ∧ u_disabled u = false ∧
    argon_verify (lr_password req) (u_password_hash u) = true ∧
    ls_user_id resp = u_id u ∧ ls_org_id resp = u_org_id u ∧ ls_role resp = u_role u ∧
    let c := mkClaims (show_Z (u_id u)) (u_org_id u) (u_role u) in
    me (Ok a) c = Ok (mkMe (u_id u) email (u_org_id u) (u_role u)) ∧
    ∀ t, t0 ≤ t →
      (t ≤ t0 + session_length → authenticate keys' t (Some ("Bearer " +:+ ls_token resp)) = Ok c) ∧
      (t0 + session_length + 61 * 10 ^ 9 ≤ t →
         authenticate keys' t (Some ("Bearer " +:+ ls_token resp)) = Err (AsError Unauthorized)).
Proof.
  intros Hwf Hpair Hiss Haud Hlogin. unfold login in Hlogin. cbn [map_err] in Hlogin.
  apply result_bind_ok in Hlogin as (? & [= <-] & Hlogin).
  apply result_bind_ok in Hlogin as (u & Hu%ok_or_Ok & Hlogin).
  destruct (u_disabled u) eqn:Hdis; [done|].
  apply result_bind_ok in Hlogin as (ok & Hpw & Hlogin). destruct ok; [|done]. cbn in Hlogin.
  apply result_bind_ok in Hlogin as (token & Htok & [= <-]).
  unfold verify_password in Hpw. destruct (phc_ok _); [|done]. injection Hpw as Hpw.
  apply find_user_Some in Hu as (id & Hu & Heq). destruct (Hwf _ _ Hu) as [<- Hin].
  unfold issue in Htok. apply map_err_Ok in Htok.
  unfold has_email in Heq. destruct (u_email u) as [email|] eqn:Hemail; [|done].
  exists u, email. cbn [ls_user_id ls_org_id ls_role ls_token]. split_and!; try done.
  { unfold me. cbn [sub org role]. rewrite parse_show by done. cbn [ok_or]. unfold mbind, result_bind. cbn [map_err].
    unfold owned. rewrite Hu. cbn. rewrite Z.eqb_refl. cbn. by rewrite Hemail. }
  pose proof (jwt_text _ _ _ Htok) as Htext. intros t Ht. rewrite (authenticate_token keys' t token Htext).
  set (c := mkJwt _ _ _ _ _ _ _) in Htok.
  assert (∀ now, now ≤ jc_exp c + 60 → jwt_decode (decoding keys') (issuer keys') (audience keys') now token = Some c) as Hdec.
  { intros now Hnow. rewrite Hiss, Haud. by eapply (jwt_decode_encode _ _ c). }
  unfold verify. split; intros Hlim.
  - rewrite Hdec; [done|]. cbn. unfold timestamp.
    pose proof (Z.div_le_mono t (t0 + session_length) (10 ^ 9) ltac:(lia) Hlim). lia.
  - destruct (jwt_decode _ _ _ (timestamp t) token) as [c'|] eqn:Hd; [|done]. exfalso.
    pose proof (jwt_decode_time _ _ _ _ _ _ _ _ (Hdec (jc_exp c) ltac:(lia)) Hd) as <-.
    apply jwt_decode_checks in Hd as (_ & _ & Hd). cbn in Hd. unfold timestamp in Hd.
    pose proof (Z.div_le_mono _ _ (10 ^ 9) ltac:(lia) Hlim) as Hm.
    replace (t0 + session_length + 61 * 10 ^ 9) with (t0 + session_length + 61 * (10 ^ 9)) in Hm by lia.
    rewrite Z.div_add in Hm by lia. lia.
Qed.
End Sessions.

(** ** Instances *)
Definition jwt_tuple (c : JwtClaims) : string * Z * string * string * string * Z * Z :=
  (jc_sub c, jc_org c, jc_role c, jc_iss c, jc_aud c, jc_iat c, jc_exp c).
Definition tuple_jwt (p : string * Z * string * string * string * Z * Z) : JwtClaims :=
  let '(s, o, r, i, a, t, e) := p in mkJwt s o r i a t e.

Definition bits_encode (key : string) (c : JwtClaims) : result string string :=
  Ok (pos_bits (encode (key, jwt_tuple c))).
Definition bits_decode (key iss aud : string) (now : Z) (t : string) : option JwtClaims :=
  p ← bits_pos t; kc ← decode p;
  let c := tuple_jwt kc.2 in
  if (kc.1 =? key)%string && (jc_iss c =? iss)%string && (jc_aud c =? aud)%string && (now <=? jc_exp c + 60)
  then Some c else None.

Lemma pos_bits_no_space p : existsb char_is_whitespace (chars (pos_bits p)) = false.
Proof.
  assert (∀ a s, is_cont a = false → char_is_whitespace (String a EmptyString) = false →
    (∀ b t, s = String b t → is_cont b = false) → existsb char_is_whitespace (chars s) = false →
    existsb char_is_whitespace (chars (String a s)) = false) as Hstep.
  { intros a s Ha Hw Hs He. cbn [chars]. destruct (chars s) as [|[|b c] cs] eqn:Hc; cbn [existsb]; rewrite ?Hw; [done|done|].
    assert (is_cont b = false) as ->.
    { destruct s as [|b' t]; [done|]. specialize (Hs b' t eq_refl). cbn in Hc.
      destruct (chars t) as [|[|x y] z]; [injection Hc as <- <- <-; done|injection Hc as <- <- <-; done|].
      destruct (is_cont x); injection Hc as <- _ _; done. }
    cbn [existsb]. by rewrite Hw. }
  assert (∀ p b t, pos_bits p = String b t → is_cont b = false) as Hb by (by intros [] b t [= <- _]).
  induction p as [p IH|p IH|]; cbn [pos_bits]; [apply Hstep; [done|done|apply Hb|done]..|done].
Qed.

Lemma bits_decode_Some key iss aud now t c :
  bits_decode key iss aud now t = Some c →
  (jc_iss c = iss ∧ jc_aud c = aud ∧ now ≤ jc_exp c + 60) ∧
  (∃ kc, (bits_pos t ≫= decode) = Some kc ∧ c = tuple_jwt (snd (A := string) kc)).
Proof.
  unfold bits_decode. intros (p & Hp & ([k q] & Hd & Hc)%bind_Some)%bind_Some. cbn [fst snd] in Hc.
  destruct (_ && _) eqn:Hg in Hc; [|done]. injection Hc as <-. bool_prop. split; [done|].
  exists (k, q). by rewrite Hp.
Qed.

#[refine] Definition bits_jwt : JwtCrate := {|
  signing := string; verifying := string; paired := eq;
  jwt_encode := bits_encode; jwt_decode := bits_decode;
|}.
Proof.
  - intros s v c t now -> [= <-] Hnow. unfold bits_decode. rewrite bits_pos_inv. cbn [mbind option_bind].
    rewrite decode_encode. cbn [mbind option_bind fst snd]. destruct c. cbn in *.
    rewrite !String.eqb_refl. cbn. by rewrite (proj2 (Z.leb_le _ _) Hnow).
  - intros v iss aud now t c Hd. by apply bits_decode_Some in Hd as [? _].
  - intros v iss aud now now' t c c' (_ & kc & H1 & ->)%bits_decode_Some (_ & kc' & H2 & ->)%bits_decode_Some.
    rewrite H1 in H2. by injection H2 as ->.
  - intros s c t [= <-]. apply pos_bits_no_space.
Defined.

Definition clear_argon : Argon2 := {|
  argon_hash salt pw := Ok ("$argon2$" +:+ pw); phc_ok := starts_with "$argon2$"; phc_error _ := EmptyString;
  argon_verify pw h := (h =? "$argon2$" +:+ pw)%string;
  argon_hash_ok salt pw h := ltac:(intros [= <-]; split; [|apply String.eqb_refl];
    apply starts_with_spec; eexists; reflexivity);
|}.

Definition sample_accounts : Accounts :=
  mkAccounts 8 {[1 := "acme"]} {[7 := mkUser 7 1 (Some "a@b.c") "editor" "$argon2$pw" false]}.
Definition sample_keys : JwtKeys (H := bits_jwt) := mkKeys bits_jwt "k" "k" "platform" "users".

Lemma login_opens_a_session_witness :
  ∃ resp, login (H := bits_jwt) (H0 := clear_argon) String.eqb sample_keys (Ok sample_accounts) (10 ^ 18)
      (mkLogin "a@b.c" "pw") = Ok resp ∧
    authenticate (H := bits_jwt) sample_keys (10 ^ 18) (Some ("Bearer " +:+ ls_token resp))
      = Ok (mkClaims "7" 1 "editor").
Proof.
  destruct (login (H := bits_jwt) (H0 := clear_argon) String.eqb sample_keys (Ok sample_accounts) (10 ^ 18)
              (mkLogin "a@b.c" "pw")) as [resp|e] eqn:Hl; [|by vm_compute in Hl].
  exists resp. split; [done|].
  destruct (login_opens_a_session (H := bits_jwt) (H0 := clear_argon) String.eqb sample_keys sample_keys sample_accounts
              (10 ^ 18) (mkLogin "a@b.c" "pw") resp) as (u & email & Hu & _ & _ & _ & _ & Hid & Ho & Hr & _ & Ht); try done.
  - intros id u Hu. cbn in Hu. apply lookup_singleton_Some in Hu as [<- <-]. done.
  - cbn in Hu. apply lookup_singleton_Some in Hu as [_ <-].
    apply Ht; vm_compute; done.
Defined.
