(* ===== verification/InstallId.v ===== *)
(** * Installation identity: [apps/api/src/security/fingerprint.rs]

    Every replica of the API reads or creates one file with the installation's
    UUID.  The processes interleave at the operations of the file system, each
    of which may fail; [Step] is one operation of one process. *)
From S2P Require Import Prelude RustStr LicenseIO.
From Stdlib Require Import Ascii.

Definition DEFAULT_INSTALLATION_ID_PATH : string := "/var/lib/migration/installation-id".

Definition installation_id_path (env : string → option string) : string :=
  default DEFAULT_INSTALLATION_ID_PATH (non_empty_var env "LICENSE_INSTALLATION_ID_PATH").

Definition NIL_UUID : string := "00000000-0000-0000-0000-000000000000".

Section Validate.
(** [Uuid::parse_str] to the hyphenated lower-case form. *)
Context (parse_uuid : string → option string).

Definition validate_installation_id (raw : string) : result string string :=
  parsed ← ok_or (parse_uuid (trim raw)) "installation ID is not a UUID";
  if (parsed =? NIL_UUID)%string then Err "installation ID must not be nil" else Ok parsed.
End Validate.

(** [install_fingerprint] from the identity. *)
Definition install_fingerprint (sha256_hex : string → string) (id : result string string) : result string string :=
  id ← id; Ok (sha256_hex ("installation-id:" +:+ id)).

(** Where a process is in [load_or_create_installation_id]. *)
Inductive Pc : Type :=
  | PRead
  | PMkdir
  | PCreate
  | PWrite (id : string) (n : nat)     (** [n] bytes of the new id are written *)
  | PSync (id : string)
  | PReread
  | PDone (r : result string string).

Record Shared : Type := mkShared { sh_file : option string; sh_pcs : gmap nat Pc }.

Definition goto (p : nat) (pc : Pc) (s : Shared) : Shared := mkShared (sh_file s) (<[p := pc]> (sh_pcs s)).
Definition set_file (f : string) (s : Shared) : Shared := mkShared (Some f) (sh_pcs s).

Section Race.
Context (parse_uuid : string → option string) (new_v4 : string → Prop).

(** One operation; [new_v4 id]: the generator may return [id]. *)
Inductive Step : Shared → Shared → Prop :=
  | step_start s p : sh_pcs s !! p = None → Step s (goto p PRead s)
  | step_read s p raw : sh_pcs s !! p = Some PRead → sh_file s = Some raw →
      Step s (goto p (PDone (validate_installation_id parse_uuid raw)) s)
  | step_unreadable s p : sh_pcs s !! p = Some PRead → Step s (goto p PMkdir s)
  | step_mkdir s p : sh_pcs s !! p = Some PMkdir → Step s (goto p PCreate s)
  | step_create s p id : sh_pcs s !! p = Some PCreate → sh_file s = None → new_v4 id →
      Step s (goto p (PWrite id 0) (set_file EmptyString s))
  | step_exists s p raw : sh_pcs s !! p = Some PCreate → sh_file s = Some raw → Step s (goto p PReread s)
  | step_write s p id n n' : sh_pcs s !! p = Some (PWrite id n) → (n < n' ≤ String.length id)%nat →
      Step s (goto p (PWrite id n') (set_file (String.substring 0 n' id) s))
  | step_written s p id : sh_pcs s !! p = Some (PWrite id (String.length id)) → Step s (goto p (PSync id) s)
  | step_sync s p id : sh_pcs s !! p = Some (PSync id) → Step s (goto p (PDone (Ok id)) s)
  | step_reread s p raw : sh_pcs s !! p = Some PReread → sh_file s = Some raw →
      Step s (goto p (PDone (validate_installation_id parse_uuid raw)) s)
  | step_fail s p pc e : sh_pcs s !! p = Some pc → (∀ r, pc ≠ PDone r) → Step s (goto p (PDone (Err e)) s).

Definition reachable (f : option string) (s : Shared) : Prop := rtc Step (mkShared f ∅) s.

(** What the UUID crate documents: a generated id is a UUID in its printed
    form, and none of its proper prefixes is one. *)
Context (v4_parses : ∀ id, new_v4 id → parse_uuid (trim id) = Some id ∧ id ≠ NIL_UUID)
        (v4_prefix : ∀ id n, new_v4 id → (n < String.length id)%nat →
           parse_uuid (trim (String.substring 0 n id)) = None).

Lemma validate_v4 id : new_v4 id → validate_installation_id parse_uuid id = Ok id.
Proof.
  intros Hid. unfold validate_installation_id. destruct (v4_parses id Hid) as [-> Hn]. cbn.
  by destruct (String.eqb_spec id NIL_UUID).
Qed.

Lemma substring_full s : String.substring 0 (String.length s) s = s.
Proof. induction s; cbn; [done|]. by f_equal. Qed.

(** A file under construction or finished is read as its id or refused. *)
Lemma validate_prefix id n x : new_v4 id → (n ≤ String.length id)%nat →
  validate_installation_id parse_uuid (String.substring 0 n id) = Ok x → x = id ∧ n = String.length id.
Proof.
  intros Hid Hn. destruct (decide (n = String.length id)) as [->|].
  - rewrite substring_full, validate_v4 by done. by intros [= <-].
  - unfold validate_installation_id. by rewrite v4_prefix by (done || lia).
Qed.

(** The process that writes, and how far the file is. *)
Definition writing (pc : Pc) : option (string * nat) :=
  match pc with
  | PWrite id n => Some (id, n) | PSync id => Some (id, String.length id) | _ => None
  end.

(** The file holds [n] bytes of [id]; the only writer, if any, is that far;
    and whoever finished did so with the finished id. *)
Definition under_way (id : string) (n : nat) (s : Shared) : Prop :=
  new_v4 id ∧ (n ≤ String.length id)%nat ∧ sh_file s = Some (String.substring 0 n id) ∧
  (∀ p pc w, sh_pcs s !! p = Some pc → writing pc = Some w → w = (id, n)) ∧
  (∀ p q pc pc', sh_pcs s !! p = Some pc → sh_pcs s !! q = Some pc' →
     writing pc ≠ None → writing pc' ≠ None → p = q) ∧
  (∀ p x, sh_pcs s !! p = Some (PDone (Ok x)) → x = id ∧ n = String.length id).

(** The file is not there yet; no one writes or has finished. *)
Definition idle (s : Shared) : Prop :=
  sh_file s = None ∧ ∀ p pc, sh_pcs s !! p = Some pc → writing pc = None ∧ ∀ x, pc ≠ PDone (Ok x).

Definition race_inv (s : Shared) : Prop := idle s ∨ ∃ id n, under_way id n s.

Lemma goto_lookup p pc s q pc' :
  sh_pcs (goto p pc s) !! q = Some pc' ↔ (q = p ∧ pc' = pc) ∨ (q ≠ p ∧ sh_pcs s !! q = Some pc').
Proof.
  unfold goto. cbn. destruct (decide (q = p)) as [->|].
  - rewrite lookup_insert_eq. naive_solver.
  - rewrite lookup_insert_ne by done. naive_solver.
Qed.

(** A step to a program counter that neither writes nor succeeds. *)
Lemma race_inv_goto p pc s :
  race_inv s → writing pc = None → (∀ x, pc = PDone (Ok x) → ∃ id, under_way id (String.length id) s ∧ x = id) →
  race_inv (goto p pc s).
Proof.
  intros [[Hf Hi]|(id & n & Hv & Hn & Hf & Hw & Hu & Hd)] Hpc Hok.
  - left. split; [done|]. intros q pc' [[-> ->]|[_ Hq]]%goto_lookup; [|by eapply Hi].
    split; [done|]. intros x ->. destruct (Hok x eq_refl) as (id & (_ & _ & Hf' & _) & _). congruence.
  - right. exists id, n. split_and!; [done|done|done| | |].
    + intros q pc' w [[-> ->]|[_ Hq]]%goto_lookup; [congruence|]. by eapply Hw.
    + intros q q' pc1 pc2 [[-> ->]|[_ Hq]]%goto_lookup [[-> ->]|[_ Hq']]%goto_lookup ? ?; try done.
      by eapply Hu.
    + intros q x [[-> Hx]|[_ Hq]]%goto_lookup; [|by eapply Hd].
      destruct (Hok x (eq_sym Hx)) as (id' & (Hv' & _ & Hf' & _) & ->).
      rewrite Hf in Hf'. injection Hf' as Hs. rewrite substring_full in Hs.
      assert (validate_installation_id parse_uuid (String.substring 0 n id) = Ok id') as Hval
        by (rewrite Hs; by apply validate_v4).
      by apply validate_prefix in Hval.
Qed.

Lemma under_way_full id n s : under_way id n s → n = String.length id → under_way id (String.length id) s.
Proof. by intros ? <-. Qed.

(** What a reader makes of the file. *)
Lemma read_result s raw x :
  race_inv s → sh_file s = Some raw → validate_installation_id parse_uuid raw = Ok x →
  ∃ id, under_way id (String.length id) s ∧ x = id.
Proof.
  intros [[Hf _]|(id & n & Hw)] Hraw Hx; [congruence|]. pose proof Hw as (Hv & Hn & Hf & _).
  assert (raw = String.substring 0 n id) as -> by congruence.
  apply validate_prefix in Hx as [-> Hlen]; [|done..]. exists id. split; [by eapply under_way_full|done].
Qed.

Lemma race_inv_step s s' : race_inv s → Step s s' → race_inv s'.
Proof.
  intros Hinv Hstep. destruct Hstep as [s p Hp|s p raw Hp Hf|s p Hp|s p Hp|s p id Hp Hf Hv|s p raw Hp Hf
    |s p id n n' Hp Hn|s p id Hp|s p id Hp|s p raw Hp Hf|s p pc e Hp Hlive];
    try (by apply race_inv_goto; [done|done|]).
  - apply race_inv_goto; [done|done|]. intros x [= Hx]. by eapply read_result.
  - destruct Hinv as [[_ Hi]|(id' & n & _ & _ & Hf' & _)]; [|cbn in *; congruence].
    right. exists id, 0%nat. split_and!; [done|lia|by destruct id| | |].
    + intros q pc w [[-> ->]|[_ Hq]]%goto_lookup; [by intros [= <-]|]. cbn in Hq. by rewrite (proj1 (Hi _ _ Hq)).
    + intros q q' pc1 pc2 [[-> ->]|[_ Hq]]%goto_lookup [[-> ->]|[_ Hq']]%goto_lookup H1 H2; cbn in *; try done.
      * by rewrite (proj1 (Hi _ _ Hq')) in H2.
      * by rewrite (proj1 (Hi _ _ Hq)) in H1.
      * by rewrite (proj1 (Hi _ _ Hq)) in H1.
    + intros q x [[-> ?]|[_ Hq]]%goto_lookup; [done|]. by destruct (proj2 (Hi _ _ Hq) x).
  - destruct Hinv as [[_ Hi]|(id' & m & Hv & Hm & Hf & Hw & Hu & Hd)].
    { destruct (Hi _ _ Hp) as [? _]. done. }
    pose proof (Hw _ _ _ Hp eq_refl) as [= <- <-].
    right. exists id, n'. split_and!; [done|lia|done| | |].
    + intros q pc w [[-> ->]|[Hne Hq]]%goto_lookup; [by intros [= <-]|]. intros Hpc. cbn in Hq.
      destruct Hne. eapply Hu; [exact Hq|exact Hp|congruence|done].
    + intros q q' pc1 pc2 [[-> ->]|[Hne Hq]]%goto_lookup [[-> ->]|[Hne' Hq']]%goto_lookup H1 H2; cbn in *; try done.
      * destruct Hne'. by eapply Hu.
      * destruct Hne. by eapply Hu.
      * by eapply Hu.
    + intros q x [[-> ?]|[_ Hq]]%goto_lookup; [done|]. destruct (Hd _ _ Hq). lia.
  - destruct Hinv as [[_ Hi]|(id' & m & Hv & Hm & Hf & Hw & Hu & Hd)].
    { destruct (Hi _ _ Hp) as [? _]. done. }
    pose proof (Hw _ _ _ Hp eq_refl) as [= <- <-].
    right. exists id, (String.length id). split_and!; [done|lia|done| | |].
    + intros q pc w [[-> ->]|[Hne Hq]]%goto_lookup; [by intros [= <-]|]. by eapply Hw.
    + intros q q' pc1 pc2 [[-> ->]|[Hne Hq]]%goto_lookup [[-> ->]|[Hne' Hq']]%goto_lookup H1 H2; cbn in *; try done.
      * destruct Hne'. by eapply Hu.
      * destruct Hne. by eapply Hu.
      * by eapply Hu.
    + intros q x [[-> ?]|[_ Hq]]%goto_lookup; [done|]. by eapply Hd.
  - apply race_inv_goto; [done|done|]. intros x [= <-].
    destruct Hinv as [[_ Hi]|(id' & m & Hw)]; [by destruct (Hi _ _ Hp)|].
    pose proof Hw as (_ & _ & _ & Hwr & _). pose proof (Hwr _ _ _ Hp eq_refl) as [= <- <-]. by exists id.
  - apply race_inv_goto; [done|done|]. intros x [= Hx]. by eapply read_result.
Qed.

Lemma race_inv_reachable s : reachable None s → race_inv s.
Proof.
  intros Hr. assert (race_inv (mkShared None ∅)) as H0.
  { left. split; [done|]. intros p pc Hp. cbn in Hp. by rewrite lookup_empty in Hp. }
  unfold reachable in Hr. revert H0. induction Hr as [|s1 s2 s3 Hs _ IH]; [done|].
  intros H1. apply IH. by eapply race_inv_step.
Qed.

(** With a file there from the start no one creates: it never changes. *)
Definition settled (raw : string) (s : Shared) : Prop :=
  sh_file s = Some raw ∧ ∀ p pc, sh_pcs s !! p = Some pc →
    writing pc = None ∧ ∀ x, pc = PDone (Ok x) → validate_installation_id parse_uuid raw = Ok x.

Lemma settled_goto raw p pc s :
  settled raw s → writing pc = None → (∀ x, pc = PDone (Ok x) → validate_installation_id parse_uuid raw = Ok x) →
  settled raw (goto p pc s).
Proof.
  intros [Hf Hi] Hw Hx. split; [done|]. intros q pc' [[-> ->]|[_ Hq]]%goto_lookup; [done|]. by eapply Hi.
Qed.

Lemma settled_reachable raw s : reachable (Some raw) s → settled raw s.
Proof.
  intros Hr. assert (settled raw (mkShared (Some raw) ∅)) as H0.
  { split; [done|]. intros p pc Hp. cbn in Hp. by rewrite lookup_empty in Hp. }
  unfold reachable in Hr. revert H0. induction Hr as [|s1 s2 s3 Hs _ IH]; [done|].
  intros [Hf Hi]. apply IH. clear IH.
  destruct Hs as [s p Hp|s p r Hp Hr|s p Hp|s p Hp|s p id Hp Hn Hv|s p r Hp Hr
    |s p id n n' Hp Hn|s p id Hp|s p id Hp|s p r Hp Hr|s p pc e Hp Hlive];
    try (by apply settled_goto); try (by destruct (Hi _ _ Hp)); try congruence;
    (apply settled_goto; [done|done|]; intros x [= Hx]; congruence).
Qed.

(** C21: replicas agree on the installation: however many processes start, in
    whatever interleaving of their file operations and with whatever failures
    and crashes between them, all that come out with an identity come out with
    the same one: the one already in the file, or the one the file was given. *)
Theorem replicas_agree_on_the_installation f s p q x y :
  reachable f s → sh_pcs s !! p = Some (PDone (Ok x)) → sh_pcs s !! q = Some (PDone (Ok y)) →
  x = y ∧ match f with
          | Some raw => validate_installation_id parse_uuid raw = Ok x
          | None => new_v4 x ∧ sh_file s = Some x
          end.
Proof.
  destruct f as [raw|].
  - intros [_ Hi]%settled_reachable Hx Hy. destruct (Hi _ _ Hx) as [_ Hx']. destruct (Hi _ _ Hy) as [_ Hy'].
    specialize (Hx' x eq_refl). specialize (Hy' y eq_refl). split; [congruence|done].
  - intros [[_ Hi]|(id & n & Hv & _ & Hf & _ & _ & Hd)]%race_inv_reachable Hx Hy.
    + by destruct (proj2 (Hi _ _ Hx) x).
    + destruct (Hd _ _ Hx) as [-> ->], (Hd _ _ Hy) as [-> _]. split_and!; [done|done|].
      by rewrite Hf, substring_full.
Qed.

(** A file left empty, by a creator that stopped before its write, keeps every
    later process from starting. *)
Lemma empty_file_blocks s p r :
  parse_uuid EmptyString = None → reachable (Some EmptyString) s → sh_pcs s !! p = Some (PDone r) → is_ok r = false.
Proof.
  intros Hp [_ Hi]%settled_reachable Hr. destruct r as [x|]; [|done]. destruct (Hi _ _ Hr) as [_ Hx].
  specialize (Hx x eq_refl). unfold validate_installation_id in Hx. change (trim EmptyString) with EmptyString in Hx.
  by rewrite Hp in Hx.
Qed.
End Race.

(** ** Concrete runs *)
Definition demo_id : string := "1b4e28ba-2fa1-4d2b-883f-0016d3cca427".
Definition demo_parse (s : string) : option string := if (s =? demo_id)%string then Some demo_id else None.

Lemma demo_parses id : id = demo_id → demo_parse (trim id) = Some id ∧ id ≠ NIL_UUID.
Proof. intros ->. by vm_compute. Qed.

Lemma demo_prefix id n : id = demo_id → (n < String.length id)%nat →
  demo_parse (trim (String.substring 0 n id)) = None.
Proof.
  intros -> Hn. change (String.length demo_id) with 36%nat in Hn.
  do 36 (destruct n as [|n]; [by vm_compute|]). lia.
Qed.

(** A creator up to its write; then to its end. *)
Definition created : Shared :=
  goto 1 (PWrite demo_id 0) (set_file EmptyString (goto 1 PCreate (goto 1 PMkdir (goto 1 PRead (mkShared None ∅))))).
Definition finished : Shared :=
  goto 1 (PDone (Ok demo_id)) (goto 1 (PSync demo_id) (goto 1 (PWrite demo_id 36) (set_file demo_id created))).

Abbreviation demo_reachable := (reachable demo_parse (eq demo_id) None).

Lemma created_reachable : demo_reachable created.
Proof.
  eapply rtc_l; [by apply (step_start _ _ _ 1%nat)|]. eapply rtc_l; [by apply (step_unreadable _ _ _ 1%nat)|].
  eapply rtc_l; [by apply (step_mkdir _ _ _ 1%nat)|]. apply rtc_once. by apply (step_create _ _ _ 1%nat demo_id).
Qed.

Lemma finished_reachable : demo_reachable finished.
Proof.
  unfold reachable. etrans; [exact created_reachable|].
  eapply rtc_l; [apply (step_write _ _ _ 1%nat demo_id 0 36); [by vm_compute|cbn; lia]|].
  eapply rtc_l; [by apply (step_written _ _ _ 1%nat demo_id)|]. apply rtc_once. by apply (step_sync _ _ _ 1%nat demo_id).
Qed.

(** A second replica reads between the creation and the write: it fails
    although no operation did. *)
Lemma racing_replica_fails :
  ∃ s, demo_reachable s ∧ sh_pcs s !! 2%nat = Some (PDone (Err "installation ID is not a UUID")).
Proof.
  exists (goto 2 (PDone (Err "installation ID is not a UUID")) (goto 2 PRead created)). split; [|by vm_compute].
  unfold reachable. etrans; [exact created_reachable|]. eapply rtc_l; [by apply (step_start _ _ _ 2%nat)|].
  apply rtc_once. by apply (step_read demo_parse _ (goto 2 PRead created) 2%nat EmptyString).
Qed.

Lemma replicas_agree_on_the_installation_witness :
  let s := goto 2 (PDone (Ok demo_id)) (goto 2 PRead finished) in
  demo_reachable s ∧ demo_id = demo_id ∧ sh_file s = Some demo_id.
Proof.
  intros s. assert (demo_reachable s) as Hs.
  { unfold reachable. etrans; [exact finished_reachable|]. eapply rtc_l; [by apply (step_start _ _ _ 2%nat)|].
    apply rtc_once. by apply (step_read demo_parse _ (goto 2 PRead finished) 2%nat demo_id). }
  split; [exact Hs|].
  destruct (replicas_agree_on_the_installation demo_parse (eq demo_id) (λ id H, demo_parses id (eq_sym H))
    (λ id n H, demo_prefix id n (eq_sym H)) None s 1%nat 2%nat demo_id demo_id Hs) as [He [_ Hf]];
    [by vm_compute..|by split].
Defined.
