(* ===== verification/Admin.v ===== *)
(** * Administration tool: [apps/api/src/bin/admin.rs]

    The commands that act on the database and on license files, and their
    flag loops.  A flag that needs a value and is last reads past the end of
    the arguments and panics.  Key generation, migrations and the connection
    to the database are outside. *)
From S2P Require Import Prelude RustStr Json License LicenseFile Db World Secrets MasterKey Sessions.
From Stdlib Require Import Ascii.

(** ** Flags *)

(** What a [match args[i].as_str()] says of one flag. *)
Inductive Flag (S : Type) : Type :=
  | Toggle (f : S → S)                               (** [i += 1] *)
  | Valued (f : string → S → result string S)        (** reads [args[i + 1]], [i += 2] *)
  | Ignored                                          (** [i += 2] without reading *)
  | Unknown.
Arguments Toggle {S} f.
Arguments Valued {S} f.
Arguments Ignored {S}.
Arguments Unknown {S}.

(** The loop of a command. *)
Fixpoint parse_flags {S} (flag : string → Flag S) (args : list string) (s : S) : attempted (result string S) :=
  match args with
  | [] => Returned (Ok s)
  | a :: args =>
      match flag a with
      | Toggle f => parse_flags flag args (f s)
      | Valued f =>
          match args with
          | [] => Panicked
          | v :: args => match f v s with Ok s => parse_flags flag args s | Err e => Returned (Err e) end
          end
      | Ignored => match args with [] => Returned (Ok s) | _ :: args => parse_flags flag args s end
      | Unknown => Returned (Err ("unknown flag " +:+ a))
      end
  end.

(** Continue after a call that may panic or fail. *)
Definition and_then {A B} (m : attempted (result string A)) (f : A → result string B)
    : attempted (result string B) :=
  match m with Panicked => Panicked | Returned r => Returned (a ← r; f a) end.

(** ** License files *)
Record SignArgs : Type := mkSignArgs {
  sa_key : option string; sa_licensee : option string; sa_expires : option string;
  sa_features : list string; sa_max_seats : option Z; sa_kind : LicenseKind;
  sa_fingerprint : option string; sa_require_heartbeat : bool; sa_out : option string }.

Definition sign_defaults : SignArgs := mkSignArgs None None None [] None Commercial None false None.

Section Commands.
Context (parse_error : string → string).

Definition sign_flag (a : string) : Flag SignArgs :=
  if (a =? "--require-heartbeat")%string then
    Toggle (λ s, mkSignArgs (sa_key s) (sa_licensee s) (sa_expires s) (sa_features s) (sa_max_seats s) (sa_kind s)
                   (sa_fingerprint s) true (sa_out s))
  else if (a =? "--key")%string then
    Valued (λ v s, Ok (mkSignArgs (Some v) (sa_licensee s) (sa_expires s) (sa_features s) (sa_max_seats s)
                         (sa_kind s) (sa_fingerprint s) (sa_require_heartbeat s) (sa_out s)))
  else if (a =? "--licensee")%string then
    Valued (λ v s, Ok (mkSignArgs (sa_key s) (Some v) (sa_expires s) (sa_features s) (sa_max_seats s)
                         (sa_kind s) (sa_fingerprint s) (sa_require_heartbeat s) (sa_out s)))
  else if (a =? "--expires")%string then
    Valued (λ v s, Ok (mkSignArgs (sa_key s) (sa_licensee s) (Some v) (sa_features s) (sa_max_seats s)
                         (sa_kind s) (sa_fingerprint s) (sa_require_heartbeat s) (sa_out s)))
  else if (a =? "--features")%string then
    Valued (λ v s, Ok (mkSignArgs (sa_key s) (sa_licensee s) (sa_expires s) (map trim (split_char "," v))
                         (sa_max_seats s) (sa_kind s) (sa_fingerprint s) (sa_require_heartbeat s) (sa_out s)))
  else if (a =? "--max-seats")%string then
    Valued (λ v s, n ← ok_or (parse_u32 v) (parse_error v);
                   Ok (mkSignArgs (sa_key s) (sa_licensee s) (sa_expires s) (sa_features s) (Some n)
                         (sa_kind s) (sa_fingerprint s) (sa_require_heartbeat s) (sa_out s)))
  else if (a =? "--kind")%string then
    Valued (λ v s, k ← (if (v =? "trial")%string then Ok Trial
                        else if (v =? "commercial")%string then Ok Commercial
                        else Err ("--kind must be trial or commercial, got " +:+ v));
                   Ok (mkSignArgs (sa_key s) (sa_licensee s) (sa_expires s) (sa_features s) (sa_max_seats s)
                         k (sa_fingerprint s) (sa_require_heartbeat s) (sa_out s)))
  else if (a =? "--fingerprint")%string then
    Valued (λ v s, Ok (mkSignArgs (sa_key s) (sa_licensee s) (sa_expires s) (sa_features s) (sa_max_seats s)
                         (sa_kind s) (Some v) (sa_require_heartbeat s) (sa_out s)))
  else if (a =? "--out")%string then
    Valued (λ v s, Ok (mkSignArgs (sa_key s) (sa_licensee s) (sa_expires s) (sa_features s) (sa_max_seats s)
                         (sa_kind s) (sa_fingerprint s) (sa_require_heartbeat s) (Some v)))
  else Unknown.

Section Licenses.
Context `{JsonText} `{Rfc3339} `{Crypto}.
(** [NaiveDate::parse_from_str] with [%Y-%m-%d]: midnight of the day; which
    paths can be written; the repository's public key. *)
Context (parse_date : string → option Z) (writable : string → bool) (embedded_pem : string).

Abbreviation files := (gmap string string).

Definition parse_expires (s : string) : option Z :=
  opt_or (dt_parse_rfc3339 s) ((λ d, d + seconds 86399) <$> parse_date s).

Definition valid_fingerprint (fp : string) : bool := (16 <=? str_len fp) && all_bytes is_hexdigit fp.

(** The document of the collected arguments; the clock is read twice. *)
Definition sign_document (now1 now2 : Z) (a : SignArgs) (licensee : string) (expires : string) : result string LicenseDoc :=
  expires_at ← ok_or (parse_expires expires) "--expires must be YYYY-MM-DD or RFC3339";
  if expires_at <=? now1 then Err "--expires is already in the past"
  else if match sa_fingerprint a with Some fp => negb (valid_fingerprint fp) | None => false end
  then Err "--fingerprint must be the full hex install ID (see Settings → License)"
  else if sa_require_heartbeat a && negb (is_some (sa_fingerprint a))
  then Err "--require-heartbeat requires --fingerprint so the server can bind the heartbeat"
  else Ok (mkLicenseDoc licensee expires_at (sa_features a) (sa_max_seats a) (Some now2) (sa_kind a)
             (to_ascii_lowercase <$> sa_fingerprint a) (sa_require_heartbeat a)).

Definition license_sign (now1 now2 : Z) (fs : files) (args : list string) : attempted (result string files) :=
  and_then (parse_flags sign_flag args sign_defaults) (λ a,
    key_path ← ok_or (sa_key a) "--key required";
    licensee ← ok_or (sa_licensee a) "--licensee required";
    expires ← ok_or (sa_expires a) "--expires required (YYYY-MM-DD or RFC3339)";
    out ← ok_or (sa_out a) "--out required";
    d ← sign_document now1 now2 a licensee expires;
    pem ← ok_or (fs !! key_path) ("reading " +:+ key_path);
    signed ← sign_license d pem;
    if writable out then Ok (<[out := signed]> fs) else Err ("writing " +:+ out)).

Record VerifyArgs : Type := mkVerifyArgs { va_file : option string; va_public_key : option string }.

Definition verify_flag (a : string) : Flag VerifyArgs :=
  if (a =? "--file")%string then Valued (λ v s, Ok (mkVerifyArgs (Some v) (va_public_key s)))
  else if (a =? "--public-key")%string then Valued (λ v s, Ok (mkVerifyArgs (va_file s) (Some v)))
  else Unknown.

Definition license_verify (now : Z) (fs : files) (args : list string) : attempted (result string LicenseDoc) :=
  and_then (parse_flags verify_flag args (mkVerifyArgs None None)) (λ a,
    file ← ok_or (va_file a) "--file required";
    raw ← ok_or (fs !! file) ("reading " +:+ file);
    pem ← match va_public_key a with
          | Some p => ok_or (fs !! p) ("reading " +:+ p)
          | None => Ok embedded_pem
          end;
    key ← ok_or (public_from_pem pem) "parsing public key";
    verify_license now raw key).
End Licenses.

(** ** Organizations and users *)
Definition org_flag (a : string) : Flag (option string) :=
  if (a =? "--name")%string then Valued (λ v _, Ok (Some v))
  else if (a =? "--slug")%string then Ignored
  else Unknown.

(** INSERT ... ON CONFLICT (name) DO UPDATE SET name = EXCLUDED.name. *)
Definition upsert_org (name : string) (a : Accounts) : Z * Accounts :=
  match List.find (λ kv, (kv.2 =? name)%string) (by_id (organizations a)) with
  | Some (id, _) => (id, a)
  | None => (ac_seq a, mkAccounts (ac_seq a + 1) (<[ac_seq a := name]> (organizations a)) (users a))
  end.

Definition create_org (args : list string) (a : Accounts) : attempted (result string (Z * Accounts)) :=
  and_then (parse_flags org_flag args None) (λ name,
    name ← ok_or name "--name required"; Ok (upsert_org name a)).

Record UserArgs : Type := mkUserArgs {
  ua_org : option Z; ua_email : option string; ua_role : string; ua_password : option string }.

Definition user_flag (a : string) : Flag UserArgs :=
  if (a =? "--org")%string then
    Valued (λ v s, n ← ok_or (parse_i64 v) (parse_error v);
                   Ok (mkUserArgs (Some n) (ua_email s) (ua_role s) (ua_password s)))
  else if (a =? "--email")%string then
    Valued (λ v s, Ok (mkUserArgs (ua_org s) (Some v) (ua_role s) (ua_password s)))
  else if (a =? "--role")%string then
    Valued (λ v s, Ok (mkUserArgs (ua_org s) (ua_email s) v (ua_password s)))
  else if (a =? "--password")%string then
    Valued (λ v s, Ok (mkUserArgs (ua_org s) (ua_email s) (ua_role s) (Some v)))
  else Unknown.

Definition user_roles : list string := ["admin"; "editor"; "operator"; "viewer"].

Section Users.
Context `{Argon2}.
(** The equality of CITEXT, of the unique index on [email]. *)
Context (citext_eq : string → string → bool).

(** INSERT INTO users ... ON CONFLICT (email) DO UPDATE of role and hash. *)
Definition upsert_user (org : Z) (email role hash : string) (a : Accounts) : result string (Z * Accounts) :=
  if negb (mem_str role user_roles) then Err "invalid input value for enum user_role"
  else
    match List.find (λ kv, has_email citext_eq email kv.2) (by_id (users a)) with
    | Some (id, u) =>
        Ok (u_id u, mkAccounts (ac_seq a) (organizations a)
          (<[id := mkUser (u_id u) (u_org_id u) (u_email u) role hash (u_disabled u)]> (users a)))
    | None =>
        if is_some (organizations a !! org) then
          Ok (ac_seq a, mkAccounts (ac_seq a + 1) (organizations a)
            (<[ac_seq a := mkUser (ac_seq a) org (Some email) role hash false]> (users a)))
        else Err foreign_key_violation
    end.

(** [salt] is fresh. *)
Definition create_user (salt : string) (args : list string) (a : Accounts) : attempted (result string (Z * Accounts)) :=
  and_then (parse_flags user_flag args (mkUserArgs None None "viewer" None)) (λ s,
    org ← ok_or (ua_org s) "--org required";
    email ← ok_or (ua_email s) "--email required";
    password ← ok_or (ua_password s) "--password required";
    hash ← map_err Error.error_display (hash_password salt password);
    upsert_user org email (ua_role s) hash a).
End Users.

(** ** Secrets *)
Record SecretArgs : Type := mkSecretArgs { xa_org : option Z; xa_name : option string; xa_value : option string }.

Definition secret_flag (a : string) : Flag SecretArgs :=
  if (a =? "--org")%string then
    Valued (λ v s, n ← ok_or (parse_i64 v) (parse_error v); Ok (mkSecretArgs (Some n) (xa_name s) (xa_value s)))
  else if (a =? "--name")%string then Valued (λ v s, Ok (mkSecretArgs (xa_org s) (Some v) (xa_value s)))
  else if (a =? "--value")%string then Valued (λ v s, Ok (mkSecretArgs (xa_org s) (xa_name s) (Some v)))
  else Unknown.

(** [org_exists] is the foreign key of the organization. *)
Definition upsert_secret `{Aead} (org_exists : Z → bool) (master_key nonce : string) (args : list string) (d : Db)
    : attempted (result string (Z * Db)) :=
  and_then (parse_flags secret_flag args (mkSecretArgs None None None)) (λ s,
    org ← ok_or (xa_org s) "--org required";
    name ← ok_or (xa_name s) "--name required";
    v ← ok_or (xa_value s) "--value required";
    key ← from_env_value master_key;
    box ← encrypt key nonce v;
    if negb (org_exists org) then Err foreign_key_violation
    else
      let '(row, d') := Secrets.upsert_secret org name box.1 box.2 "internal" (replace_value box.1 box.2) d in
      Ok (se_id row, d')).
End Commands.

(** ** Theorems *)

(** A command whose last flag needs a value panics. *)
Lemma missing_value_panics {S} (flag : string → Flag S) a f args s s' :
  (∀ b, flag b ≠ Ignored) → flag a = Valued f →
  parse_flags flag args s = Returned (Ok s') → parse_flags flag (args ++ [a]) s = Panicked.
Proof.
  intros Hno Ha. revert s. remember (length args) as n eqn:Hn. revert args Hn.
  induction n as [n IH] using lt_wf_ind. intros [|b args] -> s; cbn; [by rewrite Ha|].
  destruct (flag b) as [g|g| |] eqn:Hb; [|destruct args as [|v args]; [done|]; cbn; destruct (g v s)|by destruct (Hno b)|];
    try done; intros Hp; eapply IH; [|done|exact Hp| |done|exact Hp]; cbn; lia.
Qed.

Lemma and_then_Ok {A B} (m : attempted (result string A)) (f : A → result string B) b :
  and_then m f = Returned (Ok b) ↔ ∃ a, m = Returned (Ok a) ∧ f a = Ok b.
Proof.
  destruct m as [[a|e]|]; cbn; split; try done; [intros [= ?]; by exists a|intros (? & [= <-] & ?); by f_equal|..];
    by intros (? & ? & _).
Qed.

Section Theorems.
Context (parse_error : string → string).

Section SignVerify.
Context `{JsonText} `{Rfc3339} `{Crypto}.
Context (parse_date : string → option Z) (writable : string → bool) (embedded_pem : string).

Lemma sign_document_Ok now1 now2 a li ex d :
  sign_document parse_date now1 now2 a li ex = Ok d →
  licensee d = li ∧ parse_expires parse_date ex = Some (expires_at d) ∧ now1 < expires_at d ∧ issued_at d = Some now2 ∧ kind d = sa_kind a ∧
  max_seats d = sa_max_seats a ∧ features d = sa_features a ∧
  fingerprint d = to_ascii_lowercase <$> sa_fingerprint a ∧ requires_heartbeat d = sa_require_heartbeat a ∧
  (requires_heartbeat d = true → fingerprint d ≠ None) ∧
  (∀ fp, sa_fingerprint a = Some fp → valid_fingerprint fp = true).
Proof.
  unfold sign_document. intros (t & Hparse%ok_or_Ok & Hd)%result_bind_ok. destruct (t <=? now1) eqn:Ht; [done|].
  destruct (match sa_fingerprint a with Some _ => _ | None => _ end) eqn:Hf; [done|].
  destruct (sa_require_heartbeat a && _) eqn:Hh; [done|]. injection Hd as <-. cbn. bool_prop.
  split_and!; try done.
  - destruct Hh as [Hh|Hh]; [congruence|]. intros _. bool_prop. by destruct (sa_fingerprint a).
  - intros fp Hfp. rewrite Hfp in Hf. by apply negb_false_iff in Hf.
Qed.

(** What a successful signing wrote. *)
Lemma license_sign_Ok now1 now2 fs args fs' :
  license_sign parse_error parse_date writable now1 now2 fs args = Returned (Ok fs') →
  ∃ a kp li ex d out pem text, parse_flags (sign_flag parse_error) args sign_defaults = Returned (Ok a) ∧
    sa_key a = Some kp ∧ fs !! kp = Some pem ∧ sa_licensee a = Some li ∧ sa_expires a = Some ex ∧
    sa_out a = Some out ∧ sign_document parse_date now1 now2 a li ex = Ok d ∧
    sign_license d pem = Ok text ∧ fs' = <[out := text]> fs.
Proof.
  unfold license_sign. intros (a & Ha & Hr)%and_then_Ok.
  apply result_bind_ok in Hr as (kp & Hkp%ok_or_Ok & Hr). apply result_bind_ok in Hr as (li & Hli%ok_or_Ok & Hr).
  apply result_bind_ok in Hr as (ex & Hex%ok_or_Ok & Hr). apply result_bind_ok in Hr as (out & Hout%ok_or_Ok & Hr).
  apply result_bind_ok in Hr as (d & Hd & Hr). apply result_bind_ok in Hr as (pem & Hpem%ok_or_Ok & Hr).
  apply result_bind_ok in Hr as (text & Htext & Hr). destruct (writable out); [|done]. injection Hr as <-.
  by exists a, kp, li, ex, d, out, pem, text.
Qed.

(** The tool's own check accepts a signed document. *)
Lemma license_verify_signed fs out p pub pem d text t :
  sign_license d pem = Ok text → doc_ok d = true → t < expires_at d →
  fs !! out = Some text → fs !! p = Some pub → public_from_pem pub = Some (public_of_private pem) →
  license_verify embedded_pem t fs ["--file"; out; "--public-key"; p] = Returned (Ok d).
Proof.
  intros Htext Hok Ht Hout Hp Hpub. unfold license_verify. cbn. rewrite Hout. cbn. rewrite Hp. cbn.
  rewrite Hpub. cbn. assert (private_pem_ok pem = true) as Hpk.
  { unfold sign_license in Htext. by destruct (private_pem_ok pem). }
  destruct (sign_verify_ok d pem t Hpk Hok Ht) as (raw & Hraw & Hv).
  rewrite Htext in Hraw. injection Hraw as ->. by rewrite Hv.
Qed.

(** C20: what the tool signs, an installation can use: when signing succeeds,
    the written file verifies under the matching public key, as the tool's own
    check does it, as long as it has not expired, and gives back the licensee,
    expiry, kind, features, seats and binding that were asked for; the document is
    valid on the installation it is bound to (on any, without a binding) from
    the signing on, for 72 hours when it needs heartbeats; and a document that
    needs heartbeats is always bound. *)
Theorem signed_licenses_are_usable now1 now2 fs args fs' :
  license_sign parse_error parse_date writable now1 now2 fs args = Returned (Ok fs') →
  ∃ a d out pem text, parse_flags (sign_flag parse_error) args sign_defaults = Returned (Ok a) ∧
    (sa_key a ≫= λ k, fs !! k) = Some pem ∧ sa_out a = Some out ∧ fs' = <[out := text]> fs ∧
    sa_licensee a = Some (licensee d) ∧ (sa_expires a ≫= parse_expires parse_date) = Some (expires_at d) ∧
    now1 < expires_at d ∧ issued_at d = Some now2 ∧ kind d = sa_kind a ∧ features d = sa_features a ∧
    max_seats d = sa_max_seats a ∧ fingerprint d = to_ascii_lowercase <$> sa_fingerprint a ∧
    requires_heartbeat d = sa_require_heartbeat a ∧ (requires_heartbeat d = true → fingerprint d ≠ None) ∧
    (∀ t p pub, doc_ok d = true → t < expires_at d → fs' !! p = Some pub →
       public_from_pem pub = Some (public_of_private pem) →
       license_verify embedded_pem t fs' ["--file"; out; "--public-key"; p] = Returned (Ok d)) ∧
    (∀ t fp, now2 ≤ t → t < expires_at d → default fp (fingerprint d) = fp →
       (requires_heartbeat d = true → t ≤ now2 + HEARTBEAT_GRACE) → validity d fp t = Ok tt).
Proof.
  intros (a & kp & li & ex & d & out & pem & text & Ha & Hkp & Hpem & Hli & Hex & Hout & Hd & Htext & ->)%license_sign_Ok.
  apply sign_document_Ok in Hd as (Hl & Hpe & Hnow & Hi & Hk & Hs & Hf & Hfp & Hh & Hb & _).
  exists a, d, out, pem, text. rewrite Hkp, Hex. cbn [mbind option_bind]. split_and!; try done; [congruence|..].
  - intros t p pub Hok Ht Hp Hpub. eapply license_verify_signed; try done. by rewrite lookup_insert_eq.
  - intros t fp Ht Hexp Hfp' Hgrace. apply validity_ok_iff. split_and!; [done| |].
    + intros b Hb'. right. rewrite Hb' in Hfp'. done.
    + intros Hrh. exists now2. split; [done|]. by apply Hgrace.
Qed.
End SignVerify.

(** ** Users *)
Section Users.
Context `{JwtCrate} `{Argon2}.
Context (citext_eq : string → string → bool).

(** Rows under their id, below the sequence, one per address. *)
Definition users_wf (a : Accounts) : Prop :=
  (∀ id u, users a !! id = Some u → u_id u = id ∧ id < ac_seq a) ∧
  (∀ i j u v e, users a !! i = Some u → users a !! j = Some v → u_email v = Some e → has_email citext_eq e u = true → i = j).

Context (citext_refl : ∀ x, citext_eq x x = true) (citext_sym : ∀ x y, citext_eq x y = citext_eq y x)
        (citext_trans : ∀ x y z, citext_eq x y = true → citext_eq y z = true → citext_eq x z = true).

Lemma has_email_trans u e e' : has_email citext_eq e u = true → citext_eq e e' = true → has_email citext_eq e' u = true.
Proof. unfold has_email. destruct (u_email u); [|done]. apply citext_trans. Qed.

(** Two rows with one address are one. *)
Lemma users_wf_same a i j u v e :
  users_wf a → users a !! i = Some u → users a !! j = Some v →
  has_email citext_eq e u = true → has_email citext_eq e v = true → i = j.
Proof.
  intros [_ Huq] Hu Hv Heu Hev. unfold has_email in Hev. destruct (u_email v) as [ev|] eqn:Hve; [|done].
  eapply Huq; [exact Hu|exact Hv|exact Hve|]. eapply has_email_trans; [exact Heu|]. by rewrite citext_sym.
Qed.

Lemma find_row_is email (a : Accounts) id u :
  users_wf a → users a !! id = Some u → has_email citext_eq email u = true →
  List.find (λ kv, has_email citext_eq email kv.2) (by_id (users a)) = Some (id, u).
Proof.
  intros Hwf Hid Heq. destruct (List.find _ _) as [[i v]|] eqn:Hf.
  - apply find_some in Hf as [Hin Hv]. apply list_elem_of_In, by_id_elem in Hin. cbn in Hv.
    assert (i = id) as -> by (by eapply users_wf_same). congruence.
  - apply by_id_elem, list_elem_of_In in Hid. eapply List.find_none in Hf; [|exact Hid]. cbn in Hf. congruence.
Qed.

(** The row an upsert leaves for the address. *)
Lemma upsert_user_row org email role hash a id a' :
  users_wf a → upsert_user citext_eq org email role hash a = Ok (id, a') →
  ∃ u, users a' = <[id := u]> (users a) ∧ u_id u = id ∧ has_email citext_eq email u = true ∧
    u_role u = role ∧ u_password_hash u = hash ∧ role ∈ user_roles ∧
    match users a !! id with
    | Some u0 => u_org_id u = u_org_id u0 ∧ u_disabled u = u_disabled u0 ∧ u_email u = u_email u0 ∧ ac_seq a' = ac_seq a
    | None => u_org_id u = org ∧ u_disabled u = false ∧ u_email u = Some email ∧ id = ac_seq a ∧ ac_seq a' = ac_seq a + 1 ∧
              ∀ i v, users a !! i = Some v → has_email citext_eq email v = false
    end.
Proof.
  intros [Hid _]. unfold upsert_user. destruct (mem_str role user_roles) eqn:Hr; [|done]. cbn [negb].
  apply mem_str_true in Hr. destruct (List.find _ _) as [[i u]|] eqn:Hf.
  - intros [= <- <-]. apply find_some in Hf as [Hin Hu]. apply list_elem_of_In, by_id_elem in Hin. cbn in Hu.
    destruct (Hid _ _ Hin) as [<- _]. eexists. split; [done|]. cbn. rewrite Hin. by split_and!.
  - destruct (is_some _); [|done]. intros [= <- <-]. eexists. split; [done|]. cbn.
    destruct (users a !! ac_seq a) as [u0|] eqn:Hu0; [destruct (Hid _ _ Hu0); lia|].
    split_and!; try done; try apply citext_refl. intros i v Hv. apply by_id_elem, list_elem_of_In in Hv.
    eapply List.find_none in Hf; [|exact Hv]. done.
Qed.

(** The upsert keeps one row per address, whatever it did. *)
Lemma upsert_user_wf org email role hash a id a' :
  users_wf a → upsert_user citext_eq org email role hash a = Ok (id, a') → users_wf a'.
Proof.
  intros Hwf Hup. destruct (upsert_user_row _ _ _ _ _ _ _ Hwf Hup) as (u & Hu & Huid & Heq & _ & _ & _ & Hold).
  pose proof Hwf as [Hid Huq].
  assert (∀ j v, j ≠ id → users a !! j = Some v → has_email citext_eq email v = true → False) as Hother.
  { intros j v Hne Hv Hc. destruct (users a !! id) as [u0|] eqn:Hu0.
    - destruct Hold as (_ & _ & Hem & _). apply Hne. eapply (users_wf_same a); [done|exact Hv|exact Hu0|exact Hc|].
      unfold has_email in *. by rewrite <- Hem.
    - destruct Hold as (_ & _ & _ & _ & _ & Hno). specialize (Hno _ _ Hv). congruence. }
  split.
  - intros i v. rewrite Hu. destruct (decide (i = id)) as [->|].
    + rewrite lookup_insert_eq. intros [= <-]. split; [done|]. destruct (users a !! id) as [u0|] eqn:Hu0.
      * destruct Hold as (_ & _ & _ & ->). by apply Hid in Hu0 as [_ ?].
      * destruct Hold as (_ & _ & _ & -> & -> & _). lia.
    + rewrite lookup_insert_ne by done. intros Hv. destruct (Hid _ _ Hv) as [? Hlt]. split; [done|].
      destruct (users a !! id); [by destruct Hold as (_ & _ & _ & ->)|].
      destruct Hold as (_ & _ & _ & _ & -> & _). lia.
  - intros i j v w e. rewrite Hu. destruct (decide (i = id)) as [->|Hi], (decide (j = id)) as [->|Hj];
      rewrite ?lookup_insert_eq, ?lookup_insert_ne by done; try done.
    + intros [= <-] Hw He Hc. destruct (Hother j w Hj Hw). unfold has_email in *. rewrite He.
      destruct (u_email u) as [eu|]; [|done]. eapply citext_trans; [|exact Heq]. by rewrite citext_sym.
    + intros Hv [= <-] He Hc. destruct (Hother i v Hi Hv). unfold has_email in Heq. rewrite He in Heq.
      by eapply has_email_trans.
    + apply Huq.
Qed.

(** A created user can log in: when the command succeeds, the table has
    exactly one changed row, under the printed id, of the given address and
    role; a login with that address and the given password then opens a
    session of that row's organization and role, unless the row was there
    before and is disabled; an address that was there before keeps its
    organization, whatever [--org] says. *)
Theorem created_users_can_log_in keys t salt args s a id a' :
  users_wf a →
  parse_flags (user_flag parse_error) args (mkUserArgs None None "viewer" None) = Returned (Ok s) →
  create_user parse_error citext_eq salt args a = Returned (Ok (id, a')) →
  ∃ u email pw org, ua_email s = Some email ∧ ua_password s = Some pw ∧ ua_org s = Some org ∧
    users a' = <[id := u]> (users a) ∧ u_id u = id ∧ u_role u = ua_role s ∧
    (u_org_id u, u_disabled u) = match users a !! id with
                                 | Some u0 => (u_org_id u0, u_disabled u0)
                                 | None => (org, false)
                                 end ∧
    login citext_eq keys (Ok a') t (mkLogin email pw)
    = if u_disabled u then Err Error.Forbidden
      else token ← issue keys t id (u_org_id u) (ua_role s);
           Ok (mkLoginResponse token (ua_role s) (u_org_id u) id).
Proof.
  intros Hwf Hs (s' & Hs' & Hr)%and_then_Ok. rewrite Hs in Hs'. injection Hs' as <-.
  apply result_bind_ok in Hr as (org & Horg%ok_or_Ok & Hr). apply result_bind_ok in Hr as (email & Hem%ok_or_Ok & Hr).
  apply result_bind_ok in Hr as (pw & Hpw%ok_or_Ok & Hr). apply result_bind_ok in Hr as (hash & Hh & Hr).
  unfold hash_password in Hh. do 2 apply map_err_Ok in Hh. apply argon_hash_ok in Hh as [Hphc Hver].
  destruct (upsert_user_row _ _ _ _ _ _ _ Hwf Hr) as (u & Hu & Huid & Heq & Hrole & Hhash & Hroles & Hold).
  exists u, email, pw, org. split_and!; try done.
  { destruct (users a !! id) as [u0|]; by destruct Hold as (-> & -> & _). }
  assert (users a' !! id = Some u) as Hid' by (by rewrite Hu, lookup_insert_eq).
  unfold login. cbn [map_err mbind result_bind lr_email lr_password]. unfold find_user.
  rewrite (find_row_is email a' id u (upsert_user_wf _ _ _ _ _ _ _ Hwf Hr) Hid' Heq).
  cbn [fmap option_fmap option_map snd ok_or mbind result_bind].
  destruct (u_disabled u); [done|]. unfold verify_password. rewrite Hhash, Hphc, Hver. cbn.
  by rewrite Huid, Hrole.
Qed.
End Users.
End Theorems.

(** ** Concrete runs *)
Definition no_text (s : string) : string := EmptyString.
Definition sign_line : list string :=
  ["--key"; "vendor.pem"; "--licensee"; "acme"; "--expires"; show_Z (hours 9); "--fingerprint"; "0123456789ABCDEF";
   "--require-heartbeat"; "--out"; "acme.json"].
Definition vendor_files : gmap string string := {["vendor.pem" := "vendor"]}.

Definition signing_run : attempted (result string (gmap string string)) :=
  license_sign (H := bits_json) (H0 := decimal_time) (H1 := shared_key) no_text (λ _, None) (λ _, true)
    (hours 1) (hours 1) vendor_files sign_line.

Lemma signed_licenses_are_usable_witness :
  ∃ d, licensee d = "acme" ∧ expires_at d = hours 9 ∧ fingerprint d = Some "0123456789abcdef" ∧
    validity d "0123456789abcdef" (hours 2) = Ok tt.
Proof.
  assert (∃ fs', signing_run = Returned (Ok fs')) as (fs' & Hs) by (eexists; reflexivity).
  destruct (signed_licenses_are_usable (H := bits_json) (H0 := decimal_time) (H1 := shared_key) no_text (λ _, None)
              (λ _, true) "vendor" (hours 1) (hours 1) vendor_files sign_line fs' Hs)
    as (a & d & out & pem & text & Ha & _ & _ & _ & Hl & He & _ & _ & _ & _ & _ & Hf & _ & _ & _ & Hv).
  vm_compute in Ha. injection Ha as <-. destruct d as [li ex fe ms ia ki fp rh]. vm_compute in Hl, He, Hf.
  injection Hl as <-. injection He as <-. subst fp.
  exists (mkLicenseDoc "acme" (hours 9) fe ms ia ki (Some "0123456789abcdef") rh). split_and!; [done..|].
  apply Hv; done.
Defined.

Definition user_line : list string := ["--org"; "1"; "--email"; "a@b.c"; "--role"; "admin"; "--password"; "pw"].

Lemma eqb_chain x y z : (x =? y)%string = true → (y =? z)%string = true → (x =? z)%string = true.
Proof. intros ->%String.eqb_eq ->%String.eqb_eq. apply String.eqb_refl. Qed.

Lemma created_users_can_log_in_witness :
  ∃ a', create_user (H := clear_argon) no_text String.eqb "salt" user_line (mkAccounts 8 {[1 := "acme"]} ∅)
          = Returned (Ok (8, a')) ∧
    is_ok (login (H := bits_jwt) (H0 := clear_argon) String.eqb sample_keys (Ok a') 0 (mkLogin "a@b.c" "pw")) = true.
Proof.
  destruct (create_user (H := clear_argon) no_text String.eqb "salt" user_line (mkAccounts 8 {[1 := "acme"]} ∅))
    as [[[id a']|]|] eqn:Hc; [|by vm_compute in Hc..].
  destruct (created_users_can_log_in (H := bits_jwt) (H0 := clear_argon) no_text String.eqb String.eqb_refl String.eqb_sym eqb_chain
    sample_keys 0 "salt" user_line (mkUserArgs (Some 1) (Some "a@b.c") "admin" (Some "pw")) (mkAccounts 8 {[1 := "acme"]} ∅) id a')
    as (u & email & pw & org & Hem & Hpw & Horg & Hu & Hid & Hrole & Hod & Hl).
  - split; intros *; cbn; rewrite lookup_empty; done.
  - reflexivity.
  - exact Hc.
  - injection Hem as <-. injection Hpw as <-. injection Horg as <-.
    assert (id = 8) as -> by (vm_compute in Hc; by injection Hc).
    exists a'. split; [done|]. rewrite Hl. cbn in Hod. rewrite lookup_empty in Hod. injection Hod as _ Hd.
    by rewrite Hd.
Defined.

(** An address that has an account keeps its organization: here the command
    names organization 2, and the account of organization 1 becomes an
    administrator. *)
Lemma conflicting_address_keeps_its_organization :
  ∃ a' u, create_user (H := clear_argon) no_text String.eqb "salt"
      ["--org"; "2"; "--email"; "a@b.c"; "--role"; "admin"; "--password"; "new"] sample_accounts = Returned (Ok (7, a')) ∧
    users a' !! 7 = Some u ∧ u_org_id u = 1 ∧ u_role u = "admin".
Proof. eexists _, _. split; [vm_compute; reflexivity|]. split; [vm_compute; reflexivity|]. by vm_compute. Qed.
