(* ===== verification/AdminMain.v ===== *)
(** * The administration tool as a whole: [main], [license_keygen] and
    [migrate] of [apps/api/src/bin/admin.rs]

    The dispatch on the first argument, over the vendor's files and the
    deployment's database.  The license commands come before the
    configuration is read.  Generating a key pair, running the migrations and
    connecting to the database are parameters; printed texts are not
    modelled. *)
From S2P Require Import Prelude RustStr Json License LicenseFile LicenseIO Error Db World Sources Secrets MasterKey Sessions Settings Admin.
From Stdlib Require Import Ascii.

(** What a command can change. *)
Record Host : Type := mkHost { ho_files : gmap string string; ho_accounts : Accounts; ho_db : Db }.

(** What a command reports. *)
Inductive Report : Type :=
  | Usage | KeysWritten | LicenseWritten | Valid (d : LicenseDoc)
  | Migrated | OrgId (id : Z) | UserId (id : Z) | SecretId (id : Z).

Definition out_dir_flag (a : string) : Flag string :=
  if (a =? "--out-dir")%string then Valued (λ v _, Ok v) else Unknown.

Section Main.
Context `{JsonText} `{Rfc3339} `{Crypto} `{Argon2} `{Aead}.
(** Number parsing errors; dates; the file system; the repository's key. *)
Context (parse_error : string → string) (parse_date : string → option Z) (writable : string → bool)
        (mkdir : string → result string unit) (embedded_pem : string).
(** A fresh RSA key pair as PEM texts, private and public. *)
Context (generate : result string (string * string)).
(** The deployment: environment, migrations, CITEXT equality, organizations
    as a foreign key sees them, fresh salt and nonce. *)
Context (env : string → option string) (run_migrations : result string unit)
        (citext_eq : string → string → bool) (org_exists : Z → bool) (salt nonce : string).

Definition write_text (path text : string) (fs : gmap string string) : result string (gmap string string) :=
  if writable path then Ok (<[path := text]> fs) else Err ("writing " +:+ path).

Definition license_keygen (fs : gmap string string) (args : list string)
    : attempted (result string (gmap string string)) :=
  and_then (parse_flags out_dir_flag args ".") (λ out_dir,
    '(priv_pem, pub_pem) ← generate;
    _ ← mkdir out_dir;
    fs ← write_text (out_dir +:+ "/license_signing_key.pem") priv_pem fs;
    write_text (out_dir +:+ "/license_public_key.pem") pub_pem fs).

(** The license commands: [None] when the command is another one. *)
Definition license_command (now1 now2 : Z) (cmd : string) (args : list string) (h : Host)
    : option (attempted (result string (Report * Host))) :=
  let keep r fs := Ok (r, mkHost fs (ho_accounts h) (ho_db h)) in
  if (cmd =? "license-keygen")%string then
    Some (and_then (license_keygen (ho_files h) args) (keep KeysWritten))
  else if (cmd =? "license-sign")%string then
    Some (and_then (license_sign parse_error parse_date writable now1 now2 (ho_files h) args)
            (keep LicenseWritten))
  else if (cmd =? "license-verify")%string then
    Some (and_then (license_verify embedded_pem now1 (ho_files h) args) (λ d, Ok (Valid d, h)))
  else if mem_str cmd ["help"; "-h"; "--help"] then Some (Returned (Ok (Usage, h)))
  else None.

Definition migrate : result string unit := run_migrations.

Definition deployment_command (cfg : Config) (cmd : string) (args : list string) (h : Host)
    : attempted (result string (Report * Host)) :=
  if (cmd =? "migrate")%string then Returned (_ ← migrate; Ok (Migrated, h))
  else if (cmd =? "create-org")%string then
    and_then (create_org args (ho_accounts h)) (λ r, Ok (OrgId r.1, mkHost (ho_files h) r.2 (ho_db h)))
  else if (cmd =? "create-user")%string then
    and_then (create_user parse_error citext_eq salt args (ho_accounts h))
      (λ r, Ok (UserId r.1, mkHost (ho_files h) r.2 (ho_db h)))
  else if (cmd =? "upsert-secret")%string then
    and_then (Admin.upsert_secret parse_error org_exists (Settings.master_key cfg) nonce args (ho_db h))
      (λ r, Ok (SecretId r.1, mkHost (ho_files h) (ho_accounts h) r.2))
  else Returned (Err ("unknown subcommand " +:+ cmd +:+ "; run `admin help` for usage")).

(** [main], on the arguments after the program's name. *)
Definition admin_main (now1 now2 : Z) (args : list string) (h : Host)
    : attempted (result string (Report * Host)) :=
  match args with
  | [] => Returned (Ok (Usage, h))
  | cmd :: rest =>
      match license_command now1 now2 cmd rest h with
      | Some r => r
      | None =>
          match Settings.from_env env with
          | Ok cfg => deployment_command cfg cmd rest h
          | Err e => Returned (Err e)
          end
      end
  end.
End Main.

(** ** Theorems *)
Section Theorems.
Context `{JsonText} `{Rfc3339} `{Crypto} `{Argon2} `{Aead}.
Context (parse_error : string → string) (parse_date : string → option Z) (writable : string → bool)
        (mkdir : string → result string unit) (embedded_pem : string).

Lemma license_keygen_files priv pub dir fs fs' :
  license_keygen writable mkdir (Ok (priv, pub)) fs ["--out-dir"; dir] = Returned (Ok fs') →
  fs' = <[dir +:+ "/license_public_key.pem" := pub]>
          (<[dir +:+ "/license_signing_key.pem" := priv]> fs).
Proof.
  unfold license_keygen, write_text. cbn. destruct (mkdir dir); [|done]. cbn [mbind result_bind].
  destruct (writable (dir +:+ "/license_signing_key.pem")); cbn [mbind result_bind]; [|by intros [=]].
  destruct (writable _); [|by intros [=]]. by intros [= <-].
Qed.

Lemma key_paths_differ dir : dir +:+ "/license_signing_key.pem" ≠ dir +:+ "/license_public_key.pem".
Proof. induction dir as [|a dir IH]; [discriminate|]. cbn. by intros [= ?]. Qed.

(** A fresh key pair: the public key is the private one's. *)
Context (priv pub : string)
        (Hpub : public_from_pem pub = Some (public_of_private priv)).

(** C39: the vendor's three commands work together and offline: after
    [license-keygen] into a directory, what [license-sign] writes with that
    key, to any file but the public key, [license-verify] accepts with that
    public key until it expires, reporting the licensee and the binding that
    were asked for; none of the three looks at the deployment's environment,
    and none touches its database. *)
Theorem vendor_tools_work_offline env migrations citext_eq org_exists salt nonce
    env' migrations' now1 now2 dir line h r1 h1 r2 h2 a out :
  let run env migrations := admin_main parse_error parse_date writable mkdir embedded_pem
    (Ok (priv, pub)) env migrations citext_eq org_exists salt nonce in
  let key := dir +:+ "/license_signing_key.pem" in
  let public := dir +:+ "/license_public_key.pem" in
  run env migrations now1 now2 ["license-keygen"; "--out-dir"; dir] h = Returned (Ok (r1, h1)) →
  run env migrations now1 now2 ("license-sign" :: line) h1 = Returned (Ok (r2, h2)) →
  parse_flags (sign_flag parse_error) line sign_defaults = Returned (Ok a) →
  sa_key a = Some key → sa_out a = Some out → out ≠ public →
  ho_db h2 = ho_db h ∧ ho_accounts h2 = ho_accounts h ∧
  (∀ cmd args h, cmd ∈ ["license-keygen"; "license-sign"; "license-verify"] →
     run env' migrations' now1 now2 (cmd :: args) h = run env migrations now1 now2 (cmd :: args) h) ∧
  ∃ d, sa_licensee a = Some (licensee d) ∧ fingerprint d = to_ascii_lowercase <$> sa_fingerprint a ∧
    (doc_ok d = true → ∀ t t', t < expires_at d →
     run env' migrations' t t' ["license-verify"; "--file"; out; "--public-key"; public] h2
     = Returned (Ok (Valid d, h2))).
Proof.
  intros run key public Hgen Hsign Ha Hkey Hout Hne.
  apply and_then_Ok in Hgen as (fs1 & Hfs1%license_keygen_files & [= <- <-]).
  apply and_then_Ok in Hsign as (fs2 & Hs & [= <- <-]). cbn [ho_db ho_accounts ho_files] in *.
  split; [done|]. split; [done|]. split.
  { intros cmd args h' Hc. unfold run, admin_main. assert (∃ r, license_command parse_error parse_date
      writable mkdir embedded_pem (Ok (priv, pub)) now1 now2 cmd args h' = Some r) as [r Hr].
    { unfold license_command. set_unfold in Hc. destruct Hc as [->|[->|[->|[]]]]; by eexists. }
    by rewrite Hr. }
  apply license_sign_Ok in Hs as (a' & kp & li & ex & d & out' & pem & text & Ha' & Hkp & Hpem & Hli & Hex
    & Hout' & Hd & Htext & ->).
  rewrite Ha in Ha'. injection Ha' as <-. assert (kp = key) as -> by congruence.
  assert (out' = out) as -> by congruence. subst fs1.
  rewrite lookup_insert_ne, lookup_insert_eq in Hpem by (by apply not_eq_sym, key_paths_differ).
  injection Hpem as <-. apply sign_document_Ok in Hd as (Hl & _ & _ & _ & _ & _ & _ & Hfp & _).
  exists d. split; [congruence|]. split; [done|]. intros Hok t t' Ht.
  apply and_then_Ok. exists d. split; [|done]. cbn [ho_files].
  eapply license_verify_signed; try done; [by rewrite lookup_insert_eq|].
  rewrite lookup_insert_ne by done. by rewrite lookup_insert_eq.
Qed.
End Theorems.

(** ** Witness *)
Definition keygen_line : list string :=
  ["--key"; "keys/license_signing_key.pem"; "--licensee"; "acme"; "--expires"; show_Z (hours 9);
   "--out"; "acme.json"].

Definition vendor_admin (now1 now2 : Z) (args : list string) (h : Host) :=
  admin_main (H := bits_json) (H0 := decimal_time) (H1 := shared_key) (H2 := clear_argon) (H3 := clear_aead)
    no_text (λ _, None) (λ _, true) (λ _, Ok tt) "embedded" (Ok ("vendor", "vendor")) (λ _, None)
    (Err "no database") String.eqb (λ _, false) "salt" "nonce" now1 now2 args h.
Definition after (r : attempted (result string (Report * Host))) (h : Host) : Host :=
  match r with Returned (Ok (_, h')) => h' | _ => h end.

Definition bare_host : Host := mkHost ∅ (mkAccounts 1 ∅ ∅) empty_db.
Definition with_keys : Host := after (vendor_admin 0 0 ["license-keygen"; "--out-dir"; "keys"] bare_host) bare_host.
Definition with_license : Host :=
  after (vendor_admin (hours 1) (hours 1) ("license-sign" :: keygen_line) with_keys) with_keys.
Definition keygen_args : SignArgs :=
  mkSignArgs (Some "keys/license_signing_key.pem") (Some "acme") (Some (show_Z (hours 9))) [] None
    Commercial None false (Some "acme.json").

Lemma vendor_tools_work_offline_witness :
  ∃ d, (@doc_ok decimal_time d = true → hours 2 < expires_at d →
    vendor_admin (hours 2) 0 ["license-verify"; "--file"; "acme.json"; "--public-key";
      "keys/license_public_key.pem"] with_license = Returned (Ok (Valid d, with_license))) ∧
    licensee d = "acme".
Proof.
  destruct (vendor_tools_work_offline (H := bits_json) (H0 := decimal_time) (H1 := shared_key)
    (H2 := clear_argon) (H3 := clear_aead) no_text (λ _, None) (λ _, true) (λ _, Ok tt) "embedded"
    "vendor" "vendor" eq_refl (λ _, None) (Err "no database") String.eqb (λ _, false) "salt" "nonce"
    (λ _, None) (Err "no database") (hours 1) (hours 1) "keys" keygen_line bare_host KeysWritten with_keys
    LicenseWritten with_license keygen_args "acme.json") as (_ & _ & _ & d & Hl & _ & Hv).
  - reflexivity.
  - reflexivity.
  - reflexivity.
  - reflexivity.
  - reflexivity.
  - discriminate.
  - exists d. split.
    + intros Hok Ht. exact (Hv Hok (hours 2) 0 Ht).
    + injection Hl as Hl. exact (eq_sym Hl).
Defined.
