(* ===== verification/Startup.v ===== *)
(** * Starting the API: [main.rs], [JwtKeys::load] of [security/jwt.rs],
    [TemporalClient::new] of [temporal.rs] and [build_s3_client] of [state.rs]

    [main] sets the process up step by step and stops at the first failure.
    The outcomes of the services and of the key parsers are an interface; the
    steps with an effect outside are recorded in the order in which they
    succeed. *)
From S2P Require Import Prelude RustStr License LicenseFile LicenseIO MasterKey Sessions Settings.
From Stdlib Require Import Ascii.

(** [TemporalClient]: no URL is stub mode. *)
Record TemporalClient : Type := mkTemporal {
  tc_bridge_url : option string; tc_bridge_token : string; tc_namespace : string }.

Definition temporal_new (bridge_url : option string) (bridge_token namespace : string) : TemporalClient :=
  mkTemporal (opt_filter (λ u, negb (is_empty u)) (trim_end_char "/" <$> bridge_url)) bridge_token namespace.
Definition is_stub (t : TemporalClient) : bool := negb (is_some (tc_bridge_url t)).

(** Effects of the start, once they have succeeded. *)
Inductive Action : Type :=
  | TracingReady | MetricsReady | HeartbeatSpawned | DbConnected | Migrated
  | BucketCreated | MetricsListening (addr : string) | ApiListening (addr : string).

(** The outcomes of the services, and the PEM parsers of the JWT crate. *)
Class Platform `{JwtCrate} := {
  init_tracing : option string → result string unit;
  init_metrics : result string unit;
  connect_db : string → Z → result string unit;
  run_migrations : result string unit;
  redis_open : string → result string unit;
  head_bucket : string → bool;
  create_bucket : string → result string unit;
  read_file : string → option string;
  generate_pair : result string (string * string);
  signing_of_pem : string → option signing;
  verifying_of_pem : string → option verifying;
  parse_addr : string → bool;
  bind_addr : string → result string unit;
}.

Section Start.
Context `{Aead} `{Platform}.

Definition jwt_load (cfg : Config) : result string JwtKeys :=
  '(private_pem, public_pem) ←
     match jwt_private_key_path cfg, jwt_public_key_path cfg with
     | Some priv_path, Some pub_path =>
         p ← ok_or (read_file priv_path) "read JWT private key";
         q ← ok_or (read_file pub_path) "read JWT public key";
         Ok (p, q)
     | _, _ => generate_pair
     end;
  enc ← ok_or (signing_of_pem private_pem) "parse RSA private key";
  dec ← ok_or (verifying_of_pem public_pem) "parse RSA public key";
  Ok (mkKeys _ enc dec (jwt_issuer cfg) (jwt_audience cfg)).

(** [AppStateInner], less the handles of the services. *)
Record AppState : Type := mkAppState {
  as_cfg : Config; as_temporal : TemporalClient; as_jwt : JwtKeys; as_master_key : MasterKey }.

(** The license process and the log of effects. *)
Record Boot : Type := mkBoot { bo_proc : Proc; bo_log : list Action }.
Abbreviation BootM := (stM Boot string).

Definition on_license {A} (m : io A) : BootM A := λ b,
  let '(r, p) := m (bo_proc b) in (r, mkBoot p (bo_log b)).

(** A step with an effect, and the context of its failure. *)
Definition step (r : result string unit) (context : string) (a : Action) : BootM unit :=
  _ ← lift (map_err (λ _, context) r);
  st_modify (λ b, mkBoot (bo_proc b) (bo_log b ++ [a])).

Definition build_s3_client (cfg : Config) : BootM unit :=
  if head_bucket (minio_bucket cfg) then mret tt
  else step (create_bucket (minio_bucket cfg)) "creating bucket" BucketCreated.

Definition listen (addr parsing binding : string) (a : Action) : BootM unit :=
  _ ← guard_err (negb (parse_addr addr)) parsing; step (bind_addr addr) binding a.

(** [license] is [enforce_at_startup]. *)
Definition main (env : string → option string) (license : io unit) : BootM AppState :=
  cfg ← lift (map_err (λ _, "loading API config") (Settings.from_env env));
  _ ← step (init_tracing (otlp_endpoint cfg)) "initialising tracing" TracingReady;
  _ ← with_err (λ _, "license check") (on_license license);
  _ ← step init_metrics "initialising prometheus metrics" MetricsReady;
  _ ← step (Ok tt) EmptyString HeartbeatSpawned;
  _ ← step (connect_db (database_url cfg) (db_max_connections cfg)) "connecting to postgres" DbConnected;
  _ ← step run_migrations "running migrations" Migrated;
  _ ← lift (map_err (λ _, "parsing redis url") (redis_open (redis_url cfg)));
  let temporal := temporal_new (orchestrator_bridge_url cfg) (default EmptyString (bridge_token cfg))
                    (temporal_namespace cfg) in
  _ ← build_s3_client cfg;
  jwt ← lift (jwt_load cfg);
  master ← lift (from_env_value (Settings.master_key cfg));
  _ ← listen (metrics_bind cfg) "parsing METRICS_BIND" "binding metrics port" (MetricsListening (metrics_bind cfg));
  _ ← listen (api_bind cfg) "parsing API_BIND" "binding api port" (ApiListening (api_bind cfg));
  mret (mkAppState cfg temporal jwt master).

(** ** Lemmas *)

(** The effects of a start that gets through, in their order. *)
Definition full_log (cfg : Config) : list Action :=
  [TracingReady; MetricsReady; HeartbeatSpawned; DbConnected; Migrated]
  ++ (if head_bucket (minio_bucket cfg) then [] else [BucketCreated])
  ++ [MetricsListening (metrics_bind cfg); ApiListening (api_bind cfg)].

Lemma temporal_new_stub url token ns :
  is_stub (temporal_new url token ns) = true ↔
  ∀ u, url = Some u → trim_end_char "/" u = EmptyString.
Proof.
  unfold is_stub, temporal_new. destruct url as [u|]; cbn; [|split; [by intros _ ? [=]|done]].
  destruct (trim_end_char "/" u) as [|c s] eqn:Hu; cbn.
  - split; [|done]. by intros _ ? [= <-].
  - split; [done|]. intros Hall. specialize (Hall u eq_refl). congruence.
Qed.

Lemma wp_step_action r context a (Q : result string unit → Boot → Prop) b :
  (∀ e, r = Err e → Q (Err context) b) →
  (r = Ok tt → Q (Ok tt) (mkBoot (bo_proc b) (bo_log b ++ [a]))) →
  wp (step r context a) Q b.
Proof. intros He Ho. unfold step. wp_steps. destruct r as [[]|e]; cbn; [by apply Ho|by eapply He]. Qed.

Lemma wp_on_license {A} (m : io A) (Q : result string A → Boot → Prop) b :
  wp m (λ r p, Q r (mkBoot p (bo_log b))) (bo_proc b) → wp (on_license m) Q b.
Proof. unfold wp, on_license. by destruct (m (bo_proc b)). Qed.

(** What the rest of a start does, given what is still to be logged. *)
Definition starts (b : Boot) (todo : list Action) (P : AppState → Prop)
    (r : result string AppState) (b' : Boot) : Prop :=
  bo_proc b' = bo_proc b ∧
  (∃ l, bo_log b' = bo_log b ++ l ∧ l `prefix_of` todo) ∧
  ∀ st, r = Ok st → bo_log b' = bo_log b ++ todo ∧ P st.

Lemma starts_err b todo P e : starts b todo P (Err e) b.
Proof.
  split; [done|]. split; [|done]. exists []. split; [by rewrite app_nil_r|apply prefix_nil].
Qed.

Lemma starts_step b a todo P r b' :
  starts (mkBoot (bo_proc b) (bo_log b ++ [a])) todo P r b' → starts b (a :: todo) P r b'.
Proof.
  intros (Hp & (l & Hl & Hpre) & Hok). cbn in *. split; [done|]. split.
  - exists (a :: l). rewrite Hl, <- app_assoc. split; [done|]. by apply prefix_cons.
  - intros st Hst. destruct (Hok st Hst) as [-> HP]. by rewrite <- app_assoc.
Qed.

Lemma wp_listen addr e e' a (m : BootM AppState) todo P b :
  wp m (starts (mkBoot (bo_proc b) (bo_log b ++ [a])) todo P) (mkBoot (bo_proc b) (bo_log b ++ [a])) →
  wp (_ ← listen addr e e' a; m) (starts b (a :: todo) P) b.
Proof.
  intros Hm. unfold listen. wp_steps; [apply starts_err|].
  apply wp_step_action; [intros ? _; apply starts_err|]. intros _. cbv iota.
  eapply wp_mono; [exact Hm|]. intros ??. apply starts_step.
Qed.

(** What a running process was made of. *)
Definition made_of (cfg : Config) (st : AppState) : Prop :=
  as_cfg st = cfg ∧ jwt_load cfg = Ok (as_jwt st) ∧
  from_env_value (Settings.master_key cfg) = Ok (as_master_key st) ∧
  as_temporal st = temporal_new (orchestrator_bridge_url cfg) (default EmptyString (bridge_token cfg))
                     (temporal_namespace cfg).

(** The start from the database on. *)
Lemma services_start cfg b :
  wp (_ ← step (connect_db (database_url cfg) (db_max_connections cfg)) "connecting to postgres" DbConnected;
      _ ← step run_migrations "running migrations" Migrated;
      _ ← lift (map_err (λ _, "parsing redis url") (redis_open (redis_url cfg)));
      let temporal := temporal_new (orchestrator_bridge_url cfg) (default EmptyString (bridge_token cfg))
                        (temporal_namespace cfg) in
      _ ← build_s3_client cfg;
      jwt ← lift (jwt_load cfg);
      master ← lift (from_env_value (Settings.master_key cfg));
      _ ← listen (metrics_bind cfg) "parsing METRICS_BIND" "binding metrics port" (MetricsListening (metrics_bind cfg));
      _ ← listen (api_bind cfg) "parsing API_BIND" "binding api port" (ApiListening (api_bind cfg));
      mret (mkAppState cfg temporal jwt master))
     (starts b (DbConnected :: Migrated :: (if head_bucket (minio_bucket cfg) then [] else [BucketCreated])
                ++ [MetricsListening (metrics_bind cfg); ApiListening (api_bind cfg)]) (made_of cfg)) b.
Proof.
  assert (∀ b, wp (jwt ← lift (jwt_load cfg);
      master ← lift (from_env_value (Settings.master_key cfg));
      _ ← listen (metrics_bind cfg) "parsing METRICS_BIND" "binding metrics port" (MetricsListening (metrics_bind cfg));
      _ ← listen (api_bind cfg) "parsing API_BIND" "binding api port" (ApiListening (api_bind cfg));
      mret (mkAppState cfg (temporal_new (orchestrator_bridge_url cfg) (default EmptyString (bridge_token cfg))
                        (temporal_namespace cfg)) jwt master))
    (starts b [MetricsListening (metrics_bind cfg); ApiListening (api_bind cfg)] (made_of cfg)) b) as Hend.
  { clear b. intros b. wp_steps. destruct (jwt_load cfg) as [jwt|] eqn:Hj; cbv iota; [|apply starts_err].
    wp_steps. destruct (from_env_value _) as [mk|] eqn:Hm; cbv iota; [|apply starts_err].
    apply wp_listen, wp_listen. wp_steps. split; [done|]. split.
    - exists []. split; [by rewrite app_nil_r|done].
    - intros st [= <-]. rewrite app_nil_r. done. }
  wp_step. apply wp_step_action; [intros ? _; apply starts_err|]. intros _. cbv iota.
  wp_step. apply wp_step_action; [intros ? _; eapply starts_step, starts_err|]. intros _. cbv iota.
  wp_steps. destruct (redis_open _) as [[]|]; cbn [map_err]; cbv iota;
    [|eapply starts_step, starts_step, starts_err].
  wp_steps. unfold build_s3_client. destruct (head_bucket _).
  - wp_step. cbv beta iota. eapply wp_mono; [apply Hend|]. intros r b' Hs. by eapply starts_step, starts_step.
  - apply wp_step_action; [intros ? _; eapply starts_step, starts_step, starts_err|]. intros _. cbv iota.
    eapply wp_mono; [apply Hend|]. intros r b' Hs. by eapply starts_step, starts_step, starts_step.
Qed.

Lemma services_after_license cfg b :
  wp (_ ← step init_metrics "initialising prometheus metrics" MetricsReady;
      _ ← step (Ok tt) EmptyString HeartbeatSpawned;
      _ ← step (connect_db (database_url cfg) (db_max_connections cfg)) "connecting to postgres" DbConnected;
      _ ← step run_migrations "running migrations" Migrated;
      _ ← lift (map_err (λ _, "parsing redis url") (redis_open (redis_url cfg)));
      let temporal := temporal_new (orchestrator_bridge_url cfg) (default EmptyString (bridge_token cfg))
                        (temporal_namespace cfg) in
      _ ← build_s3_client cfg;
      jwt ← lift (jwt_load cfg);
      master ← lift (from_env_value (Settings.master_key cfg));
      _ ← listen (metrics_bind cfg) "parsing METRICS_BIND" "binding metrics port" (MetricsListening (metrics_bind cfg));
      _ ← listen (api_bind cfg) "parsing API_BIND" "binding api port" (ApiListening (api_bind cfg));
      mret (mkAppState cfg temporal jwt master))
     (starts b (tail (full_log cfg)) (made_of cfg)) b.
Proof.
  wp_step. apply wp_step_action; [intros ? _; apply starts_err|]. intros _. cbv iota.
  wp_step. apply wp_step_action; [by intros|]. intros _. cbv iota.
  eapply wp_mono; [apply services_start|]. intros r b' Hs. by eapply starts_step, starts_step.
Qed.

Lemma jwt_of_files cfg keys pp qp private public :
  jwt_load cfg = Ok keys → jwt_private_key_path cfg = Some pp → jwt_public_key_path cfg = Some qp →
  read_file pp = Some private → read_file qp = Some public →
  signing_of_pem private = Some (encoding keys) ∧ verifying_of_pem public = Some (decoding keys).
Proof.
  unfold jwt_load. intros Hj Hpp Hqp Hprv Hpub. rewrite Hpp, Hqp, Hprv, Hpub in Hj. cbn in Hj.
  destruct (signing_of_pem private); [|done]. destruct (verifying_of_pem public); [|done].
  by injection Hj as <-.
Qed.
End Start.

Section Theorems.
Context `{Aead} `{Platform}.

(** C25: the process starts in order: whatever fails, what has happened until
    then is a beginning of the one sequence tracing, metrics, heartbeats,
    database, migrations, bucket, metrics listener, API listener, and
    without a configuration nothing happens; when the license check fails,
    no service has been contacted; when the process serves, the license check
    had succeeded, the migrations had run before any listener was opened, and
    its configuration, token keys, master key and bridge are the ones the
    environment gives.  With both key files configured, the token keys are
    those of the files, so they outlive the process. *)
Theorem start_up_is_ordered env (license : io unit) p :
  let '(r, b) := main env license (mkBoot p []) in
  match Settings.from_env env with
  | Err _ => is_ok r = false ∧ b = mkBoot p []
  | Ok cfg =>
      bo_log b `prefix_of` full_log cfg ∧
      (is_ok (license p).1 = false → bo_log b `prefix_of` [TracingReady]) ∧
      ∀ st, r = Ok st →
        bo_log b = full_log cfg ∧ license p = (Ok tt, bo_proc b) ∧ made_of cfg st ∧
        ∀ pp qp private public, jwt_private_key_path cfg = Some pp → jwt_public_key_path cfg = Some qp →
          read_file pp = Some private → read_file qp = Some public →
          signing_of_pem private = Some (encoding (as_jwt st)) ∧
          verifying_of_pem public = Some (decoding (as_jwt st))
  end.
Proof.
  destruct (main env license (mkBoot p [])) as [r b] eqn:Hrun.
  match goal with |- ?G => enough (wp (main env license) (λ r' b', r' = r → b' = b → G) (mkBoot p [])) as Hw
    by (unfold wp in Hw; rewrite Hrun in Hw; by apply Hw) end.
  clear Hrun. unfold main. wp_steps. destruct (Settings.from_env env) as [cfg|e]; cbn [map_err]; cbv iota;
    [|by intros <- <-].
  wp_step. apply wp_step_action.
  { intros ? _ <- <-. cbn. split_and!; [apply prefix_nil|intros _; apply prefix_nil|done]. }
  intros _. cbv iota. wp_step. wp_step. apply wp_on_license. unfold wp at 1. cbn [bo_proc bo_log app].
  destruct (license p) as [[[]|e] p'] eqn:Hl; cbn [map_err fst snd].
  2: { intros <- <-. cbn. split_and!; [by apply prefix_cons, prefix_nil|by intros _|done]. }
  eapply wp_mono; [apply services_after_license|]. cbv beta.
  intros r' b' (Hp & (l & Hlog & Hpre) & Hok) <- <-. cbn in Hp, Hlog, Hok.
  split; [rewrite Hlog; by apply prefix_cons|]. split; [done|]. intros st Hst.
  destruct (Hok st Hst) as [Hlog' Hmade]. split; [exact Hlog'|]. split; [by rewrite Hp|].
  split; [exact Hmade|]. intros pp qp private public Hpp Hqp Hprv Hpub.
  destruct Hmade as (_ & Hj & _). eapply jwt_of_files; eassumption.
Qed.
End Theorems.

(** ** Witness *)
Definition sample_platform : @Platform bits_jwt := {|
  init_tracing _ := Ok tt; init_metrics := Ok tt; connect_db _ _ := Ok tt; run_migrations := Ok tt;
  redis_open _ := Ok tt; head_bucket _ := false; create_bucket _ := Ok tt; read_file p := Some "k";
  generate_pair := Err "no entropy";
  signing_of_pem := @Some (@signing bits_jwt); verifying_of_pem := @Some (@verifying bits_jwt);
  parse_addr _ := true; bind_addr _ := Ok tt |}.

Definition start_env (k : string) : option string :=
  if (k =? "MASTER_KEY")%string then Some "0123456789abcdef0123456789abcdef"
  else if (k =? "JWT_PRIVATE_KEY_PATH")%string then Some "priv.pem"
  else if (k =? "JWT_PUBLIC_KEY_PATH")%string then Some "pub.pem" else None.

Definition bare_proc : Proc := mkProc default_state None None ∅ 0 [] [].
Definition sample_start : result string (AppState (H0 := bits_jwt)) * Boot :=
  main (H := clear_aead) (H1 := sample_platform) start_env (mret tt) (mkBoot bare_proc []).

Lemma start_up_is_ordered_witness :
  ∃ st, sample_start.1 = Ok st ∧ bo_log sample_start.2 =
    [TracingReady; MetricsReady; HeartbeatSpawned; DbConnected; Migrated; BucketCreated;
     MetricsListening "0.0.0.0:9464"; ApiListening "0.0.0.0:8080"] ∧
    encoding (as_jwt st) = "k".
Proof.
  pose proof (start_up_is_ordered (H := clear_aead) (H1 := sample_platform) start_env (mret tt)
    bare_proc) as Hs.
  change (main (H := clear_aead) (H1 := sample_platform) start_env (mret tt) (mkBoot bare_proc []))
    with sample_start in Hs.
  assert (is_ok sample_start.1 = true) as Hstart by (vm_compute; reflexivity).
  destruct sample_start as [[st|e] b] eqn:Hr; [|discriminate Hstart].
  destruct Hs as (_ & _ & Hok). destruct (Hok st eq_refl) as (Hlog & _ & _ & Hkeys).
  exists st. split; [reflexivity|]. split; [exact Hlog|].
  destruct (Hkeys "priv.pem" "pub.pem" "k" "k" eq_refl eq_refl eq_refl eq_refl) as [He _].
  injection He as He. exact (eq_sym He).
Defined.
