(* ===== verification/Tenancy.v ===== *)
(** * Organizations in the shared database

    Every row belongs to one organization, by its [org_id] column or through
    the row it hangs on.  The tables seen as one, the references between their
    rows (the foreign keys of [apps/api/migrations]), and three relations on
    databases: [db_wf], the shape every transaction keeps; [lawful], what all
    transactions may do; [tenant], what a request of one organization may do.

    [db_wf] and [lawful] are a rely and a guarantee: a handler's steps are
    [tenant] steps while all other transactions are [lawful], and [tenant]
    steps are [lawful]. *)
From S2P Require Import Prelude RustStr Json Error LicenseFile Db World Sources Jobs RuleTypes Templates Secrets Schedules Batches Specs.

(** ** One view of all tables *)

(** The tables whose rows a request may add or change. *)
Inductive Table : Type :=
  | TJob | TTemplate | TConnector | TSource | TSchedule | TRun | TSecret | TBatch | TStage | TSpec | TLlm.
#[global] Instance Table_eq_dec : EqDecision Table.
Proof. solve_decision. Defined.

Inductive Row : Type :=
  | RJob (r : JobRow) | RTemplate (r : RuleTemplateRow) | RConnector (r : ConnectorRow)
  | RSource (r : SourceRow) | RSchedule (r : ScheduleRow) | RRun (r : ScheduleRun)
  | RSecret (r : SecretRow) | RBatch (r : BatchRow) | RStage (r : BatchStageRow)
  | RSpec (r : SpecRow) | RLlm (r : LlmConfig).

Definition row (t : Table) (id : Z) (d : Db) : option Row :=
  match t with
  | TJob => RJob <$> jobs d !! id
  | TTemplate => RTemplate <$> rule_templates d !! id
  | TConnector => RConnector <$> connectors d !! id
  | TSource => RSource <$> sources d !! id
  | TSchedule => RSchedule <$> schedules d !! id
  | TRun => RRun <$> schedule_runs d !! id
  | TSecret => RSecret <$> secrets d !! id
  | TBatch => RBatch <$> batches d !! id
  | TStage => RStage <$> batch_stages d !! id
  | TSpec => RSpec <$> openapi_specs d !! id
  | TLlm => RLlm <$> org_llm_configs d !! id
  end.

Definition key_of (r : Row) : Z :=
  match r with
  | RJob r => j_id r | RTemplate r => rt_id r | RConnector r => cn_id r | RSource r => sr_id r
  | RSchedule r => sc_id r | RRun r => ru_id r | RSecret r => se_id r | RBatch r => ba_id r
  | RStage r => bs_id r | RSpec r => sp_id r | RLlm r => lc_org_id r
  end.

(** The organization of a row: runs and stages have their parent's. *)
Definition org_of (d : Db) (r : Row) : option Z :=
  match r with
  | RJob r => Some (j_org_id r) | RTemplate r => Some (rt_org_id r) | RConnector r => Some (cn_org_id r)
  | RSource r => Some (sr_org_id r) | RSchedule r => Some (sc_org_id r)
  | RRun r => sc_org_id <$> schedules d !! ru_schedule_id r
  | RSecret r => Some (se_org_id r) | RBatch r => Some (ba_org_id r)
  | RStage r => ba_org_id <$> batches d !! bs_batch_id r
  | RSpec r => Some (sp_org_id r) | RLlm r => Some (lc_org_id r)
  end.

Definition ref (t : Table) (o : option Z) : list (Table * Z) :=
  match o with Some id => [(t, id)] | None => [] end.

(** The foreign keys of a row. *)
Definition refs (r : Row) : list (Table * Z) :=
  match r with
  | RJob r => (TTemplate, j_rule_template_id r) :: ref TSchedule (j_schedule_id r)
                ++ ref TBatch (j_batch_id r) ++ ref TStage (j_batch_stage_id r)
  | RConnector r => ref TSecret (cn_secret_id r)
  | RSchedule r => [(TTemplate, sc_rule_template_id r); (TConnector, sc_connector_id r)]
  | RRun r => (TSchedule, ru_schedule_id r) :: ref TJob (ru_job_id r)
  | RBatch r => ref TSchedule (ba_schedule_id r) ++ ref TConnector (ba_connector_id r)
  | RStage r => (TBatch, bs_batch_id r) :: ref TTemplate (bs_rule_template_id r) ++ ref TJob (bs_job_id r)
  | RLlm r => ref TSecret (lc_secret_id r)
  | RTemplate _ | RSource _ | RSecret _ | RSpec _ => []
  end.

Definition org_at (t : Table) (id : Z) (d : Db) : option Z := row t id d ≫= org_of d.

(** Whether a table's keys come from the sequence; the other is keyed by
    organization. *)
Definition sequenced (t : Table) : bool := match t with TLlm => false | _ => true end.

(** ** What all transactions keep *)

(** A row of an organization: under its own key, which the sequence gave out,
    and all its references name rows of the same organization. *)
Definition row_wf (d : Db) (t : Table) (id : Z) (r : Row) : Prop :=
  key_of r = id ∧ (sequenced t = true → id < db_seq d) ∧
  ∃ o, org_of d r = Some o ∧ ∀ p, p ∈ refs r → org_at p.1 p.2 d = Some o.

Definition db_wf (d : Db) : Prop := ∀ t id r, row t id d = Some r → row_wf d t id r.

(** Identifiers are used once: one that was given out names a row of the
    organization it named before, or nothing. *)
Definition keeps (d d' : Db) : Prop :=
  db_seq d ≤ db_seq d' ∧
  ∀ t id o, sequenced t = true → id < db_seq d → org_at t id d' = Some o → org_at t id d = Some o.

Definition lawful (d d' : Db) : Prop := db_wf d → db_wf d' ∧ keeps d d'.

(** ** What a request may do *)

Definition stays_put (t : Table) (id : Z) (d d' : Db) : Prop :=
  row t id d' = row t id d ∧ org_at t id d' = org_at t id d.

(** The rows of every other organization stay as they are, the rows the
    engine writes ([job_rows], [job_row_steps]) too, and what is added to the
    audit log is of the caller's organization and names the caller. *)
Definition isolated (c : Claims) (d d' : Db) : Prop :=
  (∀ t id o, o ≠ org c → org_at t id d = Some o ∨ org_at t id d' = Some o → stays_put t id d d') ∧
  job_rows d' = job_rows d ∧ job_row_steps d' = job_row_steps d ∧
  ∃ l, audit_log d' = audit_log d ++ l ∧ Forall (λ e, au_org_id e = org c ∧ au_actor e = sub c) l.

Definition tenant (c : Claims) (d d' : Db) : Prop := db_wf d → db_wf d' ∧ keeps d d' ∧ isolated c d d'.

Lemma keeps_refl d : keeps d d.
Proof. by split. Qed.

Lemma keeps_trans d1 d2 d3 : keeps d1 d2 → keeps d2 d3 → keeps d1 d3.
Proof.
  intros [Hs H1] [Hs' H2]. split; [lia|]. intros t id o Ht Hid Ho. apply H1; [done|done|].
  apply H2; [done|lia|done].
Qed.

#[global] Instance keeps_preorder : PreOrder keeps.
Proof. split; [exact keeps_refl|exact keeps_trans]. Qed.

Lemma isolated_refl c d : isolated c d d.
Proof. split_and!; [done..|]. exists []. by rewrite app_nil_r. Qed.

Lemma isolated_trans c d1 d2 d3 : isolated c d1 d2 → isolated c d2 d3 → isolated c d1 d3.
Proof.
  intros (H1 & Hr1 & Hs1 & l1 & Hl1 & Ha1) (H2 & Hr2 & Hs2 & l2 & Hl2 & Ha2).
  split_and!; [|congruence..|].
  - intros t id o Ho [Hat|Hat].
    + destruct (H1 t id o Ho (or_introl Hat)) as [Hrow Horg].
      destruct (H2 t id o Ho) as [Hrow' Horg']; [left; congruence|]. split; congruence.
    + destruct (H2 t id o Ho (or_intror Hat)) as [Hrow' Horg'].
      destruct (H1 t id o Ho) as [Hrow Horg]; [right; congruence|]. split; congruence.
  - exists (l1 ++ l2). rewrite Hl2, Hl1, app_assoc. split; [done|]. by apply Forall_app.
Qed.

Lemma tenant_refl c d : tenant c d d.
Proof. intros Hd. split_and!; [done|done|apply isolated_refl]. Qed.

Lemma tenant_trans c d1 d2 d3 : tenant c d1 d2 → tenant c d2 d3 → tenant c d1 d3.
Proof.
  intros H1 H2 Hd. destruct (H1 Hd) as (Hd2 & Hk & Hi). destruct (H2 Hd2) as (Hd3 & Hk' & Hi').
  split_and!; [done|by etrans|by eapply isolated_trans].
Qed.

#[global] Instance tenant_preorder c : PreOrder (tenant c).
Proof. split; [exact (tenant_refl c)|exact (tenant_trans c)]. Qed.

Lemma tenant_lawful c d d' : tenant c d d' → lawful d d'.
Proof. intros Ht Hd. destruct (Ht Hd) as (Hwf & Hk & _). done. Qed.

(** A row of the organization [o], or one that is gone: what a handler knows
    of an identifier it has read, whatever the others do. *)
Definition mine (o : Z) (t : Table) (id : Z) (d : Db) : Prop :=
  id < db_seq d ∧ ∀ o', org_at t id d = Some o' → o' = o.

Lemma mine_keeps o t id d d' : sequenced t = true → keeps d d' → mine o t id d → mine o t id d'.
Proof. intros Ht [Hs Hk] [Hid Hm]. split; [lia|]. intros o' Ho'. apply Hm. by apply Hk. Qed.

Lemma org_at_mine o t id d : db_wf d → sequenced t = true → org_at t id d = Some o → mine o t id d.
Proof.
  intros Hd Ht Ho. pose proof Ho as (r & Hr & _)%bind_Some. destruct (Hd _ _ _ Hr) as (_ & Hs & _).
  split; [by apply Hs|]. intros o'. rewrite Ho. by intros [= ->].
Qed.

(** ** Adding or replacing one row *)

Lemma org_of_run d r : org_of d (RRun r) = org_at TSchedule (ru_schedule_id r) d.
Proof. unfold org_at. cbn. by destruct (schedules d !! _). Qed.
Lemma org_of_stage d r : org_of d (RStage r) = org_at TBatch (bs_batch_id r) d.
Proof. unfold org_at. cbn. by destruct (batches d !! _). Qed.

(** The organization of a row follows from those of the schedules and batches. *)
Lemma org_of_mono d d' r o :
  (∀ id o, org_at TSchedule id d = Some o → org_at TSchedule id d' = Some o) →
  (∀ id o, org_at TBatch id d = Some o → org_at TBatch id d' = Some o) →
  org_of d r = Some o → org_of d' r = Some o.
Proof. intros Hs Hb. destruct r; try done; rewrite ?org_of_run, ?org_of_stage; auto. Qed.

Lemma parent_ref d r o :
  org_of d r = Some o → (∀ d', org_of d' r = Some o) ∨
  ∃ t id, (t, id) ∈ refs r ∧ (t = TSchedule ∨ t = TBatch) ∧ ∀ d', org_of d' r = org_at t id d'.
Proof.
  destruct r as [| | | | |r| | |r| |]; intros Ho; try (by left); right.
  - exists TSchedule, (ru_schedule_id r). split_and!; [left|by left|]. intros. apply org_of_run.
  - exists TBatch, (bs_batch_id r). split_and!; [left|by right|]. intros. apply org_of_stage.
Qed.

(** What lies outside the tables of [Table]. *)
Definition same_rest (d d' : Db) : Prop :=
  job_rows d' = job_rows d ∧ job_row_steps d' = job_row_steps d ∧ audit_log d' = audit_log d.

Lemma same_rest_isolated c d d' :
  same_rest d d' →
  (∀ t id o, o ≠ org c → org_at t id d = Some o ∨ org_at t id d' = Some o → stays_put t id d d') →
  isolated c d d'.
Proof. intros (Hr & Hs & Ha) Ht. split_and!; [done..|]. exists []. by rewrite app_nil_r. Qed.

Record puts (t0 : Table) (id0 : Z) (r' : Row) (d d' : Db) : Prop := {
  puts_seq : db_seq d ≤ db_seq d';
  puts_others : ∀ t id, (t, id) ≠ (t0, id0) → row t id d' = row t id d;
  puts_row : row t0 id0 d' = Some r';
  puts_rest : same_rest d d';
}.

(** A row of the caller's organization under a fresh key, or over one of its
    rows. *)
Record good_row (c : Claims) (t0 : Table) (id0 : Z) (r' : Row) (d d' : Db) : Prop := {
  gr_key : key_of r' = id0;
  gr_seq : sequenced t0 = true → id0 < db_seq d';
  gr_org : org_of d r' = Some (org c);
  gr_refs : ∀ p, p ∈ refs r' → org_at p.1 p.2 d = Some (org c);
  gr_old : match row t0 id0 d with
           | None => sequenced t0 = true → db_seq d ≤ id0
           | Some r => org_of d r = Some (org c)
           end;
}.

Section Put.
Context (c : Claims) (t0 : Table) (id0 : Z) (r' : Row) (d d' : Db).
Context (Hp : puts t0 id0 r' d d') (Hg : good_row c t0 id0 r' d d').

Lemma put_parent t id o :
  (t = TSchedule ∨ t = TBatch) → org_at t id d = Some o → org_at t id d' = Some o.
Proof.
  intros Ht Ho. destruct (decide ((t, id) = (t0, id0))) as [Heq|Hne].
  - injection Heq as -> ->. pose proof (gr_old _ _ _ _ _ _ Hg) as Hold. unfold org_at in *.
    rewrite (puts_row _ _ _ _ _ Hp). destruct (row t0 id0 d) as [r|]; [|done]. cbn in *.
    assert (o = org c) as -> by congruence. pose proof (gr_org _ _ _ _ _ _ Hg) as Hnew.
    pose proof (puts_row _ _ _ _ _ Hp) as Hrow.
    destruct Ht as [-> | ->]; apply fmap_Some in Hrow as (x & _ & ->); exact Hnew.
  - unfold org_at in *. rewrite (puts_others _ _ _ _ _ Hp) by done.
    destruct Ht as [-> | ->]; cbn in *; apply bind_Some in Ho as (r & Hr & Ho); rewrite Hr; cbn;
      apply fmap_Some in Hr as (x & _ & ->); exact Ho.
Qed.

Lemma put_org_of r o : org_of d r = Some o → org_of d' r = Some o.
Proof. apply org_of_mono; intros; apply put_parent; auto. Qed.

Lemma put_new : org_at t0 id0 d' = Some (org c).
Proof.
  unfold org_at. rewrite (puts_row _ _ _ _ _ Hp). cbn. apply put_org_of, (gr_org _ _ _ _ _ _ Hg).
Qed.

Lemma put_org_at t id o : org_at t id d = Some o → org_at t id d' = Some o.
Proof.
  intros Ho. destruct (decide ((t, id) = (t0, id0))) as [Heq|Hne].
  - injection Heq as -> ->. rewrite put_new. pose proof (gr_old _ _ _ _ _ _ Hg) as Hold.
    unfold org_at in Ho. destruct (row t0 id0 d); [|done]. cbn in Ho. congruence.
  - unfold org_at in *. rewrite (puts_others _ _ _ _ _ Hp) by done.
    destruct (row t id d) as [r|]; [|done]. by apply put_org_of.
Qed.

Lemma put_org_back t id o :
  db_wf d → (t, id) ≠ (t0, id0) → org_at t id d' = Some o → org_at t id d = Some o.
Proof.
  intros Hd Hne Ho. pose proof Ho as (r & Hr & _)%bind_Some.
  rewrite (puts_others _ _ _ _ _ Hp) in Hr by done. destruct (Hd _ _ _ Hr) as (_ & _ & o' & Ho' & _).
  assert (org_at t id d = Some o') as Hat by (unfold org_at; by rewrite Hr).
  pose proof (put_org_at _ _ _ Hat). congruence.
Qed.

Lemma put_tenant : tenant c d d'.
Proof.
  intros Hd. pose proof put_new as Hnew. split_and!.
  - intros t id r Hr. destruct (decide ((t, id) = (t0, id0))) as [Heq|Hne].
    + injection Heq as -> ->. rewrite (puts_row _ _ _ _ _ Hp) in Hr. injection Hr as <-.
      split_and!; [apply Hg|apply Hg|]. exists (org c). split; [apply put_org_of, Hg|].
      intros p Hin. apply put_org_at. by apply (gr_refs _ _ _ _ _ _ Hg).
    + rewrite (puts_others _ _ _ _ _ Hp) in Hr by done.
      destruct (Hd _ _ _ Hr) as (Hk & Hs & o & Ho & Hrefs). pose proof (puts_seq _ _ _ _ _ Hp).
      split_and!; [done|intros Ht; specialize (Hs Ht); lia|]. exists o. split; [by apply put_org_of|].
      intros p Hin. by apply put_org_at, Hrefs.
  - split; [apply Hp|]. intros t id o Ht Hid Ho.
    destruct (decide ((t, id) = (t0, id0))) as [Heq|Hne]; [|by apply put_org_back].
    injection Heq as -> ->. pose proof (gr_old _ _ _ _ _ _ Hg) as Hold.
    destruct (row t0 id0 d) as [r|] eqn:Hr; [|specialize (Hold Ht); lia].
    unfold org_at. rewrite Hr. cbn. congruence.
  - apply same_rest_isolated; [apply Hp|]. intros t id o Hne Ho.
    assert ((t, id) ≠ (t0, id0)) as Hother.
    { intros [= -> ->]. destruct Ho as [Ho|Ho]; [apply put_org_at in Ho|]; congruence. }
    split; [by apply (puts_others _ _ _ _ _ Hp)|].
    destruct Ho as [Ho|Ho]; [|apply put_org_back in Ho; [|done..]]; by rewrite Ho, (put_org_at _ _ _ Ho).
Qed.
End Put.

(** ** Removing rows, with what hung on them *)

(** Rows of the caller's organization go or lose references, and no reference
    to a row that is gone is left. *)
Record shrinks (c : Claims) (d d' : Db) : Prop := {
  sh_seq : db_seq d' = db_seq d;
  sh_rest : same_rest d d';
  sh_rows : ∀ t id, row t id d' = row t id d ∨ org_at t id d = Some (org c);
  sh_old : ∀ t id r', row t id d' = Some r' → ∃ r, row t id d = Some r ∧
             key_of r' = key_of r ∧ (∀ x, org_of x r' = org_of x r) ∧ refs r' ⊆ refs r;
  sh_refs : ∀ t id r' p, row t id d' = Some r' → p ∈ refs r' →
              row p.1 p.2 d ≠ None → row p.1 p.2 d' ≠ None;
}.

Section Shrink.
Context (c : Claims) (d d' : Db) (Hsh : shrinks c d d') (Hwf : db_wf d).

Lemma shrink_parent t id :
  (t = TSchedule ∨ t = TBatch) → row t id d' ≠ None → org_at t id d' = org_at t id d.
Proof.
  intros Ht Hr. unfold org_at. destruct (row t id d') as [r'|] eqn:Hr'; [|done].
  destruct (sh_old _ _ _ Hsh _ _ _ Hr') as (r & Hrow & _ & Horg & _). rewrite Hrow. cbn. rewrite <- Horg.
  destruct Ht as [-> | ->]; apply fmap_Some in Hr' as (x & _ & ->); reflexivity.
Qed.

Lemma shrink_org_at t id r' : row t id d' = Some r' → org_at t id d' = org_at t id d.
Proof.
  intros Hr'. destruct (sh_old _ _ _ Hsh _ _ _ Hr') as (r & Hr & _ & Horg & Hsub).
  destruct (Hwf _ _ _ Hr) as (_ & _ & o & Ho & Hrefs). unfold org_at. rewrite Hr', Hr. cbn. rewrite Ho.
  rewrite <- Horg in Ho. destruct (parent_ref _ _ _ Ho) as [Hall|(tp & ip & Hin & Ht & Hpar)]; [apply Hall|].
  specialize (Hrefs (tp, ip) (Hsub _ Hin)). cbn in Hrefs. rewrite Hpar, shrink_parent; [done|done|].
  apply (sh_refs _ _ _ Hsh _ _ _ (tp, ip) Hr' Hin). cbn. intros Hnone.
  unfold org_at in Hrefs. by rewrite Hnone in Hrefs.
Qed.

Lemma shrink_back t id o : org_at t id d' = Some o → org_at t id d = Some o.
Proof. intros Ho. pose proof Ho as (r & Hr & _)%bind_Some. by rewrite <- (shrink_org_at _ _ _ Hr). Qed.
End Shrink.

Lemma shrink_tenant c d d' : shrinks c d d' → tenant c d d'.
Proof.
  intros Hsh Hd. split_and!.
  - intros t id r' Hr'. destruct (sh_old _ _ _ Hsh _ _ _ Hr') as (r & Hr & Hk & Horg & Hsub).
    destruct (Hd _ _ _ Hr) as (Hkey & Hs & o & Ho & Hrefs).
    split_and!; [congruence|by rewrite (sh_seq _ _ _ Hsh)|]. exists o.
    pose proof (shrink_org_at _ _ _ Hsh Hd _ _ _ Hr') as Hat. unfold org_at in Hat at 1. rewrite Hr' in Hat. cbn in Hat.
    split; [rewrite Hat; unfold org_at; by rewrite Hr|]. intros p Hin.
    specialize (Hrefs p (Hsub _ Hin)). pose proof Hrefs as (rp & Hrp & _)%bind_Some.
    destruct (row p.1 p.2 d') as [rp'|] eqn:Hrp'.
    + by rewrite (shrink_org_at _ _ _ Hsh Hd _ _ _ Hrp').
    + exfalso. eapply (sh_refs _ _ _ Hsh); [exact Hr'|exact Hin|congruence|exact Hrp'].
  - split; [rewrite (sh_seq _ _ _ Hsh); lia|]. intros t id o _ _. by apply (shrink_back c).
  - apply same_rest_isolated; [apply Hsh|]. intros t id o Hne Ho.
    assert (org_at t id d = Some o) as Hat by (destruct Ho as [Ho|Ho]; [done|by apply (shrink_back c _ _ Hsh Hd)]).
    destruct (sh_rows _ _ _ Hsh t id) as [Hrow|Hmine]; [|congruence]. split; [done|].
    pose proof Hat as (r & Hr & _)%bind_Some. eapply (shrink_org_at c); [done|done|]. by rewrite Hrow.
Qed.

(** A row taken out of one table: no other row may refer to it. *)
Record removes (t0 : Table) (id0 : Z) (d d' : Db) : Prop := {
  rm_seq : db_seq d' = db_seq d;
  rm_rest : same_rest d d';
  rm_others : ∀ t id, (t, id) ≠ (t0, id0) → row t id d' = row t id d;
  rm_row : row t0 id0 d' = None;
}.

Lemma remove_tenant c t0 id0 d d' :
  removes t0 id0 d d' → org_at t0 id0 d = Some (org c) →
  (∀ t id r, row t id d = Some r → (t, id) ≠ (t0, id0) → (t0, id0) ∉ refs r) → tenant c d d'.
Proof.
  intros Hrm Ho Hno. apply shrink_tenant.
  assert (∀ t id r, row t id d' = Some r → (t, id) ≠ (t0, id0)) as Hne.
  { intros t id r Hr [= -> ->]. by rewrite (rm_row _ _ _ _ Hrm) in Hr. }
  assert (∀ t id, row t id d' = row t id d ∨ (t, id) = (t0, id0)) as Hrow.
  { intros t id. destruct (decide ((t, id) = (t0, id0))); [by right|]. left. by apply Hrm. }
  split; [apply Hrm|apply Hrm| | |].
  - intros t id. destruct (Hrow t id) as [|[= -> ->]]; [by left|by right].
  - intros t id r Hr. exists r. rewrite <- (rm_others _ _ _ _ Hrm) by (by eapply Hne). done.
  - intros t id r p Hr Hin. destruct (Hrow p.1 p.2) as [->|Heq]; [done|]. exfalso.
    eapply (Hno t id r); [rewrite <- (rm_others _ _ _ _ Hrm); [done|by eapply Hne]|by eapply Hne|].
    rewrite <- Heq. by destruct p.
Qed.

(** ** The two forms of a write *)

Definition same_links (r r' : Row) : Prop :=
  key_of r' = key_of r ∧ (∀ d, org_of d r' = org_of d r) ∧ refs r' = refs r.

Lemma fresh_row t d : db_wf d → sequenced t = true → row t (db_seq d) d = None.
Proof.
  intros Hd Ht. destruct (row t (db_seq d) d) as [r|] eqn:Hr; [|done].
  destruct (Hd _ _ _ Hr) as (_ & Hs & _). specialize (Hs Ht). lia.
Qed.

Lemma insert_row_tenant c t r' d d' :
  puts t (db_seq d) r' d d' → sequenced t = true → db_seq d < db_seq d' → key_of r' = db_seq d →
  org_of d r' = Some (org c) → (∀ p, p ∈ refs r' → org_at p.1 p.2 d = Some (org c)) → tenant c d d'.
Proof.
  intros Hp Ht Hs Hk Ho Hr Hd. eapply put_tenant; [exact Hp| |done]. split; try done.
  by rewrite fresh_row.
Qed.

Lemma replace_tenant c t id r r' d d' :
  puts t id r' d d' → row t id d = Some r → org_of d r = Some (org c) → same_links r r' → tenant c d d'.
Proof.
  intros Hp Hr Ho (Hk & Horg & Hrefs) Hd. destruct (Hd _ _ _ Hr) as (Hkey & Hs & o & Ho' & Hin).
  eapply put_tenant; [exact Hp| |done]. pose proof (puts_seq _ _ _ _ _ Hp).
  split; [congruence|intros Ht; specialize (Hs Ht); lia|congruence| |by rewrite Hr].
  intros p. rewrite Hrefs. intros Hpin. assert (o = org c) as <- by congruence. by apply Hin.
Qed.

(** A statement that puts one row. *)
Ltac solve_puts :=
  split; [cbn; lia
         |intros [] ? Hne; cbn; try done; rewrite lookup_insert_ne; [done|intros <-; by apply Hne]
         |cbn; by rewrite lookup_insert_eq|by split_and!].

Lemma org_at_job id d j : jobs d !! id = Some j → org_at TJob id d = Some (j_org_id j).
Proof. unfold org_at. cbn. by intros ->. Qed.
Lemma org_at_template id d t : rule_templates d !! id = Some t → org_at TTemplate id d = Some (rt_org_id t).
Proof. unfold org_at. cbn. by intros ->. Qed.
Lemma org_at_connector id d r : connectors d !! id = Some r → org_at TConnector id d = Some (cn_org_id r).
Proof. unfold org_at. cbn. by intros ->. Qed.
Lemma org_at_schedule id d s : schedules d !! id = Some s → org_at TSchedule id d = Some (sc_org_id s).
Proof. unfold org_at. cbn. by intros ->. Qed.
Lemma org_at_secret id d s : secrets d !! id = Some s → org_at TSecret id d = Some (se_org_id s).
Proof. unfold org_at. cbn. by intros ->. Qed.
Lemma org_at_batch id d b : batches d !! id = Some b → org_at TBatch id d = Some (ba_org_id b).
Proof. unfold org_at. cbn. by intros ->. Qed.

(** A foreign key that the server found is the caller's when the id is. *)
Lemma mine_template o id d :
  mine o TTemplate id d → is_some (rule_templates d !! id) = true → org_at TTemplate id d = Some o.
Proof.
  intros [_ Hm] Hs. destruct (rule_templates d !! id) as [t|] eqn:Ht; [|done].
  rewrite (org_at_template _ _ _ Ht) in *. by rewrite (Hm _ eq_refl).
Qed.
Lemma mine_connector o id d :
  mine o TConnector id d → is_some (connectors d !! id) = true → org_at TConnector id d = Some o.
Proof.
  intros [_ Hm] Hs. destruct (connectors d !! id) as [t|] eqn:Ht; [|done].
  rewrite (org_at_connector _ _ _ Ht) in *. by rewrite (Hm _ eq_refl).
Qed.
Lemma mine_secret o id d :
  mine o TSecret id d → is_some (secrets d !! id) = true → org_at TSecret id d = Some o.
Proof.
  intros [_ Hm] Hs. destruct (secrets d !! id) as [t|] eqn:Ht; [|done].
  rewrite (org_at_secret _ _ _ Ht) in *. by rewrite (Hm _ eq_refl).
Qed.

(** ** Jobs *)
Lemma insert_job_tenant c tid v src wid by_ d r d' :
  mine (org c) TTemplate tid d → insert_job (org c) tid v src wid by_ d = Ok (r, d') →
  tenant c d d' ∧ j_id r = db_seq d ∧ org_at TJob (j_id r) d' = Some (org c).
Proof.
  intros Hm. unfold insert_job. destruct (existsb _ _); [done|].
  destruct (is_some _) eqn:Ht; [|done]. cbn [negb]. intros [= <- <-]. split_and!; [|done|].
  - eapply (insert_row_tenant c TJob); [solve_puts|done|cbn; lia|done|done|].
    intros p. cbn. intros ->%list_elem_of_singleton. by apply mine_template.
  - apply (org_at_job _ _ (new_job (db_seq d) (org c) tid v src wid by_ (db_now d))). cbn. by rewrite lookup_insert_eq.
Qed.

Lemma update_job_isolated c id cond f d :
  (∀ j, jobs d !! id = Some j → cond j = true → j_org_id j = org c) →
  (∀ j, same_links (RJob j) (RJob (f d j))) → tenant c d (update_job id cond f d).2.
Proof.
  intros Hc Hf. unfold update_job. destruct (jobs d !! id) as [j|] eqn:Hj; [|reflexivity].
  destruct (cond j) eqn:Hcond; [|reflexivity]. cbn [snd].
  eapply (replace_tenant c TJob id (RJob j)); [solve_puts|cbn; by rewrite Hj| |apply Hf].
  cbn. f_equal. by apply Hc.
Qed.

(** ** Templates *)
Lemma owned_org {A} (org_of : A → Z) o id t r : owned org_of o id t = Some r → t !! id = Some r ∧ org_of r = o.
Proof. apply owned_Some. Qed.

Lemma insert_template_tenant c key v name schema by_ d r d' :
  insert_template (org c) key v name schema by_ d = Ok (r, d') → tenant c d d'.
Proof.
  unfold insert_template. destruct (_ <? _); [done|]. destruct (existsb _ _); [done|]. intros [= <- <-].
  eapply (insert_row_tenant c TTemplate); [solve_puts|done|cbn; lia|done|done|].
  intros p. cbn. by intros ?%not_elem_of_nil.
Qed.

Lemma publish_tenant c id d : tenant c d (publish_effect (org c) id d).2.
Proof.
  unfold publish_effect. destruct (template_of _ _ _) as [t|] eqn:Ht; [|reflexivity].
  apply owned_org in Ht as [Ht Ho]. cbn [snd].
  eapply (replace_tenant c TTemplate id (RTemplate t)); [solve_puts|cbn; by rewrite Ht|cbn; by rewrite Ho|by split_and!].
Qed.

Lemma existsb_map_false {A} (f : Z * A → bool) (m : gmap Z A) k a :
  existsb f (map_to_list m) = false → m !! k = Some a → f (k, a) = false.
Proof.
  intros Hf Hk. apply not_true_iff_false. intros Hfa. apply not_true_iff_false in Hf.
  apply Hf, existsb_exists. exists (k, a). split; [|done]. by apply list_elem_of_In, elem_of_map_to_list.
Qed.

Lemma elem_ref t id t' o : (t, id) ∈ ref t' o ↔ t = t' ∧ o = Some id.
Proof. destruct o; cbn; [rewrite list_elem_of_singleton|rewrite elem_of_nil]; naive_solver. Qed.

(** The cases of a reference of a known row. *)
Ltac refs_cases H :=
  cbn in H; repeat rewrite ?elem_of_cons, ?elem_of_app, ?elem_ref, ?elem_of_nil in H;
  destruct_or?; destruct_and?; try done; simplify_eq.

(** A statement that deletes one row. *)
Ltac solve_removes :=
  split; [done|by split_and!
         |intros [] ? Hne; cbn; try done; rewrite lookup_delete_ne; [done|intros <-; by apply Hne]
         |cbn; by rewrite lookup_delete_eq].

Lemma delete_template_tenant c id d n d' : delete_effect (org c) id d = Ok (n, d') → tenant c d d'.
Proof.
  unfold delete_effect. destruct (opt_filter _ _) as [t|] eqn:Ht; [|intros [= _ <-]; reflexivity].
  apply opt_filter_Some in Ht as [Ht _]. apply owned_org in Ht as [Ht Ho].
  destruct (template_referenced id d) eqn:Href; [done|]. intros [= _ <-].
  unfold template_referenced in Href. apply orb_false_iff in Href as [[Hj Hs]%orb_false_iff Hst].
  eapply (remove_tenant c TTemplate id); [solve_removes|by rewrite (org_at_template _ _ _ Ht), Ho|].
  intros [] k r Hr _ Hin; apply fmap_Some in Hr as (x & Hx & ->); refs_cases Hin.
  - pose proof (existsb_map_false _ _ _ _ Hj Hx) as Hf. cbn in Hf. lia.
  - pose proof (existsb_map_false _ _ _ _ Hs Hx) as Hf. cbn in Hf. lia.
  - pose proof (existsb_map_false _ _ _ _ Hst Hx) as Hf. cbn in Hf. by apply bool_decide_eq_false in Hf.
Qed.

(** ** Secrets, connectors and the LLM configuration *)
Lemma find_secret_org o name d id s : find_secret o name d = Some (id, s) → secrets d !! id = Some s ∧ se_org_id s = o.
Proof.
  intros [Hin Hm]%find_some. apply list_elem_of_In, by_id_elem in Hin. split; [done|].
  apply andb_true_iff in Hm as [Hm _]. by apply Z.eqb_eq in Hm.
Qed.

Lemma add_secret_tenant c name ct nonce kind d :
  tenant c d (add_secret (org c) name ct nonce kind d).2 ∧
  org_at TSecret (se_id (add_secret (org c) name ct nonce kind d).1) (add_secret (org c) name ct nonce kind d).2
  = Some (org c).
Proof.
  split; [|unfold org_at, add_secret; cbn; by rewrite lookup_insert_eq].
  eapply (insert_row_tenant c TSecret); [unfold add_secret; solve_puts|done|cbn; lia|done|done|].
  intros p. cbn. by intros ?%not_elem_of_nil.
Qed.

Lemma upsert_secret_tenant c name ct nonce kind f d :
  (∀ s, same_links (RSecret s) (RSecret (f d s))) → db_wf d →
  tenant c d (upsert_secret (org c) name ct nonce kind f d).2 ∧
  org_at TSecret (se_id (upsert_secret (org c) name ct nonce kind f d).1)
    (upsert_secret (org c) name ct nonce kind f d).2 = Some (org c).
Proof.
  intros Hf Hd. unfold upsert_secret. destruct (find_secret _ _ _) as [[id s]|] eqn:Hs; [|apply add_secret_tenant].
  apply find_secret_org in Hs as [Hs Ho]. destruct (Hf s) as (Hk & Horg & _). cbn [fst snd]. split.
  - eapply (replace_tenant c TSecret id (RSecret s)); [solve_puts|cbn; by rewrite Hs|cbn; by rewrite Ho|apply Hf].
  - assert (row TSecret id d = Some (RSecret s)) as Hr by (cbn; by rewrite Hs).
    destruct (Hd _ _ _ Hr) as (Hid & _). cbn in Hid, Hk. unfold org_at. cbn.
    rewrite Hk, Hid, lookup_insert_eq. cbn. specialize (Horg d). cbn in Horg. congruence.
Qed.

Lemma revoke_tenant c name d : tenant c d (revoke_effect (org c) name d).2.
Proof.
  unfold revoke_effect. destruct (find_secret _ _ _) as [[id s]|] eqn:Hs; [|reflexivity].
  apply find_secret_org in Hs as [Hs Ho]. destruct (_ && _); [|reflexivity]. cbn [snd].
  eapply (replace_tenant c TSecret id (RSecret s)); [solve_puts|cbn; by rewrite Hs|cbn; by rewrite Ho|by split_and!].
Qed.

Lemma upsert_config_tenant c provider req sid by_ d :
  (∀ id, sid = Some id → org_at TSecret id d = Some (org c)) →
  tenant c d (upsert_config (org c) provider req sid by_ d).
Proof.
  intros Hsid Hd. eapply put_tenant; [unfold upsert_config; solve_puts| |done]. split; try done.
  - intros p Hin. destruct p as [t id]. refs_cases Hin. by apply Hsid.
  - destruct (row TLlm (org c) d) as [r|] eqn:Hr; [|done]. destruct (Hd _ _ _ Hr) as (Hk & _).
    cbn in Hr. apply fmap_Some in Hr as (x & _ & ->). cbn in *. by rewrite Hk.
Qed.

Lemma config_effect_tenant c provider req sid by_ d u d' :
  (∀ id, sid = Some id → mine (org c) TSecret id d) →
  config_effect (org c) provider req sid by_ d = Ok (u, d') → tenant c d d'.
Proof.
  intros Hm. unfold config_effect. destruct (negb _) eqn:Hfk; [done|]. intros [= _ <-].
  apply upsert_config_tenant. intros id ->. apply negb_false_iff in Hfk. by apply mine_secret; [apply Hm|].
Qed.

Lemma connector_tx_tenant c name kind cfg credential d r d' :
  connector_tx c name kind cfg credential d = Ok (r, d') → tenant c d d'.
Proof.
  intros Htx. apply result_bind_ok in Htx as ([sid d1] & Hcred & Htx).
  apply result_bind_ok in Htx as (by_ & _ & Hins). cbn [fst snd] in Hins.
  assert (tenant c d d1 ∧ ∀ id, sid = Some id → org_at TSecret id d1 = Some (org c)) as [Ht Hsid].
  { unfold insert_credential in Hcred. destruct credential as [[ct nonce]|]; [|by injection Hcred as <- <-].
    destruct (is_some _); [done|].
    destruct (add_secret_tenant c (name +:+ "-secret") ct nonce "internal" d) as [Ht Ho].
    destruct (add_secret _ _ _ _ _ _) as [s d2]. injection Hcred as <- <-. split; [exact Ht|].
    intros id [= <-]. exact Ho. }
  etrans; [exact Ht|]. unfold insert_connector in Hins. destruct (negb _); [done|]. destruct (existsb _ _); [done|].
  injection Hins as <- <-.
  eapply (insert_row_tenant c TConnector); [solve_puts|done|cbn; lia|done|done|].
  intros [t id] Hin. refs_cases Hin. by apply Hsid.
Qed.

(** Rows that refer to a row of the caller are the caller's. *)
Lemma ref_mine o t0 id t k d r :
  db_wf d → mine o t0 id d → row t k d = Some r → (t0, id) ∈ refs r → org_at t k d = Some o.
Proof.
  intros Hd [_ Hm] Hr Hin. destruct (Hd _ _ _ Hr) as (_ & _ & o' & Ho & Hrefs).
  specialize (Hrefs _ Hin). cbn in Hrefs. apply Hm in Hrefs as ->. unfold org_at. by rewrite Hr.
Qed.

(** A row deleted under its own key, when it is there. *)
Lemma delete_rows_mine {A} (f : A → Row) t id k o d (m : gmap Z A) :
  (∀ i, row t i d = f <$> m !! i) → db_wf d → mine o t id d →
  f <$> delete id m !! k = row t k d ∨ org_at t k d = Some o.
Proof.
  intros Hrow Hd [_ Hm]. rewrite Hrow. destruct (decide (k = id)) as [->|Hne]; [|left; by rewrite lookup_delete_ne].
  rewrite lookup_delete_eq. destruct (m !! id) as [a|] eqn:Ha; [right|by left].
  assert (row t id d = Some (f a)) as Hr by (by rewrite Hrow, Ha). destruct (Hd _ _ _ Hr) as (_ & _ & o' & Ho & _).
  assert (org_at t id d = Some o') as Hat by (unfold org_at; by rewrite Hr). rewrite Hat. by rewrite (Hm o' Hat).
Qed.

Lemma lookup_delete_inv {A} (id k : Z) (m : gmap Z A) a : delete id m !! k = Some a → k ≠ id ∧ m !! k = Some a.
Proof. intros [??]%lookup_delete_Some. done. Qed.

(** ** Deleting a connector: batches let go of it. *)
Lemma delete_connector_tenant c id d n d' : delete_connector_effect (org c) id d = Ok (n, d') → tenant c d d'.
Proof.
  unfold delete_connector_effect. destruct (connector_of _ _ _) as [cn|] eqn:Hcn; [|intros [= _ <-]; reflexivity].
  apply owned_org in Hcn as [Hcn Ho]. destruct (existsb _ _) eqn:Hs; [done|]. intros [= _ <-] Hd.
  set (release := λ b : BatchRow, if bool_decide (ba_connector_id b = Some id) then _ else b).
  assert (mine (org c) TConnector id d) as Hm.
  { apply org_at_mine; [done|done|]. by rewrite (org_at_connector _ _ _ Hcn), Ho. }
  apply shrink_tenant; [|done]. split; [done|by split_and!| | |].
  - intros [] k; try (by left).
    + apply (delete_rows_mine RConnector); [done|done|done].
    + cbn [row batches set_batches set_connectors]. rewrite lookup_fmap.
      destruct (batches d !! k) as [b|] eqn:Hb; [|by left]. cbn [fmap option_fmap option_map]. unfold release.
      case_bool_decide as Heq; [right|by left]. eapply ref_mine; [done|exact Hm|cbn; by rewrite Hb|].
      cbn. rewrite elem_of_app, !elem_ref. by right.
  - intros [] k r' Hr; try (by exists r').
    + cbn in Hr. apply fmap_Some in Hr as (x & Hx & ->). apply lookup_delete_inv in Hx as [_ Hx].
      exists (RConnector x). cbn. by rewrite Hx.
    + cbn in Hr. rewrite lookup_fmap in Hr. apply fmap_Some in Hr as (x & Hx & ->).
      apply fmap_Some in Hx as (b & Hb & ->). exists (RBatch b). cbn. rewrite Hb. unfold release.
      case_bool_decide; split_and!; try done; cbn; set_solver.
  - intros t k r' [tp ip] Hr Hin. cbn [fst snd].
    destruct (decide ((tp, ip) = (TConnector, id))) as [[= -> ->]|Hne].
    + exfalso. destruct t; cbn in Hr; apply fmap_Some in Hr as (x & Hx & ->); refs_cases Hin.
      * pose proof (existsb_map_false _ _ _ _ Hs Hx) as Hf. cbn in Hf. lia.
      * rewrite lookup_fmap in Hx. apply fmap_Some in Hx as (b & _ & ->). unfold release in *.
        by case_bool_decide.
    + destruct tp; try done; cbn; rewrite ?lookup_fmap, ?fmap_None; [|done].
      rewrite lookup_delete_ne; [done|]. intros <-. by apply Hne.
Qed.

(** ** Schedules *)
Lemma insert_schedule_tenant c row_of d r d' :
  let s := row_of (db_seq d) (db_now d) in
  sc_id s = db_seq d → sc_org_id s = org c →
  mine (org c) TTemplate (sc_rule_template_id s) d → mine (org c) TConnector (sc_connector_id s) d →
  insert_schedule row_of d = Ok (r, d') →
  tenant c d d' ∧ org_at TSchedule (sc_id r) d' = Some (org c).
Proof.
  intros s Hid Ho Ht Hc. unfold insert_schedule. fold s. destruct (existsb _ _); [done|].
  destruct (negb _) eqn:Hfk; [done|]. apply negb_false_iff, andb_true_iff in Hfk as [Hft Hfc].
  intros [= <- <-]. split.
  - eapply (insert_row_tenant c TSchedule); [solve_puts|done|cbn; lia|done|cbn; by rewrite Ho|].
    intros p Hin. cbn in Hin. rewrite !elem_of_cons, elem_of_nil in Hin.
    destruct Hin as [-> |[-> |[]]]; [by apply mine_template|by apply mine_connector].
  - unfold org_at. cbn. rewrite Hid, lookup_insert_eq. cbn. by rewrite Ho.
Qed.

Lemma update_schedule_tenant c id f d :
  (∀ s, same_links (RSchedule s) (RSchedule (f d s))) → tenant c d (update_schedule_row (org c) id f d).2.
Proof.
  intros Hf. unfold update_schedule_row. destruct (schedule_of _ _ _) as [s|] eqn:Hs; [|reflexivity].
  apply owned_org in Hs as [Hs Ho]. cbn [snd].
  eapply (replace_tenant c TSchedule id (RSchedule s)); [solve_puts|cbn; by rewrite Hs|cbn; by rewrite Ho|apply Hf].
Qed.

Section RemoveSchedule.
Context (id : Z).

Lemma detach_job_links j :
  key_of (RJob (detach_job id j)) = key_of (RJob j) ∧
  (∀ d, org_of d (RJob (detach_job id j)) = org_of d (RJob j)) ∧
  refs (RJob (detach_job id j)) ⊆ refs (RJob j) ∧ (TSchedule, id) ∉ refs (RJob (detach_job id j)).
Proof.
  unfold detach_job. case_bool_decide as Hj; split_and!; try done; [cbn; set_solver|intros Hin; by refs_cases Hin..].
Qed.

Lemma detach_batch_links b :
  key_of (RBatch (detach_batch id b)) = key_of (RBatch b) ∧
  (∀ d, org_of d (RBatch (detach_batch id b)) = org_of d (RBatch b)) ∧
  refs (RBatch (detach_batch id b)) ⊆ refs (RBatch b) ∧ (TSchedule, id) ∉ refs (RBatch (detach_batch id b)).
Proof.
  unfold detach_batch. case_bool_decide as Hj; split_and!; try done; [cbn; set_solver|intros Hin; by refs_cases Hin..].
Qed.

(** A row after the removal comes from one before that was not the schedule. *)
Lemma removed_row t k d r' :
  row t k (remove_schedule id d) = Some r' →
  (t, k) ≠ (TSchedule, id) ∧ ((TSchedule, id) ∉ refs r') ∧
  ∃ r, row t k d = Some r ∧ key_of r' = key_of r ∧ (∀ x, org_of x r' = org_of x r) ∧ refs r' ⊆ refs r.
Proof.
  destruct t; cbn [row]; intros (x & Hx & ->)%fmap_Some;
    try (split_and!; [done|intros Hin; by refs_cases Hin|]; cbn in Hx; rewrite Hx; eexists; by split_and!).
  - cbn in Hx. rewrite lookup_fmap in Hx. apply fmap_Some in Hx as (j & Hj & ->).
    destruct (detach_job_links j) as (Hk & Ho & Hs & Hn). split_and!; [done|done|]. exists (RJob j). by rewrite Hj.
  - cbn in Hx. apply lookup_delete_inv in Hx as [Hne Hx].
    split_and!; [congruence|intros Hin; by refs_cases Hin|]. exists (RSchedule x). by rewrite Hx.
  - cbn in Hx. apply map_lookup_filter_Some in Hx as [Hx Hne]. cbn in Hne.
    split_and!; [done|intros Hin; by refs_cases Hin|]. exists (RRun x). by rewrite Hx.
  - cbn in Hx. rewrite lookup_fmap in Hx. apply fmap_Some in Hx as (b & Hb & ->).
    destruct (detach_batch_links b) as (Hk & Ho & Hs & Hn). split_and!; [done|done|]. exists (RBatch b). by rewrite Hb.
Qed.

(** A row that the removal changes is the schedule or refers to it. *)
Lemma removed_change t k d :
  row t k (remove_schedule id d) = row t k d ∨ (t, k) = (TSchedule, id) ∨
  ∃ r, row t k d = Some r ∧ (TSchedule, id) ∈ refs r.
Proof.
  destruct t; try (by left); cbn [row].
  - cbn. rewrite lookup_fmap. destruct (jobs d !! k) as [j|]; [|by left]. cbn. unfold detach_job.
    case_bool_decide as Hj; [|by left]. right; right. exists (RJob j). split; [done|]. cbn.
    rewrite elem_of_cons, elem_of_app, elem_ref. auto.
  - cbn. destruct (decide (k = id)) as [->|Hne]; [by right; left|]. left. by rewrite lookup_delete_ne.
  - cbn. destruct (schedule_runs d !! k) as [r|] eqn:Hr.
    + destruct (decide (ru_schedule_id r = id)) as [<-|Hne].
      * right; right. exists (RRun r). split; [done|]. cbn. left.
      * left. erewrite map_lookup_filter_Some_2; [done|exact Hr|exact Hne].
    + left. rewrite map_lookup_filter, Hr. done.
  - cbn. rewrite lookup_fmap. destruct (batches d !! k) as [b|]; [|by left]. cbn. unfold detach_batch.
    case_bool_decide as Hb; [|by left]. right; right. exists (RBatch b). split; [done|]. cbn.
    rewrite elem_of_app, elem_ref. auto.
Qed.
End RemoveSchedule.

Lemma no_run_ref id r : (TRun, id) ∉ refs r.
Proof. intros Hin. destruct r; by refs_cases Hin. Qed.

Lemma remove_schedule_tenant c id d : mine (org c) TSchedule id d → tenant c d (remove_schedule id d).
Proof.
  intros Hm Hd. apply shrink_tenant; [|done]. split; [done|by split_and!| | |].
  - intros t k. destruct (removed_change id t k d) as [Hr|[[= -> ->] |(r & Hr & Hin)]]; [by left| |right].
    + cbn [row]. destruct (delete_rows_mine RSchedule TSchedule id id (org c) d (schedules d)) as [Hs|Hs]; auto.
    + by eapply ref_mine.
  - intros t k r' (_ & _ & Hr)%removed_row. exact Hr.
  - intros t k r' [tp ip] Hr Hin Hp. cbn [fst snd] in *. apply removed_row in Hr as (_ & Hno & _).
    assert ((tp, ip) ≠ (TSchedule, id)) as Hne by (intros [= -> ->]; done).
    destruct tp; try done; cbn in *; rewrite ?lookup_fmap, ?fmap_None in *; try done.
    + rewrite lookup_delete_ne; [done|]. intros <-. by apply Hne.
    + by apply no_run_ref in Hin.
Qed.

Lemma remove_owned_tenant c id d : tenant c d (remove_owned (org c) id d).2.
Proof.
  unfold remove_owned. destruct (schedule_of _ _ _) as [s|] eqn:Hs; [|reflexivity].
  apply owned_org in Hs as [Hs Ho]. intros Hd. apply remove_schedule_tenant; [|done].
  apply org_at_mine; [done|done|]. by rewrite (org_at_schedule _ _ _ Hs), Ho.
Qed.

(** ** Batches *)
Lemma insert_batch_tenant c cid src wid d b d' :
  (∀ id, cid = Some id → mine (org c) TConnector id d) →
  insert_batch (org c) cid src wid d = Ok (b, d') → tenant c d d' ∧ org_at TBatch (ba_id b) d' = Some (org c).
Proof.
  intros Hm. unfold insert_batch. destruct (existsb _ _); [done|]. destruct (negb _) eqn:Hfk; [done|].
  apply negb_false_iff in Hfk. intros [= <- <-]. split; [|unfold org_at; cbn; by rewrite lookup_insert_eq].
  eapply (insert_row_tenant c TBatch); [solve_puts|done|cbn; lia|done|done|].
  intros [t id] Hin. refs_cases Hin. by apply mine_connector; [apply Hm|].
Qed.

Lemma update_batch_tenant c id f d :
  mine (org c) TBatch id d → (∀ b, same_links (RBatch b) (RBatch (f d b))) → tenant c d (update_batch id f d).2.
Proof.
  intros [_ Hm] Hf. unfold update_batch. destruct (batches d !! id) as [b|] eqn:Hb; [|reflexivity]. cbn [snd].
  eapply (replace_tenant c TBatch id (RBatch b)); [solve_puts|cbn; by rewrite Hb| |apply Hf].
  cbn. f_equal. apply Hm. by apply org_at_batch.
Qed.

(** ** Sources and specs *)
Lemma upload_tenant c u d : nu_org u = org c → tenant c d (upload_effect u d).2.
Proof.
  intros Hu Hd. unfold upload_effect. cbn [snd]. set (r := upload_row u d).
  destruct (find_object (nu_org u) (nu_bucket u) (nu_key u) d) as [s|] eqn:Hs.
  - assert (sources d !! sr_id s = Some s ∧ sr_org_id s = org c) as [Hl Ho].
    { apply find_object_Some in Hs as ((id & Hid) & Ho & _). assert (row TSource id d = Some (RSource s)) as Hr
        by (cbn; by rewrite Hid). destruct (Hd _ _ _ Hr) as (Hk & _). cbn in Hk. subst id. by rewrite Ho. }
    assert (same_links (RSource s) (RSource r) ∧ sr_id r = sr_id s) as [Hlinks Hid]
      by (subst r; unfold upload_row; rewrite Hs; by split_and!).
    rewrite Hid. eapply (replace_tenant c TSource (sr_id s) (RSource s));
      [solve_puts|cbn; by rewrite Hl|cbn; by rewrite Ho|exact Hlinks|done].
  - assert (r = mkSource (db_seq d) (nu_org u) (nu_bucket u) (nu_key u) (Some (nu_sha256 u)) (nu_etag u)
        (Some (nu_size u)) (Some (nu_filename u)) (Some (format_from_filename (nu_filename u)))
        "upload" (nu_created_by u)) as -> by (subst r; unfold upload_row; by rewrite Hs).
    eapply (insert_row_tenant c TSource); [solve_puts|done|cbn; lia|done|cbn; by rewrite Hu| |done].
    intros p. cbn. by intros ?%not_elem_of_nil.
Qed.

Lemma upsert_spec_tenant c name url spec by_ d : tenant c d (upsert_spec (org c) name url spec by_ d).2.
Proof.
  unfold upsert_spec. destruct (List.find _ _) as [[id s]|] eqn:Hs; cbn [snd].
  - apply find_some in Hs as [Hin Hm]. apply list_elem_of_In, by_id_elem in Hin.
    apply andb_true_iff in Hm as [Hm _]. apply Z.eqb_eq in Hm. cbn in Hm.
    eapply (replace_tenant c TSpec id (RSpec s)); [solve_puts|cbn; by rewrite Hin|cbn; by rewrite Hm|by split_and!].
  - eapply (insert_row_tenant c TSpec); [solve_puts|done|cbn; lia|done|done|].
    intros p. cbn. by intros ?%not_elem_of_nil.
Qed.

Lemma delete_spec_tenant c id d : tenant c d (delete_spec_effect (org c) id d).2.
Proof.
  unfold delete_spec_effect. destruct (spec_of _ _ _) as [s|] eqn:Hs; [|reflexivity].
  apply owned_org in Hs as [Hs Ho]. cbn [snd].
  eapply (remove_tenant c TSpec id); [solve_removes|unfold org_at; cbn; by rewrite Hs; cbn; rewrite Ho|].
  intros [] k r Hr _ Hin; apply fmap_Some in Hr as (x & Hx & ->); by refs_cases Hin.
Qed.

(** ** The audit log *)
Lemma audit_tenant c e i a b af d :
  tenant c d (set_audit_log (audit_log d ++ [audit_entry c e i a b af d]) d).
Proof.
  intros Hd. assert (∀ t id, row t id (set_audit_log (audit_log d ++ [audit_entry c e i a b af d]) d) = row t id d)
    as Hrow by (by intros []).
  split_and!.
  - intros t id r Hr. rewrite Hrow in Hr. exact (Hd _ _ _ Hr).
  - split; [done|]. intros t id o _ _. unfold org_at. by rewrite Hrow.
  - split_and!; [|done..|eexists [_]; split; [done|by repeat constructor]]. intros t id o _ _. split; [done|]. unfold org_at. by rewrite Hrow.
Qed.
