(* ===== verification/TenancyRules.v ===== *)
(** * Every handler keeps to its tenant

    A program logic over the steps of [Tenancy] for handlers of all state
    types, and its judgement for each handler: while the other transactions
    are lawful, the handler's own steps stay in the caller's organization. *)
From S2P Require Import Prelude RustStr Json Error LicenseFile LicenseIO Db World Sources Jobs RuleTypes Templates Secrets Schedules Batches Net Files Specs MasterKey Suggest LicenseRoutes Tenancy.
From Stdlib Require Import Ascii.

(** States with a database in them. *)
Class HasWorld (S : Type) : Type := world : S → World.
#[export] Instance world_World : HasWorld World := id.
#[export] Instance world_Net : HasWorld Net := net_world.
#[export] Instance world_Node : HasWorld Node := n_world.

(** Assertions that the lawful steps of others keep. *)
Class Stable (P : Db → Prop) : Prop := stable : ∀ d d', keeps d d' → P d → P d'.
#[export] Instance stable_const (P : Prop) : Stable (λ _, P).
Proof. by intros d d' _. Qed.
#[export] Instance stable_and P Q : Stable P → Stable Q → Stable (λ d, P d ∧ Q d).
Proof. intros HP HQ d d' Hk [Hp Hq]. split; [by eapply HP|by eapply HQ]. Qed.
#[export] Instance stable_all {A} (P : A → Db → Prop) : (∀ a, Stable (P a)) → Stable (λ d, ∀ a, P a d).
Proof. intros HP d d' Hk Hp a. by eapply HP. Qed.
#[export] Instance stable_impl (P : Prop) Q : Stable Q → Stable (λ d, P → Q d).
Proof. intros HQ d d' Hk Hq Hp. eapply HQ; [exact Hk|by apply Hq]. Qed.
#[export] Instance stable_mine o t id : TCEq (sequenced t) true → Stable (mine o t id).
Proof. intros Ht%TCEq_eq d d' Hk. by apply mine_keeps. Qed.

(** A step within the caller's organization, from a well-formed database. *)
Definition tenant_step (c : Claims) (d d' : Db) : Prop :=
  db_wf d ∧ db_wf d' ∧ keeps d d' ∧ isolated c d d'.

(** What is known after a run: the handler's own steps, and that the database
    is still well formed. *)
(** With no other transaction, the database moves by the run's own steps. *)
Definition alone (R : Db → Db → Prop) (w w' : World) : Prop :=
  w_turns w = [] → w_turns w' = [] ∧ rtc R (w_db w) (w_db w').

Lemma alone_trans R w1 w2 w3 : alone R w1 w2 → alone R w2 w3 → alone R w1 w3.
Proof. intros H1 H2 Ht. destruct (H1 Ht) as [Ht2 Hr]. destruct (H2 Ht2) as [? Hr']. split; [done|by etrans]. Qed.

Definition landed (c : Claims) (w w' : World) : Prop :=
  turns_in lawful w' ∧ db_wf (w_db w') ∧ did (tenant_step c) w w' ∧ keeps (w_db w) (w_db w') ∧
  alone (tenant_step c) w w'.

Definition within {S E A} `{HasWorld S} (c : Claims) (P : Db → Prop) (m : stM S E A) (Q : A → Db → Prop) : Prop :=
  ∀ s, turns_in lawful (world s) → db_wf (w_db (world s)) → P (w_db (world s)) →
    wp m (λ r s', landed c (world s) (world s') ∧ ∀ a, r = Ok a → Q a (w_db (world s'))) s.

Lemma landed_refl c w : turns_in lawful w → db_wf (w_db w) → landed c w w.
Proof. intros Ht Hd. split_and!; [done|done|apply did_refl|reflexivity|by intros ?]. Qed.

Lemma landed_trans c w1 w2 w3 : landed c w1 w2 → landed c w2 w3 → landed c w1 w3.
Proof.
  intros (_ & _ & Hd & Hk & Ha) (Ht & Hw & Hd' & Hk' & Ha').
  split_and!; [done|done|by eapply did_trans|by etrans|by eapply alone_trans].
Qed.

Section Rules.
Context {S E : Type} `{HasWorld S} (c : Claims).

Lemma within_bind {A B} P Q R (m : stM S E A) (f : A → stM S E B) :
  Stable P → within c P m Q → (∀ a, within c (λ d, P d ∧ Q a d) (f a) R) → within c P (m ≫= f) R.
Proof.
  intros HP Hm Hf s Ht Hd Hp. apply wp_bind. eapply wp_mono; [by apply Hm|]. cbv beta.
  intros r s' [Hl HQ]. destruct r as [a|e].
  - pose proof Hl as (Ht' & Hd' & _ & Hk & _). eapply wp_mono.
    + apply (Hf a s' Ht' Hd'). split; [by eapply HP|by apply HQ].
    + cbv beta. intros r s'' [Hl' HR]. split; [by eapply landed_trans|done].
  - split; [done|]. done.
Qed.

Lemma within_mono {A} (P P' : Db → Prop) (Q Q' : A → Db → Prop) (m : stM S E A) :
  within c P' m Q' → (∀ d, db_wf d → P d → P' d) → (∀ a d, db_wf d → Q' a d → Q a d) → within c P m Q.
Proof.
  intros Hm HP HQ s Ht Hd Hp. eapply wp_mono; [apply Hm; auto|]. cbv beta. intros r s' [Hl HQ'].
  split; [done|]. intros a Ha. apply HQ; [apply Hl|by apply HQ'].
Qed.

(** A program that leaves the database and the script alone. *)
Lemma within_stay {A} P (Q : A → Db → Prop) (m : stM S E A) :
  (∀ s, w_hist (world (m s).2) = w_hist (world s) ∧ w_turns (world (m s).2) = w_turns (world s) ∧
        w_db (world (m s).2) = w_db (world s)) →
  (∀ s a, (m s).1 = Ok a → P (w_db (world s)) → Q a (w_db (world s))) → within c P m Q.
Proof.
  intros Hm HQ s Ht Hd Hp. destruct (Hm s) as (Hh & Hts & Hdb). unfold wp.
  pose proof (HQ s) as HQs. destruct (m s) as [r s']. cbn in *. rewrite Hdb. split.
  - unfold landed, turns_in, alone. rewrite Hts, Hdb. split_and!; [done|done|by apply did_none|reflexivity|by intros ->].
  - intros a ->. by apply HQs.
Qed.

Lemma within_ret {A} P (Q : A → Db → Prop) a : (∀ d, P d → Q a d) → within c P (mret a : stM S E A) Q.
Proof. intros HQ. apply within_stay; [done|]. intros s b [= <-]. apply HQ. Qed.
Lemma within_throw {A} P (Q : A → Db → Prop) e : within c P (throw e : stM S E A) Q.
Proof. by apply within_stay. Qed.
Lemma within_lift {A} P (Q : A → Db → Prop) (r : result E A) :
  (∀ a d, r = Ok a → P d → Q a d) → within c P (lift r : stM S E A) Q.
Proof. intros HQ. apply within_stay; [done|]. intros s a Ha. by apply HQ. Qed.
Lemma within_guard P (Q : unit → Db → Prop) b e :
  (∀ d, b = false → P d → Q tt d) → within c P (guard_err b e : stM S E unit) Q.
Proof.
  intros HQ. apply within_stay; [done|]. intros s [] Ha. unfold guard_err in Ha. destruct b; [done|]. by apply HQ.
Qed.
Lemma within_get P (Q : S → Db → Prop) : (∀ s, P (w_db (world s)) → Q s (w_db (world s))) → within c P (st_get : stM S E S) Q.
Proof. intros HQ. apply within_stay; [done|]. intros s a [= <-]. apply HQ. Qed.

Lemma within_attempt {A F} P (Q : result E A → Db → Prop) (m : stM S E A) :
  within c P m (λ a, Q (Ok a)) → (∀ e d, Q (Err e) d) → within c P (attempt m : stM S F (result E A)) Q.
Proof.
  intros Hm He s Ht Hd Hp. apply wp_attempt. eapply wp_mono; [by apply Hm|]. cbv beta.
  intros r s' [Hl HQ]. split; [done|]. intros a [= <-]. destruct r; [by apply HQ|apply He].
Qed.

Lemma within_with_err {A F} P Q (f : E → F) (m : stM S E A) :
  within c P m Q → within c P (with_err f m : stM S F A) Q.
Proof.
  intros Hm s Ht Hd Hp. apply wp_with_err. eapply wp_mono; [by apply Hm|]. cbv beta.
  intros r s' [Hl HQ]. split; [done|]. intros a Ha. apply HQ. by destruct r; simplify_eq/=.
Qed.
End Rules.

(** ** Statements *)
Section Statements.
Context (c : Claims).

Lemma within_transaction {A} P (Q : A → Db → Prop) (f : Db → ApiResult (A * Db)) :
  Stable P →
  (∀ d a d', db_wf d → P d → f d = Ok (a, d') → tenant c d d' ∧ Q a d') → within c P (transaction f) Q.
Proof.
  intros HP Hf w Ht Hd Hp. unfold wp, transaction, next_turn. unfold world, world_World, id in *.
  assert (∃ t ts, (match w_turns w with [] => (quiet_turn, []) | t :: ts => (t, ts) end) = (t, ts) ∧
            (∀ d, lawful d (t_env t d)) ∧ Forall (λ t, ∀ d, lawful d (t_env t d)) ts ∧
            (w_turns w = [] → ts = [] ∧ t_env t (w_db w) = w_db w)) as (t & ts & -> & Ht0 & Hts & Hno).
  { unfold turns_in in Ht. destruct (w_turns w) as [|t ts].
    - exists quiet_turn, []. split_and!; [done| |constructor|done]. intros d Hwf. by split.
    - exists t, ts. by apply Forall_cons_iff in Ht as [? ?]. }
  set (d := t_env t (w_db w)) in *. destruct (Ht0 _ Hd) as [Hd' Hk]. fold d in Hd', Hk.
  assert (P d) as Hp' by (by eapply HP).
  assert (∀ r : ApiResult A, is_ok r = false →
    landed c w (mkWorld d ts (w_bridge w) (w_calls w) (w_hist w)) ∧ ∀ a, r = Ok a → Q a d) as Hstay.
  { intros r Hr. split; [|by intros a ->]. split_and!; [done|done|by apply did_none|done|].
    intros [-> He]%Hno. cbn. by rewrite He. }
  destruct (t_fault t) as [[[] e]|]; [|by apply Hstay|];
    (destruct (f d) as [[a d']|e'] eqn:Hfd; [|by apply Hstay]);
    destruct (Hf _ _ _ Hd' Hp' Hfd) as [Hten HQ]; destruct (Hten Hd') as (Hwf & Hk' & Hi);
    (split; [split_and!; [done|done|by eapply did_one|by etrans|]|by intros ? [= <-]]);
    intros [-> He]%Hno; (split; [done|]); apply rtc_once; rewrite <- He; by split_and!.
Qed.

Lemma within_sql {A} P (Q : A → Db → Prop) (f : Db → result string (A * Db)) :
  Stable P →
  (∀ d a d', db_wf d → P d → f d = Ok (a, d') → tenant c d d' ∧ Q a d') → within c P (sql f) Q.
Proof.
  intros HP Hf w Ht Hd Hp. unfold wp. rewrite sql_transaction. eapply within_transaction; [done| |done..].
  intros d a d' Hwf HPd Hfd%map_err_Ok. by eapply Hf.
Qed.

Lemma within_update {A} P (Q : A → Db → Prop) (f : Db → A * Db) :
  Stable P → (∀ d, db_wf d → P d → tenant c d (f d).2 ∧ Q (f d).1 (f d).2) → within c P (update f) Q.
Proof.
  intros HP Hf. apply within_sql; [done|]. intros d a d' Hd Hp [= Hfd]. specialize (Hf d Hd Hp).
  by rewrite Hfd in Hf.
Qed.

Lemma within_query {A} P (Q : A → Db → Prop) (f : Db → A) :
  Stable P → (∀ d, db_wf d → P d → Q (f d) d) → within c P (query f) Q.
Proof. intros HP Hf. apply within_sql; [done|]. intros d a d' Hd Hp [= <- <-]. split; [reflexivity|auto]. Qed.

Lemma within_query_err {A} P (Q : A → Db → Prop) (f : Db → result string A) :
  Stable P → (∀ d a, db_wf d → P d → f d = Ok a → Q a d) → within c P (query_err f) Q.
Proof.
  intros HP Hf. apply within_sql; [done|]. intros d a d' Hd Hp. destruct (f d) eqn:Hfd; cbn; [|done].
  intros [= <- <-]. split; [reflexivity|auto].
Qed.
End Statements.

(** ** Programs of which nothing need be known afterwards *)
Definition tenanted {S E A} `{HasWorld S} (c : Claims) (P : Db → Prop) (m : stM S E A) : Prop :=
  within c P m (λ _ _, True).

Create HintDb tenanted.

Section Tenanted.
Context {S E : Type} `{HasWorld S} (c : Claims) (P : Db → Prop) (HP : Stable P).

Lemma tenanted_bind {A B} (m : stM S E A) (f : A → stM S E B) :
  tenanted c P m → (∀ a, tenanted c P (f a)) → tenanted c P (m ≫= f).
Proof.
  intros Hm Hf. eapply within_bind; [done|exact Hm|]. intros a. eapply within_mono; [apply (Hf a)| |done].
  by intros d _ [? _].
Qed.
Lemma tenanted_ret {A} (a : A) : tenanted c P (mret a : stM S E A).
Proof. by apply within_ret. Qed.
Lemma tenanted_throw {A} e : tenanted c P (throw e : stM S E A).
Proof. apply within_throw. Qed.
Lemma tenanted_lift {A} (r : result E A) : tenanted c P (lift r : stM S E A).
Proof. by apply within_lift. Qed.
Lemma tenanted_guard b e : tenanted c P (guard_err b e : stM S E unit).
Proof. by apply within_guard. Qed.
Lemma tenanted_get : tenanted c P (st_get : stM S E S).
Proof. by apply within_get. Qed.
Lemma tenanted_attempt {A F} (m : stM S E A) : tenanted c P m → tenanted c P (attempt m : stM S F (result E A)).
Proof. intros Hm. apply within_attempt; [exact Hm|done]. Qed.
Lemma tenanted_with_err {A F} (f : E → F) (m : stM S E A) : tenanted c P m → tenanted c P (with_err f m : stM S F A).
Proof. apply within_with_err. Qed.
Lemma tenanted_any {A} Q (m : stM S E A) : within c P m Q → tenanted c P m.
Proof. intros Hm. by eapply within_mono. Qed.
End Tenanted.

Section Leaves.
Context (c : Claims) (P : Db → Prop) (HP : Stable P).

Lemma tenanted_update {A} (f : Db → A * Db) : (∀ d, tenant c d (f d).2) → tenanted c P (update f).
Proof. intros Hf. by apply within_update. Qed.
Lemma tenanted_sql {A} (f : Db → result string (A * Db)) :
  (∀ d a d', f d = Ok (a, d') → tenant c d d') → tenanted c P (sql f).
Proof. intros Hf. apply within_sql; [done|]. intros d a d' _ _ Hfd. split; [by eapply Hf|done]. Qed.
Lemma tenanted_transaction {A} (f : Db → ApiResult (A * Db)) :
  (∀ d a d', f d = Ok (a, d') → tenant c d d') → tenanted c P (transaction f).
Proof. intros Hf. apply within_transaction; [done|]. intros d a d' _ _ Hfd. split; [by eapply Hf|done]. Qed.
Lemma tenanted_query {A} (f : Db → A) : tenanted c P (query f).
Proof. by apply within_query. Qed.
Lemma tenanted_query_err {A} (f : Db → result string A) : tenanted c P (query_err f).
Proof. by apply within_query_err. Qed.
Lemma tenanted_audit e i a b af : tenanted c P (record_audit c e i a b af).
Proof. apply tenanted_update. intros d. apply audit_tenant. Qed.

Lemma within_post Q configured sd path body :
  (∀ r d, P d → Q r d) → within c P (post configured sd path body) Q.
Proof.
  intros HQ. apply within_stay; [|intros s r _; apply HQ].
  intros w. unfold post, world, world_World, id. by destruct configured, (w_bridge w).
Qed.
Lemma tenanted_post configured sd path body : tenanted c P (post configured sd path body).
Proof. by apply within_post. Qed.
Lemma tenanted_post_unit configured sd path body : tenanted c P (post_unit configured sd path body).
Proof. apply tenanted_bind; [done|apply tenanted_post|]. intros. apply tenanted_ret. Qed.
Lemma tenanted_start configured sd wid ty input : tenanted c P (start_workflow configured sd wid ty input).
Proof. apply tenanted_bind; [done|apply tenanted_post|]. intros. apply tenanted_ret. Qed.
End Leaves.

#[export] Hint Resolve tenanted_ret tenanted_throw tenanted_lift tenanted_guard tenanted_get tenanted_attempt
  tenanted_with_err tenanted_query tenanted_query_err tenanted_audit tenanted_post tenanted_post_unit
  tenanted_start : tenanted.
#[export] Hint Extern 1 (Stable _) => apply _ : tenanted.

Ltac tenanted_step :=
  match goal with
  | |- tenanted _ _ (let _ := _ in _) => cbv zeta
  | |- tenanted _ _ (_ ≫= _) => apply tenanted_bind; [apply _| |intros ?]
  | |- tenanted _ _ (match ?x with _ => _ end) => destruct x
  | |- tenanted _ _ (if ?b then _ else _) => destruct b
  | |- tenanted _ _ _ => solve [eauto 4 with tenanted]
  end.
Ltac tenanted := repeat tenanted_step.

(** ** Sources *)
Lemma tenanted_connector c P o id : Stable P → tenanted c P (require_connector o id).
Proof. intros HP. unfold require_connector. tenanted. Qed.
#[export] Hint Resolve tenanted_connector : tenanted.

Lemma tenanted_resolve c P o req : Stable P → tenanted c P (Sources.resolve o req).
Proof. intros HP. unfold Sources.resolve, lookup_object. tenanted. Qed.
#[export] Hint Resolve tenanted_resolve : tenanted.

Lemma tenanted_resolve_object c P o req : Stable P → tenanted c P (resolve_object o req).
Proof. intros HP. unfold resolve_object. tenanted. Qed.
#[export] Hint Resolve tenanted_resolve_object : tenanted.

(** ** Jobs *)
Section Jobs.
Context `{Rfc3339} (configured : bool) (status_display : Z → string) (licensed : ApiResult unit) (c : Claims).
Context (P : Db → Prop) (HP : Stable P).

Lemma tenanted_action_target id action from : tenanted c P (action_target (org c) id action from).
Proof. unfold action_target. tenanted. Qed.
Lemma tenanted_lost {A} id action : tenanted c P (transition_lost (org c) id action : Api A).
Proof. unfold transition_lost. tenanted. Qed.
Lemma tenanted_retry_target id : tenanted c P (retry_target (org c) id).
Proof. unfold retry_target. tenanted. Qed.
#[local] Hint Resolve tenanted_action_target tenanted_lost tenanted_retry_target : tenanted.

(** An update of a job the statement itself finds to be the caller's. *)
Lemma tenanted_owned_update id from (f : Db → JobRow → JobRow) :
  (∀ d j, same_links (RJob j) (RJob (f d j))) → tenanted c P (update (update_job id (owned_and (org c) from) f)).
Proof.
  intros Hf. apply tenanted_update; [done|]. intros d. apply update_job_isolated; [|done].
  intros j _ Hj. unfold owned_and in Hj. apply andb_true_iff in Hj as [Hj _]. by apply Z.eqb_eq.
Qed.

Lemma tenanted_signal id signal new action from :
  tenanted c P (signal_and_record configured status_display c id signal new action from).
Proof. unfold signal_and_record, signal_workflow. tenanted. by apply tenanted_owned_update. Qed.

Lemma tenanted_pause id : tenanted c P (pause_job configured status_display c id).
Proof. unfold pause_job. tenanted. apply tenanted_signal. Qed.
Lemma tenanted_resume id : tenanted c P (resume_job configured status_display licensed c id).
Proof. unfold resume_job. tenanted. apply tenanted_signal. Qed.
Lemma tenanted_cancel id : tenanted c P (cancel_job configured status_display c id).
Proof. unfold cancel_job, cancel_workflow. tenanted. by apply tenanted_owned_update. Qed.
Lemma tenanted_retry_export id : tenanted c P (retry_export configured status_display c id).
Proof. unfold retry_export. tenanted. Qed.
Lemma tenanted_retry_row id i body : tenanted c P (retry_row configured status_display licensed c id i body).
Proof. unfold retry_row. tenanted. Qed.
Lemma tenanted_retry_all id body : tenanted c P (retry_all_failed configured status_display licensed c id body).
Proof. unfold retry_all_failed. tenanted. Qed.
Lemma tenanted_list_jobs q : tenanted c P (list_jobs c q).
Proof. unfold list_jobs. tenanted. Qed.
Lemma tenanted_get_job id : tenanted c P (get_job c id).
Proof. unfold get_job. tenanted. Qed.
Lemma tenanted_list_rows id q : tenanted c P (list_rows c id q).
Proof. unfold list_rows, require_owned. tenanted. Qed.
Lemma tenanted_list_steps id i : tenanted c P (list_row_steps c id i).
Proof. unfold list_row_steps, require_owned. tenanted. Qed.
Lemma tenanted_download s3_get csv_record bucket id failed :
  tenanted c P (download_results s3_get csv_record bucket c id failed).
Proof. unfold download_results, stream_results_from_db. tenanted. Qed.
End Jobs.

(** ** Creations: an identifier read or made before stays the caller's *)

Lemma within_lift_bind {S E A B} `{HasWorld S} c P R (r : result E A) (f : A → stM S E B) :
  (∀ a, r = Ok a → within c P (f a) R) → within c P (lift r ≫= f) R.
Proof.
  intros Hf s Ht Hd Hp. apply wp_bind, wp_lift. destruct r as [a|e]; [by apply Hf|].
  split; [by apply landed_refl|done].
Qed.

Lemma within_guard_bind {S E B} `{HasWorld S} c P R b (e : E) (f : unit → stM S E B) :
  (b = false → within c P (f tt) R) → within c P (guard_err b e ≫= f) R.
Proof.
  intros Hf s Ht Hd Hp. apply wp_bind, wp_guard; intros Hb; [|by apply Hf].
  split; [by apply landed_refl|done].
Qed.

Lemma tenanted_weaken {S E A} `{HasWorld S} c (P P' : Db → Prop) (m : stM S E A) :
  tenanted c P' m → (∀ d, db_wf d → P d → P' d) → tenanted c P m.
Proof. intros Hm HP. by eapply within_mono; [exact Hm| |]. Qed.

(** Bind, keeping what the first part established and nothing else. *)
Lemma tenanted_then {S E A B} `{HasWorld S} c P Q (m : stM S E A) (f : A → stM S E B) :
  Stable P → within c P m Q → (∀ a, tenanted c (Q a) (f a)) → tenanted c P (m ≫= f).
Proof.
  intros HP Hm Hf. eapply within_bind; [done|exact Hm|]. intros a. eapply tenanted_weaken; [apply Hf|].
  by intros d _ [_ ?].
Qed.

Lemma published_mine o id d v : db_wf d → published_template o id d = Some v → mine o TTemplate id d.
Proof.
  intros Hd. unfold published_template. intros (t & Ht & _)%fmap_Some.
  apply opt_filter_Some in Ht as [Ht [Ho _]%andb_true_iff]. apply Z.eqb_eq in Ho.
  apply org_at_mine; [done|done|]. by rewrite (org_at_template _ _ _ Ht), Ho.
Qed.

Section JobCreation.
Context `{Rfc3339} (configured : bool) (status_display : Z → string) (licensed : ApiResult unit) (c : Claims).

Lemma mine_update_job id cond f :
  (∀ d j, same_links (RJob j) (RJob (f d j))) →
  tenanted c (mine (org c) TJob id) (update (update_job id cond f)).
Proof.
  intros Hf. apply within_update; [apply _|]. intros d _ [_ Hm]. split; [|done].
  apply update_job_isolated; [|done]. intros j Hj _. apply Hm. by apply org_at_job.
Qed.

Lemma tenanted_start_job id wid input :
  tenanted c (mine (org c) TJob id) (start_job configured status_display id wid input).
Proof. unfold start_job, start_migration_workflow. tenanted; by apply mine_update_job. Qed.

Lemma tenanted_create_job uuid req : tenanted c (λ _, True) (create_job configured status_display licensed uuid c req).
Proof.
  unfold create_job. do 2 (apply tenanted_bind; [apply _|tenanted|intros _]).
  eapply (tenanted_then _ _ (λ v d, is_some v = true → mine (org c) TTemplate (jc_rule_template_id req) d)).
  { apply _. }
  { apply within_query; [apply _|]. intros d Hd _ Hv.
    destruct (published_template _ _ _) as [v|] eqn:Hp; [|done]. by eapply published_mine. }
  intros v. apply within_lift_bind. intros version Hversion%ok_or_Ok. subst v.
  eapply (tenanted_weaken _ _ (mine (org c) TTemplate (jc_rule_template_id req))); [|auto].
  do 3 (apply tenanted_bind; [apply _|tenanted|intros ?]). cbv zeta.
  eapply (tenanted_then _ _ (λ row, mine (org c) TJob (j_id row))); [apply _| |].
  { apply within_sql; [apply _|]. intros d row d' Hd Hm Hins.
    destruct (insert_job_tenant c _ _ _ _ _ _ _ _ Hm Hins) as (Ht & _ & Ho). split; [done|].
    apply org_at_mine; [by apply Ht|done|done]. }
  intros row. apply tenanted_bind; [apply _|apply tenanted_start_job|]. intros r. tenanted.
Qed.
End JobCreation.

(** ** Templates *)
Section Templates.
Context `{Rfc3339} (schema_check : value → result string unit) (shape_error : value → string).
Context (collate : string → string → bool) (c : Claims).

Lemma tenanted_insert_template key version name schema by_ :
  tenanted c (λ _, True) (sql (λ d, insert_template (org c) key (version d) name schema by_ d)).
Proof. apply tenanted_sql; [apply _|]. intros ???. apply insert_template_tenant. Qed.

Lemma tenanted_create_template uuid req :
  tenanted c (λ _, True) (create_template schema_check shape_error uuid c req).
Proof. unfold create_template. tenanted. apply tenanted_with_err, (tenanted_insert_template _ (λ _, 1)). Qed.
Lemma tenanted_create_version id req :
  tenanted c (λ _, True) (create_version schema_check shape_error c id req).
Proof. unfold create_version. tenanted. apply (tenanted_insert_template _ (λ d, max_version _ _ d + 1)). Qed.
Lemma tenanted_publish id : tenanted c (λ _, True) (publish_template c id).
Proof. unfold publish_template. tenanted. apply tenanted_update; [apply _|]. intros ?. apply publish_tenant. Qed.
Lemma tenanted_delete_template id : tenanted c (λ _, True) (delete_template c id).
Proof.
  unfold delete_template. tenanted. apply tenanted_sql; [apply _|]. intros ???. apply delete_template_tenant.
Qed.
Lemma tenanted_get_template id : tenanted c (λ _, True) (get_template c id).
Proof. unfold get_template. tenanted. Qed.
Lemma tenanted_list_templates q : tenanted c (λ _, True) (list_templates collate c q).
Proof. unfold list_templates. tenanted. Qed.
Lemma tenanted_list_versions id : tenanted c (λ _, True) (list_versions c id).
Proof. unfold list_versions. tenanted. Qed.
End Templates.

(** ** Secrets, connectors, LLM configuration *)
Section Secrets.
Context `{Rfc3339} (configured : bool) (status_display : Z → string).
Context (encrypt : string → result string (string * string)) (minio_bucket : string).
Context (watch_allowed_buckets : list string) (collate : string → string → bool) (c : Claims).

Lemma tenanted_list_secrets : tenanted c (λ _, True) (list_secrets collate c).
Proof. unfold list_secrets. tenanted. Qed.
Lemma tenanted_get_secret name : tenanted c (λ _, True) (get_secret c name).
Proof. unfold get_secret. tenanted. Qed.
Lemma tenanted_put_secret name v : tenanted c (λ _, True) (put_secret encrypt c name v).
Proof.
  unfold put_secret. tenanted. apply within_update; [apply _|]. intros d Hd _. split; [|done].
  by apply upsert_secret_tenant.
Qed.
Lemma tenanted_revoke name : tenanted c (λ _, True) (revoke_secret c name).
Proof. unfold revoke_secret. tenanted. apply tenanted_update; [apply _|]. intros ?. apply revoke_tenant. Qed.
Lemma tenanted_get_config : tenanted c (λ _, True) (get_config c).
Proof. unfold get_config. tenanted. Qed.

Lemma tenanted_put_config req : tenanted c (λ _, True) (put_config encrypt c req).
Proof.
  unfold put_config. do 3 (cbv zeta; apply tenanted_bind; [apply _|tenanted|intros ?]).
  apply tenanted_bind; [apply _| |intros ?; tenanted]. destruct (pc_api_key req) as [key|].
  - apply tenanted_bind; [apply _|tenanted|intros box]. apply within_transaction; [apply _|].
    intros d u d' Hd _. destruct (upsert_secret_tenant c LLM_SECRET box.1 box.2 "internal" (replace_value box.1 box.2) d)
      as [Ht Ho]; [done|done|]. destruct (upsert_secret _ _ _ _ _ _ _) as [s d1]. cbn [fst snd] in Ht, Ho.
    intros [= <- <-]. split; [|done]. etrans; [exact Ht|]. apply upsert_config_tenant. by intros id [= <-].
  - eapply (tenanted_then _ _ (λ sid d, ∀ id, sid = Some id → mine (org c) TSecret id d)); [apply _| |].
    + apply within_query; [apply _|]. intros d Hd _ id (cfg & Hcfg & Hsid)%bind_Some.
      destruct (Hd TLlm (org c) (RLlm cfg)) as (Hk & _ & o & Ho & Hrefs); [cbn; by rewrite Hcfg|].
      cbn in Hk, Ho, Hrefs. rewrite Hsid in Hrefs. apply org_at_mine; [done|done|].
      injection Ho as <-. rewrite <- Hk. apply (Hrefs (TSecret, id)). left.
    + intros sid. apply within_sql; [apply _|]. intros d u d' Hd Hm Hup. split; [|done].
      by eapply config_effect_tenant.
Qed.

Lemma tenanted_list_connectors : tenanted c (λ _, True) (list_connectors collate c).
Proof. unfold list_connectors. tenanted. Qed.
Lemma tenanted_create_connector req :
  tenanted c (λ _, True) (create_connector encrypt minio_bucket watch_allowed_buckets c req).
Proof.
  unfold create_connector. tenanted. apply tenanted_transaction; [apply _|]. intros ???. apply connector_tx_tenant.
Qed.
Lemma tenanted_get_connector id : tenanted c (λ _, True) (get_connector c id).
Proof. unfold get_connector. tenanted. Qed.
Lemma tenanted_delete_connector id : tenanted c (λ _, True) (delete_connector c id).
Proof.
  unfold delete_connector. tenanted. apply tenanted_sql; [apply _|]. intros ???. apply delete_connector_tenant.
Qed.
Lemma tenanted_test_connector id : tenanted c (λ _, True) (test_connector configured status_display c id).
Proof. unfold test_connector, test_sftp_connector. tenanted. Qed.
End Secrets.

(** ** Schedules *)
Section Schedules.
Context `{Rfc3339} (configured : bool) (status_display : Z → string) (licensed : ApiResult unit).
Context (cron_ok interval_ok : string → bool) (collate : string → string → bool) (c : Claims).

Lemma tenanted_tell s err m :
  (∀ sid, tenanted c (λ _, True) (m sid)) → tenanted c (λ _, True) (tell s err m).
Proof. intros Hm. unfold tell. tenanted. Qed.

Lemma tenanted_update_row id f :
  (∀ d s, same_links (RSchedule s) (RSchedule (f d s))) →
  tenanted c (λ _, True) (update (update_schedule_row (org c) id f)).
Proof. intros Hf. apply tenanted_update; [apply _|]. intros d. by apply update_schedule_tenant. Qed.

Lemma template_owned_mine o id d : db_wf d → template_owned o id d = true → mine o TTemplate id d.
Proof.
  intros Hd. unfold template_owned. destruct (owned _ _ _ _) as [t|] eqn:Ht; [intros _|done].
  apply owned_org in Ht as [Ht Ho]. apply org_at_mine; [done|done|]. by rewrite (org_at_template _ _ _ Ht), Ho.
Qed.

Lemma within_connector id :
  within c (λ _, True) (require_connector (org c) id) (λ _, mine (org c) TConnector id).
Proof.
  unfold require_connector.
  eapply (within_bind _ _ (λ k d, is_some k = true → mine (org c) TConnector id d)); [apply _| |].
  - apply within_query; [apply _|]. intros d Hd _. destruct (owned _ _ _ _) as [cn|] eqn:Hcn; [intros _|done].
    apply owned_org in Hcn as [Hcn Ho]. apply org_at_mine; [done|done|]. by rewrite (org_at_connector _ _ _ Hcn), Ho.
  - intros k. apply within_lift. intros a d Hk%ok_or_Ok [_ Hm]. apply Hm. by destruct k.
Qed.

Lemma tenanted_inserted sid rest enabled :
  (∀ u, tenanted c (λ _, True) (rest u)) →
  tenanted c (λ _, True) ((if negb enabled
     then _ ← World.pause_schedule configured status_display sid; mret tt else mret tt) ≫= rest : Api ScheduleRow).
Proof. intros Hr. unfold World.pause_schedule, schedule_call. tenanted. Qed.

Lemma tenanted_create_schedule uuid req :
  tenanted c (λ _, True)
    (create_schedule configured status_display licensed cron_ok interval_ok uuid c req).
Proof.
  unfold create_schedule. do 4 (cbv zeta; apply tenanted_bind; [apply _|tenanted|intros ?]). cbv zeta.
  eapply (tenanted_then _ _ (λ _, mine (org c) TConnector (cs_connector_id req)));
    [apply _|apply within_connector|intros kind].
  eapply (within_bind _ _ (λ b d, b = true → mine (org c) TTemplate (cs_rule_template_id req) d)); [apply _| |].
  { apply within_query; [apply _|]. intros d Hd _. by apply template_owned_mine. }
  intros owned. apply within_guard_bind. intros Ho%negb_false_iff. apply within_lift_bind. intros by_ _.
  eapply (within_bind _ _ (λ s, mine (org c) TSchedule (sc_id s))); [apply _| |].
  { apply within_with_err, within_sql; [apply _|]. intros d s d' Hd [Hc Ht] Hins.
    edestruct insert_schedule_tenant as [Hten Hat]; [| | | |exact Hins|]; cbn; try done; [by apply Ht|].
    split; [done|]. apply org_at_mine; [by apply Hten|done|done]. }
  intros s. eapply (tenanted_weaken _ _ (mine (org c) TSchedule (sc_id s))); [|by intros d _ [_ ?]].
  unfold World.create_schedule. apply tenanted_bind; [apply _|tenanted|intros [u|e]].
  - unfold World.pause_schedule, schedule_call. tenanted.
  - tenanted. apply tenanted_attempt. apply within_update; [apply _|]. intros d _ Hm.
    split; [by apply remove_schedule_tenant|done].
Qed.

Lemma tenanted_get_schedule id : tenanted c (λ _, True) (get_schedule c id).
Proof. unfold get_schedule. tenanted. Qed.
Lemma tenanted_list_schedules : tenanted c (λ _, True) (list_schedules collate c).
Proof. unfold list_schedules. tenanted. Qed.

Lemma tenanted_update_schedule id req :
  tenanted c (λ _, True) (update_schedule configured status_display licensed cron_ok interval_ok c id req).
Proof.
  unfold update_schedule.
  tenanted; try (apply tenanted_tell; intros ?; unfold World.update_schedule, World.unpause_schedule, World.pause_schedule, schedule_call; tenanted).
  by apply tenanted_update_row.
Qed.

Lemma tenanted_delete_schedule id : tenanted c (λ _, True) (delete_schedule configured status_display c id).
Proof.
  unfold delete_schedule, World.delete_schedule, schedule_call. tenanted.
  apply tenanted_update; [apply _|]. intros ?. apply remove_owned_tenant.
Qed.
Lemma tenanted_pause_schedule id : tenanted c (λ _, True) (pause_schedule configured status_display c id).
Proof.
  unfold pause_schedule, temporal_id, World.pause_schedule, schedule_call. tenanted. by apply tenanted_update_row.
Qed.
Lemma tenanted_resume_schedule id : tenanted c (λ _, True) (resume_schedule configured status_display licensed c id).
Proof.
  unfold resume_schedule, temporal_id, World.unpause_schedule, schedule_call. tenanted. by apply tenanted_update_row.
Qed.
Lemma tenanted_trigger_schedule id : tenanted c (λ _, True) (trigger_schedule configured status_display licensed c id).
Proof. unfold trigger_schedule, temporal_id, World.trigger_schedule, schedule_call. tenanted. Qed.
Lemma tenanted_list_runs id : tenanted c (λ _, True) (list_runs c id).
Proof. unfold list_runs. tenanted. Qed.
End Schedules.

(** ** Batches *)
Section Batches.
Context `{Rfc3339} (configured : bool) (status_display : Z → string) (licensed : ApiResult unit) (c : Claims).

Lemma tenanted_list_batches q : tenanted c (λ _, True) (list_batches c q).
Proof. unfold list_batches. tenanted. Qed.
Lemma tenanted_get_batch id : tenanted c (λ _, True) (get_batch c id).
Proof. unfold get_batch. tenanted. Qed.

Lemma mine_update_batch id f :
  (∀ d b, same_links (RBatch b) (RBatch (f d b))) →
  tenanted c (mine (org c) TBatch id) (update (update_batch id f)).
Proof.
  intros Hf. apply within_update; [apply _|]. intros d _ Hm. split; [|done]. by apply update_batch_tenant.
Qed.

Lemma tenanted_create_batch uuid req :
  tenanted c (λ _, True) (create_batch configured status_display licensed uuid c req).
Proof.
  unfold create_batch. do 5 (cbv zeta; apply tenanted_bind; [apply _|tenanted|intros ?]). cbv zeta.
  eapply (tenanted_then _ _ (λ _ d, ∀ id, bc_connector_id req = Some id → mine (org c) TConnector id d)); [apply _| |].
  { destruct (bc_connector_id req) as [cid|]; [|by apply within_ret].
    eapply within_bind; [apply _|apply within_connector|]. intros k. apply within_ret. by intros d [_ ?] id [= <-]. }
  intros u. eapply (tenanted_then _ _ (λ b, mine (org c) TBatch (ba_id b))); [apply _| |].
  { apply within_sql; [apply _|]. intros d b d' Hd Hm Hins. edestruct insert_batch_tenant as [Ht Ho]; [exact Hm|exact Hins|].
    split; [done|]. apply org_at_mine; [by apply Ht|done|done]. }
  intros b. tenanted; by apply mine_update_batch.
Qed.
End Batches.

(** ** Handlers that call other services *)

Lemma within_api {A} c P (Q : A → Db → Prop) (m : Api A) : within c P m Q → within c P (api m) Q.
Proof. intros Hm n Ht Hd Hp. apply wp_api. exact (Hm (net_world n) Ht Hd Hp). Qed.

Lemma tenanted_api {A} c P (m : Api A) : tenanted c P m → tenanted c P (api m).
Proof. apply within_api. Qed.

Lemma tenanted_ask c P q : tenanted c P (ask q).
Proof. by apply within_stay. Qed.
#[export] Hint Resolve tenanted_api tenanted_ask : tenanted.

Section Services.
Context `{JsonText} `{Rfc3339} (c : Claims).

Lemma tenanted_upload minio_bucket sha parts : tenanted c (λ _, True) (upload_file minio_bucket sha c parts).
Proof.
  unfold upload_file, put_object. tenanted. apply tenanted_api, tenanted_update; [apply _|]. intros ?.
  by apply upload_tenant.
Qed.

Lemma tenanted_sample minio_bucket json_error read_csv read_xml rfc3339_ok date_ok req :
  tenanted c (λ _, True) (sample_file minio_bucket json_error read_csv read_xml rfc3339_ok date_ok c req).
Proof. unfold sample_file, get_range. tenanted. Qed.

Context (parse_url : string → result string Url) (json_error : string → string).
Context (status_display : Z → string) (collate : string → string → bool) (allow_private : bool).

Lemma tenanted_http_get hops url : tenanted c (λ _, True) (http_get hops url).
Proof. revert url. induction hops as [|hops IH]; intros url; cbn [http_get]; tenanted; apply IH. Qed.
#[local] Hint Resolve tenanted_http_get : tenanted.
Lemma tenanted_fetch url : tenanted c (λ _, True) (fetch_spec parse_url json_error status_display allow_private url).
Proof. unfold fetch_spec, check_destination, lookup_host. tenanted. Qed.

Lemma tenanted_create_spec req :
  tenanted c (λ _, True) (create_spec parse_url json_error status_display allow_private c req).
Proof.
  unfold create_spec, spec_input. tenanted; try apply tenanted_fetch.
  apply tenanted_api, tenanted_update; [apply _|]. intros ?. apply upsert_spec_tenant.
Qed.
Lemma tenanted_list_specs : tenanted c (λ _, True) (list_specs collate c).
Proof. unfold list_specs. tenanted. Qed.
Lemma tenanted_get_spec id : tenanted c (λ _, True) (get_spec c id).
Proof. unfold get_spec. tenanted. Qed.
Lemma tenanted_delete_spec id : tenanted c (λ _, True) (delete_spec c id).
Proof. unfold delete_spec. tenanted. apply tenanted_update; [apply _|]. intros ?. apply delete_spec_tenant. Qed.
Lemma tenanted_operations id : tenanted c (λ _, True) (list_operations parse_url c id).
Proof. unfold list_operations. tenanted. Qed.
Lemma tenanted_preview spec : tenanted c (λ _, True) (parse_preview parse_url spec).
Proof. unfold parse_preview. tenanted. Qed.
End Services.

(** ** Mapping suggestions *)
Section Suggestions.
Context `{JsonText} `{Rfc3339} `{Aead} (c : Claims).
Context (schema_check : value → result string unit) (shape_error : value → string).
Context (parse_url : string → result string Url) (status_display : Z → string) (json_error : string → string).
Context (email_re long_digits_re phone_re : string → string → string) (schema_text : string) (key : MasterKey).

Lemma tenanted_safe {A} P (m : NetM A) : tenanted c P m → tenanted c P (safe m).
Proof. apply tenanted_with_err. Qed.
Lemma tenanted_or_panic {A} P (a : attempted A) : tenanted c P (or_panic a).
Proof. destruct a; [apply tenanted_ret|apply tenanted_throw]. Qed.
#[local] Hint Resolve tenanted_safe tenanted_or_panic : tenanted.

Lemma tenanted_call_llm base_url api_key model messages :
  tenanted c (λ _, True) (call_llm status_display json_error base_url api_key model messages).
Proof. unfold call_llm, llm_post. tenanted. Qed.

Lemma tenanted_ask_model attempts req base_url api_key model pii messages last :
  tenanted c (λ _, True) (ask_model schema_check shape_error status_display json_error
    attempts c req base_url api_key model pii messages last).
Proof.
  revert messages last. induction attempts as [|n IH]; intros messages last; cbn [ask_model]; [tenanted|].
  apply tenanted_bind; [apply _|apply tenanted_safe, tenanted_call_llm|intros content]. tenanted.
Qed.

Lemma tenanted_suggest req :
  tenanted c (λ _, True) (suggest_mapping schema_check shape_error parse_url status_display json_error
    email_re long_digits_re phone_re schema_text key c req).
Proof.
  unfold suggest_mapping. tenanted; try apply tenanted_ask_model.
  - unfold load_api_key. tenanted.
  - apply tenanted_safe. unfold operation_context. tenanted.
Qed.
End Suggestions.

(** ** License routes *)
Section License.
Context `{JsonText} `{Rfc3339} `{Crypto} (c : Claims).
Context (env : string → option string) (embedded_pem : string) (clock : nat → Z).
Context (client_builds : bool) (writable : string → bool) (product_version pid : string) (status_display : Z → string).

Lemma tenanted_on_proc {A} P (m : io A) : tenanted c P (on_proc m).
Proof. apply within_stay; [|done]. intros n. unfold on_proc, world, world_Node. by destruct (m (n_proc n)). Qed.
Lemma tenanted_on_proc_ok {A} P (m : io A) : Stable P → tenanted c P (on_proc_ok m).
Proof. intros HP. apply tenanted_bind; [done|apply tenanted_on_proc|intros]. apply tenanted_lift. Qed.
Lemma tenanted_on_world {A} P (m : Api A) : tenanted c P m → tenanted c P (on_world m).
Proof.
  intros Hm n Ht Hd Hp. specialize (Hm (n_world n) Ht Hd Hp). unfold wp, on_world in *.
  destruct (m (n_world n)) as [r w]. exact Hm.
Qed.
#[local] Hint Resolve tenanted_on_proc tenanted_on_proc_ok tenanted_on_world : tenanted.

Lemma tenanted_start_trial email :
  tenanted c (λ _, True) (LicenseRoutes.start_trial env embedded_pem clock client_builds writable product_version
    pid status_display c email).
Proof. unfold LicenseRoutes.start_trial. tenanted. Qed.
End License.

Lemma tenanted_ready c : tenanted c (λ _, True) ready.
Proof. unfold ready. tenanted. Qed.
