(* ===== verification/Router.v ===== *)
(** * Routing: the [router()] of every module of [apps/api/src/routes] and
    [build_router] of [apps/api/src/lib.rs]

    The route tables as the source writes them, merged in its order, and how
    axum finds a handler: the path first, a literal segment before a
    parameter, then the method. *)
From S2P Require Import Prelude RustStr.
From Stdlib Require Import Ascii.

Inductive Method : Type := GET | POST | PUT | DELETE.
#[global] Instance Method_eq_dec : EqDecision Method.
Proof. solve_decision. Defined.

(** One constructor per handler function. *)
Inductive Handler : Type :=
  | H_health | H_ready | H_authorize_work
  | H_login | H_me
  | H_list_templates | H_create_template | H_get_template | H_delete_template | H_list_versions
  | H_create_version | H_publish_template
  | H_upload_file | H_sample_file
  | H_list_connectors | H_create_connector | H_get_connector | H_delete_connector | H_test_connector
  | H_sf_oauth_callback
  | H_list_jobs | H_create_job | H_get_job | H_pause_job | H_resume_job | H_cancel_job | H_list_rows
  | H_list_row_steps | H_retry_row | H_retry_all_failed | H_download_results | H_retry_export
  | H_stream_updates
  | H_list_secrets | H_get_secret | H_put_secret | H_revoke_secret
  | H_list_batches | H_create_batch | H_get_batch
  | H_list_schedules | H_create_schedule | H_get_schedule | H_update_schedule | H_delete_schedule
  | H_pause_schedule | H_resume_schedule | H_trigger_schedule | H_list_runs
  | H_dry_run
  | H_spec | H_docs
  | H_list_specs | H_create_spec | H_get_spec | H_delete_spec | H_list_operations | H_parse_preview
  | H_get_config | H_put_config | H_suggest_mapping
  | H_license_status | H_start_trial.
#[global] Instance Handler_eq_dec : EqDecision Handler.
Proof. solve_decision. Defined.

Definition Routes : Type := list (string * list (Method * Handler)).

(** ** The tables *)
Definition health_router : Routes :=
  [("/healthz", [(GET, H_health)]); ("/readyz", [(GET, H_ready)]);
   ("/internal/license/authorize", [(GET, H_authorize_work)])].

Definition auth_router : Routes := [("/auth/login", [(POST, H_login)]); ("/auth/me", [(GET, H_me)])].

Definition templates_router : Routes :=
  [("/rule-templates", [(GET, H_list_templates); (POST, H_create_template)]);
   ("/rule-templates/:id", [(GET, H_get_template); (DELETE, H_delete_template)]);
   ("/rule-templates/:id/versions", [(GET, H_list_versions); (POST, H_create_version)]);
   ("/rule-templates/:id/publish", [(POST, H_publish_template)])].

Definition files_router : Routes :=
  [("/files", [(POST, H_upload_file)]); ("/files/sample", [(POST, H_sample_file)])].

Definition connectors_router : Routes :=
  [("/connectors", [(GET, H_list_connectors); (POST, H_create_connector)]);
   ("/connectors/:id", [(GET, H_get_connector); (DELETE, H_delete_connector)]);
   ("/connectors/:id/test", [(POST, H_test_connector)]);
   ("/connectors/salesforce/oauth/callback", [(GET, H_sf_oauth_callback)])].

Definition jobs_router : Routes :=
  [("/jobs", [(GET, H_list_jobs); (POST, H_create_job)]);
   ("/jobs/:id", [(GET, H_get_job)]);
   ("/jobs/:id/pause", [(POST, H_pause_job)]);
   ("/jobs/:id/resume", [(POST, H_resume_job)]);
   ("/jobs/:id/cancel", [(POST, H_cancel_job)]);
   ("/jobs/:id/rows", [(GET, H_list_rows)]);
   ("/jobs/:id/rows/:row_index/steps", [(GET, H_list_row_steps)]);
   ("/jobs/:id/rows/:row_index/retry", [(POST, H_retry_row)]);
   ("/jobs/:id/retry-failed", [(POST, H_retry_all_failed)]);
   ("/jobs/:id/results", [(GET, H_download_results)]);
   ("/jobs/:id/export", [(POST, H_retry_export)]);
   ("/jobs/:id/stream", [(GET, H_stream_updates)])].

Definition secrets_router : Routes :=
  [("/secrets", [(GET, H_list_secrets)]);
   ("/secrets/:name", [(GET, H_get_secret); (PUT, H_put_secret); (DELETE, H_revoke_secret)])].

Definition batches_router : Routes :=
  [("/batches", [(GET, H_list_batches); (POST, H_create_batch)]);
   ("/batches/:id", [(GET, H_get_batch)])].

Definition schedules_router : Routes :=
  [("/schedules", [(GET, H_list_schedules); (POST, H_create_schedule)]);
   ("/schedules/:id", [(GET, H_get_schedule); (PUT, H_update_schedule); (DELETE, H_delete_schedule)]);
   ("/schedules/:id/pause", [(POST, H_pause_schedule)]);
   ("/schedules/:id/resume", [(POST, H_resume_schedule)]);
   ("/schedules/:id/trigger", [(POST, H_trigger_schedule)]);
   ("/schedules/:id/runs", [(GET, H_list_runs)])].

Definition dry_run_router : Routes := [("/dry-run", [(POST, H_dry_run)])].

Definition openapi_router : Routes := [("/openapi.json", [(GET, H_spec)]); ("/docs", [(GET, H_docs)])].

Definition specs_router : Routes :=
  [("/openapi-specs", [(GET, H_list_specs); (POST, H_create_spec)]);
   ("/openapi-specs/:id", [(GET, H_get_spec); (DELETE, H_delete_spec)]);
   ("/openapi-specs/:id/operations", [(GET, H_list_operations)]);
   ("/openapi-specs/parse-preview", [(POST, H_parse_preview)])].

Definition llm_router : Routes :=
  [("/llm-config", [(GET, H_get_config); (PUT, H_put_config)]);
   ("/mapping-suggestions", [(POST, H_suggest_mapping)])].

Definition license_router : Routes :=
  [("/license", [(GET, H_license_status)]); ("/license/trial", [(POST, H_start_trial)])].

Definition build_router : Routes :=
  health_router ++ auth_router ++ templates_router ++ files_router ++ connectors_router ++ jobs_router
  ++ secrets_router ++ batches_router ++ schedules_router ++ dry_run_router ++ openapi_router
  ++ specs_router ++ llm_router ++ license_router.

(** ** Finding a handler (axum, [matchit]) *)

Inductive Seg : Type := Lit (s : string) | Cap.
#[global] Instance Seg_eq_dec : EqDecision Seg.
Proof. solve_decision. Defined.

(** The segments after the leading slash. *)
Definition segments (path : string) : list string := tl (split_char "/" path).
Definition seg_of (s : string) : Seg := match strip_prefix ":" s with Some _ => Cap | None => Lit s end.
Definition pattern (path : string) : list Seg := map seg_of (segments path).

(** The routes that go on after a literal segment, or after a parameter. *)
Definition after_lit {A} (s : string) : list (list Seg * A) → list (list Seg * A) :=
  omap (λ r, match r with (Lit l :: p, a) => if (l =? s)%string then Some (p, a) else None | _ => None end).
Definition after_cap {A} : list (list Seg * A) → list (list Seg * A) :=
  omap (λ r, match r with (Cap :: p, a) => Some (p, a) | _ => None end).

(** The routes' tree: literals first, parameters when that fails; a parameter
    matches a segment that is not empty. *)
Fixpoint find_route {A} (routes : list (list Seg * A)) (segs : list string) : option (list string * A) :=
  match segs with
  | [] => (λ r, ([], r.2)) <$> List.find (λ r, match r.1 with [] => true | _ => false end) routes
  | s :: segs =>
      match find_route (after_lit s routes) segs with
      | Some r => Some r
      | None =>
          if is_empty s then None
          else (λ r, (s :: r.1, r.2)) <$> find_route (after_cap routes) segs
      end
  end.

Inductive Dispatch : Type :=
  | Found (h : Handler) (params : list string)
  | MethodNotAllowed
  | NoRoute.

Definition dispatch (routes : Routes) (m : Method) (path : string) : Dispatch :=
  match find_route (map (λ r, (pattern r.1, r.2)) routes) (segments path) with
  | None => NoRoute
  | Some (params, methods) =>
      match List.find (λ mh, bool_decide (mh.1 = m)) methods with
      | Some (_, h) => Found h params
      | None => MethodNotAllowed
      end
  end.

Example dispatch_static : dispatch build_router POST "/openapi-specs/parse-preview" = Found H_parse_preview [].
Proof. reflexivity. Qed.
Example dispatch_shadowed : dispatch build_router GET "/openapi-specs/parse-preview" = MethodNotAllowed.
Proof. reflexivity. Qed.
Example dispatch_backtracks : dispatch build_router POST "/connectors/salesforce/test" = Found H_test_connector ["salesforce"].
Proof. reflexivity. Qed.
(** [/docs] redirects to a path that no router serves. *)
Example docs_redirect_is_unserved : dispatch build_router GET "/docs/" = NoRoute.
Proof. reflexivity. Qed.
Example dispatch_none : dispatch build_router GET "/jobs/7/" = NoRoute.
Proof. reflexivity. Qed.

(** ** A path made from a route finds that route *)

(** The segments of a pattern with its parameters filled in. *)
Fixpoint fill (p : list Seg) (args : list string) : option (list string) :=
  match p, args with
  | [], [] => Some []
  | Lit s :: p, args => cons s <$> fill p args
  | Cap :: p, a :: args => cons a <$> fill p args
  | _, _ => None
  end.

Section FindRoute.
Context {A : Type}.
Implicit Types (routes : list (list Seg * A)).

Lemma elem_after_lit s routes p a : (p, a) ∈ after_lit s routes ↔ (Lit s :: p, a) ∈ routes.
Proof.
  unfold after_lit. rewrite list_elem_of_omap. split.
  - intros ([[|[l|] q] b] & Hin & Heq); try done. destruct (l =? s)%string eqn:Hl; [|done].
    apply String.eqb_eq in Hl as ->. by injection Heq as -> ->.
  - intros Hin. exists (Lit s :: p, a). split; [done|]. by rewrite String.eqb_refl.
Qed.

Lemma elem_after_cap routes p a : (p, a) ∈ after_cap routes ↔ (Cap :: p, a) ∈ routes.
Proof.
  unfold after_cap. rewrite list_elem_of_omap. split.
  - intros ([[|[l|] q] b] & Hin & Heq); try done. by injection Heq as -> ->.
  - intros Hin. by exists (Cap :: p, a).
Qed.

(** Patterns are pairwise different. *)
Definition distinct routes : Prop := ∀ p a b, (p, a) ∈ routes → (p, b) ∈ routes → a = b.

Lemma find_route_none segs : find_route ([] : list (list Seg * A)) segs = None.
Proof. induction segs as [|s segs IH]; [done|]. cbn. rewrite IH. by destruct (is_empty s). Qed.

(** Along a pattern, no literal of another route takes a parameter's segment. *)
Fixpoint unshadowed routes (p : list Seg) (args : list string) : Prop :=
  match p, args with
  | Lit l :: p, args => unshadowed (after_lit l routes) p args
  | Cap :: p, s :: args => s ≠ EmptyString ∧ after_lit s routes = [] ∧ unshadowed (after_cap routes) p args
  | _, _ => True
  end.

Lemma find_route_fill segs routes p a args :
  distinct routes → (p, a) ∈ routes → fill p args = Some segs → unshadowed routes p args →
  find_route routes segs = Some (args, a).
Proof.
  revert routes p args. induction segs as [|s segs IH]; intros routes p args Hd Hin Hf Ha.
  - assert (p = [] ∧ args = []) as [-> ->].
    { destruct p as [|[l|] p], args as [|x args]; cbn in Hf; try done; by destruct (fill _ _). }
    cbn. destruct (List.find _ _) as [[q b]|] eqn:Hfind; cbn.
    + apply find_some in Hfind as [Hq He]. apply list_elem_of_In in Hq. destruct q; [|done].
      by rewrite (Hd _ _ _ Hq Hin).
    + exfalso. apply list_elem_of_In in Hin. by apply (find_none _ _ Hfind) in Hin.
  - destruct p as [|[l|] p]; cbn in Hf; [by destruct args| |].
    + destruct (fill p args) as [segs'|] eqn:Hf'; [|done]. injection Hf as -> ->. cbn.
      rewrite (IH (after_lit s routes) p args); [done| |by apply elem_after_lit|done|done].
      intros q x y. rewrite !elem_after_lit. apply Hd.
    + destruct args as [|x args]; [done|]. destruct (fill p args) as [segs'|] eqn:Hf'; [|done].
      injection Hf as -> ->. destruct Ha as (Hx & Hn & Ha). cbn. rewrite Hn, find_route_none.
      destruct (is_empty s) eqn:He; [by destruct s|].
      rewrite (IH (after_cap routes) p args); [done| |by apply elem_after_cap|done|done].
      intros q y z. rewrite !elem_after_cap. apply Hd.
Qed.

(** What is found is a route whose pattern the path fills. *)
Lemma find_route_found segs routes args a :
  find_route routes segs = Some (args, a) → ∃ p, (p, a) ∈ routes ∧ fill p args = Some segs.
Proof.
  revert routes args. induction segs as [|s segs IH]; intros routes args; cbn.
  - destruct (List.find _ _) as [[q b]|] eqn:Hf; [|done]. intros [= <- <-]. apply find_some in Hf as [Hin Hq].
    exists q. split; [by apply list_elem_of_In|]. by destruct q.
  - destruct (find_route (after_lit s routes) segs) as [[args' b]|] eqn:Hl.
    + intros [= -> ->]. apply IH in Hl as (p & Hp & Hf). exists (Lit s :: p).
      split; [by apply elem_after_lit|]. cbn. by rewrite Hf.
    + destruct (is_empty s); [done|]. destruct (find_route (after_cap routes) segs) as [[args' b]|] eqn:Hc; [|done].
      intros [= <- <-]. apply IH in Hc as (p & Hp & Hf). exists (Cap :: p).
      split; [by apply elem_after_cap|]. cbn. by rewrite Hf.
Qed.

(** The literals that compete with each parameter of a pattern. *)
Definition heads routes : list string := omap (λ r, match r.1 with Lit l :: _ => Some l | _ => None end) routes.
Fixpoint rivals routes (p : list Seg) : list (list string) :=
  match p with
  | [] => []
  | Lit l :: p => rivals (after_lit l routes) p
  | Cap :: p => heads routes :: rivals (after_cap routes) p
  end.

Lemma after_lit_none s routes : s ∉ heads routes → after_lit s routes = [].
Proof.
  intros Hs. destruct (after_lit s routes) as [|[p a] l] eqn:Hl; [done|]. exfalso. apply Hs.
  apply list_elem_of_omap. exists (Lit s :: p, a). split; [|done]. apply elem_after_lit. rewrite Hl. left.
Qed.

Lemma rivals_unshadowed p routes args :
  Forall2 (λ s rs, s ≠ EmptyString ∧ s ∉ rs) args (rivals routes p) → unshadowed routes p args.
Proof.
  revert routes args. induction p as [|[l|] p IH]; intros routes args; cbn; [done|apply IH|].
  inversion 1 as [|s words args' rs [Hs Hn] Ha]; subst. cbn. split_and!; [done|by apply after_lit_none|by apply IH].
Qed.

Lemma distinct_nodup routes : NoDup (fst <$> routes) → distinct routes.
Proof.
  induction routes as [|[q x] routes IH]; cbn; [by intros _ p a b ?%elem_of_nil|].
  intros [Hq Hn]%list.NoDup_cons p a b Ha Hb. apply elem_of_cons in Ha, Hb.
  assert (∀ y, (q, y) ∉ routes) as Hno.
  { intros y Hy. apply Hq. apply list_elem_of_fmap. by exists (q, y). }
  destruct Ha as [Ha|Ha], Hb as [Hb|Hb]; simplify_eq; try done.
  - by apply Hno in Hb.
  - by apply Hno in Ha.
  - by eapply (IH Hn p).
Qed.
End FindRoute.

(** The URL of some segments. *)
Definition url (segs : list string) : string := str_concat (map (λ s, "/" +:+ s) segs).

Lemma split_char_app c s r :
  contains_char c s = false → split_char c (s +:+ String c r) = s :: split_char c r.
Proof.
  induction s as [|a s IH]; cbn; intros Hs; [by rewrite Ascii.eqb_refl|].
  apply orb_false_iff in Hs as [Ha Hs]. unfold split_char in *. cbn. rewrite Ha, IH by done. done.
Qed.

Lemma split_char_plain c s : contains_char c s = false → split_char c s = [s].
Proof.
  induction s as [|a s IH]; cbn; [done|]. intros [Ha Hs]%orb_false_iff. unfold split_char in *. cbn.
  by rewrite Ha, IH.
Qed.

Lemma segments_url segs :
  segs ≠ [] → Forall (λ s, contains_char "/" s = false) segs → segments (url segs) = segs.
Proof.
  unfold segments. destruct segs as [|s segs]; [done|]. intros _.
  assert (∀ l s, contains_char "/" s = false → Forall (λ s, contains_char "/" s = false) l →
            split_char "/" (s +:+ url l) = s :: l) as Hsplit.
  { induction l as [|x l IH]; intros y Hy Hl.
    - change (url []) with EmptyString. rewrite append_nil_r. by apply split_char_plain.
    - apply list.Forall_cons in Hl as [Hx Hl]. change (url (x :: l)) with (String "/" (x +:+ url l)).
      rewrite split_char_app by done. by rewrite IH. }
  intros [Hs Hl]%list.Forall_cons. change (url (s :: segs)) with (EmptyString +:+ String "/" (s +:+ url segs)).
  rewrite split_char_app by done. cbn [tl]. by apply Hsplit.
Qed.

(** Where a handler is mounted. *)
Definition mounted_at (routes : Routes) (m : Method) (pat : list Seg) (h : Handler) : Prop :=
  ∃ path methods, (path, methods) ∈ routes ∧ pattern path = pat ∧ (m, h) ∈ methods.

Lemma dispatch_found routes m path h args :
  dispatch routes m path = Found h args →
  ∃ pat, mounted_at routes m pat h ∧ fill pat args = Some (segments path).
Proof.
  unfold dispatch. destruct (find_route _ _) as [[args' methods]|] eqn:Hr; [|done].
  destruct (List.find _ methods) as [[m' h']|] eqn:Hf; [|done]. intros [= -> ->].
  apply find_some in Hf as [Hin Hm]. apply bool_decide_eq_true in Hm. cbn in Hm. subst m'.
  apply find_route_found in Hr as (pat & Hp & Hfill). exists pat. split; [|done].
  apply list_elem_of_In, in_map_iff in Hp as ([path' ms] & [= <- <-] & Hp).
  exists path', ms. split_and!; [by apply list_elem_of_In|done|by apply list_elem_of_In].
Qed.

(** A handler is mounted once: its only method and pattern, decided. *)
Definition mounted_only (routes : Routes) (m : Method) (pat : list Seg) (h : Handler) : bool :=
  forallb (λ r, forallb (λ mh, negb (bool_decide (mh.2 = h)) ||
    bool_decide (mh.1 = m) && bool_decide (pattern r.1 = pat)) r.2) routes.

Lemma mounted_only_sound routes m pat h m' pat' :
  mounted_only routes m pat h = true → mounted_at routes m' pat' h → m' = m ∧ pat' = pat.
Proof.
  unfold mounted_only. rewrite forallb_forall. intros Hall (path & methods & Hr & <- & Hm).
  apply list_elem_of_In in Hr, Hm. specialize (Hall _ Hr). rewrite forallb_forall in Hall. specialize (Hall _ Hm).
  cbn in Hall. apply orb_true_iff in Hall as [Hh%negb_true_iff|[H1 H2]%andb_true_iff].
  - by apply bool_decide_eq_false in Hh.
  - by apply bool_decide_eq_true in H1, H2.
Qed.
