(* ===== verification/JobStream.v ===== *)
(** * The progress stream of a job: [routes/jobs.rs], [stream_updates] and
    [publish_progress]

    Progress messages reach Redis channel [job:<id>:progress]; a task forwards
    those of the subscribed channel into a tokio broadcast queue of 256
    messages, from which the response body takes its events.  The queue is an
    interface with tokio's documented laws: a full queue forgets its oldest
    message, and the reader is told once that it lagged.  Who may open a
    stream is in [Api]. *)
From S2P Require Import Prelude RustStr Json Error.
From Stdlib Require Import Ascii.

(** What [BroadcastStream] yields: a message, the notice of having lagged, or
    nothing yet. *)
Inductive Received : Type := Value (m : string) | Lagged (n : nat) | Empty.

(** [tokio::sync::broadcast], one receiver.  [retained] are the messages the
    receiver has still to get, [missed] how many it lost since the last
    notice. *)
Class Broadcast := {
  Queue : Type;
  channel : nat → Queue;
  send : string → Queue → Queue;
  recv : Queue → Received * Queue;
  capacity : Queue → nat;
  retained : Queue → list string;
  missed : Queue → nat;
  channel_spec n : capacity (channel n) = n ∧ retained (channel n) = [] ∧ missed (channel n) = 0%nat;
  send_fits m q : (length (retained q) < capacity q)%nat →
    capacity (send m q) = capacity q ∧ retained (send m q) = retained q ++ [m] ∧
    missed (send m q) = missed q;
  send_full m q : (capacity q ≤ length (retained q))%nat →
    capacity (send m q) = capacity q ∧ retained (send m q) = tail (retained q ++ [m]) ∧
    missed (send m q) = S (missed q);
  recv_lagged q : missed q ≠ 0%nat →
    (recv q).1 = Lagged (missed q) ∧ capacity (recv q).2 = capacity q ∧
    retained (recv q).2 = retained q ∧ missed (recv q).2 = 0%nat;
  recv_value q m l : missed q = 0%nat → retained q = m :: l →
    (recv q).1 = Value m ∧ capacity (recv q).2 = capacity q ∧ retained (recv q).2 = l ∧
    missed (recv q).2 = 0%nat;
  recv_empty q : missed q = 0%nat → retained q = [] → recv q = (Empty, q);
}.

Definition progress_channel (id : Z) : string := "job:" +:+ show_Z id +:+ ":progress".

(** What [publish_progress] does: the connection and the PUBLISH can fail;
    what it publishes is the text of the payload. *)
Definition publish_progress `{JsonText} (connect : result string unit)
    (publish : string → string → result string unit) (job_id : Z) (payload : value) : ApiResult unit :=
  _ ← map_err (λ e, External ("redis: " +:+ e)) connect;
  map_err (λ e, External ("redis publish: " +:+ e))
    (publish (progress_channel job_id) (to_json_string payload)).

(** The spawned task, and the stream with what the client got so far. *)
Inductive Task : Type := Connecting | Forwarding | Finished.
#[global] Instance Task_eq_dec : EqDecision Task.
Proof. solve_decision. Defined.

(** What happens to a stream: the subscription succeeds or fails, a message
    is published on some channel ([None]: not a text), the Redis connection
    ends, the body is polled, the client goes away. *)
Inductive StreamEvent : Type :=
  | Subscribed (outcome : result string unit)
  | Published (chan : string) (payload : option string)
  | ConnectionEnded
  | Polled
  | Disconnected.

(** Different jobs have different channels. *)
Lemma progress_channel_inj id id' : progress_channel id = progress_channel id' → id = id'.
Proof.
  unfold progress_channel. intros [= Hc]. apply show_Z_inj. apply (f_equal bytes) in Hc.
  rewrite !bytes_append in Hc. apply app_inv_tail in Hc. apply (f_equal of_bytes) in Hc.
  by rewrite !of_bytes_bytes in Hc.
Qed.

Section Stream.
Context `{Broadcast}.

Record Stream : Type := mkStream {
  st_task : Task;
  st_queue : Queue;
  st_open : bool;              (** the receiver is alive *)
  st_events : list string;     (** the data of the events sent *)
}.

Definition open_stream : Stream := mkStream Connecting (channel 256) true [].

(** The body of the task's loop, on one message of its subscription. *)
Definition forward (payload : option string) (s : Stream) : Stream :=
  match payload with
  | None => s
  | Some p =>
      if st_open s then mkStream Forwarding (send p (st_queue s)) true (st_events s)
      else mkStream Finished (st_queue s) false (st_events s)
  end.

(** One poll of the body: [filter_map] drops the lag notices. *)
Definition poll (s : Stream) : Stream :=
  let '(r, q) := recv (st_queue s) in
  mkStream (st_task s) q (st_open s)
    match r with Value m => st_events s ++ [m] | _ => st_events s end.

Definition stream_step (id : Z) (s : Stream) (e : StreamEvent) : Stream :=
  match e with
  | Subscribed outcome =>
      match st_task s with
      | Connecting =>
          mkStream (if is_ok outcome then Forwarding else Finished) (st_queue s) (st_open s) (st_events s)
      | _ => s
      end
  | Published chan payload =>
      if bool_decide (st_task s = Forwarding) && (chan =? progress_channel id)%string
      then forward payload s else s
  | ConnectionEnded =>
      match st_task s with
      | Forwarding => mkStream Finished (st_queue s) (st_open s) (st_events s)
      | _ => s
      end
  | Polled => if st_open s then poll s else s
  | Disconnected => mkStream (st_task s) (st_queue s) false (st_events s)
  end.

(** The body ends when the task has dropped the sender and nothing waits. *)
Definition body_ended (s : Stream) : bool :=
  bool_decide (st_task s = Finished) && match (recv (st_queue s)).1 with Empty => true | _ => false end.

Definition stream_run (id : Z) (trace : list StreamEvent) : Stream :=
  fold_left (stream_step id) trace open_stream.

(** The texts published for a job. *)
Definition progress_of (id : Z) (e : StreamEvent) : list string :=
  match e with
  | Published chan (Some p) => if (chan =? progress_channel id)%string then [p] else []
  | _ => []
  end.

(** What the task put into the queue in a step. *)
Definition forwarded_in (id : Z) (s : Stream) (e : StreamEvent) : list string :=
  if bool_decide (st_task s = Forwarding) && st_open s then progress_of id e else [].
Fixpoint forwarded (id : Z) (s : Stream) (trace : list StreamEvent) : list string :=
  match trace with
  | [] => []
  | e :: trace => forwarded_in id s e ++ forwarded id (stream_step id s e) trace
  end.

(** The queue never fills up in a run. *)
Fixpoint keeps_up (id : Z) (s : Stream) (trace : list StreamEvent) : bool :=
  match trace with
  | [] => true
  | e :: trace =>
      ((length (retained (st_queue s)) + length (forwarded_in id s e) <=? 256)%nat
       && keeps_up id (stream_step id s e) trace)
  end.

(** ** Lemmas *)

(** Messages under way: sent to the client or waiting for it. *)
Definition in_hand (s : Stream) : list string := st_events s ++ retained (st_queue s).

Lemma poll_in_hand s :
  in_hand (poll s) = in_hand s ∧ capacity (st_queue (poll s)) = capacity (st_queue s).
Proof.
  unfold poll, in_hand. destruct (recv (st_queue s)) as [r q] eqn:Hr.
  destruct (decide (missed (st_queue s) = 0%nat)) as [Hm|Hm].
  - destruct (retained (st_queue s)) as [|m l] eqn:Hl.
    + rewrite recv_empty in Hr by done. injection Hr as <- <-. cbn. by rewrite Hl.
    + destruct (recv_value _ _ _ Hm Hl) as (H1 & H2 & H3 & _). rewrite Hr in *. cbn in *. subst r.
      cbn. rewrite H3, <- app_assoc. done.
  - destruct (recv_lagged _ Hm) as (H1 & H2 & H3 & _). rewrite Hr in *. cbn in *. subst r. cbn.
    by rewrite H3.
Qed.

Lemma send_in_hand p q :
  (retained (send p q) = retained q ++ [p] ∨ retained (send p q) = tail (retained q ++ [p])) ∧
  capacity (send p q) = capacity q ∧
  ((length (retained q) < capacity q)%nat → retained (send p q) = retained q ++ [p]).
Proof.
  destruct (decide (length (retained q) < capacity q)%nat) as [Hlt|Hge].
  - destruct (send_fits p q Hlt) as (? & ? & _). auto.
  - destruct (send_full p q) as (? & ? & _); [lia|]. split_and!; [auto|done|]. intros. lia.
Qed.

(** A step keeps the messages in hand, or appends the published one and may
    lose the oldest that still waited. *)
Lemma step_in_hand id s e :
  let s' := stream_step id s e in
  in_hand s' `sublist_of` in_hand s ++ forwarded_in id s e ∧
  capacity (st_queue s') = capacity (st_queue s) ∧
  ((length (retained (st_queue s)) + length (forwarded_in id s e) ≤ capacity (st_queue s))%nat →
   in_hand s' = in_hand s ++ forwarded_in id s e).
Proof.
  assert (∀ s', in_hand s' = in_hand s → capacity (st_queue s') = capacity (st_queue s) →
    forwarded_in id s e = [] →
    in_hand s' `sublist_of` in_hand s ++ forwarded_in id s e ∧
    capacity (st_queue s') = capacity (st_queue s) ∧
    ((length (retained (st_queue s)) + length (forwarded_in id s e) ≤ capacity (st_queue s))%nat →
     in_hand s' = in_hand s ++ forwarded_in id s e)) as Hsame.
  { intros s' Hi Hc ->. rewrite app_nil_r, Hi. by split_and!. }
  assert (progress_of id e = [] → forwarded_in id s e = []) as Hnone.
  { unfold forwarded_in. intros ->. by destruct (_ && _). }
  destruct e as [outcome|chan payload| | |]; cbn [stream_step].
  - apply Hsame; [by destruct (st_task s)..|by apply Hnone].
  - destruct (bool_decide _) eqn:Ht; cbn [andb];
      [|apply Hsame; [done|done|]; unfold forwarded_in; by rewrite Ht].
    destruct (chan =? _)%string eqn:Hch;
      [|apply Hsame; [done|done|]; apply Hnone; unfold progress_of;
        rewrite Hch; by destruct payload].
    destruct payload as [p|]; [|by apply Hsame; [..|apply Hnone]]. cbn [forward].
    unfold forwarded_in. rewrite Ht. cbn [andb progress_of]. rewrite Hch.
    destruct (st_open s) eqn:Ho; [|rewrite app_nil_r; by split_and!].
    destruct (send_in_hand p (st_queue s)) as (Hcase & Hcap & Hfit). unfold in_hand. cbn.
    split_and!; [|done|intros Hle; rewrite Hfit by lia; by rewrite app_assoc].
    rewrite <- app_assoc. apply sublist_app; [done|].
    destruct Hcase as [-> | ->]; [done|]. destruct (retained (st_queue s) ++ [p]); [done|].
    by apply sublist_cons.
  - apply Hsame; [by destruct (st_task s)..|by apply Hnone].
  - destruct (poll_in_hand s). destruct (st_open s); apply Hsame; try done; by apply Hnone.
  - by apply Hsame; [..|apply Hnone].
Qed.

Lemma run_in_hand id trace s :
  capacity (st_queue s) = 256%nat →
  let s' := fold_left (stream_step id) trace s in
  in_hand s' `sublist_of` in_hand s ++ forwarded id s trace ∧
  (keeps_up id s trace = true → in_hand s' = in_hand s ++ forwarded id s trace).
Proof.
  revert s. induction trace as [|e trace IH]; intros s Hcap; cbn [fold_left forwarded keeps_up].
  { rewrite app_nil_r. done. }
  destruct (step_in_hand id s e) as (Hsub & Hc & Hfit).
  destruct (IH (stream_step id s e)) as [IHs IHk]; [congruence|]. split.
  - etransitivity; [exact IHs|]. rewrite app_assoc. by apply sublist_app.
  - intros [Hle Hk]%andb_true_iff. apply Nat.leb_le in Hle.
    rewrite IHk by done. rewrite Hfit by lia. by rewrite app_assoc.
Qed.

Lemma forwarded_published id trace s : forwarded id s trace `sublist_of` trace ≫= progress_of id.
Proof.
  revert s. induction trace as [|e trace IH]; intros s; [done|]. cbn. apply sublist_app; [|done].
  unfold forwarded_in. destruct (_ && _); [done|apply sublist_nil_l].
Qed.

Lemma run_app id trace trace' :
  stream_run id (trace ++ trace') = fold_left (stream_step id) trace' (stream_run id trace).
Proof. apply fold_left_app. Qed.

Lemma ended_delivered s : body_ended s = true → st_events s = in_hand s.
Proof.
  unfold body_ended, in_hand. intros [_ Hr]%andb_true_iff.
  destruct (decide (missed (st_queue s) = 0%nat)) as [Hm|Hm];
    [|by destruct (recv_lagged _ Hm) as [Hl _]; rewrite Hl in Hr].
  destruct (retained (st_queue s)) as [|m l] eqn:Hl; [by rewrite app_nil_r|].
  destruct (recv_value _ _ _ Hm Hl) as [Hv _]. by rewrite Hv in Hr.
Qed.

(** Polling delivers what waits. *)
Lemma polls_deliver id n s :
  st_open s = true → (length (retained (st_queue s)) < n)%nat →
  st_events (fold_left (stream_step id) (replicate n Polled) s) = in_hand s.
Proof.
  assert (∀ m t, st_open t = true → missed (st_queue t) = 0%nat →
    (length (retained (st_queue t)) ≤ m)%nat →
    st_events (fold_left (stream_step id) (replicate m Polled) t) = in_hand t) as Hcalm.
  { induction m as [|m IH]; intros t Ho Hm Hl; cbn.
    - unfold in_hand. destruct (retained (st_queue t)); [by rewrite app_nil_r|cbn in Hl; lia].
    - rewrite Ho. rewrite <- (proj1 (poll_in_hand t)). unfold poll.
      destruct (retained (st_queue t)) as [|x l] eqn:Hr.
      + rewrite recv_empty by done. apply IH; cbn; [done..|]. rewrite Hr. cbn. lia.
      + destruct (recv_value _ _ _ Hm Hr) as (H1 & _ & H3 & H4).
        destruct (recv (st_queue t)) as [r q]. cbn in *. apply IH; cbn; [done..|]. rewrite H3. lia. }
  intros Ho Hl. destruct n as [|n]; [lia|].
  destruct (decide (missed (st_queue s) = 0%nat)) as [Hm|Hm]; [by apply Hcalm; [..|lia]|].
  cbn. rewrite Ho. rewrite <- (proj1 (poll_in_hand s)). unfold poll.
  destruct (recv_lagged _ Hm) as (_ & _ & H3 & H4). destruct (recv (st_queue s)) as [r q].
  cbn in *. apply Hcalm; cbn; [done..|]. rewrite H3. lia.
Qed.
End Stream.

Section Theorems.
Context `{Broadcast}.

(** C28: a job's progress stream is faithful: whatever happens, what the
    client gets is, in their order and without repetition, among the texts
    published for exactly that job; as long as at most 256 messages wait, it
    loses none of those the task saw; and a client that stays and polls gets
    everything that waits, so that it has then got all of them. *)
Theorem progress_stream_is_faithful id trace :
  let s := stream_run id trace in
  let published := trace ≫= progress_of id in
  (∀ j text, progress_of id (Published (progress_channel j) (Some text))
             = if bool_decide (j = id) then [text] else []) ∧
  st_events s `sublist_of` published ∧
  (body_ended s = true → keeps_up id open_stream trace = true →
   st_events s = forwarded id open_stream trace) ∧
  (∀ n, st_open s = true → (length (retained (st_queue s)) < n)%nat →
     st_events (stream_run id (trace ++ replicate n Polled)) `sublist_of` published ∧
     (keeps_up id open_stream trace = true →
      st_events (stream_run id (trace ++ replicate n Polled)) = forwarded id open_stream trace)).
Proof.
  intros s published. destruct (channel_spec 256) as (Hcap & Hret & _).
  destruct (run_in_hand id trace open_stream Hcap) as [Hsub Hkeep].
  unfold in_hand at 2 in Hsub. unfold in_hand at 2 in Hkeep. cbn in Hsub, Hkeep.
  rewrite Hret in Hsub, Hkeep. cbn in Hsub, Hkeep.
  assert (in_hand s `sublist_of` published) as Hpub.
  { etransitivity; [exact Hsub|apply forwarded_published]. }
  split.
  { intros j text. cbn [progress_of]. case_bool_decide as Hj; [by subst; rewrite String.eqb_refl|].
    destruct (_ =? _)%string eqn:Hc; [|done]. bool_prop. by apply progress_channel_inj in Hc. }
  split; [etransitivity; [|exact Hpub]; unfold in_hand; by apply sublist_inserts_r|].
  split; [intros He Hk; rewrite (ended_delivered s He); by apply Hkeep|].
  intros n Ho Hn. rewrite run_app. fold s. rewrite polls_deliver by done. split; [done|].
  intros Hk. by apply Hkeep.
Qed.
End Theorems.


(** ** Witness *)

(** A queue as a bounded list. *)
Record ListQueue : Type := mkListQueue { lq_capacity : nat; lq_items : list string; lq_missed : nat }.

Definition lq_send (m : string) (q : ListQueue) : ListQueue :=
  if (length (lq_items q) <? lq_capacity q)%nat
  then mkListQueue (lq_capacity q) (lq_items q ++ [m]) (lq_missed q)
  else mkListQueue (lq_capacity q) (tail (lq_items q ++ [m])) (S (lq_missed q)).
Definition lq_recv (q : ListQueue) : Received * ListQueue :=
  match lq_missed q, lq_items q with
  | S n, _ => (Lagged (S n), mkListQueue (lq_capacity q) (lq_items q) 0)
  | 0%nat, m :: l => (Value m, mkListQueue (lq_capacity q) l 0)
  | 0%nat, [] => (Empty, q)
  end.

#[refine] Definition list_broadcast : Broadcast := {|
  Queue := ListQueue; channel n := mkListQueue n [] 0; send := lq_send; recv := lq_recv;
  capacity := lq_capacity; retained := lq_items; missed := lq_missed |}.
Proof.
  - done.
  - intros m q Hlt. unfold lq_send. by rewrite (proj2 (Nat.ltb_lt _ _)).
  - intros m q Hge. unfold lq_send. by rewrite (proj2 (Nat.ltb_ge _ _)).
  - intros q Hm. unfold lq_recv. by destruct (lq_missed q).
  - intros q m l Hm Hl. unfold lq_recv. by rewrite Hm, Hl.
  - intros q Hm Hl. unfold lq_recv. by rewrite Hm, Hl.
Defined.

Definition sample_trace : list StreamEvent :=
  [Published (progress_channel 7) (Some "early"); Subscribed (Ok tt);
   Published (progress_channel 7) (Some "1/2"); Published (progress_channel 77) (Some "other");
   Polled; Published (progress_channel 7) None; Published (progress_channel 7) (Some "2/2")].

Lemma progress_stream_is_faithful_witness :
  st_events (@stream_run list_broadcast 7 (sample_trace ++ replicate 2 Polled)) = ["1/2"; "2/2"].
Proof.
  destruct (@progress_stream_is_faithful list_broadcast 7 sample_trace) as (_ & _ & _ & Hpoll).
  destruct (Hpoll 2%nat) as [_ Hall]; [reflexivity|vm_compute; lia|].
  rewrite Hall; reflexivity.
Defined.
