(* ===== verification/Api.v ===== *)
(** * The API as a whole: [apps/api/src/lib.rs], [main.rs] and the handlers'
    extractors

    A request is a handler with its extracted arguments.  [handle] runs the
    handler on the state of the whole process, [serve] checks the bearer token
    first and turns the outcome into a response.  Extracting the arguments
    from the request (serde, axum) is not modelled; [Router] finds the
    handler. *)
From S2P Require Import Prelude RustStr Json Error License LicenseFile LicenseIO Db World Sources JobSource Jobs RuleTypes Templates Secrets Schedules Batches Sampling SampleCsv SampleXml Net Files Specs MasterKey Suggest DryRun LicenseRoutes Sessions Router Tenancy TenancyRules.
From Stdlib Require Import Ascii.

(** ** The state and the ways into it *)

(** The license process, and the database with the services outside. *)
Record System : Type := mkSystem { sy_proc : Proc; sy_net : Net }.
#[export] Instance world_System : HasWorld System := λ s, net_world (sy_net s).

Abbreviation SysM := (stM System Stop).

Definition in_stop {A} (m : StopM A) : SysM A := λ s,
  let '(r, n) := m (sy_net s) in (r, mkSystem (sy_proc s) n).
Definition in_net {A} (m : NetM A) : SysM A := in_stop (safe m).
Definition in_api {A} (m : Api A) : SysM A := in_net (api m).
Definition in_node {A} (m : NodeM A) : SysM A := λ s,
  let '(r, n) := m (mkNode (sy_proc s) (net_world (sy_net s))) in
  (map_err Fails r, mkSystem (n_proc n) (mkNet (n_world n) (net_replies (sy_net s)) (net_sent (sy_net s)))).
Definition in_io {A} (m : io A) : SysM A := in_node (on_proc_ok m).

(** ** Responses *)
Inductive Response : Type :=
  | RJson (status : Z) (body : value)
  | RText (status : Z) (text : string)
  | RCsv (disposition content : string)
  | REvents (job : Z)                       (** the progress stream of a job *)
  | RRedirect (location : string)
  | RDropped.                               (** the handler panicked *)

Definition ok_json (v : value) : Response := RJson 200 v.

(** ** Requests: a handler and its arguments *)
Inductive Call : Type :=
  | DoHealth | DoReady | DoAuthorizeWork
  | DoLogin (req : LoginRequest) | DoMe
  | DoListTemplates (q : ListQuery) | DoCreateTemplate (req : CreateRequest) | DoGetTemplate (id : Z)
  | DoDeleteTemplate (id : Z) | DoListVersions (id : Z) | DoCreateVersion (id : Z) (req : CreateRequest)
  | DoPublishTemplate (id : Z)
  | DoUploadFile (parts : list (result string Field)) | DoSampleFile (req : SampleRequest)
  | DoListConnectors | DoCreateConnector (req : CreateConnector) | DoGetConnector (id : Z)
  | DoDeleteConnector (id : Z) | DoTestConnector (id : Z) | DoOauthCallback
  | DoListJobs (q : JobsListQuery) | DoCreateJob (req : JobCreate) | DoGetJob (id : Z) | DoPauseJob (id : Z)
  | DoResumeJob (id : Z) | DoCancelJob (id : Z) | DoListRows (id : Z) (q : RowsQuery)
  | DoListRowSteps (id row_index : Z) | DoRetryRow (id row_index : Z) (body : option RetryOptions)
  | DoRetryAllFailed (id : Z) (body : option RetryOptions) | DoDownloadResults (id : Z) (failed : bool)
  | DoRetryExport (id : Z) | DoStreamUpdates (id : Z)
  | DoListSecrets | DoGetSecret (name : string) | DoPutSecret (name value : string) | DoRevokeSecret (name : string)
  | DoListBatches (q : BatchesQuery) | DoCreateBatch (req : BatchCreate) | DoGetBatch (id : Z)
  | DoListSchedules | DoCreateSchedule (req : CreateSchedule) | DoGetSchedule (id : Z)
  | DoUpdateSchedule (id : Z) (req : UpdateSchedule) | DoDeleteSchedule (id : Z) | DoPauseSchedule (id : Z)
  | DoResumeSchedule (id : Z) | DoTriggerSchedule (id : Z) | DoListRuns (id : Z)
  | DoDryRun (template : value) (rows : list value)
  | DoSpec | DoDocs
  | DoListSpecs | DoCreateSpec (req : CreateSpec) | DoGetSpec (id : Z) | DoDeleteSpec (id : Z)
  | DoListOperations (id : Z) | DoParsePreview (spec : value)
  | DoGetConfig | DoPutConfig (req : PutConfig) | DoSuggestMapping (req : SuggestRequest)
  | DoLicenseStatus | DoStartTrial (email : string).

(** The parameters of a path. *)
Inductive Param : Type := PId (id : Z) | PName (name : string).
Definition param_text (p : Param) : string := match p with PId id => show_Z id | PName s => s end.

(** Method, route, handler and path parameters of a call. *)
Definition endpoint (c : Call) : Method * string * Handler * list Param :=
  match c with
  | DoHealth => (GET, "/healthz", H_health, [])
  | DoReady => (GET, "/readyz", H_ready, [])
  | DoAuthorizeWork => (GET, "/internal/license/authorize", H_authorize_work, [])
  | DoLogin _ => (POST, "/auth/login", H_login, [])
  | DoMe => (GET, "/auth/me", H_me, [])
  | DoListTemplates _ => (GET, "/rule-templates", H_list_templates, [])
  | DoCreateTemplate _ => (POST, "/rule-templates", H_create_template, [])
  | DoGetTemplate id => (GET, "/rule-templates/:id", H_get_template, [PId id])
  | DoDeleteTemplate id => (DELETE, "/rule-templates/:id", H_delete_template, [PId id])
  | DoListVersions id => (GET, "/rule-templates/:id/versions", H_list_versions, [PId id])
  | DoCreateVersion id _ => (POST, "/rule-templates/:id/versions", H_create_version, [PId id])
  | DoPublishTemplate id => (POST, "/rule-templates/:id/publish", H_publish_template, [PId id])
  | DoUploadFile _ => (POST, "/files", H_upload_file, [])
  | DoSampleFile _ => (POST, "/files/sample", H_sample_file, [])
  | DoListConnectors => (GET, "/connectors", H_list_connectors, [])
  | DoCreateConnector _ => (POST, "/connectors", H_create_connector, [])
  | DoGetConnector id => (GET, "/connectors/:id", H_get_connector, [PId id])
  | DoDeleteConnector id => (DELETE, "/connectors/:id", H_delete_connector, [PId id])
  | DoTestConnector id => (POST, "/connectors/:id/test", H_test_connector, [PId id])
  | DoOauthCallback => (GET, "/connectors/salesforce/oauth/callback", H_sf_oauth_callback, [])
  | DoListJobs _ => (GET, "/jobs", H_list_jobs, [])
  | DoCreateJob _ => (POST, "/jobs", H_create_job, [])
  | DoGetJob id => (GET, "/jobs/:id", H_get_job, [PId id])
  | DoPauseJob id => (POST, "/jobs/:id/pause", H_pause_job, [PId id])
  | DoResumeJob id => (POST, "/jobs/:id/resume", H_resume_job, [PId id])
  | DoCancelJob id => (POST, "/jobs/:id/cancel", H_cancel_job, [PId id])
  | DoListRows id _ => (GET, "/jobs/:id/rows", H_list_rows, [PId id])
  | DoListRowSteps id i => (GET, "/jobs/:id/rows/:row_index/steps", H_list_row_steps, [PId id; PId i])
  | DoRetryRow id i _ => (POST, "/jobs/:id/rows/:row_index/retry", H_retry_row, [PId id; PId i])
  | DoRetryAllFailed id _ => (POST, "/jobs/:id/retry-failed", H_retry_all_failed, [PId id])
  | DoDownloadResults id _ => (GET, "/jobs/:id/results", H_download_results, [PId id])
  | DoRetryExport id => (POST, "/jobs/:id/export", H_retry_export, [PId id])
  | DoStreamUpdates id => (GET, "/jobs/:id/stream", H_stream_updates, [PId id])
  | DoListSecrets => (GET, "/secrets", H_list_secrets, [])
  | DoGetSecret name => (GET, "/secrets/:name", H_get_secret, [PName name])
  | DoPutSecret name _ => (PUT, "/secrets/:name", H_put_secret, [PName name])
  | DoRevokeSecret name => (DELETE, "/secrets/:name", H_revoke_secret, [PName name])
  | DoListBatches _ => (GET, "/batches", H_list_batches, [])
  | DoCreateBatch _ => (POST, "/batches", H_create_batch, [])
  | DoGetBatch id => (GET, "/batches/:id", H_get_batch, [PId id])
  | DoListSchedules => (GET, "/schedules", H_list_schedules, [])
  | DoCreateSchedule _ => (POST, "/schedules", H_create_schedule, [])
  | DoGetSchedule id => (GET, "/schedules/:id", H_get_schedule, [PId id])
  | DoUpdateSchedule id _ => (PUT, "/schedules/:id", H_update_schedule, [PId id])
  | DoDeleteSchedule id => (DELETE, "/schedules/:id", H_delete_schedule, [PId id])
  | DoPauseSchedule id => (POST, "/schedules/:id/pause", H_pause_schedule, [PId id])
  | DoResumeSchedule id => (POST, "/schedules/:id/resume", H_resume_schedule, [PId id])
  | DoTriggerSchedule id => (POST, "/schedules/:id/trigger", H_trigger_schedule, [PId id])
  | DoListRuns id => (GET, "/schedules/:id/runs", H_list_runs, [PId id])
  | DoDryRun _ _ => (POST, "/dry-run", H_dry_run, [])
  | DoSpec => (GET, "/openapi.json", H_spec, [])
  | DoDocs => (GET, "/docs", H_docs, [])
  | DoListSpecs => (GET, "/openapi-specs", H_list_specs, [])
  | DoCreateSpec _ => (POST, "/openapi-specs", H_create_spec, [])
  | DoGetSpec id => (GET, "/openapi-specs/:id", H_get_spec, [PId id])
  | DoDeleteSpec id => (DELETE, "/openapi-specs/:id", H_delete_spec, [PId id])
  | DoListOperations id => (GET, "/openapi-specs/:id/operations", H_list_operations, [PId id])
  | DoParsePreview _ => (POST, "/openapi-specs/parse-preview", H_parse_preview, [])
  | DoGetConfig => (GET, "/llm-config", H_get_config, [])
  | DoPutConfig _ => (PUT, "/llm-config", H_put_config, [])
  | DoSuggestMapping _ => (POST, "/mapping-suggestions", H_suggest_mapping, [])
  | DoLicenseStatus => (GET, "/license", H_license_status, [])
  | DoStartTrial _ => (POST, "/license/trial", H_start_trial, [])
  end.

(** ** Response bodies *)

(** [ListResponse] of templates, connectors and schedules. *)
Definition list_response (items : list value) : value := json_obj [("items", VArray items)].

Definition openapi_ok (summary : string) : value := json_obj
  [("summary", VString summary); ("responses", json_obj [("200", json_obj [("description", VString "ok")])])].
Definition openapi_op (summary : string) : value := json_obj [("summary", VString summary)].

(** [routes/openapi.rs]; the version is the crate's. *)
Definition spec (version : string) : value := json_obj
  [("openapi", VString "3.0.3");
   ("info", json_obj [("title", VString "Migration Platform API"); ("version", VString version)]);
   ("paths", json_obj
     [("/healthz", json_obj [("get", openapi_ok "liveness")]);
      ("/readyz", json_obj [("get", openapi_ok "readiness")]);
      ("/auth/login", json_obj [("post", openapi_ok "issue JWT")]);
      ("/auth/me", json_obj [("get", openapi_ok "current user")]);
      ("/rule-templates", json_obj [("get", openapi_op "list"); ("post", openapi_op "create")]);
      ("/jobs", json_obj [("get", openapi_op "list"); ("post", openapi_op "create")]);
      ("/jobs/{id}/stream", json_obj [("get", openapi_op "SSE progress")]);
      ("/jobs/{id}/rows/{row_index}/retry", json_obj [("post", openapi_op "retry one row; body {from_start, confirm_not_applied}; 409 while the job or another retry runs, or for an unresolved row without confirm_not_applied")]);
      ("/jobs/{id}/retry-failed", json_obj [("post", openapi_op "retry failed rows (not unresolved ones); 409 while the job or another retry runs")]);
      ("/jobs/{id}/pause", json_obj [("post", openapi_op "pause a running job; 409 in any other state")]);
      ("/jobs/{id}/resume", json_obj [("post", openapi_op "resume a paused job; 409 in any other state")]);
      ("/jobs/{id}/cancel", json_obj [("post", openapi_op "cancel a pending, running or paused job; 409 once finished")]);
      ("/jobs/{id}/export", json_obj [("post", openapi_op "re-run only the results export of a finished job (no destination calls); 202, or 409 while the job or another export runs")]);
      ("/secrets", json_obj [("get", openapi_op "list destination secret names (never values)")]);
      ("/secrets/{name}", json_obj [("get", openapi_op "secret metadata"); ("put", openapi_op "create or rotate (admin); body {value}"); ("delete", openapi_op "revoke (admin)")]);
      ("/schedules", json_obj [("get", openapi_op "list"); ("post", openapi_op "create")])])].

Definition column_to_value (c : SampleColumn) : value := json_obj
  [("name", VString (col_name c)); ("type", VString (col_type c)); ("nullable", VBool (col_nullable c))].

Definition source_echo (id : Z) (bucket key : string) : value := json_obj
  [("source_id", json_int id); ("bucket", VString bucket); ("key", VString key)].

Definition sample_response (r : SampleResponse) : value := json_obj
  [("format", VString (sp_format (rs_sample r)));
   ("columns", VArray (map column_to_value (sp_columns (rs_sample r))));
   ("rows", VArray (map VObject (sp_rows (rs_sample r)))); ("row_count", json_int (sp_row_count (rs_sample r)));
   ("truncated", VBool (sp_truncated (rs_sample r))); ("bytes_read", json_int (sp_bytes_read (rs_sample r)));
   ("source", source_echo (rs_source_id r) (rs_bucket r) (rs_key r))].

Definition login_response (r : LoginResponse) : value := json_obj
  [("token", VString (ls_token r)); ("role", VString (ls_role r)); ("org_id", json_int (ls_org_id r));
   ("user_id", json_int (ls_user_id r))].
Definition me_response (r : MeResponse) : value := json_obj
  [("id", json_int (me_id r)); ("email", VString (me_email r)); ("org_id", json_int (me_org_id r));
   ("role", VString (me_role r))].

Section Bodies.
Context `{Rfc3339}.

Definition secret_to_value (m : SecretMeta) : value := json_obj
  [("name", VString (sm_name m)); ("created_at", json_time (sm_created_at m));
   ("updated_at", json_time (sm_updated_at m)); ("revoked_at", json_opt_time (sm_revoked_at m))].

Definition rows_response (r : list JobRowDetail * option Z) : value := json_obj
  [("items", VArray (map job_row_detail_to_value r.1)); ("next_cursor", json_opt_int r.2)].

Definition stage_to_value (s : BatchStageRow) : value := json_obj
  [("id", json_int (bs_id s)); ("batch_id", json_int (bs_batch_id s));
   ("stage_index", json_int (bs_stage_index s)); ("stage_key", VString (bs_stage_key s));
   ("file_path", VString (bs_file_path s)); ("template_key", VString (bs_template_key s));
   ("rule_template_id", json_opt_int (bs_rule_template_id s));
   ("rule_template_version", json_opt_int (bs_rule_template_version s));
   ("job_id", json_opt_int (bs_job_id s)); ("status", VString (bs_status s));
   ("on_stage_failure", json_opt_str (bs_on_stage_failure s)); ("depends_on", json_strs (bs_depends_on s));
   ("error_message", json_opt_str (bs_error_message s)); ("created_at", json_time (bs_created_at s));
   ("updated_at", json_time (bs_updated_at s))].

(** [BatchDetail]: the batch's fields and its stages. *)
Definition batch_detail (r : BatchRow * list BatchStageRow) : value :=
  index_assign "stages" (VArray (map stage_to_value r.2)) (batch_to_value r.1).
End Bodies.

(** The values a request draws: a uuid and the nonce of an encryption. *)
Record Fresh : Type := mkFresh { fr_uuid : string; fr_nonce : string }.

(** What the handlers take from outside: the process's settings, the parsers
    and validators of crates, the object store's reads, and the accounts as a
    statement sees them. *)
Class Setup `{JwtCrate} := {
  (** the bridge, and texts of crates *)
  configured : bool; status_display : Z → string; json_error : string → string;
  (** the license process: environment, embedded key, clock, files *)
  env : string → option string; embedded_pem : string; clock : nat → Z; client_builds : bool;
  writable : string → bool; product_version : string; pid : string;
  (** parsers and validators *)
  schema_check : value → result string unit; shape_error : value → string;
  cron_ok : string → bool; interval_ok : string → bool; rfc3339_ok : string → bool; date_ok : string → bool;
  parse_url : string → result string Url; read_csv : ascii → string → CsvReader; read_xml : string → Events;
  email_re : string → string → string; long_digits_re : string → string → string;
  phone_re : string → string → string; csv_record : list string → string;
  (** the database's text order and CITEXT equality; stores *)
  collate : string → string → bool; email_eq : string → string → bool;
  s3_get : string → string → result string string; sha256_hex : string → string;
  accounts : result string Accounts;
  (** settings *)
  minio_bucket : string; watch_allowed_buckets : list string; allow_private : bool;
  bridge_token : option string; schema_text : string; master_key : MasterKey; jwt_keys : JwtKeys;
}.

Section Serve.
Context `{JsonText} `{Rfc3339} `{Crypto} `{Aead} `{Setup} `{!Argon2}.

(** The license gate as it stands when the handler starts. *)
Definition gate : SysM (ApiResult unit) :=
  p ← in_io st_get; t ← in_io (now clock); mret (require_licensed p t).

Definition json_of {A} (f : A → value) (m : SysM A) : SysM Response := a ← m; mret (ok_json (f a)).
Definition as_json (m : SysM value) : SysM Response := json_of id m.

(** [stream_updates]: the check before the stream opens. *)
Definition stream_updates (c : Claims) (id : Z) : SysM Response :=
  _ ← in_api (require_owned c id); mret (REvents id).

Definition csv_attachment (r : string * string) : Response := RCsv r.1 r.2.

(** The handlers behind the bearer token. *)
Definition handle (fresh : Fresh) (c : Claims) (call : Call) : SysM Response :=
  let uuid := fr_uuid fresh in
  let seal := encrypt master_key (fr_nonce fresh) in
  licensed ← gate;
  match call with
  | DoMe => json_of me_response (in_stop (safe (lift (me accounts c))))
  | DoListTemplates q => json_of (λ l, list_response (map template_to_value l)) (in_api (list_templates collate c q))
  | DoCreateTemplate req => json_of template_to_value (in_api (create_template schema_check shape_error uuid c req))
  | DoGetTemplate id => json_of template_to_value (in_api (get_template c id))
  | DoDeleteTemplate id => as_json (in_api (delete_template c id))
  | DoListVersions id => json_of (λ l, list_response (map template_to_value l)) (in_api (list_versions c id))
  | DoCreateVersion id req => json_of template_to_value (in_api (create_version schema_check shape_error c id req))
  | DoPublishTemplate id => json_of template_to_value (in_api (publish_template c id))
  | DoUploadFile parts => as_json (in_net (upload_file minio_bucket sha256_hex c parts))
  | DoSampleFile req =>
      json_of sample_response (in_net (sample_file minio_bucket json_error read_csv read_xml rfc3339_ok date_ok c req))
  | DoListConnectors => json_of (λ l, list_response (map connector_to_value l)) (in_api (list_connectors collate c))
  | DoCreateConnector req =>
      json_of connector_to_value (in_api (create_connector seal minio_bucket watch_allowed_buckets c req))
  | DoGetConnector id => json_of connector_to_value (in_api (get_connector c id))
  | DoDeleteConnector id => as_json (in_api (delete_connector c id))
  | DoTestConnector id => as_json (in_api (test_connector configured status_display c id))
  | DoListJobs q => as_json (in_api (list_jobs c q))
  | DoCreateJob req => json_of job_to_value (in_api (create_job configured status_display licensed uuid c req))
  | DoGetJob id => as_json (in_api (get_job c id))
  | DoPauseJob id => json_of job_to_value (in_api (pause_job configured status_display c id))
  | DoResumeJob id => json_of job_to_value (in_api (resume_job configured status_display licensed c id))
  | DoCancelJob id => json_of job_to_value (in_api (cancel_job configured status_display c id))
  | DoListRows id q => json_of rows_response (in_api (list_rows c id q))
  | DoListRowSteps id i => as_json (in_api (list_row_steps c id i))
  | DoRetryRow id i body => as_json (in_api (retry_row configured status_display licensed c id i body))
  | DoRetryAllFailed id body => as_json (in_api (retry_all_failed configured status_display licensed c id body))
  | DoDownloadResults id failed =>
      r ← in_api (download_results s3_get csv_record minio_bucket c id failed); mret (csv_attachment r)
  | DoRetryExport id => v ← in_api (retry_export configured status_display c id); mret (RJson 202 v)
  | DoStreamUpdates id => stream_updates c id
  | DoListSecrets => json_of (λ l, list_response (map secret_to_value l)) (in_api (list_secrets collate c))
  | DoGetSecret name => json_of secret_to_value (in_api (get_secret c name))
  | DoPutSecret name v => json_of secret_to_value (in_api (put_secret seal c name v))
  | DoRevokeSecret name => json_of secret_to_value (in_api (revoke_secret c name))
  | DoListBatches q => as_json (in_api (list_batches c q))
  | DoCreateBatch req => json_of batch_to_value (in_api (create_batch configured status_display licensed uuid c req))
  | DoGetBatch id => json_of batch_detail (in_api (get_batch c id))
  | DoListSchedules => json_of (λ l, list_response (map schedule_to_value l)) (in_api (list_schedules collate c))
  | DoCreateSchedule req => json_of schedule_to_value
      (in_api (create_schedule configured status_display licensed cron_ok interval_ok uuid c req))
  | DoGetSchedule id => json_of schedule_to_value (in_api (get_schedule c id))
  | DoUpdateSchedule id req => json_of schedule_to_value
      (in_api (update_schedule configured status_display licensed cron_ok interval_ok c id req))
  | DoDeleteSchedule id => as_json (in_api (delete_schedule configured status_display c id))
  | DoPauseSchedule id => as_json (in_api (pause_schedule configured status_display c id))
  | DoResumeSchedule id => as_json (in_api (resume_schedule configured status_display licensed c id))
  | DoTriggerSchedule id => as_json (in_api (trigger_schedule configured status_display licensed c id))
  | DoListRuns id => as_json (in_api (list_runs c id))
  | DoDryRun template rows => mret (ok_json (dry_run template rows))
  | DoListSpecs => as_json (in_api (list_specs collate c))
  | DoCreateSpec req => as_json (in_net (create_spec parse_url json_error status_display allow_private c req))
  | DoGetSpec id => as_json (in_api (get_spec c id))
  | DoDeleteSpec id => as_json (in_api (delete_spec c id))
  | DoListOperations id => as_json (in_api (list_operations parse_url c id))
  | DoParsePreview doc => as_json (in_api (parse_preview parse_url doc))
  | DoGetConfig => as_json (in_api (get_config c))
  | DoPutConfig req => as_json (in_api (put_config seal c req))
  | DoSuggestMapping req => as_json (in_stop (suggest_mapping schema_check shape_error parse_url status_display
      json_error email_re long_digits_re phone_re schema_text master_key c req))
  | DoLicenseStatus => as_json (in_io (license_status env clock c))
  | DoStartTrial email => as_json (in_node (LicenseRoutes.start_trial env embedded_pem clock client_builds writable
      product_version pid status_display c email))
  | DoHealth | DoReady | DoAuthorizeWork | DoLogin _ | DoOauthCallback | DoSpec | DoDocs => throw (Fails NotFound)
  end.

(** The handlers without a bearer token. *)
Definition handle_public (header : option string) (call : Call) : option (SysM Response) :=
  match call with
  | DoHealth => Some (mret (ok_json health))
  | DoReady => Some (r ← in_api ready; mret (RJson r.1 r.2))
  | DoAuthorizeWork => Some (r ← in_io (authorize_work clock bridge_token header); mret (RJson r.1 r.2))
  | DoLogin req => Some (t ← in_io (now clock);
      json_of login_response (in_stop (safe (lift (login email_eq jwt_keys accounts t req)))))
  | DoOauthCallback => Some (mret (ok_json sf_oauth_callback))
  | DoSpec => Some (mret (ok_json (spec product_version)))
  | DoDocs => Some (mret (RRedirect "/docs/"))
  | _ => None
  end.

Definition reject (r : Rejection) : Response :=
  match r with
  | PlainText status text => RText status text
  | AsError e => let '(status, body) := into_response e in RJson status body
  end.

(** What the client receives. *)
Definition respond (r : result Stop Response) : Response :=
  match r with
  | Ok resp => resp
  | Err (Fails e) => let '(status, body) := into_response e in RJson status body
  | Err Panics => RDropped
  end.

Definition run (m : SysM Response) (s : System) : Response * System :=
  let '(r, s') := m s in (respond r, s').

(** [header] is the Authorization header when it is printable; the extractor
    of the claims comes first in every handler. *)
Definition serve (fresh : Fresh) (header : option string) (call : Call) : System → Response * System :=
  run match handle_public header call with
      | Some m => m
      | None =>
          t ← in_io (now clock);
          match authenticate jwt_keys t header with
          | Err r => mret (reject r)
          | Ok c => handle fresh c call
          end
      end.
End Serve.
