(* ===== verification/Traces.v ===== *)
(** * What a handler leaves in the history, and what it asks of the bridge

    A program logic over handlers of all state types: every own step of the
    database satisfies [R], every request sent to the bridge satisfies [K].
    [WorkGate] uses it for the requests that begin work, [AuditTrail] for the
    steps that change something. *)
From S2P Require Import Prelude RustStr Json Error LicenseIO Db World Net MasterKey Suggest LicenseRoutes TenancyRules Api.
From Stdlib Require Import Ascii.

Section Judgement.
Context (R : Db → Db → Prop) (K : string * value → Prop).

(** The steps and requests between two states. *)
Definition leaves (w w' : World) : Prop :=
  did R w w' ∧ ∃ l, w_calls w' = w_calls w ++ l ∧ Forall K l.

(** Between two states other transactions step only as the script says: the
    database moves by their steps and by own ones. *)
Definition interleaved (w w' : World) : Prop :=
  (∃ k, w_turns w' = drop k (w_turns w)) ∧
  ∀ E, turns_in E w → rtc (λ a b, E a b ∨ R a b) (w_db w) (w_db w').

Definition ran (w w' : World) : Prop := leaves w w' ∧ interleaved w w'.

Definition traces {S E A} `{HasWorld S} (m : stM S E A) : Prop := ∀ s, ran (world s) (world (m s).2).

Lemma leaves_refl w : leaves w w.
Proof. split; [apply did_refl|]. exists []. by rewrite app_nil_r. Qed.
Lemma leaves_trans w1 w2 w3 : leaves w1 w2 → leaves w2 w3 → leaves w1 w3.
Proof.
  intros (Hd & l & Hl & HK) (Hd' & l' & Hl' & HK'). split; [by eapply did_trans|]. exists (l ++ l').
  rewrite Hl', Hl, app_assoc. split; [done|]. by apply Forall_app.
Qed.

Lemma interleaved_stay w w' : w_turns w' = w_turns w → w_db w' = w_db w → interleaved w w'.
Proof. intros Ht Hd. split; [by exists 0%nat|]. by rewrite Hd. Qed.
Lemma interleaved_trans w1 w2 w3 : interleaved w1 w2 → interleaved w2 w3 → interleaved w1 w3.
Proof.
  intros [[k Hk] Hr] [[k' Hk'] Hr']. split; [exists (k + k')%nat; by rewrite Hk', Hk, drop_drop|].
  intros E HE. etrans; [by apply Hr|]. apply Hr'. by eapply turns_in_drop.
Qed.
Lemma ran_stay w w' :
  w_hist w' = w_hist w → w_calls w' = w_calls w → w_turns w' = w_turns w → w_db w' = w_db w → ran w w'.
Proof.
  intros Hh Hc Ht Hd. split; [|by apply interleaved_stay]. split; [by apply did_none|].
  exists []. by rewrite Hc, app_nil_r.
Qed.
Lemma ran_refl w : ran w w.
Proof. by apply ran_stay. Qed.
Lemma ran_trans w1 w2 w3 : ran w1 w2 → ran w2 w3 → ran w1 w3.
Proof. intros [? ?] [? ?]. split; [by eapply leaves_trans|by eapply interleaved_trans]. Qed.

Section Rules.
Context {S E : Type} `{HasWorld S}.

Lemma traces_same {A} (m : stM S E A) : (∀ s, world (m s).2 = world s) → traces m.
Proof. intros Hm s. rewrite Hm. apply ran_refl. Qed.
Lemma traces_leaves {A} (m : stM S E A) s : traces m → leaves (world s) (world (m s).2).
Proof. intros Hm. apply Hm. Qed.
Lemma traces_bind {A B} (m : stM S E A) (f : A → stM S E B) : traces m → (∀ a, traces (f a)) → traces (m ≫= f).
Proof.
  intros Hm Hf s. specialize (Hm s). unfold mbind, stM_bind. destruct (m s) as [[a|e] s']; [|done].
  eapply ran_trans; [exact Hm|apply Hf].
Qed.
Lemma traces_ret {A} (a : A) : traces (mret a : stM S E A).
Proof. by apply traces_same. Qed.
Lemma traces_throw {A} e : traces (throw e : stM S E A).
Proof. by apply traces_same. Qed.
Lemma traces_lift {A} (r : result E A) : traces (lift r : stM S E A).
Proof. by apply traces_same. Qed.
Lemma traces_guard b e : traces (guard_err b e : stM S E unit).
Proof. apply traces_same. by destruct b. Qed.
Lemma traces_attempt {A F} (m : stM S E A) : traces m → traces (attempt m : stM S F (result E A)).
Proof. intros Hm s. specialize (Hm s). unfold attempt. by destruct (m s). Qed.
Lemma traces_with_err {A F} (f : E → F) (m : stM S E A) : traces m → traces (with_err f m).
Proof. intros Hm s. specialize (Hm s). unfold with_err. by destruct (m s). Qed.
End Rules.

(** Statements *)
Lemma transaction_calls {A} (f : Db → ApiResult (A * Db)) w : w_calls (transaction f w).2 = w_calls w.
Proof.
  unfold transaction. destruct (next_turn w) as [t ts].
  destruct (t_fault t) as [[[] e]|]; [|done|]; by destruct (f (t_env t (w_db w))) as [[]|].
Qed.
Lemma traces_transaction {A} (f : Db → ApiResult (A * Db)) :
  (∀ d a d', f d = Ok (a, d') → R d d') → traces (transaction f).
Proof.
  intros Hf w. destruct (writes_transaction R f Hf w) as ((h & Hh & HR & _) & Hi). split; [|exact Hi].
  split; [by exists h|]. exists []. rewrite app_nil_r. split; [|done]. apply transaction_calls.
Qed.
Lemma traces_sql {A} (f : Db → result string (A * Db)) : (∀ d a d', f d = Ok (a, d') → R d d') → traces (sql f).
Proof.
  intros Hf w. rewrite sql_transaction. apply traces_transaction. intros d a d' Hd%map_err_Ok. by eapply Hf.
Qed.
Lemma traces_update {A} (f : Db → A * Db) : (∀ d, R d (f d).2) → traces (update f).
Proof. intros Hf. apply traces_sql. intros d a d' [= Hd]. specialize (Hf d). by rewrite Hd in Hf. Qed.

Section Reads.
Context (Hrefl : ∀ d, R d d).
Lemma traces_query {A} (f : Db → A) : traces (query f).
Proof. apply traces_sql. by intros d a d' [= _ <-]. Qed.
Lemma traces_query_err {A} (f : Db → result string A) : traces (query_err f).
Proof. apply traces_sql. intros d a d'. destruct (f d); cbn; [by intros [= _ <-]|done]. Qed.
End Reads.

Lemma traces_post configured sd path body : K (path, body) → traces (post configured sd path body).
Proof.
  intros Hb w. unfold post. destruct configured; cbn; [|apply ran_refl].
  assert (∀ b, ran w (mkWorld (w_db w) (w_turns w) b (w_calls w ++ [(path, body)]) (w_hist w))) as Hp.
  { intros b. split; [|by apply interleaved_stay]. split; [by apply did_none|].
    exists [(path, body)]. split; [done|]. by repeat constructor. }
  destruct (w_bridge w); apply Hp.
Qed.
Lemma traces_post_unit configured sd path body : K (path, body) → traces (post_unit configured sd path body).
Proof. intros Hb. apply traces_bind; [by apply traces_post|]. intros. apply traces_ret. Qed.

(** Through the layers *)
Lemma traces_get hops url : traces (http_get hops url).
Proof.
  revert url. induction hops as [|hops IH]; intros url; cbn [http_get];
    (apply traces_bind; [by apply traces_same|]); intros []; try apply traces_ret. apply IH.
Qed.
Lemma traces_api {A} (m : Api A) : traces m → traces (api m).
Proof. intros Hm n. specialize (Hm (net_world n)). unfold api. by destruct (m (net_world n)). Qed.
Lemma traces_ask q : traces (ask q).
Proof. by apply traces_same. Qed.
Lemma traces_or_panic {A} (a : attempted A) : traces (or_panic a).
Proof. destruct a; [apply traces_ret|apply traces_throw]. Qed.
Lemma traces_on_proc {A} (m : io A) : traces (on_proc m).
Proof. apply traces_same. intros n. unfold on_proc. by destruct (m (n_proc n)). Qed.
Lemma traces_on_proc_ok {A} (m : io A) : traces (on_proc_ok m).
Proof. apply traces_bind; [apply traces_on_proc|]. intros. apply traces_lift. Qed.
Lemma traces_on_world {A} (m : Api A) : traces m → traces (on_world m).
Proof. intros Hm n. specialize (Hm (n_world n)). unfold on_world. by destruct (m (n_world n)). Qed.
Lemma traces_in_stop {A} (m : StopM A) : traces m → traces (in_stop m).
Proof. intros Hm s. specialize (Hm (sy_net s)). unfold in_stop. by destruct (m (sy_net s)). Qed.
Lemma traces_in_net {A} (m : NetM A) : traces m → traces (in_net m).
Proof. intros Hm. by apply traces_in_stop, traces_with_err. Qed.
Lemma traces_in_api {A} (m : Api A) : traces m → traces (in_api m).
Proof. intros Hm. by apply traces_in_net, traces_api. Qed.
Lemma traces_in_node {A} (m : NodeM A) : traces m → traces (in_node m).
Proof. intros Hm s. specialize (Hm (mkNode (sy_proc s) (net_world (sy_net s)))). unfold in_node. by destruct (m _). Qed.
Lemma traces_in_io {A} (m : io A) : traces (in_io m).
Proof. apply traces_in_node, traces_on_proc_ok. Qed.
Lemma traces_json {A} (f : A → value) (m : SysM A) : traces m → traces (json_of f m).
Proof. intros Hm. apply traces_bind; [exact Hm|]. intros. apply traces_ret. Qed.
End Judgement.

Create HintDb traces.
#[export] Hint Resolve traces_ret traces_throw traces_lift traces_guard traces_attempt traces_with_err
  traces_api traces_ask traces_get traces_on_proc traces_on_proc_ok traces_on_world traces_or_panic
  traces_in_stop traces_in_net traces_in_api traces_in_node traces_in_io traces_json : traces.
#[export] Hint Extern 1 (traces _ _ (query _)) => apply traces_query; done : traces.
#[export] Hint Extern 1 (traces _ _ (query_err _)) => apply traces_query_err; done : traces.
(** Any step. *)
#[export] Hint Extern 1 (traces _ _ (sql _)) => apply traces_sql; done : traces.
#[export] Hint Extern 1 (traces _ _ (update _)) => apply traces_update; done : traces.
#[export] Hint Extern 1 (traces _ _ (transaction _)) => apply traces_transaction; done : traces.
#[export] Hint Extern 1 (traces _ _ (record_audit _ _ _ _ _ _)) => apply traces_update; done : traces.

Ltac traces_step :=
  match goal with
  | |- traces _ _ (let _ := _ in _) => cbv zeta
  | |- traces _ _ (_ ≫= _) => apply traces_bind; [|intros ?]
  | |- traces _ _ (match ?x with _ => _ end) => destruct x
  | |- traces _ _ (if ?b then _ else _) => destruct b
  | |- traces _ _ _ => solve [eauto 4 with traces]
  end.
Ltac traces := repeat traces_step.
