(* ===== verification/ApiRules.v ===== *)
(** * What the API as a whole guarantees

    Isolation of organizations, what a request without a valid token can do,
    and that the URLs of the handlers reach them. *)
From S2P Require Import Prelude RustStr Json Error License LicenseFile LicenseIO Db World Sources JobSource Jobs RuleTypes Templates Secrets Schedules Batches Sampling SampleCsv SampleXml Net Files Specs MasterKey Suggest DryRun LicenseRoutes Sessions Router Tenancy TenancyRules Api.
From Stdlib Require Import Ascii.

(** ** Programs of the parts, as programs of the whole *)
Section Lifting.
Context (c : Claims) (P : Db → Prop).

Lemma within_in_stop {A} Q (m : StopM A) : within c P m Q → within c P (in_stop m) Q.
Proof.
  intros Hm s Ht Hd Hp. specialize (Hm (sy_net s) Ht Hd Hp). unfold wp, in_stop in *.
  by destruct (m (sy_net s)) as [r n].
Qed.
Lemma tenanted_in_stop {A} (m : StopM A) : tenanted c P m → tenanted c P (in_stop m).
Proof. apply within_in_stop. Qed.
Lemma tenanted_in_net {A} (m : NetM A) : tenanted c P m → tenanted c P (in_net m).
Proof. intros Hm. by apply within_in_stop, tenanted_with_err. Qed.
Lemma tenanted_in_api {A} (m : Api A) : tenanted c P m → tenanted c P (in_api m).
Proof. intros Hm. by apply tenanted_in_net, tenanted_api. Qed.
Lemma tenanted_in_node {A} (m : NodeM A) : tenanted c P m → tenanted c P (in_node m).
Proof.
  intros Hm s Ht Hd Hp. specialize (Hm (mkNode (sy_proc s) (net_world (sy_net s))) Ht Hd Hp).
  unfold wp, in_node in *. destruct (m _) as [r n]. by destruct Hm.
Qed.
Lemma tenanted_in_io {A} (m : io A) : Stable P → tenanted c P (in_io m).
Proof. intros HP. by apply tenanted_in_node, tenanted_on_proc_ok. Qed.
Lemma tenanted_json {A} (f : A → value) (m : SysM A) : Stable P → tenanted c P m → tenanted c P (json_of f m).
Proof. intros HP Hm. apply tenanted_bind; [done|done|]. intros a. apply tenanted_ret. Qed.
End Lifting.
#[export] Hint Resolve tenanted_in_stop tenanted_in_net tenanted_in_api tenanted_in_node tenanted_in_io
  tenanted_json tenanted_safe : tenanted.

Create HintDb handlers.
#[export] Hint Resolve tenanted_create_template tenanted_create_version tenanted_publish tenanted_delete_template
  tenanted_get_template tenanted_list_templates tenanted_list_versions : handlers.
#[export] Hint Resolve tenanted_pause tenanted_resume tenanted_cancel tenanted_retry_export tenanted_retry_row
  tenanted_retry_all tenanted_list_jobs tenanted_get_job tenanted_list_rows tenanted_list_steps tenanted_download
  tenanted_create_job : handlers.
#[export] Hint Resolve tenanted_list_secrets tenanted_get_secret tenanted_put_secret tenanted_revoke
  tenanted_get_config tenanted_put_config tenanted_list_connectors tenanted_create_connector
  tenanted_get_connector tenanted_delete_connector tenanted_test_connector : handlers.
#[export] Hint Resolve tenanted_create_schedule tenanted_get_schedule tenanted_list_schedules
  tenanted_update_schedule tenanted_delete_schedule tenanted_pause_schedule tenanted_resume_schedule
  tenanted_trigger_schedule tenanted_list_runs tenanted_list_batches tenanted_get_batch tenanted_create_batch
  : handlers.
#[export] Hint Resolve tenanted_upload tenanted_sample tenanted_create_spec tenanted_list_specs tenanted_get_spec
  tenanted_delete_spec tenanted_operations tenanted_preview tenanted_suggest tenanted_start_trial : handlers.

Lemma tenanted_owned c id : tenanted c (λ _, True) (require_owned c id).
Proof. unfold require_owned. tenanted. Qed.
#[export] Hint Resolve tenanted_owned : handlers.

Section Theorems.
Context `{JsonText} `{Rfc3339} `{Crypto} `{Aead} `{Setup} `{!Argon2}.

Lemma tenanted_gate c : tenanted c (λ _, True) gate.
Proof. unfold gate. tenanted. Qed.

(** Every handler behind the bearer token, for whatever claims. *)
Lemma handle_tenanted fresh c call : tenanted c (λ _, True) (handle fresh c call).
Proof.
  unfold handle. cbv zeta. apply tenanted_bind; [apply _|apply tenanted_gate|intros licensed].
  destruct call; unfold as_json, stream_updates; tenanted; eauto 6 with handlers tenanted.
Qed.

(** ** Programs that leave the database and everything outside as it is *)

(** Only the clock of the license process moves, and the script of the
    statements; the handler's own statements are reads. *)
Definition inert (s s' : System) : Prop :=
  (∃ n, sy_proc s' = mkProc (p_state (sy_proc s)) (p_enforce (sy_proc s)) (p_fp (sy_proc s)) (p_files (sy_proc s)) n
                       (p_replies (sy_proc s)) (p_sent (sy_proc s))) ∧
  net_sent (sy_net s') = net_sent (sy_net s) ∧
  w_calls (world s') = w_calls (world s) ∧ did (λ d d', d' = d) (world s) (world s').

Definition harmless {A} (m : SysM A) : Prop := ∀ s, inert s (m s).2.

Lemma inert_refl s : inert s s.
Proof. split_and!; [|done|done|apply did_refl]. exists (p_clock (sy_proc s)). by destruct (sy_proc s). Qed.

Lemma inert_trans s1 s2 s3 : inert s1 s2 → inert s2 s3 → inert s1 s3.
Proof.
  intros ((n & Hp) & Hs & Hc & Hd) ((n' & Hp') & Hs' & Hc' & Hd').
  split_and!; [|congruence|congruence|by eapply did_trans]. exists n'. by rewrite Hp', Hp.
Qed.

Lemma harmless_bind {A B} (m : SysM A) (f : A → SysM B) :
  harmless m → (∀ a, harmless (f a)) → harmless (m ≫= f).
Proof.
  intros Hm Hf s. specialize (Hm s). unfold mbind, stM_bind. destruct (m s) as [[a|e] s']; [|done].
  eapply inert_trans; [exact Hm|apply Hf].
Qed.
Lemma harmless_ret {A} (a : A) : harmless (mret a).
Proof. intros s. apply inert_refl. Qed.
Lemma harmless_throw {A} e : harmless (throw e : SysM A).
Proof. intros s. apply inert_refl. Qed.
Lemma harmless_lift {A} (r : ApiResult A) : harmless (in_stop (safe (lift r))).
Proof. intros [p n]. apply inert_refl. Qed.
(** Reading the clock. *)
Definition ticked (s : System) : System :=
  mkSystem (mkProc (p_state (sy_proc s)) (p_enforce (sy_proc s)) (p_fp (sy_proc s)) (p_files (sy_proc s))
              (S (p_clock (sy_proc s))) (p_replies (sy_proc s)) (p_sent (sy_proc s))) (sy_net s).
Lemma now_in_io s : in_io (now clock) s = (Ok (clock (p_clock (sy_proc s))), ticked s).
Proof. by destruct s as [p [w replies sent]]. Qed.
Lemma ticked_inert s : inert s (ticked s).
Proof. split_and!; [by eexists|done|done|apply did_refl]. Qed.
Lemma harmless_now : harmless (in_io (now clock)).
Proof. intros s. rewrite now_in_io. apply ticked_inert. Qed.
Lemma harmless_proc : harmless (in_io st_get).
Proof. intros [p n]. cbn. destruct n. apply inert_refl. Qed.

Lemma harmless_ready : harmless (in_api ready).
Proof.
  intros [p [w replies sent]]. destruct (reads_did ready w (ready w).1 (ready w).2) as [Hd Hc];
    [split; unfold ready; [writes|silent]|by destruct (ready w)|].
  unfold in_api, in_net, in_stop, safe, with_err, api. cbn. destruct (ready w) as [r w'].
  cbn. split_and!; [|done|done|done]. exists (p_clock p). by destruct p.
Qed.

Lemma harmless_json {A} (f : A → value) (m : SysM A) : harmless m → harmless (json_of f m).
Proof. intros Hm. apply harmless_bind; [done|]. intros a. apply harmless_ret. Qed.

Lemma harmless_authorize token header : harmless (in_io (authorize_work clock token header)).
Proof.
  intros [p [w replies sent]]. unfold authorize_work. destruct (_ || _); [destruct p; apply inert_refl|]. cbn.
  destruct (require_licensed p (clock (p_clock p))); cbn; (split_and!; [|done|done|apply did_refl]);
    by exists (S (p_clock p)).
Qed.

(** The handlers without a token, as [tenanted] programs of anyone. *)
Lemma handle_public_harmless header call m c :
  handle_public header call = Some m → harmless m ∧ tenanted c (λ _, True) m.
Proof.
  destruct call; cbn; try done; intros [= <-]; (split; [|tenanted; apply tenanted_in_api, tenanted_ready]).
  all: try apply harmless_ret.
  - apply harmless_bind; [apply harmless_ready|intros; apply harmless_ret].
  - apply harmless_bind; [apply harmless_authorize|intros; apply harmless_ret].
  - apply harmless_bind; [apply harmless_now|intros; apply harmless_json, harmless_lift].
Qed.
End Theorems.

(** ** Theorems *)
Section Guarantees.
Context `{JsonText} `{Rfc3339} `{Crypto} `{Aead} `{Setup} `{!Argon2}.

(** Who a request speaks for, at the time it is served. *)
Definition speaker (header : option string) (s : System) : result Rejection Claims :=
  authenticate jwt_keys (clock (p_clock (sy_proc s))) header.

Lemma run_wp (m : SysM Response) (Q : System → Prop) s : wp m (λ _ s', Q s') s → Q (run m s).2.
Proof. unfold wp, run. by destruct (m s). Qed.

(** The start of a request that needs a token. *)
Lemma serve_bearer fresh header call s :
  handle_public header call = None →
  serve fresh header call s = match speaker header s with
                              | Ok c => run (handle fresh c call) (ticked s)
                              | Err r => (reject r, ticked s)
                              end.
Proof.
  intros Hp. unfold serve, run, mbind, stM_bind, speaker. rewrite Hp, now_in_io.
  by destruct (authenticate _ _ _) as [c|r].
Qed.

(** The caller, or nobody. *)
Definition caller (header : option string) (s : System) : Claims :=
  match speaker header s with Ok c => c | Err _ => mkClaims EmptyString 0 EmptyString end.

Lemma serve_landed fresh header call s :
  turns_in lawful (world s) → db_wf (w_db (world s)) →
  landed (caller header s) (world s) (world (serve fresh header call s).2).
Proof.
  intros Ht Hd. destruct (handle_public header call) as [m|] eqn:Hp.
  - unfold serve. rewrite Hp. destruct (handle_public_harmless header call m (caller header s) Hp) as [_ Hten].
    apply run_wp. eapply wp_mono; [by apply (Hten s Ht Hd I)|]. by intros r s' [Hl _].
  - rewrite serve_bearer by done. unfold caller.
    destruct (speaker header s) as [c|r]; [|by apply landed_refl].
    apply run_wp. eapply wp_mono; [by apply (handle_tenanted fresh c call (ticked s) Ht Hd I)|].
    by intros r s' [Hl _].
Qed.


(** A history: requests one after the other, each with what it draws and its
    Authorization header; the transactions of others run in between. *)
Definition serve_all (requests : list (Fresh * option string * Call)) (s : System) : System :=
  fold_left (λ s r, (serve r.1.1 r.1.2 r.2 s).2) requests s.

(** C16: the database keeps its type: after any history of requests, with
    lawful transactions of others interleaved, every row is stored under its
    own identifier, below its table's sequence, belongs to an organization,
    and every reference it holds names an existing row of the same
    organization; and an identifier that was ever given out never comes to
    name a row of another organization. *)
Theorem histories_stay_well_formed requests s :
  turns_in lawful (world s) → db_wf (w_db (world s)) →
  db_wf (w_db (world (serve_all requests s))) ∧
  keeps (w_db (world s)) (w_db (world (serve_all requests s))).
Proof.
  revert s. induction requests as [|r requests IH]; intros s Ht Hd; [done|].
  destruct (serve_landed r.1.1 r.1.2 r.2 s Ht Hd) as (Ht' & Hd' & _ & Hk & _).
  destruct (IH _ Ht' Hd') as [Hwf Hk']. split; [exact Hwf|]. by etransitivity.
Qed.

Definition status_of (r : Response) : option Z :=
  match r with
  | RJson status _ | RText status _ => Some status
  | RCsv _ _ | REvents _ => Some 200
  | RRedirect _ => Some 307
  | RDropped => None
  end.

Lemma rejected_401 header s r : speaker header s = Err r → status_of (reject r) = Some 401.
Proof.
  unfold speaker, authenticate, auth_user. destruct header as [h|]; [|by intros [= <-]].
  destruct (trim <$> _) as [t|]; [|by intros [= <-]].
  destruct (verify jwt_keys _ t); [done|]. by intros [= <-].
Qed.

End Guarantees.

(** ** URLs *)

Definition call_segments (call : Call) : option (list string) :=
  let '(_, path, _, params) := endpoint call in fill (pattern path) (map param_text params).
Definition url_of (call : Call) : string := url (default [] (call_segments call)).

Definition param_ok (p : Param) : bool :=
  match p with
  | PId id => in_i64 id
  | PName s => negb (is_empty s) && negb (contains_char "/" s)
  end.

Definition parsed_routes : list (list Seg * list (Method * Handler)) := map (λ r, (pattern r.1, r.2)) build_router.

Lemma routes_distinct : distinct parsed_routes.
Proof. apply distinct_nodup. refine (bool_decide_unpack (NoDup _) _). vm_compute. exact I. Qed.

(** Parameters against the literals they compete with. *)
Fixpoint clear_of (params : list Param) (rs : list (list string)) : bool :=
  match params, rs with
  | [], [] => true
  | PId _ :: params, words :: rs => forallb (λ w, negb (is_some (parse_i64 w))) words && clear_of params rs
  | PName _ :: params, [] :: rs => clear_of params rs
  | _, _ => false
  end.

Definition plain_seg (s : Seg) : bool := match s with Lit l => negb (contains_char "/" l) | Cap => true end.

(** The tables serve an endpoint, as far as the tables say. *)
Definition served (e : Method * string * Handler * list Param) : bool :=
  let '(m, path, h, params) := e in
  match List.find (λ r, (r.1 =? path)%string) build_router with
  | None => false
  | Some (_, methods) =>
      bool_decide (List.find (λ mh, bool_decide (mh.1 = m)) methods = Some (m, h)) &&
      clear_of params (rivals parsed_routes (pattern path)) && forallb plain_seg (pattern path) &&
      negb (bool_decide (pattern path = []))
  end.

Lemma all_served call : served (endpoint call) = true.
Proof. destruct call; vm_compute; reflexivity. Qed.

Lemma clear_of_forall params rs :
  clear_of params rs = true → forallb param_ok params = true →
  Forall2 (λ s words, s ≠ EmptyString ∧ s ∉ words) (map param_text params) rs.
Proof.
  revert rs. induction params as [|p params IH]; intros [|words rs]; cbn; [constructor|done|by destruct p|].
  intros Hc [Hp Hps]%andb_true_iff. destruct p as [id|name]; cbn in Hp |- *.
  - apply andb_true_iff in Hc as [Hw Hc]. constructor; [|by apply IH]. split.
    + intros He. pose proof (parse_show id Hp) as Hshow. by rewrite He in Hshow.
    + intros Hin%list_elem_of_In. rewrite forallb_forall in Hw. apply Hw in Hin. by rewrite parse_show in Hin.
  - destruct words; [|done]. constructor; [|by apply IH]. apply andb_true_iff in Hp as [Hn _].
    split; [by destruct name|apply not_elem_of_nil].
Qed.

Lemma fill_plain p args routes :
  Forall2 (λ s words, s ≠ EmptyString ∧ s ∉ words) args (rivals (A:=list (Method * Handler)) routes p) →
  forallb plain_seg p = true → Forall (λ s, contains_char "/" s = false) args →
  ∃ segs, fill p args = Some segs ∧ Forall (λ s, contains_char "/" s = false) segs ∧ (p ≠ [] → segs ≠ []).
Proof.
  revert args routes. induction p as [|[l|] p IH]; intros args routes Ha Hp Hargs; cbn in *.
  - inversion Ha; subst. by exists [].
  - apply andb_true_iff in Hp as [Hl Hp]. apply negb_true_iff in Hl.
    destruct (IH _ _ Ha Hp Hargs) as (segs & Hf & Hs & _). exists (l :: segs).
    destruct args; cbn; rewrite Hf; cbn; by repeat constructor.
  - inversion Ha as [|s words args' rs _ Ha']; subst. apply list.Forall_cons in Hargs as [Hs Hargs].
    destruct (IH _ _ Ha' Hp Hargs) as (segs & Hf & Hss & _). exists (s :: segs). rewrite Hf. cbn.
    by repeat constructor.
Qed.

Lemma param_plain p : param_ok p = true → contains_char "/" (param_text p) = false.
Proof.
  destruct p as [id|name]; cbn; [intros _; apply show_Z_plain|]. by intros [_ Hn%negb_true_iff]%andb_true_iff.
Qed.

Lemma calls_are_served call :
  let '(m, _, h, params) := endpoint call in
  forallb param_ok params = true →
  dispatch build_router m (url_of call) = Found h (map param_text params) ∧
  Forall (λ p, match p with PId id => parse_i64 (param_text p) = Some id | PName s => param_text p = s end) params.
Proof.
  pose proof (all_served call) as Hserved. unfold url_of, call_segments.
  destruct (endpoint call) as [[[m path] h] params]. unfold served in Hserved. intros Hok.
  assert (Forall (λ p, param_ok p = true) params) as Hall.
  { apply list.Forall_forall. intros p Hp. rewrite forallb_forall in Hok. by apply Hok, list_elem_of_In. }
  split.
  - destruct (List.find _ build_router) as [[path' methods]|] eqn:Hfind; [|done].
    apply find_some in Hfind as [Hin Hpath]. apply String.eqb_eq in Hpath. cbn in Hpath. subst path'.
    apply andb_true_iff in Hserved as [[[Hm%bool_decide_eq_true Hc]%andb_true_iff Hplain]%andb_true_iff Hne].
    apply negb_true_iff, bool_decide_eq_false in Hne.
    assert ((pattern path, methods) ∈ parsed_routes) as Hroute.
    { apply list_elem_of_In, in_map_iff. by exists (path, methods). }
    pose proof (clear_of_forall _ _ Hc Hok) as Hclear.
    destruct (fill_plain _ _ _ Hclear Hplain) as (segs & Hf & Hs & Hsne).
    { apply Forall_map. eapply list.Forall_impl; [exact Hall|]. apply param_plain. }
    rewrite Hf. cbn [default]. unfold dispatch. rewrite segments_url by auto.
    fold parsed_routes. erewrite find_route_fill; [|apply routes_distinct|exact Hroute|exact Hf|by apply rivals_unshadowed].
    cbn. by rewrite Hm.
  - eapply list.Forall_impl; [exact Hall|]. intros [id|name] Hp; [by apply parse_show|done].
Qed.

Lemma all_mounted_once call :
  let '(m, path, h, _) := endpoint call in mounted_only build_router m (pattern path) h = true.
Proof. destruct call; vm_compute; reflexivity. Qed.

