(* ===== verification/Interference.v ===== *)
(** * What one organization can tell of the others

    Two databases with the same rows of an organization answer its reading
    requests alike.  With the isolation of the handlers' steps: what an
    organization reads does not depend on the requests of the others. *)
From S2P Require Import Prelude RustStr Json Error License LicenseFile LicenseIO Db World Sources JobSource Jobs RuleTypes Templates Secrets Schedules Batches Sampling SampleCsv SampleXml Net Files Specs MasterKey Suggest DryRun LicenseRoutes Sessions Router Tenancy TenancyRules Api Traces ApiRules.
From Stdlib Require Import Ascii Sorting.Sorted.

(** ** Views *)

(** The rows of [o] are the same, and so is what the engine wrote. *)
Definition same_view (o : Z) (d d' : Db) : Prop :=
  (∀ t id, org_at t id d = Some o ∨ org_at t id d' = Some o → stays_put t id d d') ∧
  job_rows d' = job_rows d ∧ job_row_steps d' = job_row_steps d.

#[global] Instance same_view_equivalence o : Equivalence (same_view o).
Proof.
  split.
  - intros d. by split_and!.
  - intros d d' (Hv & Hr & Hs). split_and!; [|done..]. intros t id Ho.
    destruct (Hv t id) as [? ?]; [tauto|]. by split.
  - intros d1 d2 d3 (Hv & Hr & Hs) (Hv' & Hr' & Hs'). split_and!; [|congruence..]. intros t id [Ho|Ho].
    + destruct (Hv t id (or_introl Ho)) as [? Hat]. destruct (Hv' t id) as [? ?]; [left; congruence|].
      split; congruence.
    + destruct (Hv' t id (or_intror Ho)) as [? Hat]. destruct (Hv t id) as [? ?]; [right; congruence|].
      split; congruence.
Qed.

Lemma foreign_view c o d d' : org c ≠ o → tenant_step c d d' → same_view o d d'.
Proof.
  intros Hne (_ & _ & _ & Hi & Hr & Hs & _). split_and!; [|done..]. intros t id Ho. by eapply Hi; [exact (not_eq_sym Hne)|].
Qed.

(** ** Selections of an organization's rows *)

Lemma by_id_ordered {A} (m : gmap Z A) : StronglySorted key_le (by_id m).
Proof.
  apply StronglySorted_merge_sort; [intros x y z; unfold key_le; lia|].
  intros x y. unfold key_le. destruct (Z.le_ge_cases x.1 y.1); [by left|right; lia].
Qed.

Lemma by_id_nodup {A} (m : gmap Z A) : NoDup (by_id m).
Proof. unfold by_id. rewrite merge_sort_Permutation. apply NoDup_map_to_list. Qed.

Lemma filter_sorted {A} (R : A → A → Prop) (p : A → bool) l : StronglySorted R l → StronglySorted R (List.filter p l).
Proof.
  induction 1 as [|x l _ IH Hx]; cbn; [constructor|]. destruct (p x); [|done]. constructor; [done|].
  apply list.Forall_forall. intros y Hy. apply list_elem_of_In, filter_In in Hy as [Hy _].
  rewrite list.Forall_forall in Hx. by apply Hx, list_elem_of_In.
Qed.

Section Agree.
Context {A : Type} (p : A → bool) (m m' : gmap Z A).
Context (Hagree : ∀ k a, p a = true → (m !! k = Some a ↔ m' !! k = Some a)).

Lemma filter_by_id : List.filter (λ kv, p kv.2) (by_id m) = List.filter (λ kv, p kv.2) (by_id m').
Proof.
  apply (StronglySorted_unique_strong key_le).
  - intros [k a] [k' a'] Hin Hin' Hle Hle'. apply list_elem_of_In, filter_In in Hin as [Hin Hp], Hin' as [Hin' Hp'].
    apply list_elem_of_In, by_id_elem in Hin, Hin'. unfold key_le in *. cbn in *. assert (k' = k) as -> by lia.
    apply Hagree in Hin; [|done]. congruence.
  - apply filter_sorted, by_id_ordered.
  - apply filter_sorted, by_id_ordered.
  - apply NoDup_Permutation; [apply NoDup_ListNoDup, List.NoDup_filter, NoDup_ListNoDup, by_id_nodup..|].
    intros [k a]. rewrite !list_elem_of_In, !filter_In, <- !list_elem_of_In, !by_id_elem. cbn.
    split; intros [Hk Hp]; (split; [by apply Hagree|done]).
Qed.

Lemma filter_map_snd (l : list (Z * A)) : List.filter p (snd <$> l) = snd <$> List.filter (λ kv, p kv.2) l.
Proof. induction l as [|[k a] l IH]; cbn; [done|]. destruct (p a); cbn; by rewrite IH. Qed.

Lemma rows_agree : List.filter p (snd <$> by_id m) = List.filter p (snd <$> by_id m').
Proof. by rewrite !filter_map_snd, filter_by_id. Qed.

Lemma find_agree : List.find (λ kv, p kv.2) (by_id m) = List.find (λ kv, p kv.2) (by_id m').
Proof.
  assert (∀ l : list (Z * A), List.find (λ kv, p kv.2) l = head (List.filter (λ kv, p kv.2) l)) as Hhd.
  { induction l as [|kv l IH]; cbn; [done|]. by destruct (p kv.2). }
  by rewrite !Hhd, filter_by_id.
Qed.

Lemma lookup_filter_agree k : opt_filter p (m !! k) = opt_filter p (m' !! k).
Proof.
  destruct (opt_filter p (m !! k)) as [a|] eqn:Ha.
  - apply opt_filter_Some in Ha as [Ha Hp]. apply Hagree in Ha; [|done]. rewrite Ha. symmetry. by apply opt_filter_Some.
  - symmetry. destruct (opt_filter p (m' !! k)) as [a|] eqn:Ha'; [|done]. apply opt_filter_Some in Ha' as [Ha' Hp].
    apply Hagree in Ha'; [|done]. rewrite <- Ha. symmetry. by apply opt_filter_Some.
Qed.
End Agree.

(** ** The same view, table by table *)
Section View.
Context (o : Z) (d d' : Db) (Hv : same_view o d d').

Lemma table_agree {A} (f : A → Row) (t : Table) (tab : Db → gmap Z A) (org_a : A → Z) :
  (∀ x id, row t id x = f <$> tab x !! id) → (∀ x a, org_of x (f a) = Some (org_a a)) → Inj (=) (=) f →
  ∀ p : A → bool, (∀ a, p a = true → org_a a = o) →
  ∀ id a, p a = true → (tab d !! id = Some a ↔ tab d' !! id = Some a).
Proof.
  intros Hrow Horg Hinj p Hp id a Ha. destruct Hv as [Hstay _].
  assert (∀ x, tab x !! id = Some a → org_at t id x = Some o) as Hat.
  { intros x Hx. unfold org_at. rewrite Hrow, Hx. cbn. by rewrite Horg, (Hp a Ha). }
  split; intros Hl; destruct (Hstay t id) as [Heq _]; try (first [solve [left; by apply Hat] | solve [right; by apply Hat]]);
    rewrite !Hrow, Hl in Heq; cbn in Heq.
  - by apply fmap_Some in Heq as (b & Hb & ->%Hinj).
  - symmetry in Heq. by apply fmap_Some in Heq as (b & Hb & ->%Hinj).
Qed.

Lemma jobs_agree (p : JobRow → bool) : (∀ a, p a = true → j_org_id a = o) →
  ∀ id a, p a = true → (jobs d !! id = Some a ↔ jobs d' !! id = Some a).
Proof. apply (table_agree RJob TJob); try done. intros x y. congruence. Qed.
Lemma templates_agree (p : RuleTemplateRow → bool) : (∀ a, p a = true → rt_org_id a = o) →
  ∀ id a, p a = true → (rule_templates d !! id = Some a ↔ rule_templates d' !! id = Some a).
Proof. apply (table_agree RTemplate TTemplate); try done. intros x y. congruence. Qed.
Lemma connectors_agree (p : ConnectorRow → bool) : (∀ a, p a = true → cn_org_id a = o) →
  ∀ id a, p a = true → (connectors d !! id = Some a ↔ connectors d' !! id = Some a).
Proof. apply (table_agree RConnector TConnector); try done. intros x y. congruence. Qed.
Lemma schedules_agree (p : ScheduleRow → bool) : (∀ a, p a = true → sc_org_id a = o) →
  ∀ id a, p a = true → (schedules d !! id = Some a ↔ schedules d' !! id = Some a).
Proof. apply (table_agree RSchedule TSchedule); try done. intros x y. congruence. Qed.
Lemma secrets_agree (p : SecretRow → bool) : (∀ a, p a = true → se_org_id a = o) →
  ∀ id a, p a = true → (secrets d !! id = Some a ↔ secrets d' !! id = Some a).
Proof. apply (table_agree RSecret TSecret); try done. intros x y. congruence. Qed.
Lemma batches_agree (p : BatchRow → bool) : (∀ a, p a = true → ba_org_id a = o) →
  ∀ id a, p a = true → (batches d !! id = Some a ↔ batches d' !! id = Some a).
Proof. apply (table_agree RBatch TBatch); try done. intros x y. congruence. Qed.
Lemma specs_agree (p : SpecRow → bool) : (∀ a, p a = true → sp_org_id a = o) →
  ∀ id a, p a = true → (openapi_specs d !! id = Some a ↔ openapi_specs d' !! id = Some a).
Proof. apply (table_agree RSpec TSpec); try done. intros x y. congruence. Qed.

Context (Hwf : db_wf d) (Hwf' : db_wf d').

Lemma config_at x cfg : db_wf x → org_llm_configs x !! o = Some cfg → org_at TLlm o x = Some o.
Proof.
  intros Hx Hc. assert (row TLlm o x = Some (RLlm cfg)) as Hr by (cbn; by rewrite Hc).
  destruct (Hx _ _ _ Hr) as (Hk & _). cbn in Hk. unfold org_at. rewrite Hr. cbn. by rewrite Hk.
Qed.

Lemma config_agree : org_llm_configs d !! o = org_llm_configs d' !! o.
Proof.
  assert (org_at TLlm o d = Some o ∨ org_at TLlm o d' = Some o →
          org_llm_configs d !! o = org_llm_configs d' !! o) as Hsame.
  { intros Ho. destruct Hv as [Hstay _]. destruct (Hstay TLlm o Ho) as [Heq _]. cbn in Heq.
    destruct (org_llm_configs d !! o), (org_llm_configs d' !! o); cbn in Heq; congruence. }
  destruct (org_llm_configs d !! o) as [c|] eqn:Hc; [apply Hsame; left; by eapply config_at|].
  destruct (org_llm_configs d' !! o) as [c'|] eqn:Hc'; [|done]. apply Hsame. right. by eapply config_at.
Qed.

(** A row that a row of [o] refers to. *)
Lemma ref_agree t id r t' id' :
  row t id d = Some r → org_at t id d = Some o → (t', id') ∈ refs r → row t' id' d = row t' id' d'.
Proof.
  intros Hr Ho Hin. destruct (Hwf _ _ _ Hr) as (_ & _ & o' & Ho' & Hrefs).
  assert (o' = o) as -> by (unfold org_at in Ho; rewrite Hr in Ho; cbn in Ho; congruence).
  specialize (Hrefs _ Hin). cbn in Hrefs. destruct Hv as [Hstay _].
  destruct (Hstay t' id') as [Heq _]; [by left|done].
Qed.

Lemma join_agree j id : jobs d !! id = Some j → j_org_id j = o → join_job d j = join_job d' j.
Proof.
  intros Hj Ho. assert (row TJob id d = Some (RJob j)) as Hr by (cbn; by rewrite Hj).
  assert (org_at TJob id d = Some o) as Hat by (by rewrite (org_at_job _ _ _ Hj), Ho).
  assert (∀ b, j_batch_id j = Some b → batches d !! b = batches d' !! b) as Hb.
  { intros b Hjb. pose proof (ref_agree _ _ _ TBatch b Hr Hat) as Heq. cbn in Heq.
    rewrite elem_of_cons, !elem_of_app, !elem_ref in Heq. specialize (Heq ltac:(tauto)).
    destruct (batches d !! b), (batches d' !! b); cbn in Heq; congruence. }
  assert (∀ b, j_batch_stage_id j = Some b → batch_stages d !! b = batch_stages d' !! b) as Hs.
  { intros b Hjb. pose proof (ref_agree _ _ _ TStage b Hr Hat) as Heq. cbn in Heq.
    rewrite elem_of_cons, !elem_of_app, !elem_ref in Heq. specialize (Heq ltac:(tauto)).
    destruct (batch_stages d !! b), (batch_stages d' !! b); cbn in Heq; congruence. }
  unfold join_job. destruct (j_batch_id j) as [b|]; cbn; [rewrite (Hb b eq_refl)|];
    (destruct (j_batch_stage_id j) as [s|]; cbn; [rewrite (Hs s eq_refl)|]); done.
Qed.

(** The rows that hang on a row of [o]. *)
Lemma runs_agree id : org_at TSchedule id d = Some o →
  ∀ k r, (ru_schedule_id r =? id) = true → (schedule_runs d !! k = Some r ↔ schedule_runs d' !! k = Some r).
Proof.
  intros Ho k r Hr%Z.eqb_eq. destruct Hv as [Hstay _]. destruct (Hstay TSchedule id (or_introl Ho)) as [_ Ho'].
  assert (∀ x, org_at TSchedule id x = Some o → schedule_runs x !! k = Some r → org_at TRun k x = Some o) as Hat.
  { intros x Hx Hk. unfold org_at. cbn [row]. rewrite Hk. cbn [fmap option_fmap option_map mbind option_bind].
    by rewrite org_of_run, Hr. }
  split; intros Hl; destruct (Hstay TRun k) as [Heq _];
    try (first [solve [left; by apply Hat] | solve [right; apply Hat; congruence]]);
    cbn in Heq; rewrite Hl in Heq; [|symmetry in Heq]; by apply fmap_Some in Heq as (x & Hx & [= ->]).
Qed.

Lemma stages_agree id : org_at TBatch id d = Some o →
  ∀ k r, (bs_batch_id r =? id) = true → (batch_stages d !! k = Some r ↔ batch_stages d' !! k = Some r).
Proof.
  intros Ho k r Hr%Z.eqb_eq. destruct Hv as [Hstay _]. destruct (Hstay TBatch id (or_introl Ho)) as [_ Ho'].
  assert (∀ x, org_at TBatch id x = Some o → batch_stages x !! k = Some r → org_at TStage k x = Some o) as Hat.
  { intros x Hx Hk. unfold org_at. cbn [row]. rewrite Hk. cbn [fmap option_fmap option_map mbind option_bind].
    by rewrite org_of_stage, Hr. }
  split; intros Hl; destruct (Hstay TStage k) as [Heq _];
    try (first [solve [left; by apply Hat] | solve [right; apply Hat; congruence]]);
    cbn in Heq; rewrite Hl in Heq; [|symmetry in Heq]; by apply fmap_Some in Heq as (x & Hx & [= ->]).
Qed.
End View.

(** ** Reading handlers *)

(** No other transactions run, and the database is [d]. *)
Definition at_db (d : Db) (w : World) : Prop := w_turns w = [] ∧ w_db w = d.

(** The same result from both databases, which stay as they are. *)
Definition agrees (d d' : Db) {A} (m : Api A) : Prop :=
  ∀ w w', at_db d w → at_db d' w' → (m w).1 = (m w').1 ∧ at_db d (m w).2 ∧ at_db d' (m w').2.

Create HintDb agrees.

Section Agrees.
Context (d d' : Db).

Lemma sql_at {A} (f : Db → result string (A * Db)) w :
  at_db d w → (∀ a x, f d = Ok (a, x) → x = d) →
  (sql f w).1 = map_err Database (fst <$> f d) ∧ at_db d (sql f w).2.
Proof.
  intros [Ht Hd] Hf. unfold sql, next_turn. rewrite Ht. cbn. unfold id. rewrite Hd.
  destruct (f d) as [[a x]|e] eqn:Hfd; cbn; [|done]. by rewrite (Hf _ _ eq_refl).
Qed.

Lemma agrees_bind {A B} (m : Api A) (f : A → Api B) :
  agrees d d' m → (∀ a, agrees d d' (f a)) → agrees d d' (m ≫= f).
Proof.
  intros Hm Hf w w' Hw Hw'. destruct (Hm w w' Hw Hw') as (Hr & Hd & Hd'). unfold mbind, stM_bind.
  destruct (m w) as [[a|e] x], (m w') as [[a'|e'] x']; cbn in *; simplify_eq; [by apply Hf|done].
Qed.
Lemma agrees_ret {A} (a : A) : agrees d d' (mret a).
Proof. done. Qed.
Lemma agrees_throw {A} e : agrees d d' (throw e : Api A).
Proof. done. Qed.
Lemma agrees_lift {A} (r : ApiResult A) : agrees d d' (lift r).
Proof. done. Qed.
Lemma agrees_guard b e : agrees d d' (guard_err b e).
Proof. done. Qed.
End Agrees.

Lemma query_at {A} d (f : Db → A) w : at_db d w → (query f w).1 = Ok (f d) ∧ at_db d (query f w).2.
Proof.
  intros Hw. destruct (sql_at d (λ x, Ok (f x, x)) w Hw) as [Hr Hd]; [by intros a x [= _ <-]|]. done.
Qed.

Lemma agrees_query {A} d d' (f : Db → A) : f d = f d' → agrees d d' (query f).
Proof.
  intros Hf w w' Hw Hw'. destruct (query_at d f w Hw) as [-> ?], (query_at d' f w' Hw') as [-> ?].
  by rewrite Hf.
Qed.

Lemma agrees_query_err {A} d d' (f : Db → result string A) : f d = f d' → agrees d d' (query_err f).
Proof.
  intros Hf w w' Hw Hw'. unfold query_err.
  destruct (sql_at d (λ x, (λ a, (a, x)) <$> f x) w Hw) as [-> ?];
    [intros a x; destruct (f d); cbn; [by intros [= _ <-]|done]|].
  destruct (sql_at d' (λ x, (λ a, (a, x)) <$> f x) w' Hw') as [-> ?];
    [intros a x; destruct (f d'); cbn; [by intros [= _ <-]|done]|].
  rewrite <- Hf. by destruct (f d).
Qed.

(** What a read returned is known afterwards. *)
Lemma agrees_query_bind {A B} d d' (f : Db → A) (k : A → Api B) :
  f d = f d' → agrees d d' (k (f d)) → agrees d d' (query f ≫= k).
Proof.
  intros Hf Hk w w' Hw Hw'. unfold mbind, stM_bind.
  destruct (query_at d f w Hw) as [Hr Hd], (query_at d' f w' Hw') as [Hr' Hd'].
  destruct (query f w) as [r x], (query f w') as [r' x']. cbn in *. subst. rewrite <- Hf. by apply Hk.
Qed.

Lemma agrees_guard_bind {B} d d' b e (k : unit → Api B) :
  (b = false → agrees d d' (k tt)) → agrees d d' (guard_err b e ≫= k).
Proof. intros Hk. destruct b; [done|]. by apply Hk. Qed.

Lemma agrees_lift_bind {A B} d d' (r : ApiResult A) (k : A → Api B) :
  (∀ a, r = Ok a → agrees d d' (k a)) → agrees d d' (lift r ≫= k).
Proof. intros Hk. destruct r; [|done]. by apply Hk. Qed.

#[export] Hint Resolve agrees_ret agrees_throw agrees_lift agrees_guard agrees_query agrees_query_err : agrees.

Ltac agrees_step :=
  match goal with
  | |- agrees _ _ (let _ := _ in _) => cbv zeta
  | |- agrees _ _ (_ ≫= _) => apply agrees_bind; [|intros ?]
  | |- agrees _ _ (match ?x with _ => _ end) => destruct x
  | |- agrees _ _ (if ?b then _ else _) => destruct b
  | |- agrees _ _ _ => solve [eauto 3 with agrees]
  end.
Ltac agrees := repeat agrees_step.

Section Reads.
Context `{Rfc3339} (c : Claims) (d d' : Db) (Hv : same_view (org c) d d') (Hwf : db_wf d) (Hwf' : db_wf d').

(** Predicates that ask for the caller's organization. *)
Ltac ours := intros ?; rewrite ?andb_true_iff, ?Z.eqb_eq; tauto.

Lemma job_of_agree id : job_of (org c) id d = job_of (org c) id d'.
Proof. apply lookup_filter_agree. intros. apply (jobs_agree _ _ _ Hv (λ j, j_org_id j =? org c)); [ours|done]. Qed.
Lemma template_of_agree id : template_of (org c) id d = template_of (org c) id d'.
Proof. apply lookup_filter_agree. intros. apply (templates_agree _ _ _ Hv (λ j, rt_org_id j =? org c)); [ours|done]. Qed.
Lemma connector_of_agree id : connector_of (org c) id d = connector_of (org c) id d'.
Proof. apply lookup_filter_agree. intros. apply (connectors_agree _ _ _ Hv (λ j, cn_org_id j =? org c)); [ours|done]. Qed.
Lemma schedule_of_agree id : schedule_of (org c) id d = schedule_of (org c) id d'.
Proof. apply lookup_filter_agree. intros. apply (schedules_agree _ _ _ Hv (λ j, sc_org_id j =? org c)); [ours|done]. Qed.
Lemma batch_of_agree id : batch_of (org c) id d = batch_of (org c) id d'.
Proof. apply lookup_filter_agree. intros. apply (batches_agree _ _ _ Hv (λ j, ba_org_id j =? org c)); [ours|done]. Qed.
Lemma spec_of_agree id : spec_of (org c) id d = spec_of (org c) id d'.
Proof. apply lookup_filter_agree. intros. apply (specs_agree _ _ _ Hv (λ j, sp_org_id j =? org c)); [ours|done]. Qed.
Lemma find_secret_agree name : find_secret (org c) name d = find_secret (org c) name d'.
Proof. apply find_agree. intros. apply (secrets_agree _ _ _ Hv (is_secret (org c) name)); [unfold is_secret; ours|done]. Qed.

Lemma rows_of_agree id : rows_of id d = rows_of id d'.
Proof. unfold rows_of. destruct Hv as (_ & -> & _). done. Qed.
Lemma steps_of_agree id i : steps_of id i d = steps_of id i d'.
Proof. unfold steps_of. destruct Hv as (_ & _ & ->). done. Qed.

Lemma templates_filter p : (∀ a, p a = true → rt_org_id a = org c) →
  List.filter p (all_templates d) = List.filter p (all_templates d').
Proof. intros Hp. apply rows_agree. intros k a. by apply (templates_agree _ _ _ Hv p). Qed.

Lemma versions_agree key published : versions_of (org c) key published d = versions_of (org c) key published d'.
Proof. unfold versions_of. f_equal. apply templates_filter. unfold has_key. ours. Qed.
Lemma latest_agree collate published :
  latest_versions collate (org c) published d = latest_versions collate (org c) published d'.
Proof. unfold latest_versions. do 2 f_equal. apply templates_filter. ours. Qed.

Lemma filter_reverse {A} (p : A → bool) l : List.filter p (reverse l) = reverse (List.filter p l).
Proof. unfold reverse. rewrite <- !rev_alt. apply List.filter_rev. Qed.

Lemma jobs_below_agree cursor status : jobs_below (org c) cursor status d = jobs_below (org c) cursor status d'.
Proof.
  unfold jobs_below. rewrite !filter_reverse. f_equal. apply rows_agree. intros k a.
  apply (jobs_agree _ _ _ Hv (λ j, (j_org_id j =? org c) && (j_id j <? cursor) && opt_matches status (j_status j))).
  ours.
Qed.

Lemma jobs_below_row cursor status j : j ∈ jobs_below (org c) cursor status d →
  ∃ id, jobs d !! id = Some j ∧ j_org_id j = org c.
Proof.
  unfold jobs_below. intros [Hin Hp]%list_elem_of_In%filter_In. apply list_elem_of_In in Hin.
  apply elem_of_reverse, list_elem_of_fmap in Hin as ([id x] & -> & Hid%by_id_elem). exists id. split; [done|].
  revert Hp. rewrite !andb_true_iff, Z.eqb_eq. tauto.
Qed.

Lemma select_jobs_agree q : select_jobs (org c) q d = select_jobs (org c) q d'.
Proof.
  unfold select_jobs. destruct (cast_opt _ _ _) as [status|]; [|done]. cbn. rewrite <- jobs_below_agree.
  unfold sql_limit. destruct (_ <? 0); [done|]. cbn. f_equal. apply map_ext_in. intros j Hj%list_elem_of_In.
  assert (j ∈ jobs_below (org c) (default i64_max (jq_cursor q)) status d) as Hin
    by (eapply elem_of_sublist; [exact Hj|apply sublist_take]).
  apply jobs_below_row in Hin as (id & Hid & Ho). by eapply join_agree.
Qed.

Lemma get_job_agree id : join_job d <$> job_of (org c) id d = join_job d' <$> job_of (org c) id d'.
Proof.
  rewrite <- job_of_agree. destruct (job_of (org c) id d) as [j|] eqn:Hj; [|done]. cbn. f_equal.
  apply owned_Some in Hj as [Hj Ho]. by eapply join_agree.
Qed.

Lemma select_batches_agree q : select_batches (org c) q d = select_batches (org c) q d'.
Proof.
  unfold select_batches. destruct (cast_opt _ _ _) as [status|]; [|done]. cbn. f_equal.
  rewrite !filter_reverse. f_equal. apply rows_agree. intros k a.
  apply (batches_agree _ _ _ Hv (λ b, (ba_org_id b =? org c) && (ba_id b <? default i64_max (bq_cursor q)) && opt_matches status (ba_status b))).
  ours.
Qed.
End Reads.

(** The handlers that only read, and answer from the database alone. *)
Section ReadHandlers.
Context `{Rfc3339} `{JsonText} (c : Claims) (d d' : Db).
Context (Hv : same_view (org c) d d') (Hwf : db_wf d) (Hwf' : db_wf d').
Context (collate : string → string → bool).

Lemma agrees_list_templates q : agrees d d' (list_templates collate c q).
Proof.
  apply agrees_query_err. destruct (lq_template_key q); f_equal;
    [by apply versions_agree|by apply latest_agree].
Qed.
Lemma agrees_get_template id : agrees d d' (get_template c id).
Proof. unfold get_template. agrees. apply agrees_query. by apply template_of_agree. Qed.
Lemma agrees_list_versions id : agrees d d' (list_versions c id).
Proof.
  unfold list_versions. agrees; apply agrees_query; [by rewrite (template_of_agree c d d')|by apply versions_agree].
Qed.
Lemma agrees_list_connectors : agrees d d' (list_connectors collate c).
Proof.
  apply agrees_query. f_equal. apply rows_agree. intros ? ?.
  apply (connectors_agree _ _ _ Hv (λ r, cn_org_id r =? org c)). intros ?. lia.
Qed.
Lemma agrees_get_connector id : agrees d d' (get_connector c id).
Proof. unfold get_connector. agrees. apply agrees_query. by apply connector_of_agree. Qed.
Lemma agrees_list_jobs q : agrees d d' (list_jobs c q).
Proof. unfold list_jobs. agrees. apply agrees_query_err. by apply select_jobs_agree. Qed.
Lemma agrees_get_job id : agrees d d' (get_job c id).
Proof. unfold get_job. agrees. apply agrees_query. by apply get_job_agree. Qed.
Lemma agrees_owned id : agrees d d' (require_owned c id).
Proof. unfold require_owned. agrees. apply agrees_query. by rewrite (job_of_agree c d d'). Qed.
Lemma agrees_list_rows id q : agrees d d' (list_rows c id q).
Proof.
  unfold list_rows. agrees; [apply agrees_owned|]. apply agrees_query_err. unfold select_rows.
  by rewrite (rows_of_agree c d d').
Qed.
Lemma agrees_list_row_steps id i : agrees d d' (list_row_steps c id i).
Proof. unfold list_row_steps. agrees; [apply agrees_owned|]. apply agrees_query. by apply (steps_of_agree c). Qed.
Lemma agrees_download s3_get csv_record bucket id failed :
  agrees d d' (download_results s3_get csv_record bucket c id failed).
Proof.
  unfold download_results, stream_results_from_db. agrees; apply agrees_query; [by apply job_of_agree|].
  by rewrite (rows_of_agree c d d').
Qed.
Lemma agrees_list_secrets : agrees d d' (list_secrets collate c).
Proof.
  unfold list_secrets. agrees. apply agrees_query. do 2 f_equal. apply rows_agree. intros ? ?.
  apply (secrets_agree _ _ _ Hv (λ s, (se_org_id s =? org c) && is_destination s)).
  intros ? [Ho _]%andb_true_iff. by apply Z.eqb_eq.
Qed.
Lemma agrees_get_secret name : agrees d d' (get_secret c name).
Proof. unfold get_secret. agrees. apply agrees_query. by rewrite (find_secret_agree c d d'). Qed.
Lemma agrees_list_batches q : agrees d d' (list_batches c q).
Proof. unfold list_batches. agrees. apply agrees_query_err. by apply select_batches_agree. Qed.
Lemma agrees_get_batch id : agrees d d' (get_batch c id).
Proof.
  unfold get_batch. apply agrees_query_bind; [by apply batch_of_agree|].
  apply agrees_lift_bind. intros b Hb%ok_or_Ok. apply owned_Some in Hb as [Hb Ho].
  agrees. apply agrees_query. f_equal. apply rows_agree. eapply stages_agree; [exact Hv|].
  by rewrite (org_at_batch _ _ _ Hb), Ho.
Qed.
Lemma agrees_list_schedules : agrees d d' (list_schedules collate c).
Proof.
  apply agrees_query. f_equal. apply rows_agree. intros ? ?.
  apply (schedules_agree _ _ _ Hv (λ r, sc_org_id r =? org c)). intros ?. lia.
Qed.
Lemma agrees_get_schedule id : agrees d d' (get_schedule c id).
Proof. unfold get_schedule. agrees. apply agrees_query. by apply schedule_of_agree. Qed.
Lemma agrees_list_runs id : agrees d d' (list_runs c id).
Proof.
  unfold list_runs. apply agrees_query_bind; [by rewrite (schedule_of_agree c d d')|].
  apply agrees_guard_bind. intros Hs%negb_false_iff.
  destruct (schedule_of (org c) id d) as [s|] eqn:Hsc; [|done]. apply owned_Some in Hsc as [Hsc Ho].
  agrees. apply agrees_query. do 2 f_equal. apply rows_agree. eapply runs_agree; [exact Hv|].
  by rewrite (org_at_schedule _ _ _ Hsc), Ho.
Qed.

Context (parse_url : string → result string Url).
Lemma agrees_list_specs : agrees d d' (list_specs collate c).
Proof.
  unfold list_specs. agrees. apply agrees_query. f_equal. apply rows_agree. intros ? ?.
  apply (specs_agree _ _ _ Hv (λ r, sp_org_id r =? org c)). intros ?. lia.
Qed.
Lemma agrees_get_spec id : agrees d d' (get_spec c id).
Proof. unfold get_spec. agrees. apply agrees_query. by apply spec_of_agree. Qed.
Lemma agrees_operations id : agrees d d' (list_operations parse_url c id).
Proof. unfold list_operations. agrees. apply agrees_query. by apply spec_of_agree. Qed.
Lemma agrees_get_config : agrees d d' (get_config c).
Proof. unfold get_config. agrees. apply agrees_query. by eapply config_agree. Qed.
End ReadHandlers.

Create HintDb reads.
#[export] Hint Resolve agrees_list_templates agrees_get_template agrees_list_versions agrees_list_connectors
  agrees_get_connector agrees_list_jobs agrees_get_job agrees_owned agrees_list_rows agrees_list_row_steps
  agrees_download agrees_list_secrets agrees_get_secret agrees_list_batches agrees_get_batch
  agrees_list_schedules agrees_get_schedule agrees_list_runs agrees_list_specs agrees_get_spec
  agrees_operations agrees_get_config : reads.

(** ** The API's reading requests

    Those that answer from the database; the license status, which every
    organization of an installation shares, is not one. *)

Definition is_read (call : Call) : bool :=
  match call with
  | DoMe | DoListTemplates _ | DoGetTemplate _ | DoListVersions _ | DoListConnectors | DoGetConnector _
  | DoListJobs _ | DoGetJob _ | DoListRows _ _ | DoListRowSteps _ _ | DoDownloadResults _ _ | DoStreamUpdates _
  | DoListSecrets | DoGetSecret _ | DoListBatches _ | DoGetBatch _ | DoListSchedules | DoGetSchedule _
  | DoListRuns _ | DoDryRun _ _ | DoListSpecs | DoGetSpec _ | DoListOperations _ | DoParsePreview _
  | DoGetConfig => true
  | _ => false
  end.

(** A step of a request by someone of another organization. *)
Definition foreign_step (o : Z) (d d' : Db) : Prop := ∃ c, org c ≠ o ∧ tenant_step c d d'.

Lemma foreign_steps_view o d d' : rtc (foreign_step o) d d' → db_wf d → same_view o d d' ∧ db_wf d'.
Proof.
  induction 1 as [d|d1 d2 d3 (c & Hc & Ht) _ IH]; intros Hd; [by split|].
  destruct (IH ltac:(apply Ht)) as [Hv Hd']. split; [|done]. etrans; [by eapply foreign_view|done].
Qed.

Section ApiReads.
Context `{JsonText} `{Rfc3339} `{Crypto} `{Aead} `{Setup} `{!Argon2}.

Lemma gate_run s : gate s = (Ok (require_licensed (sy_proc s) (clock (p_clock (sy_proc s)))), ticked s).
Proof. by destruct s as [p [w replies sent]]. Qed.

Lemma gate_bind {A} (k : ApiResult unit → SysM A) s :
  (gate ≫= k) s = k (require_licensed (sy_proc s) (clock (p_clock (sy_proc s)))) (ticked s).
Proof. unfold mbind, stM_bind. by rewrite gate_run. Qed.

Lemma json_api_run {A} (f : A → value) (m : Api A) s :
  (json_of f (in_api m) s).1 = (λ a, ok_json (f a)) <$> map_err Fails (m (world s)).1.
Proof.
  unfold json_of, in_api, in_net, in_stop, safe, with_err, api, mbind, stM_bind, world, world_System.
  by destruct (m (net_world (sy_net s))) as [[a|e] w].
Qed.

Lemma csv_run (m : Api (string * string)) s :
  ((r ← in_api m; mret (csv_attachment r)) s).1 = csv_attachment <$> map_err Fails (m (world s)).1.
Proof.
  unfold in_api, in_net, in_stop, safe, with_err, api, mbind, stM_bind, world, world_System.
  by destruct (m (net_world (sy_net s))) as [[a|e] w].
Qed.

Lemma stream_run c id s :
  (stream_updates c id s).1 = (λ _, REvents id) <$> map_err Fails (require_owned c id (world s)).1.
Proof.
  unfold stream_updates, in_api, in_net, in_stop, safe, with_err, api, world, world_System.
  unfold mbind at 1, stM_bind at 1. by destruct (require_owned c id (net_world (sy_net s))) as [[a|e] w].
Qed.

Lemma reads_agree fresh c call s s' :
  is_read call = true → w_turns (world s) = [] → w_turns (world s') = [] →
  db_wf (w_db (world s)) → db_wf (w_db (world s')) → same_view (org c) (w_db (world s)) (w_db (world s')) →
  (handle fresh c call s').1 = (handle fresh c call s).1.
Proof.
  intros Hread Ht Ht' Hd Hd' Hv. unfold handle. cbv zeta. rewrite !gate_bind.
  assert (∀ A (m : Api A), agrees (w_db (world s)) (w_db (world s')) m →
            (m (world (ticked s'))).1 = (m (world (ticked s))).1) as Hm.
  { intros A m Hm. symmetry. by apply Hm. }
  destruct call; try done; unfold as_json; rewrite ?json_api_run, ?csv_run, ?stream_run; try done.
  all: try (rewrite Hm; [done|eauto with reads]).
  - unfold json_of, in_stop, safe, with_err, lift, mbind, stM_bind. by destruct (me accounts c).
  - unfold parse_preview. agrees.
Qed.

(** Requests of other organizations, one after the other: each, when it is
    served, speaks for another organization or for nobody. *)
Definition foreign (o : Z) (header : option string) (s : System) : Prop :=
  match speaker header s with Ok c => org c ≠ o | Err _ => True end.
Fixpoint foreign_requests (o : Z) (requests : list (Fresh * option string * Call)) (s : System) : Prop :=
  match requests with
  | [] => True
  | r :: requests => foreign o r.1.2 s ∧ foreign_requests o requests (serve r.1.1 r.1.2 r.2 s).2
  end.

(** A request in the name of nobody, with no other transaction, leaves the
    database as it is. *)
Lemma public_reads header call m :
  handle_public header call = Some m → traces (λ d d', d' = d) (λ _, True) m.
Proof. destruct call; intros [= <-]; unfold ready, spec; traces; apply traces_in_api; traces. Qed.

Lemma unauthenticated_stays fresh header call s e :
  speaker header s = Err e → w_turns (world s) = [] →
  w_db (world (serve fresh header call s).2) = w_db (world s).
Proof.
  intros He Ht. destruct (handle_public header call) as [m|] eqn:Hp.
  - unfold serve. rewrite Hp. destruct (public_reads _ _ _ Hp s) as [_ [_ Hr]]. unfold run.
    destruct (m s) as [r s']. cbn in *. specialize (Hr (λ d d', d' = d)). unfold turns_in in Hr. rewrite Ht in Hr.
    specialize (Hr (List.Forall_nil _)). clear - Hr.
    induction Hr as [|a b d [Hab|Hab] _ IH]; congruence.
  - rewrite serve_bearer by done. by rewrite He.
Qed.

Lemma foreign_request_view o fresh header call s :
  foreign o header s → w_turns (world s) = [] → db_wf (w_db (world s)) →
  let s' := (serve fresh header call s).2 in
  w_turns (world s') = [] ∧ db_wf (w_db (world s')) ∧ same_view o (w_db (world s)) (w_db (world s')).
Proof.
  intros Hf Ht Hd. cbv zeta. assert (turns_in lawful (world s)) as Hl by (unfold turns_in; by rewrite Ht).
  destruct (serve_landed fresh header call s Hl Hd) as (_ & Hd' & _ & _ & Ha). destruct (Ha Ht) as [Ht' Hr].
  split; [exact Ht'|]. split; [exact Hd'|]. unfold foreign, caller in *. destruct (speaker header s) as [c|e] eqn:Hs.
  - apply (foreign_steps_view o); [|exact Hd]. eapply rtc_subrel; [|exact Hr]. intros a b Hab. by exists c.
  - assert (w_db (world (serve fresh header call s).2) = w_db (world s)) as ->; [|reflexivity].
    by eapply unauthenticated_stays.
Qed.

Lemma foreign_requests_view o requests s :
  foreign_requests o requests s → w_turns (world s) = [] → db_wf (w_db (world s)) →
  let s' := serve_all requests s in
  w_turns (world s') = [] ∧ db_wf (w_db (world s')) ∧ same_view o (w_db (world s)) (w_db (world s')).
Proof.
  cbv zeta. revert s. induction requests as [|r requests IH]; intros s Hf Ht Hd; [by split_and!|].
  destruct Hf as [Hf Hrest]. destruct (foreign_request_view o r.1.1 r.1.2 r.2 s Hf Ht Hd) as (Ht1 & Hd1 & Hv).
  destruct (IH _ Hrest Ht1 Hd1) as (? & ? & ?). split_and!; [done..|]. by etrans.
Qed.

End ApiReads.
