(* ===== verification/ApiWitness.v ===== *)
(** * The guarantees of the API at concrete requests

    Two organizations in one database, an API process with computable stand-ins
    for the crates, and the theorems of [ApiRules] and [Interference] applied
    to requests that change something. *)
From S2P Require Import Prelude RustStr Json Error License LicenseFile LicenseIO Db World Sources JobSource Jobs JobLifecycle JobStart RuleTypes Templates Secrets Schedules Batches ScheduleRules Sampling SampleCsv SampleXml Net Files Specs MasterKey Suggest SuggestRules DryRun LicenseRoutes Sessions Router Tenancy TenancyRules Api ApiRules Interference.
From Stdlib Require Import Ascii.

(** ** Well-formedness of a concrete database, decided *)
Definition all_tables : list Table :=
  [TJob; TTemplate; TConnector; TSource; TSchedule; TRun; TSecret; TBatch; TStage; TSpec; TLlm].

Definition keys (t : Table) (d : Db) : list Z :=
  match t with
  | TJob => fst <$> map_to_list (jobs d) | TTemplate => fst <$> map_to_list (rule_templates d)
  | TConnector => fst <$> map_to_list (connectors d) | TSource => fst <$> map_to_list (sources d)
  | TSchedule => fst <$> map_to_list (schedules d) | TRun => fst <$> map_to_list (schedule_runs d)
  | TSecret => fst <$> map_to_list (secrets d) | TBatch => fst <$> map_to_list (batches d)
  | TStage => fst <$> map_to_list (batch_stages d) | TSpec => fst <$> map_to_list (openapi_specs d)
  | TLlm => fst <$> map_to_list (org_llm_configs d)
  end.

Definition row_check (d : Db) (t : Table) (id : Z) : bool :=
  match row t id d with
  | None => true
  | Some r =>
      (key_of r =? id) && (negb (sequenced t) || (id <? db_seq d)) &&
      match org_of d r with
      | None => false
      | Some o => forallb (λ p, bool_decide (org_at p.1 p.2 d = Some o)) (refs r)
      end
  end.
Definition wf_check (d : Db) : bool := forallb (λ t, forallb (row_check d t) (keys t d)) all_tables.

Lemma in_keys t id d r : row t id d = Some r → In id (keys t d).
Proof.
  destruct t; cbn [row keys]; intros (x & Hx & _)%fmap_Some; apply list_elem_of_In, list_elem_of_fmap;
    (exists (id, x); split; [done|by apply elem_of_map_to_list]).
Qed.

Lemma wf_check_sound d : wf_check d = true → db_wf d.
Proof.
  unfold wf_check. rewrite forallb_forall. intros Hall t id r Hr.
  assert (In t all_tables) as Ht by (destruct t; cbn; tauto). specialize (Hall t Ht).
  rewrite forallb_forall in Hall. specialize (Hall id (in_keys _ _ _ _ Hr)). unfold row_check in Hall.
  rewrite Hr in Hall. apply andb_true_iff in Hall as [[Hk%Z.eqb_eq Hs]%andb_true_iff Ho].
  split_and!; [done| |].
  - intros Hseq. rewrite Hseq in Hs. cbn in Hs. lia.
  - destruct (org_of d r) as [o|]; [|done]. exists o. split; [done|]. intros p Hp%list_elem_of_In.
    rewrite forallb_forall in Ho. apply Ho in Hp. by apply bool_decide_eq_true in Hp.
Qed.

(** ** The sample *)
Definition sample_setup : Setup (H := bits_jwt) := {|
  configured := true; status_display := no_text; json_error := λ _, EmptyString;
  env := λ _, None; embedded_pem := EmptyString; clock := λ _, 10 ^ 18; client_builds := true;
  writable := λ _, true; product_version := "0.1"; pid := "1";
  schema_check := λ _, Ok tt; shape_error := λ _, EmptyString; cron_ok := any_text; interval_ok := any_text;
  rfc3339_ok := any_text; date_ok := any_text; parse_url := λ s, Err s;
  read_csv := λ _ _, mkCsv (Ok []) []; read_xml := λ _, [];
  email_re := λ _ s, s; long_digits_re := λ _ s, s; phone_re := λ _ s, s; csv_record := str_concat;
  collate := String.leb; email_eq := String.eqb; s3_get := λ _ e, Err e; sha256_hex := λ s, s;
  accounts := Ok sample_accounts; minio_bucket := "migration"; watch_allowed_buckets := []; allow_private := false;
  bridge_token := None; schema_text := EmptyString; master_key := dev_key; jwt_keys := sample_keys |}.

Definition sample_job (id org_ template schedule : Z) : JobRow :=
  mkJob id org_ template 4 (Some schedule) (json_obj []) Running (json_obj []) None None None None None None 0 0
    None None None None None None.

(** Organization 1 and organization 2, each with a template, a connector, a
    schedule and a job the schedule started. *)
Definition two_orgs : Db :=
  set_jobs {[5 := sample_job 5 1 2 6; 15 := sample_job 15 2 12 16]}
    (set_schedules {[6 := sample_schedule;
                     16 := mkSchedule 16 2 "nightly" 12 4 13 (json_obj []) "UTC" "skip" 3600 true None None None None 0 0]}
       (set_connectors {[3 := sample_connector_row; 13 := mkConnector 13 2 "crm" "salesforce" (json_obj []) None None 0 0]}
          (set_rule_templates {[2 := mkTemplate 2 1 "t" 4 "t" (json_obj []) true None 0;
                                12 := mkTemplate 12 2 "t" 4 "t" (json_obj []) false None 0]}
             (set_seq 20 empty_db)))).

Lemma two_orgs_wf : db_wf two_orgs.
Proof. apply wf_check_sound. vm_compute. reflexivity. Qed.

Definition sample_system (d : Db) : System :=
  mkSystem (mkProc default_state (Some false) None ∅ 0 [] []) (mkNet (answering d) [] []).
Definition sample_fresh : Fresh := mkFresh "u" "nonce-12byte".
Definition bearer (c : Claims) : option string :=
  match bits_encode "k" (mkJwt (sub c) (org c) (role c) "platform" "users" (10 ^ 9) (10 ^ 9 + 43200)) with
  | Ok token => Some ("Bearer " +:+ token)
  | Err _ => None
  end.
Definition admin_one : Claims := mkClaims "3" 1 "admin".
Definition admin_two : Claims := mkClaims "9" 2 "admin".

Definition sample_serve (c : Claims) (call : Call) (s : System) : Response * System :=
  serve (H := bits_json) (H0 := decimal_time) (H1 := shared_key) (H2 := clear_aead) (H4 := sample_setup)
    (H5 := clear_argon) sample_fresh (bearer c) call s.

Definition sample_speaker (header : option string) (s : System) : result Rejection Claims :=
  speaker (H4 := sample_setup) header s.

Definition deleted : System := (sample_serve admin_one (DoDeleteSchedule 6) (sample_system two_orgs)).2.




(** The administrator of organization 2 publishes a template between two reads
    of organization 1. *)
Definition published_by_two : list (Fresh * option string * Call) :=
  [(sample_fresh, bearer admin_two, DoPublishTemplate 12)].
Definition after_two (s : System) : System :=
  serve_all (H := bits_json) (H0 := decimal_time) (H1 := shared_key) (H2 := clear_aead) (H4 := sample_setup)
    (H5 := clear_argon) published_by_two s.


(** Both administrators at work, one after the other. *)
Definition day_of_work : list (Fresh * option string * Call) :=
  [(sample_fresh, bearer admin_one, DoDeleteSchedule 6);
   (sample_fresh, bearer admin_two, DoPublishTemplate 12);
   (sample_fresh, Some "Bearer x", DoDeleteSchedule 16)].
Definition after_work : System :=
  serve_all (H := bits_json) (H0 := decimal_time) (H1 := shared_key) (H2 := clear_aead) (H4 := sample_setup)
    (H5 := clear_argon) day_of_work (sample_system two_orgs).

Lemma histories_stay_well_formed_witness :
  (schedules (w_db (world after_work)) !! 6 = None ∧
   rt_published <$> rule_templates (w_db (world after_work)) !! 12 = Some true) ∧
  db_wf (w_db (world after_work)) ∧ keeps two_orgs (w_db (world after_work)).
Proof.
  split; [vm_compute; by split|].
  apply (histories_stay_well_formed (H := bits_json) (H0 := decimal_time) (H1 := shared_key) (H2 := clear_aead)
    (H4 := sample_setup) (H5 := clear_argon) day_of_work (sample_system two_orgs)); [by constructor|exact two_orgs_wf].
Defined.
