(* ===== verification/WorkGate.v ===== *)
(** * No work without a license, for the API as a whole

    Which requests to the bridge begin or resume the processing of data, and
    that none is sent while the license gate refuses: by a program logic over
    the requests a handler sends, for every handler of [Api]. *)
From S2P Require Import Prelude RustStr Json Error License LicenseFile LicenseIO Db World Sources JobSource Jobs JobLifecycle RuleTypes Templates Secrets Schedules Batches ScheduleRules Sampling SampleCsv SampleXml Net Files Specs MasterKey Suggest DryRun LicenseRoutes Sessions Router Tenancy TenancyRules Api ApiRules Interference ApiWitness Traces.
From Stdlib Require Import Ascii.

(** ** Requests to the bridge that begin work *)

(** A workflow other than the export of results is started, a job resumed, a
    schedule created, unpaused or triggered. *)
Definition begins_work (call : string * value) : bool :=
  let '(path, body) := call in
  let says k v := bool_decide (get_str k body = Some v) in
  if (path =? "/v1/workflows/start")%string then negb (says "workflowType" "ExportResultsWorkflow")
  else if (path =? "/v1/workflows/signal")%string then says "signal" "resume"
  else mem_str path ["/v1/schedules/create"; "/v1/schedules/unpause"; "/v1/schedules/trigger"].

(** The program sends no such request. *)
Abbreviation idle := (traces (λ _ _, True) (λ c, begins_work c = false)).

Lemma idle_export configured sd wid input : idle (start_workflow configured sd wid "ExportResultsWorkflow" input).
Proof.
  apply traces_bind; [|intros; apply traces_ret]. apply traces_post. unfold begins_work, get_str. cbn [String.eqb].
  rewrite vget_json_obj. reflexivity.
Qed.
Lemma idle_signal configured sd wid signal payload :
  signal ≠ "resume" → idle (signal_workflow configured sd wid signal payload).
Proof.
  intros Hs. apply traces_post_unit. unfold begins_work, get_str. rewrite vget_json_obj. cbn.
  apply bool_decide_eq_false. by intros [= Hr].
Qed.

#[export] Hint Resolve idle_export : traces.
#[export] Hint Extern 1 (idle (post_unit _ _ _ _)) => apply traces_post_unit; reflexivity : traces.
#[export] Hint Extern 1 (idle (signal_workflow _ _ _ _ _)) => apply idle_signal; discriminate : traces.

(** ** Handlers *)
Lemma idle_connector o id : idle (require_connector o id).
Proof. unfold require_connector. traces. Qed.
#[export] Hint Resolve idle_connector : traces.
Lemma idle_resolve o req : idle (Sources.resolve o req).
Proof. unfold Sources.resolve, lookup_object. traces. Qed.
#[export] Hint Resolve idle_resolve : traces.
Lemma idle_resolve_object o req : idle (resolve_object o req).
Proof. unfold resolve_object. traces. Qed.
#[export] Hint Resolve idle_resolve_object : traces.

(** A request refused before anything else. *)
Lemma refused_idle {A} (m : Api A) : refused m → idle m.
Proof. intros Hm. apply traces_same. intros w. unfold world. cbn. by destruct (Hm w) as [e ->]. Qed.

(** The requests that need a license: refused for it, or before for the
    caller's role, which an administrator's always suffices for. *)
Definition refusal (c : Claims) (e e' : ApiError) : Prop := e' = e ∨ e' = Forbidden ∧ role c ≠ "admin".
Definition gated {A} (c : Claims) (e : ApiError) (m : Api A) : Prop := ∀ w, ∃ e', m w = (Err e', w) ∧ refusal c e e'.

Lemma gated_role {A} c roles e (f : unit → Api A) :
  mem_str "admin" roles = true → gated c e (f tt) → gated c e (lift (require_role c roles) ≫= f).
Proof.
  intros Hr Hf w. unfold mbind, stM_bind, lift, require_role. destruct (mem_str (role c) roles) eqn:Hm; [apply Hf|].
  exists Forbidden. split; [done|]. right. split; [done|]. congruence.
Qed.
Lemma gated_license {A} c e (f : unit → Api A) : gated c e (lift (Err e) ≫= f).
Proof. intros w. exists e. split; [done|by left]. Qed.
Lemma gated_idle {A} c e (m : Api A) : gated c e m → idle m.
Proof. intros Hm. apply traces_same. intros w. unfold world. cbn. by destruct (Hm w) as (e' & -> & _). Qed.

Section Handlers.
Context `{JsonText} `{Rfc3339} `{Aead} (configured : bool) (status_display : Z → string) (e : ApiError) (c : Claims).
Context (cron_ok interval_ok : string → bool) (collate : string → string → bool).

Lemma gated_create_job uuid req : gated c e (create_job configured status_display (Err e) uuid c req).
Proof. apply gated_role; [done|apply gated_license]. Qed.
Lemma gated_resume_job id : gated c e (resume_job configured status_display (Err e) c id).
Proof. apply gated_role; [done|apply gated_license]. Qed.
Lemma gated_retry_row id i body : gated c e (retry_row configured status_display (Err e) c id i body).
Proof. apply gated_role; [done|apply gated_license]. Qed.
Lemma gated_retry_all id body : gated c e (retry_all_failed configured status_display (Err e) c id body).
Proof. apply gated_role; [done|apply gated_license]. Qed.
Lemma gated_create_batch uuid req : gated c e (create_batch configured status_display (Err e) uuid c req).
Proof. apply gated_role; [done|apply gated_license]. Qed.
Lemma gated_create_schedule uuid req :
  gated c e (create_schedule configured status_display (Err e) cron_ok interval_ok uuid c req).
Proof. apply gated_role; [done|apply gated_license]. Qed.
Lemma gated_enable id req : us_enabled req = Some true →
  gated c e (update_schedule configured status_display (Err e) cron_ok interval_ok c id req).
Proof. intros He. apply gated_role; [done|]. rewrite He. apply gated_license. Qed.
Lemma gated_resume_schedule id : gated c e (resume_schedule configured status_display (Err e) c id).
Proof. apply gated_role; [done|apply gated_license]. Qed.
Lemma gated_trigger id : gated c e (trigger_schedule configured status_display (Err e) c id).
Proof. apply gated_role; [done|apply gated_license]. Qed.

(** The others that call the bridge. *)
Lemma idle_pause_job id : idle (pause_job configured status_display c id).
Proof. unfold pause_job, signal_and_record, action_target, transition_lost. traces. Qed.
Lemma idle_cancel_job id : idle (cancel_job configured status_display c id).
Proof. unfold cancel_job, cancel_workflow, action_target, transition_lost. traces. Qed.
Lemma idle_retry_export id : idle (retry_export configured status_display c id).
Proof. unfold retry_export. traces. Qed.
Lemma idle_update_schedule id req :
  idle (update_schedule configured status_display (Err e) cron_ok interval_ok c id req).
Proof.
  destruct (decide (us_enabled req = Some true)) as [He|He]; [by eapply gated_idle, gated_enable|].
  unfold update_schedule, tell, World.update_schedule, World.pause_schedule, schedule_call.
  destruct (us_enabled req) as [[]|]; [done| |]; traces.
Qed.
Lemma idle_delete_schedule id : idle (delete_schedule configured status_display c id).
Proof. unfold delete_schedule, World.delete_schedule, schedule_call. traces. Qed.
Lemma idle_pause_schedule id : idle (pause_schedule configured status_display c id).
Proof. unfold pause_schedule, temporal_id, World.pause_schedule, schedule_call. traces. Qed.
Lemma idle_test_connector id : idle (test_connector configured status_display c id).
Proof. unfold test_connector, test_sftp_connector. traces. Qed.
End Handlers.

Section Services.
Context `{JsonText} `{Rfc3339} `{Aead} (c : Claims).
Context (schema_check : value → result string unit) (shape_error : value → string).
Context (parse_url : string → result string Url) (status_display : Z → string) (json_error : string → string).
Context (email_re long_digits_re phone_re : string → string → string) (schema_text : string) (key : MasterKey).

Lemma idle_create_spec allow_private req :
  idle (create_spec parse_url json_error status_display allow_private c req).
Proof. unfold create_spec, spec_input, fetch_spec, check_destination, lookup_host. traces. Qed.

Lemma idle_ask_model attempts req base_url api_key model pii messages last :
  idle (ask_model schema_check shape_error status_display json_error attempts c req base_url api_key model pii messages last).
Proof.
  revert messages last. induction attempts as [|n IH]; intros messages last; cbn [ask_model]; [traces|].
  apply traces_bind; [|intros content; traces]. apply traces_with_err. unfold call_llm, llm_post. traces.
Qed.
#[local] Hint Resolve idle_ask_model : traces.

Lemma idle_suggest req :
  idle (suggest_mapping schema_check shape_error parse_url status_display json_error
    email_re long_digits_re phone_re schema_text key c req).
Proof.
  unfold suggest_mapping, load_api_key, safe. traces. apply traces_with_err. unfold operation_context. traces.
Qed.
End Services.

Lemma idle_put_config `{Rfc3339} seal c req : idle (put_config seal c req).
Proof. unfold put_config. traces. Qed.

Create HintDb idle_handlers.
#[export] Hint Resolve idle_pause_job idle_cancel_job idle_retry_export idle_update_schedule idle_delete_schedule
  idle_pause_schedule idle_test_connector idle_create_spec idle_suggest idle_put_config : idle_handlers.
#[export] Hint Extern 1 (idle (create_job _ _ _ _ _ _)) => eapply gated_idle, gated_create_job : idle_handlers.
#[export] Hint Extern 1 (idle (resume_job _ _ _ _ _)) => eapply gated_idle, gated_resume_job : idle_handlers.
#[export] Hint Extern 1 (idle (retry_row _ _ _ _ _ _ _)) => eapply gated_idle, gated_retry_row : idle_handlers.
#[export] Hint Extern 1 (idle (retry_all_failed _ _ _ _ _ _)) => eapply gated_idle, gated_retry_all : idle_handlers.
#[export] Hint Extern 1 (idle (create_batch _ _ _ _ _ _)) => eapply gated_idle, gated_create_batch : idle_handlers.
#[export] Hint Extern 1 (idle (create_schedule _ _ _ _ _ _ _ _)) => eapply gated_idle, gated_create_schedule : idle_handlers.
#[export] Hint Extern 1 (idle (resume_schedule _ _ _ _ _)) => eapply gated_idle, gated_resume_schedule : idle_handlers.
#[export] Hint Extern 1 (idle (trigger_schedule _ _ _ _ _)) => eapply gated_idle, gated_trigger : idle_handlers.

(** ** The API *)
Section Gate.
Context `{JsonText} `{Rfc3339} `{Crypto} `{Aead} `{Setup} `{!Argon2}.

(** The requests that ask for work. *)
Definition asks_for_work (call : Call) : bool :=
  match call with
  | DoCreateJob _ | DoResumeJob _ | DoRetryRow _ _ _ | DoRetryAllFailed _ _ | DoCreateBatch _ | DoCreateSchedule _
  | DoResumeSchedule _ | DoTriggerSchedule _ => true
  | DoUpdateSchedule _ req => bool_decide (us_enabled req = Some true)
  | _ => false
  end.

Lemma idle_gate_bind {A} (k : ApiResult unit → SysM A) s e :
  require_licensed (sy_proc s) (clock (p_clock (sy_proc s))) = Err e → idle (k (Err e)) →
  ∃ l, w_calls (world ((gate ≫= k) s).2) = w_calls (world s) ++ l ∧ Forall (λ c, begins_work c = false) l.
Proof. intros He Hk. rewrite gate_bind, He. destruct (Hk (ticked s)) as [(_ & l & Hl & Hi) _]. by exists l. Qed.

(** The handlers that ask nothing of the bridge. *)
Ltac quiet_handler :=
  repeat first [apply traces_json|apply traces_in_api|apply traces_in_net|apply traces_in_node];
  unfold list_templates, create_template, get_template, delete_template, list_versions, create_version, publish_template,
    upload_file, put_object, register_upload, sample_file, get_range, create_connector, get_connector, delete_connector,
    list_jobs, get_job, list_rows, list_row_steps, require_owned, download_results, stream_results_from_db,
    list_secrets, get_secret, put_secret, revoke_secret, list_batches, get_batch, get_schedule, list_runs, list_specs,
    get_spec, delete_spec, list_operations, list_connectors, list_schedules, parse_preview, get_config, LicenseRoutes.start_trial;
  traces.

Lemma idle_handle fresh c call s e :
  require_licensed (sy_proc s) (clock (p_clock (sy_proc s))) = Err e →
  ∃ l, w_calls (world (handle fresh c call s).2) = w_calls (world s) ++ l ∧ Forall (λ c, begins_work c = false) l.
Proof.
  intros He. unfold handle. cbv zeta. eapply idle_gate_bind; [exact He|].
  destruct call; unfold as_json, stream_updates; traces; first [solve [eauto 6 with idle_handlers traces]|quiet_handler].
Qed.

Lemma gated_response {A} c e (f : A → value) (m : Api A) (k : SysM Response) s :
  gated c e m → k = json_of f (in_api m) →
  inert s (k s).2 ∧ ∃ e', (k s).1 = Err (Fails e') ∧ refusal c e e'.
Proof.
  intros Hm ->. destruct s as [p [w replies sent]]. destruct (Hm w) as (e' & Hr & He).
  unfold json_of, in_api, in_net, in_stop, safe, with_err, api, mbind, stM_bind. cbn. rewrite Hr. cbn.
  split; [apply inert_refl|]. by exists e'.
Qed.

Lemma work_refused fresh c call s e :
  asks_for_work call = true → require_licensed (sy_proc s) (clock (p_clock (sy_proc s))) = Err e →
  inert s (handle fresh c call s).2 ∧
  ∃ e', (handle fresh c call s).1 = Err (Fails e') ∧ refusal c e e'.
Proof.
  intros Hc He.
  assert (inert (ticked s) (handle fresh c call s).2 ∧
          ∃ e', (handle fresh c call s).1 = Err (Fails e') ∧ refusal c e e') as [Hi He'];
    [|split; [eapply inert_trans; [apply ticked_inert|exact Hi]|exact He']].
  unfold handle. cbv zeta. rewrite gate_bind, He.
  destruct call; try discriminate Hc; cbn in Hc; eapply gated_response; try reflexivity.
  all: eauto using gated_create_job, gated_resume_job, gated_retry_row, gated_retry_all, gated_create_batch,
    gated_create_schedule, gated_resume_schedule, gated_trigger.
  apply gated_enable. by apply bool_decide_eq_true in Hc.
Qed.

Lemma unlicensed_refused p t :
  enforce_enabled p = true → is_licensed (p_state p) (process_fingerprint p) t = false →
  ∃ hint, require_licensed p t = Err (LicenseRequired hint).
Proof.
  unfold require_licensed, is_licensed. intros -> Hl. cbn [negb]. rewrite Hl. by eexists.
Qed.

Lemma unauthorized_work header s :
  (∃ e, require_licensed (sy_proc s) (clock (p_clock (sy_proc s))) = Err e) →
  let resp := (run (r ← in_io (authorize_work clock bridge_token header); mret (RJson r.1 r.2)) s).1 in
  status_of resp = Some 401 ∨ status_of resp = Some 402.
Proof.
  destruct s as [p [w replies sent]]. intros [e He]. cbn in He.
  unfold run, authorize_work, in_io, in_node, on_proc_ok, on_proc, st_get, now, mbind, stM_bind, lift, mret, stM_ret. cbn.
  destruct (_ || _); cbn; [by left|]. rewrite He. by right.
Qed.

(** C2: no work without a license: while the license is enforced and not valid
    at the instants a request reads the clock, no request, whatever it is and
    whoever sends it, makes the orchestration bridge start a workflow other
    than the export of results, resume a job, or create, unpause or trigger a
    schedule; the requests that ask for that change nothing at all and are
    answered with a refusal, which is 402 for an administrator; and the
    orchestrator is not authorized to run what was scheduled before. *)
Theorem no_work_without_license fresh header call s :
  let p := sy_proc s in
  enforce_enabled p = true →
  (∀ n, n = p_clock p ∨ n = S (p_clock p) → is_licensed (p_state p) (process_fingerprint p) (clock n) = false) →
  let '(resp, s') := serve fresh header call s in
  (∃ sent, w_calls (world s') = w_calls (world s) ++ sent ∧ Forall (λ c, begins_work c = false) sent) ∧
  (asks_for_work call = true → inert s s' ∧
     match speaker header s with
     | Ok c => status_of resp = Some 402 ∨ status_of resp = Some 403 ∧ role c ≠ "admin"
     | Err _ => status_of resp = Some 401
     end) ∧
  (call = DoAuthorizeWork → status_of resp = Some 401 ∨ status_of resp = Some 402).
Proof.
  intros p Hen Hl. destruct (unlicensed_refused p (clock (p_clock p)) Hen (Hl _ (or_introl eq_refl))) as [hint0 Hr0].
  destruct (unlicensed_refused p (clock (S (p_clock p))) Hen (Hl _ (or_intror eq_refl))) as [hint Hr].
  destruct (handle_public header call) as [m|] eqn:Hp.
  - destruct (serve fresh header call s) as [resp s'] eqn:Hs. unfold serve in Hs. rewrite Hp in Hs.
    destruct (handle_public_harmless header call m (mkClaims EmptyString 0 EmptyString) Hp) as [Hh _].
    specialize (Hh s). assert (asks_for_work call = false) as -> by (by destruct call).
    split_and!; [|done|].
    + exists []. rewrite app_nil_r. split; [|constructor]. unfold run in Hs. destruct (m s) as [r s1].
      injection Hs as _ <-. by destruct Hh as (_ & _ & ? & _).
    + intros ->. injection Hp as <-. apply (f_equal fst) in Hs. cbn [fst] in Hs. subst resp. fold p.
      apply unauthorized_work. by eexists.
  - assert (call ≠ DoAuthorizeWork) as Hna by (by intros ->).
    rewrite serve_bearer by done. destruct (speaker header s) as [c|r] eqn:Hsp.
    + pose proof (idle_handle fresh c call (ticked s) _ Hr) as Hi.
      pose proof (λ e, work_refused fresh c call (ticked s) e) as Hw. unfold run.
      destruct (handle fresh c call (ticked s)) as [r s'] eqn:Hh. split_and!; [exact Hi| |done].
      intros Hc. destruct (Hw _ Hc Hr) as [Hin (e' & He & Hrf)]. cbn in Hin, He. subst r.
      split; [eapply inert_trans; [apply ticked_inert|exact Hin]|]. destruct Hrf as [->|[-> Hrole]]; [by left|by right].
    + split_and!; [exists []; by rewrite app_nil_r| |done]. intros Hc. split; [apply ticked_inert|by eapply rejected_401].
Qed.
End Gate.

(** ** Witness *)

(** Enforcement without a license: the administrator of organization 1
    triggers the nightly schedule. *)
Definition enforced_system : System :=
  mkSystem (mkProc default_state (Some true) None ∅ 0 [] []) (mkNet (answering two_orgs) [] []).

Lemma no_work_without_license_witness :
  status_of (sample_serve admin_one (DoTriggerSchedule 6) enforced_system).1 = Some 402 ∧
  inert enforced_system (sample_serve admin_one (DoTriggerSchedule 6) enforced_system).2 ∧
  w_calls (world (sample_serve admin_one (DoTriggerSchedule 6) (sample_system two_orgs)).2) ≠ [].
Proof.
  pose proof (no_work_without_license (H := bits_json) (H0 := decimal_time) (H1 := shared_key) (H2 := clear_aead)
    (H4 := sample_setup) (H5 := clear_argon) sample_fresh (bearer admin_one) (DoTriggerSchedule 6) enforced_system
    eq_refl (λ n _, eq_refl)) as Hno.
  unfold sample_serve. destruct (serve _ _ _ enforced_system) as [resp s'] eqn:Hs. destruct Hno as (_ & Hw & _).
  destruct (Hw eq_refl) as [Hi Hst].
  assert (sample_speaker (bearer admin_one) enforced_system = Ok admin_one) as Hsp by (vm_compute; reflexivity).
  unfold sample_speaker in Hsp. rewrite Hsp in Hst.
  split_and!; [|exact Hi|vm_compute; discriminate]. destruct Hst as [Hst|[_ Hrole]]; [exact Hst|by destruct Hrole].
Defined.
