(* ===== verification/AuditTrail.v ===== *)
(** * The audit log is complete

    Whatever a successful request changes, or asks of the bridge, is in the
    audit log in the caller's name, under the entity and action of the request;
    uploads, which register a file, are the exception. *)
From S2P Require Import Prelude RustStr Json Error License LicenseFile LicenseIO Db World Sources JobSource Jobs RuleTypes Templates Secrets Schedules Batches Sampling SampleCsv SampleXml Net Files Specs MasterKey Suggest DryRun LicenseRoutes Sessions Router Tenancy TenancyRules Api ApiRules Interference ApiWitness Traces.
From Stdlib Require Import Ascii.

(** Any steps and requests. *)
Abbreviation grows := (traces (λ _ _, True) (λ _, True)).

(** No change, and nothing asked of the bridge but a connection test. *)
Definition is_test (call : string * value) : Prop := call.1 = "/v1/connectors/sftp/test".
Abbreviation still := (traces (λ d d', d' = d) is_test).
Definition unchanged (w w' : World) : Prop := leaves (λ d d', d' = d) is_test w w'.

(** The entity and the actions of a request in the log. *)
Record Kind : Type := mkKind { k_entity : string; k_actions : list string }.
Definition of_kind (k : Kind) (entity action : string) : bool :=
  (entity =? k_entity k)%string && mem_str action (k_actions k).

(** One of the run's own steps appends the caller's entry. *)
Definition logs (k : Kind) (c : Claims) (w w' : World) : Prop :=
  ∃ h d entity id action before after,
    w_hist w' = w_hist w ++ h ∧ of_kind k entity action = true ∧
    (d, set_audit_log (audit_log d ++ [audit_entry c entity id action before after d]) d) ∈ h.

(** A run that succeeds has logged. *)
Definition audited {S E A} `{HasWorld S} (k : Kind) (c : Claims) (m : stM S E A) : Prop :=
  ∀ s, is_ok (m s).1 = true → logs k c (world s) (world (m s).2).

Lemma leaves_grow R K w w' : leaves R K w w' → ∃ h, w_hist w' = w_hist w ++ h.
Proof. intros [(h & Hh & _) _]. by exists h. Qed.

Lemma logs_after k c w1 w2 w3 : logs k c w1 w2 → (∃ h, w_hist w3 = w_hist w2 ++ h) → logs k c w1 w3.
Proof.
  intros (h & d & en & i & ac & b & af & Hh & Hk & Hin) [h' Hh']. exists (h ++ h'), d, en, i, ac, b, af.
  rewrite Hh', Hh, app_assoc. split_and!; [done|done|]. apply elem_of_app. by left.
Qed.
Lemma logs_before k c w1 w2 w3 : (∃ h, w_hist w2 = w_hist w1 ++ h) → logs k c w2 w3 → logs k c w1 w3.
Proof.
  intros [h' Hh'] (h & d & en & i & ac & b & af & Hh & Hk & Hin). exists (h' ++ h), d, en, i, ac, b, af.
  rewrite Hh, Hh', app_assoc. split_and!; [done|done|]. apply elem_of_app. by right.
Qed.

Section Rules.
Context {S E : Type} `{HasWorld S} (k : Kind) (c : Claims).

Lemma audited_here {A B} (m : stM S E A) (f : A → stM S E B) :
  audited k c m → (∀ a, grows (f a)) → audited k c (m ≫= f).
Proof.
  intros Hm Hf s. specialize (Hm s). unfold mbind, stM_bind. destruct (m s) as [[a|e] s']; [|done].
  intros _. eapply logs_after; [by apply Hm|]. eapply leaves_grow, traces_leaves, Hf.
Qed.
Lemma audited_later {A B} (m : stM S E A) (f : A → stM S E B) :
  grows m → (∀ a, audited k c (f a)) → audited k c (m ≫= f).
Proof.
  intros Hm Hf s. specialize (Hm s). unfold mbind, stM_bind. destruct (m s) as [[a|e] s']; [|done].
  intros Hok. eapply logs_before; [by eapply leaves_grow, Hm|by apply Hf].
Qed.
Lemma audited_throw {A} e : audited k c (throw e : stM S E A).
Proof. by intros s. Qed.
Lemma audited_with_err {A F} (f : E → F) (m : stM S E A) : audited k c m → audited k c (with_err f m).
Proof. intros Hm s. specialize (Hm s). unfold with_err. by destruct (m s) as [[]]. Qed.
End Rules.

Lemma audited_record k c entity id action before after :
  of_kind k entity action = true → audited k c (record_audit c entity id action before after).
Proof.
  intros Hk w. unfold record_audit, update, sql. destruct (next_turn w) as [t ts]. set (d := t_env t (w_db w)).
  destruct (t_fault t) as [[[] e]|]; cbn; try done. intros _.
  eexists _, d, entity, id, action, before, after. split; [reflexivity|]. split; [done|]. by apply list_elem_of_singleton.
Qed.

Lemma audited_api {A} k c (m : Api A) : audited k c m → audited k c (api m).
Proof. intros Hm n. specialize (Hm (net_world n)). unfold api. by destruct (m (net_world n)). Qed.
Lemma audited_on_world {A} k c (m : Api A) : audited k c m → audited k c (on_world m).
Proof. intros Hm n. specialize (Hm (n_world n)). unfold on_world. by destruct (m (n_world n)). Qed.
Lemma audited_in_stop {A} k c (m : StopM A) : audited k c m → audited k c (in_stop m).
Proof. intros Hm s. specialize (Hm (sy_net s)). unfold in_stop. by destruct (m (sy_net s)). Qed.
Lemma audited_in_net {A} k c (m : NetM A) : audited k c m → audited k c (in_net m).
Proof. intros Hm. by apply audited_in_stop, audited_with_err. Qed.
Lemma audited_in_api {A} k c (m : Api A) : audited k c m → audited k c (in_api m).
Proof. intros Hm. by apply audited_in_net, audited_api. Qed.
Lemma audited_in_node {A} k c (m : NodeM A) : audited k c m → audited k c (in_node m).
Proof.
  intros Hm s. specialize (Hm (mkNode (sy_proc s) (net_world (sy_net s)))). unfold in_node.
  by destruct (m _) as [[]].
Qed.
Lemma audited_json {A} k c (f : A → value) (m : SysM A) : audited k c m → audited k c (json_of f m).
Proof. intros Hm. apply audited_here; [exact Hm|]. intros a. apply traces_ret. Qed.

(** Logged, or nothing to log. *)
Definition accounted {S E A} `{HasWorld S} (k : Kind) (c : Claims) (m : stM S E A) : Prop :=
  ∀ s, is_ok (m s).1 = true → logs k c (world s) (world (m s).2) ∨ unchanged (world s) (world (m s).2).

Lemma accounted_audited {S E A} `{HasWorld S} k c (m : stM S E A) : audited k c m → accounted k c m.
Proof. intros Hm s Hok. left. by apply Hm. Qed.
Lemma accounted_still {S E A} `{HasWorld S} k c (m : stM S E A) : still m → accounted k c m.
Proof. intros Hm s _. right. apply Hm. Qed.
Lemma accounted_bind {S E A B} `{HasWorld S} k c (m : stM S E A) (f : A → stM S E B) :
  still m → (∀ a, accounted k c (f a)) → accounted k c (m ≫= f).
Proof.
  intros Hm Hf s. specialize (Hm s). unfold mbind, stM_bind. destruct (m s) as [[a|e] s']; [|done].
  intros Hok. destruct (Hf a s' Hok) as [Hl|Hu]; [left|right].
  - eapply logs_before; [by eapply leaves_grow, Hm|done].
  - eapply leaves_trans; [apply Hm|exact Hu].
Qed.

Lemma accounted_map {S E A B} `{HasWorld S} k c (f : A → B) (m : stM S E A) :
  accounted k c m → accounted k c (a ← m; mret (f a)).
Proof. intros Hm s. specialize (Hm s). unfold mbind, stM_bind. by destruct (m s) as [[]]. Qed.
Lemma accounted_in_api {A} k c (m : Api A) : accounted k c m → accounted k c (in_api m).
Proof.
  intros Hm s. specialize (Hm (net_world (sy_net s))). unfold in_api, in_net, in_stop, safe, with_err, api.
  destruct (m (net_world (sy_net s))) as [[a|e] w]; [|done]. exact Hm.
Qed.

#[export] Hint Resolve I : traces.
#[export] Hint Extern 1 (grows (post _ _ _ _)) => apply traces_post; exact I : traces.
#[export] Hint Extern 1 (grows (post_unit _ _ _ _)) => apply traces_post_unit; exact I : traces.
#[export] Hint Extern 1 (still (post_unit _ _ "/v1/connectors/sftp/test" _)) => apply traces_post_unit; reflexivity : traces.

Lemma grows_start configured sd wid ty input : grows (start_workflow configured sd wid ty input).
Proof. unfold start_workflow. traces. Qed.
Lemma grows_signal configured sd wid signal payload : grows (signal_workflow configured sd wid signal payload).
Proof. unfold signal_workflow. traces. Qed.
Lemma any_connector R K o id : (∀ d, R d d) → traces R K (require_connector o id).
Proof. intros Hr. unfold require_connector. traces. Qed.
Lemma any_resolve R K o req : (∀ d, R d d) → traces R K (Sources.resolve o req).
Proof. intros Hr. unfold Sources.resolve, lookup_object. traces; by apply any_connector. Qed.
Lemma any_resolve_object R K o req : (∀ d, R d d) → traces R K (resolve_object o req).
Proof. intros Hr. unfold resolve_object. traces. by apply any_resolve. Qed.
#[export] Hint Resolve grows_start grows_signal : traces.
#[export] Hint Extern 1 (traces _ _ (require_connector _ _)) => apply any_connector; done : traces.
#[export] Hint Extern 1 (traces _ _ (Sources.resolve _ _)) => apply any_resolve; done : traces.
#[export] Hint Extern 1 (traces _ _ (resolve_object _ _)) => apply any_resolve_object; done : traces.

Ltac logged := first [reflexivity | unfold of_kind; cbn; rewrite String.eqb_refl; reflexivity | match goal with |- of_kind _ _ (put_action ?p) = true => destruct p as [[? []]|]; reflexivity end].
Ltac audited_step :=
  match goal with
  | |- audited _ _ (let _ := _ in _) => cbv zeta
  | |- audited _ _ (record_audit _ _ _ _ _ _ ≫= _) => apply audited_here; [apply audited_record; logged|intros ?; traces]
  | |- audited _ _ (api (record_audit _ _ _ _ _ _) ≫= _) =>
      apply audited_here; [apply audited_api, audited_record; logged|intros ?; traces]
  | |- audited _ _ (on_world (record_audit _ _ _ _ _ _) ≫= _) =>
      apply audited_here; [apply audited_on_world, audited_record; logged|intros ?; traces]
  | |- audited _ _ (safe (api (record_audit _ _ _ _ _ _)) ≫= _) =>
      apply audited_here; [apply audited_with_err, audited_api, audited_record; logged|intros ?; traces]
  | |- audited _ _ (throw _) => apply audited_throw
  | |- audited _ _ (_ ≫= _) => apply audited_later; [traces|intros ?]
  | |- audited _ _ (match ?x with _ => _ end) => destruct x
  | |- audited _ _ (if ?b then _ else _) => destruct b
  end.
Ltac audited := repeat audited_step.

(** ** Handlers *)
Section Handlers.
Context `{JsonText} `{Rfc3339} `{Aead} (configured : bool) (status_display : Z → string) (licensed : ApiResult unit).
Context (c : Claims) (cron_ok interval_ok : string → bool).

Lemma audited_create_job uuid req :
  audited (mkKind "job" ["create"]) c (create_job configured status_display licensed uuid c req).
Proof. unfold create_job, start_job, start_migration_workflow. audited. Qed.
Lemma audited_signal id signal new action from :
  audited (mkKind "job" [action]) c (signal_and_record configured status_display c id signal new action from).
Proof.
  unfold signal_and_record, action_target, transition_lost. audited.
Qed.
Lemma audited_pause_job id : audited (mkKind "job" ["pause"]) c (pause_job configured status_display c id).
Proof. unfold pause_job. apply audited_later; [traces|intros ?]. apply audited_signal. Qed.
Lemma audited_resume_job id : audited (mkKind "job" ["resume"]) c (resume_job configured status_display licensed c id).
Proof. unfold resume_job. do 2 (apply audited_later; [traces|intros ?]). apply audited_signal. Qed.
Lemma audited_cancel_job id : audited (mkKind "job" ["cancel"]) c (cancel_job configured status_display c id).
Proof. unfold cancel_job, cancel_workflow, action_target, transition_lost. audited. Qed.
Lemma audited_retry_export id :
  audited (mkKind "job" ["retry_export"]) c (retry_export configured status_display c id).
Proof. unfold retry_export. audited. Qed.
Lemma audited_retry_row id i body :
  audited (mkKind "job_row" ["retry"]) c (retry_row configured status_display licensed c id i body).
Proof. unfold retry_row, retry_target. audited. Qed.
Lemma accounted_retry_all id body :
  accounted (mkKind "job" ["retry_all_failed"]) c (retry_all_failed configured status_display licensed c id body).
Proof.
  unfold retry_all_failed, retry_target.
  repeat first [apply accounted_bind; [traces|intros ?]|progress cbv zeta]. destruct (_ =? _).
  - apply accounted_still. traces.
  - apply accounted_audited. audited.
Qed.

Lemma audited_create_batch uuid req :
  audited (mkKind "batch" ["create"]) c (create_batch configured status_display licensed uuid c req).
Proof. unfold create_batch. audited. Qed.

Ltac schedules := unfold temporal_id, tell, World.create_schedule, World.update_schedule, World.pause_schedule,
  World.unpause_schedule, World.delete_schedule, World.trigger_schedule, schedule_call; audited.
Lemma audited_create_schedule uuid req :
  audited (mkKind "schedule" ["create"]) c
    (create_schedule configured status_display licensed cron_ok interval_ok uuid c req).
Proof. unfold create_schedule. schedules. Qed.
Lemma audited_update_schedule id req :
  audited (mkKind "schedule" ["update"]) c
    (update_schedule configured status_display licensed cron_ok interval_ok c id req).
Proof. unfold update_schedule. schedules. Qed.
Lemma audited_delete_schedule id :
  audited (mkKind "schedule" ["delete"]) c (delete_schedule configured status_display c id).
Proof. unfold delete_schedule. schedules. Qed.
Lemma audited_pause_schedule id :
  audited (mkKind "schedule" ["pause"]) c (pause_schedule configured status_display c id).
Proof. unfold pause_schedule. schedules. Qed.
Lemma audited_resume_schedule id :
  audited (mkKind "schedule" ["resume"]) c (resume_schedule configured status_display licensed c id).
Proof. unfold resume_schedule. schedules. Qed.
Lemma audited_trigger id :
  audited (mkKind "schedule" ["trigger_now"]) c (trigger_schedule configured status_display licensed c id).
Proof. unfold trigger_schedule. schedules. Qed.
End Handlers.

Section OtherHandlers.
Context `{JsonText} `{Rfc3339} `{Aead} (c : Claims).
Context (schema_check : value → result string unit) (shape_error : value → string).
Context (seal : string → result string (string * string)) (minio_bucket : string) (watch_allowed_buckets : list string).

Lemma audited_create_template uuid req :
  audited (mkKind "rule_template" ["create"]) c (create_template schema_check shape_error uuid c req).
Proof. unfold create_template. audited. Qed.
Lemma audited_create_version id req :
  audited (mkKind "rule_template" ["create_version"]) c (create_version schema_check shape_error c id req).
Proof. unfold create_version. audited. Qed.
Lemma audited_publish id : audited (mkKind "rule_template" ["publish"]) c (publish_template c id).
Proof. unfold publish_template. audited. Qed.
Lemma audited_delete_template id : audited (mkKind "rule_template" ["delete"]) c (delete_template c id).
Proof. unfold delete_template. audited. Qed.

Lemma audited_put_secret name v :
  audited (mkKind "destination_secret" ["create"; "rotate"; "reactivate"]) c (put_secret seal c name v).
Proof. unfold put_secret. audited. Qed.
Lemma audited_revoke name : audited (mkKind "destination_secret" ["revoke"]) c (revoke_secret c name).
Proof. unfold revoke_secret. audited. Qed.
Lemma audited_put_config req : audited (mkKind "llm_config" ["update"]) c (put_config seal c req).
Proof. unfold put_config. audited. Qed.
Lemma audited_create_connector req :
  audited (mkKind "connector" ["create"]) c (create_connector seal minio_bucket watch_allowed_buckets c req).
Proof. unfold create_connector. audited. Qed.
Lemma audited_delete_connector id : audited (mkKind "connector" ["delete"]) c (delete_connector c id).
Proof. unfold delete_connector. audited. Qed.

Context (parse_url : string → result string Url) (status_display : Z → string) (json_error : string → string).
Context (email_re long_digits_re phone_re : string → string → string) (schema_text : string) (key : MasterKey).

Lemma audited_create_spec allow_private req :
  audited (mkKind "openapi_spec" ["import"]) c (create_spec parse_url json_error status_display allow_private c req).
Proof. unfold create_spec, spec_input, fetch_spec, check_destination, lookup_host. audited. Qed.
Lemma audited_delete_spec id : audited (mkKind "openapi_spec" ["delete"]) c (delete_spec c id).
Proof. unfold delete_spec. audited. Qed.

Lemma audited_ask_model attempts req base_url api_key model pii messages last :
  audited (mkKind "mapping_suggestion" ["generate"]) c
    (ask_model schema_check shape_error status_display json_error attempts c req base_url api_key model pii messages last).
Proof.
  revert messages last. induction attempts as [|n IH]; intros messages last; cbn [ask_model]; [apply audited_throw|].
  apply audited_later; [unfold safe, call_llm, llm_post; apply traces_with_err; traces|intros content].
  audited; apply IH.
Qed.
Lemma audited_suggest req :
  audited (mkKind "mapping_suggestion" ["generate"]) c
    (suggest_mapping schema_check shape_error parse_url status_display json_error
       email_re long_digits_re phone_re schema_text key c req).
Proof.
  unfold suggest_mapping, load_api_key, safe, operation_context.
  repeat first [apply audited_ask_model|apply audited_later; [traces; try (apply traces_with_err; traces)|intros ?]|progress cbv zeta].
Qed.

Context `{Crypto} (env : string → option string) (embedded_pem : string) (clock : nat → Z).
Context (client_builds : bool) (writable : string → bool) (product_version pid : string).
Lemma audited_start_trial email :
  audited (mkKind "license" ["trial_start"]) c
    (LicenseRoutes.start_trial env embedded_pem clock client_builds writable product_version pid status_display c email).
Proof. unfold LicenseRoutes.start_trial. audited. Qed.
End OtherHandlers.

(** ** The API *)
Section Api.
Context `{JsonText} `{Rfc3339} `{Crypto} `{Aead} `{Setup} `{!Argon2}.

(** The entity and the actions a request is logged under; for the requests
    that only read, none. *)
Definition kind_of (call : Call) : Kind :=
  match call with
  | DoCreateTemplate _ => mkKind "rule_template" ["create"]
  | DoCreateVersion _ _ => mkKind "rule_template" ["create_version"]
  | DoPublishTemplate _ => mkKind "rule_template" ["publish"]
  | DoDeleteTemplate _ => mkKind "rule_template" ["delete"]
  | DoCreateConnector _ => mkKind "connector" ["create"]
  | DoDeleteConnector _ => mkKind "connector" ["delete"]
  | DoCreateJob _ => mkKind "job" ["create"]
  | DoPauseJob _ => mkKind "job" ["pause"]
  | DoResumeJob _ => mkKind "job" ["resume"]
  | DoCancelJob _ => mkKind "job" ["cancel"]
  | DoRetryRow _ _ _ => mkKind "job_row" ["retry"]
  | DoRetryAllFailed _ _ => mkKind "job" ["retry_all_failed"]
  | DoRetryExport _ => mkKind "job" ["retry_export"]
  | DoPutSecret _ _ => mkKind "destination_secret" ["create"; "rotate"; "reactivate"]
  | DoRevokeSecret _ => mkKind "destination_secret" ["revoke"]
  | DoCreateBatch _ => mkKind "batch" ["create"]
  | DoCreateSchedule _ => mkKind "schedule" ["create"]
  | DoUpdateSchedule _ _ => mkKind "schedule" ["update"]
  | DoDeleteSchedule _ => mkKind "schedule" ["delete"]
  | DoPauseSchedule _ => mkKind "schedule" ["pause"]
  | DoResumeSchedule _ => mkKind "schedule" ["resume"]
  | DoTriggerSchedule _ => mkKind "schedule" ["trigger_now"]
  | DoCreateSpec _ => mkKind "openapi_spec" ["import"]
  | DoDeleteSpec _ => mkKind "openapi_spec" ["delete"]
  | DoPutConfig _ => mkKind "llm_config" ["update"]
  | DoSuggestMapping _ => mkKind "mapping_suggestion" ["generate"]
  | DoStartTrial _ => mkKind "license" ["trial_start"]
  | _ => mkKind EmptyString []
  end.

Definition is_upload (call : Call) : bool := match call with DoUploadFile _ => true | _ => false end.

Create HintDb audits.
#[local] Hint Resolve audited_create_job audited_pause_job audited_resume_job audited_cancel_job audited_retry_export
  audited_retry_row audited_create_batch audited_create_schedule audited_update_schedule audited_delete_schedule
  audited_pause_schedule audited_resume_schedule audited_trigger audited_create_template audited_create_version
  audited_publish audited_delete_template audited_put_secret audited_revoke audited_put_config
  audited_create_connector audited_delete_connector audited_create_spec audited_delete_spec audited_suggest
  audited_start_trial : audits.

(** The handlers that only read. *)
Ltac reads :=
  apply accounted_still;
  repeat first [apply traces_json|apply traces_in_api|apply traces_in_net|apply traces_in_node|apply traces_in_io|apply traces_in_stop];
  unfold list_templates, get_template, list_versions, sample_file, get_range, get_connector, list_jobs, get_job, list_rows,
    list_row_steps, require_owned, download_results, stream_results_from_db, list_secrets, get_secret, list_batches,
    get_batch, get_schedule, list_runs, list_specs, get_spec, list_operations, list_connectors, list_schedules,
    parse_preview, get_config, test_connector, test_sftp_connector;
  traces.

Lemma handle_accounted fresh c call : is_upload call = false → accounted (kind_of call) c (handle fresh c call).
Proof.
  intros Hu. unfold handle. cbv zeta. apply accounted_bind; [unfold gate; traces|intros licensed].
  destruct call; try discriminate Hu; cbn [kind_of]; unfold as_json, stream_updates;
    first
      [ solve [apply accounted_audited, audited_json; first [apply audited_in_api|apply audited_in_net|apply audited_in_node|apply audited_in_stop]; eauto with audits]
      | solve [apply accounted_map, accounted_in_api; first [apply accounted_retry_all|apply accounted_audited; eauto with audits]]
      | solve [apply accounted_map, accounted_in_api; reads]
      | solve [reads] ].
Qed.

Lemma upload_unlogged c parts :
  traces (λ d d', audit_log d' = audit_log d) (λ _, True) (in_net (upload_file minio_bucket sha256_hex c parts)).
Proof.
  apply traces_in_net. unfold upload_file, put_object, register_upload. traces.
Qed.

(** The answer of a request that succeeded. *)
Definition success (r : Response) : bool :=
  match status_of r with Some status => status <? 400 | None => false end.

Lemma success_ok r : success (respond r) = true → is_ok r = true.
Proof.
  destruct r as [resp|[e|]]; [done| |done]. unfold respond, success, into_response.
  pose proof (status_is_an_error e) as Hs. destruct (status_and_code e) as [status code]. cbn in *. lia.
Qed.

(** C5: the audit log is complete: whenever a request other than an upload is
    answered with a success, then one of the steps it made has appended an
    entry in the caller's name, for the caller's organization, under the
    entity and the action of that kind of request; or it has changed no row
    of any table and asked nothing of the orchestration bridge but to test a
    connection.  An upload appends no entry, whatever it does. *)
Theorem changes_are_logged fresh header call s :
  let '(resp, s') := serve fresh header call s in
  (is_upload call = false → success resp = true →
     logs (kind_of call) (caller header s) (world s) (world s') ∨ unchanged (world s) (world s')) ∧
  (is_upload call = true → did (λ d d', audit_log d' = audit_log d) (world s) (world s')).
Proof.
  destruct (handle_public header call) as [m|] eqn:Hp.
  - unfold serve, run. rewrite Hp. destruct (handle_public_harmless header call m (caller header s) Hp) as [Hh _].
    specialize (Hh s). destruct (m s) as [r s']. destruct Hh as (_ & _ & Hc & Hd).
    split; [|intros Hu; by destruct call]. intros _ _. right. split; [exact Hd|]. exists []. by rewrite app_nil_r.
  - rewrite serve_bearer by done. unfold caller. destruct (speaker header s) as [c|r] eqn:Hsp.
    + unfold run. pose proof (handle_accounted fresh c call) as Ha.
      destruct (handle fresh c call (ticked s)) as [r s'] eqn:Hh. split.
      * intros Hu Hok%success_ok. specialize (Ha Hu (ticked s)). rewrite Hh in Ha. exact (Ha Hok).
      * intros Hu. destruct call; try discriminate Hu. revert Hh. unfold handle. cbv zeta. rewrite gate_bind. intros Hh.
        pose proof (traces_json _ _ id _ (upload_unlogged c parts) (ticked (ticked s))) as [[Hd _] _].
        unfold as_json in Hh. rewrite Hh in Hd. exact Hd.
    + split; [|intros _; apply did_refl]. intros _ _. right. apply leaves_refl.
Qed.

End Api.

(** ** Witness *)

(** The administrator of organization 1 deletes its schedule. *)
Lemma changes_are_logged_witness :
  success (sample_serve admin_one (DoDeleteSchedule 6) (sample_system two_orgs)).1 = true ∧
  au_action <$> audit_log (w_db (world deleted)) = ["delete"] ∧
  (logs (mkKind "schedule" ["delete"]) admin_one (world (sample_system two_orgs)) (world deleted) ∨
   unchanged (world (sample_system two_orgs)) (world deleted)).
Proof.
  assert (success (sample_serve admin_one (DoDeleteSchedule 6) (sample_system two_orgs)).1 = true) as Hok
    by (vm_compute; reflexivity).
  split; [exact Hok|]. split; [vm_compute; reflexivity|].
  assert (sample_speaker (bearer admin_one) (sample_system two_orgs) = Ok admin_one) as Hs by (vm_compute; reflexivity).
  pose proof (changes_are_logged (H := bits_json) (H0 := decimal_time) (H1 := shared_key) (H2 := clear_aead)
    (H4 := sample_setup) (H5 := clear_argon) sample_fresh (bearer admin_one) (DoDeleteSchedule 6) (sample_system two_orgs)) as Hl.
  unfold caller, sample_speaker, deleted, sample_serve in *. rewrite Hs in Hl.
  destruct (serve _ _ _ _) as [resp s']. destruct Hl as [Hl _]. exact (Hl eq_refl Hok).
Defined.
