(* ===== verification/JobHistory.v ===== *)
(** * The life cycle of a job, for the API as a whole

    Every own database step of every request of [Api] is a step of
    [JobLifecycle.job_step]: handler by handler, with the program logic of
    [Traces]; most leave the table of jobs alone, the deletion of a schedule
    detaches its jobs. *)
From S2P Require Import Prelude RustStr Json Error License LicenseFile LicenseIO Db World Sources JobSource Jobs JobLifecycle RuleTypes Templates Secrets Schedules Batches Sampling SampleCsv SampleXml Net Files Specs MasterKey Suggest DryRun LicenseRoutes Sessions Router Tenancy TenancyRules Api ApiRules Interference ApiWitness Traces AuditTrail.
From Stdlib Require Import Ascii.

Abbreviation law := (job_step api_transition).
Abbreviation lawful_jobs := (traces law (λ _, True)).

(** ** The statements *)

(** A statement that leaves jobs alone and takes no id back. *)
Definition jobs_kept (d d' : Db) : Prop := jobs d' = jobs d ∧ db_seq d ≤ db_seq d'.
Lemma kept_law d d' : jobs_kept d d' → law d d'.
Proof. intros [? ?]. by apply job_step_same. Qed.
Lemma kept_refl d : jobs_kept d d.
Proof. by split. Qed.

Ltac kept := split; cbn; first [reflexivity | lia].

Lemma kept_insert_schedule f d row d' : insert_schedule f d = Ok (row, d') → jobs_kept d d'.
Proof. unfold insert_schedule. cbv zeta. destruct (existsb _ _); [done|]. destruct (negb _); [done|]. intros [= _ <-]. kept. Qed.
Lemma kept_update_schedule o id f d : jobs_kept d (update_schedule_row o id f d).2.
Proof. unfold update_schedule_row. destruct (schedule_of o id d); kept. Qed.
Lemma kept_insert_batch o cid src wid d row d' : insert_batch o cid src wid d = Ok (row, d') → jobs_kept d d'.
Proof. unfold insert_batch. cbv zeta. repeat case_match; try done; intros [= _ <-]; kept. Qed.
Lemma kept_update_batch id f d : jobs_kept d (update_batch id f d).2.
Proof. unfold update_batch. repeat case_match; kept. Qed.
Lemma kept_insert_template o key v name schema by_ d row d' :
  insert_template o key v name schema by_ d = Ok (row, d') → jobs_kept d d'.
Proof. unfold insert_template. cbv zeta. repeat case_match; try done; intros [= _ <-]; kept. Qed.
Lemma kept_publish o id d : jobs_kept d (publish_effect o id d).2.
Proof. unfold publish_effect. repeat case_match; kept. Qed.
Lemma kept_delete_template o id d n d' : delete_effect o id d = Ok (n, d') → jobs_kept d d'.
Proof. unfold delete_effect. repeat case_match; try done; intros [= _ <-]; kept. Qed.
Lemma kept_upsert_secret o name ct nonce kind f d : jobs_kept d (upsert_secret o name ct nonce kind f d).2.
Proof. unfold upsert_secret, add_secret. cbv zeta. repeat case_match; kept. Qed.
Lemma kept_revoke o name d : jobs_kept d (revoke_effect o name d).2.
Proof. unfold revoke_effect. repeat case_match; kept. Qed.
Lemma kept_delete_connector o id d n d' : delete_connector_effect o id d = Ok (n, d') → jobs_kept d d'.
Proof. unfold delete_connector_effect. repeat case_match; try done; intros [= _ <-]; kept. Qed.
Lemma kept_delete_spec o id d : jobs_kept d (delete_spec_effect o id d).2.
Proof. unfold delete_spec_effect. repeat case_match; kept. Qed.
Lemma kept_upload u d : jobs_kept d (upload_effect u d).2.
Proof. unfold upload_effect. cbv zeta. repeat case_match; kept. Qed.
Lemma kept_audit c e i a b af d : jobs_kept d (set_audit_log (audit_log d ++ [audit_entry c e i a b af d]) d).
Proof. kept. Qed.
Lemma kept_upsert_spec o name url v by_ d : jobs_kept d (upsert_spec o name url v by_ d).2.
Proof. unfold upsert_spec. repeat case_match; kept. Qed.
Lemma kept_config o p req sid by_ d u d' : config_effect o p req sid by_ d = Ok (u, d') → jobs_kept d d'.
Proof. unfold config_effect, upsert_config. case_match; [done|]. intros [= _ <-]. kept. Qed.
Lemma kept_trans d1 d2 d3 : jobs_kept d1 d2 → jobs_kept d2 d3 → jobs_kept d1 d3.
Proof. intros [Hj ?] [Hj' ?]. split; [by rewrite Hj'|lia]. Qed.
Lemma kept_connector c name kind cfg cred d row d' : connector_tx c name kind cfg cred d = Ok (row, d') → jobs_kept d d'.
Proof.
  unfold connector_tx. intros ([sid d1] & Hc & Hr)%result_bind_ok. cbn [fst snd] in Hr.
  apply result_bind_ok in Hr as (by_ & _ & Hr). apply (kept_trans _ d1).
  - revert Hc. unfold insert_credential, add_secret. cbv zeta. destruct cred as [[ct nonce]|]; [destruct (Prelude.is_some _); [done|]|]; intros [= _ <-]; kept.
  - revert Hr. unfold insert_connector. cbv zeta. destruct (negb _); [done|]. destruct (existsb _ _); [done|]. intros [= _ <-]. kept.
Qed.
Lemma kept_put_key o p req box by_ d u d' :
  (let '(row, d1) := upsert_secret o LLM_SECRET box.1 box.2 "internal" (replace_value box.1 box.2) d in
   Ok (tt, upsert_config o p req (Some (se_id row)) by_ d1) : ApiResult (unit * Db)) = Ok (u, d') → jobs_kept d d'.
Proof.
  pose proof (kept_upsert_secret o LLM_SECRET box.1 box.2 "internal" (replace_value box.1 box.2) d) as Hk.
  destruct (upsert_secret _ _ _ _ _ _ d) as [row d1]. intros [= _ <-]. eapply kept_trans; [exact Hk|]. kept.
Qed.

(** Deleting a schedule keeps its jobs; they only let go of it. *)
Lemma remove_schedule_law id d : law d (remove_schedule id d).
Proof.
  intros Hf. cbn. split_and!.
  - intros i j. cbn. rewrite lookup_fmap. destruct (jobs d !! i) as [j0|] eqn:Hj; [|done]. intros _. by eapply Hf.
  - intros i j Hj. cbn. rewrite lookup_fmap, Hj. eexists. split; [done|]. unfold detach_job, job_evolves.
    destruct (bool_decide _); cbn; (split; [by left|by split_and!]).
  - intros i j' Hn. cbn. rewrite lookup_fmap, Hn. done.
Qed.
Lemma remove_owned_law o id d : law d (remove_owned o id d).2.
Proof. unfold remove_owned. destruct (schedule_of o id d); [apply remove_schedule_law|apply job_step_refl]. Qed.

(** ** Handlers *)
Create HintDb jobs.
#[local] Hint Resolve kept_insert_schedule kept_update_schedule kept_insert_batch kept_update_batch kept_insert_template
  kept_publish kept_delete_template kept_upsert_secret kept_revoke kept_delete_connector kept_delete_spec kept_upload
  kept_audit kept_upsert_spec kept_config kept_connector kept_put_key : jobs.
#[local] Hint Resolve remove_owned_law remove_schedule_law : jobs.
#[local] Hint Extern 2 (law _ _) => apply kept_law : jobs.

#[local] Hint Extern 1 (lawful_jobs (query _)) => apply traces_query, job_step_refl : traces.
#[local] Hint Extern 1 (lawful_jobs (query_err _)) => apply traces_query_err, job_step_refl : traces.
#[local] Hint Extern 1 (lawful_jobs (update _)) => apply traces_update; intros ?; solve [eauto 3 with jobs] : traces.
#[local] Hint Extern 1 (lawful_jobs (sql _)) => apply traces_sql; intros ???; solve [eauto 3 with jobs] : traces.
#[local] Hint Extern 1 (lawful_jobs (transaction _)) => apply traces_transaction; intros ???; solve [eauto 3 with jobs] : traces.
#[local] Hint Extern 1 (lawful_jobs (record_audit _ _ _ _ _ _)) => apply traces_update; intros ?; solve [eauto 3 with jobs] : traces.
#[local] Hint Extern 1 (lawful_jobs (require_connector _ _)) => apply any_connector, job_step_refl : traces.
#[local] Hint Extern 1 (lawful_jobs (Sources.resolve _ _)) => apply any_resolve, job_step_refl : traces.
#[local] Hint Extern 1 (lawful_jobs (resolve_object _ _)) => apply any_resolve_object, job_step_refl : traces.
#[local] Hint Extern 1 (lawful_jobs (post _ _ _ _)) => apply traces_post; exact I : traces.
#[local] Hint Extern 1 (lawful_jobs (post_unit _ _ _ _)) => apply traces_post_unit; exact I : traces.

Lemma lawful_start configured sd wid ty input : lawful_jobs (start_workflow configured sd wid ty input).
Proof. unfold start_workflow. traces. Qed.
Lemma lawful_retry_target o id : lawful_jobs (retry_target o id).
Proof. unfold retry_target. traces. Qed.
#[local] Hint Resolve lawful_start lawful_retry_target : traces.

(** A handler of [JobLifecycle]: its steps are lawful, and it only adds to
    what was asked. *)
Lemma lawful_job_handler {A} (m : Api A) : writes law m → traces (λ _ _, True) (λ _, True) m → lawful_jobs m.
Proof.
  intros Hw Hg w. destruct (Hw w) as ((h & Hh & HR & _) & Hi), (Hg w) as [[_ Hc] _].
  split; [|exact Hi]. split; [by exists h|exact Hc].
Qed.

Section Handlers.
Context `{JsonText} `{Rfc3339} `{Aead} (configured : bool) (status_display : Z → string) (licensed : ApiResult unit).
Context (c : Claims) (cron_ok interval_ok : string → bool).

Lemma lawful_create_job uuid req : lawful_jobs (create_job configured status_display licensed uuid c req).
Proof. apply lawful_job_handler; [apply create_job_step|]. unfold create_job, start_job, start_migration_workflow. traces. Qed.
Lemma lawful_signal id signal new action from :
  (∀ s, s ∈ from → api_transition s new = true) →
  lawful_jobs (signal_and_record configured status_display c id signal new action from).
Proof.
  intros Hf. apply lawful_job_handler; [by apply signal_and_record_step|].
  unfold signal_and_record, action_target, transition_lost. traces.
Qed.
Lemma lawful_pause_job id : lawful_jobs (pause_job configured status_display c id).
Proof. unfold pause_job. apply traces_bind; [traces|intros ?]. by apply lawful_signal; intros s ->%list_elem_of_singleton. Qed.
Lemma lawful_resume_job id : lawful_jobs (resume_job configured status_display licensed c id).
Proof.
  unfold resume_job. do 2 (apply traces_bind; [traces|intros ?]). by apply lawful_signal; intros s ->%list_elem_of_singleton.
Qed.
Lemma lawful_cancel_job id : lawful_jobs (cancel_job configured status_display c id).
Proof.
  apply lawful_job_handler; [apply cancel_job_step|].
  unfold cancel_job, cancel_workflow, action_target, transition_lost. traces.
Qed.
Lemma lawful_delete_schedule id : lawful_jobs (delete_schedule configured status_display c id).
Proof. unfold delete_schedule, World.delete_schedule, schedule_call. traces. Qed.

Context (schema_check : value → result string unit) (shape_error : value → string).
Context (parse_url : string → result string Url) (json_error : string → string).
Context (email_re long_digits_re phone_re : string → string → string) (schema_text : string) (key : MasterKey).

Lemma lawful_ask_model attempts req base_url api_key model pii messages last :
  lawful_jobs
    (ask_model schema_check shape_error status_display json_error attempts c req base_url api_key model pii messages last).
Proof.
  revert messages last. induction attempts as [|n IH]; intros messages last; cbn [ask_model]; [traces|].
  apply traces_bind; [|intros content; traces; apply IH]. apply traces_with_err. unfold call_llm, llm_post. traces.
Qed.
#[local] Hint Resolve lawful_ask_model : traces.
Lemma lawful_suggest req :
  lawful_jobs (suggest_mapping schema_check shape_error parse_url status_display json_error
    email_re long_digits_re phone_re schema_text key c req).
Proof.
  unfold suggest_mapping, load_api_key, safe. traces. apply traces_with_err. unfold operation_context. traces.
Qed.
End Handlers.
#[local] Hint Resolve lawful_create_job lawful_pause_job lawful_resume_job lawful_cancel_job lawful_delete_schedule
  lawful_suggest : traces.

Section Api.
Context `{JsonText} `{Rfc3339} `{Crypto} `{Aead} `{Setup} `{!Argon2}.

(** The other handlers, statement by statement. *)
Ltac by_statement :=
  repeat first [apply traces_json|apply traces_in_api|apply traces_in_net|apply traces_in_node|apply traces_in_io|apply traces_in_stop];
  unfold list_templates, create_template, get_template, delete_template, list_versions, create_version, publish_template,
    upload_file, put_object, register_upload, sample_file, get_range, create_connector, get_connector, delete_connector,
    test_connector, test_sftp_connector, list_jobs, get_job, list_rows, list_row_steps, require_owned, retry_row,
    retry_target, retry_all_failed, retry_export, download_results, stream_results_from_db, list_secrets, get_secret,
    put_secret, revoke_secret, list_batches, get_batch, create_batch, get_schedule, create_schedule, update_schedule,
    pause_schedule, resume_schedule, trigger_schedule, temporal_id, tell, World.create_schedule, World.update_schedule,
    World.pause_schedule, World.unpause_schedule, World.trigger_schedule, schedule_call, list_runs, list_specs, get_spec,
    create_spec, spec_input, fetch_spec, check_destination, lookup_host, delete_spec, list_operations,
    list_connectors, list_schedules, parse_preview, get_config, put_config, LicenseRoutes.start_trial;
  traces; repeat (apply traces_in_api; traces).

Lemma lawful_handle fresh c call : lawful_jobs (handle fresh c call).
Proof.
  unfold handle. cbv zeta. apply traces_bind; [unfold gate; traces|intros licensed].
  destruct call; unfold as_json, stream_updates; first [solve [traces]|by_statement].
Qed.

Lemma lawful_public header call m : handle_public header call = Some m → lawful_jobs m.
Proof.
  destruct call; intros [= <-]; unfold ready, spec; traces; apply traces_in_api; traces.
Qed.

Lemma lawful_run (m : SysM Response) : lawful_jobs m → ∀ s, ran law (λ _, True) (world s) (world (run m s).2).
Proof. intros Hm s. specialize (Hm s). unfold run. by destruct (m s). Qed.

Lemma lawful_serve fresh header call s :
  ran law (λ _, True) (world s) (world (serve fresh header call s).2).
Proof.
  unfold serve. destruct (handle_public header call) as [m|] eqn:Hp; apply lawful_run; [by eapply lawful_public|].
  apply traces_bind; [traces|intros t]. destruct (authenticate jwt_keys t header); [apply lawful_handle|apply traces_ret].
Qed.

(** C7: every write of the API to a job follows ADR 0004: whatever request is
    served, with whatever token, in whatever interleaving with other
    transactions, database failures and replies of the services, each of the
    request's own database steps keeps every job, creates [pending] jobs only,
    changes a status only along the API's lines of the table (pending to
    running or failed, running to paused and back, a non-terminal status to
    cancelled), and never changes a job's organization, source, template or
    workflow.  A step is taken in a database whose sequence is above the ids
    of its jobs. *)
Theorem api_writes_follow_the_adr fresh header call s :
  ∃ h, w_hist (world (serve fresh header call s).2) = w_hist (world s) ++ h ∧
       Forall (λ ab, job_step api_transition ab.1 ab.2) h.
Proof. destruct (lawful_serve fresh header call s) as [[Hd _] _]. exact Hd. Qed.

(** C23: a job's outcome survives every request: when the sequence is above
    the ids of the jobs, and the other transactions are the workflow's, the
    reconciler's and other API requests' writes, then over the whole run of
    any request, the deletion of the schedule that started the job included, a
    cancelled job stays cancelled, a finished job stays finished, and no job is
    lost or changes its organization, source or workflow. *)
Theorem outcomes_survive_requests fresh header call s id j :
  seq_fresh (w_db (world s)) → turns_in (job_step any_transition) (world s) →
  jobs (w_db (world s)) !! id = Some j →
  ∃ j', jobs (w_db (world (serve fresh header call s).2)) !! id = Some j' ∧
    (j_status j = Cancelled → j_status j' = Cancelled) ∧
    (terminal (j_status j) = true → terminal (j_status j') = true) ∧
    j_org_id j' = j_org_id j ∧ j_source_ref j' = j_source_ref j ∧
    j_temporal_workflow_id j' = j_temporal_workflow_id j.
Proof.
  intros Hf Ht Hj. destruct (lawful_serve fresh header call s) as [_ [_ Hr]].
  destruct (steps_evolve _ _ id j (any_steps _ _ (Hr _ Ht)) Hf Hj) as (_ & j' & Hj' & [Hc Hte] & ? & ? & ?).
  exists j'. by split_and!.
Qed.
End Api.

(** ** Witness *)
Lemma wf_seq_fresh d : db_wf d → seq_fresh d.
Proof.
  intros Hwf id j Hj. destruct (Hwf TJob id (RJob j)) as (_ & Hs & _); [cbn; by rewrite Hj|by apply Hs].
Defined.

(** The workflow finishes job 5 while the administrator of organization 1
    deletes the schedule that started it. *)
Definition finishing : System :=
  mkSystem (sy_proc (sample_system two_orgs))
    (mkNet (mkWorld two_orgs
              [quiet_turn; mkTurn (λ d, (update_job 5 (status_in [Running]) (λ d, set_status Succeeded (db_now d)) d).2) None]
              [Answer 200 None] [] []) [] []).
Definition finished_job : JobRow := sample_job 5 1 2 6.

Lemma outcomes_survive_requests_witness :
  schedules (w_db (world (sample_serve admin_one (DoDeleteSchedule 6) finishing).2)) !! 6 = None ∧
  ∃ j', jobs (w_db (world (sample_serve admin_one (DoDeleteSchedule 6) finishing).2)) !! 5 = Some j' ∧
    j_schedule_id j' = None ∧ j_status j' = Succeeded ∧ j_org_id j' = 1.
Proof.
  split; [vm_compute; reflexivity|].
  destruct (outcomes_survive_requests (H := bits_json) (H0 := decimal_time) (H1 := shared_key) (H2 := clear_aead)
    (H4 := sample_setup) (H5 := clear_argon) sample_fresh (bearer admin_one) (DoDeleteSchedule 6) finishing 5 finished_job)
    as (j' & Hj' & _ & _ & Ho & _).
  - by apply wf_seq_fresh, two_orgs_wf.
  - constructor; [intros d; apply job_step_refl|]. constructor; [|constructor]. intros d.
    apply update_job_step. intros j Hs%status_in_elem. apply list_elem_of_singleton in Hs.
    unfold job_evolves. cbn. rewrite Hs. split_and!; try reflexivity. right. reflexivity.
  - reflexivity.
  - exists j'. split; [exact Hj'|]. unfold sample_serve in *. vm_compute in Hj'. injection Hj' as <-. by split_and!.
Defined.
