(* ===== verification/Secrecy.v ===== *)
(** * What the API shows of the secrets it keeps

    Two conversations that differ only in what is encrypted: the contents of
    the [secrets] table, the values that requests put there and the nonces.
    A relational program logic couples the two runs of a handler; the requests
    of both conversations get the same answers, and the bridge, the stores and
    the other servers see the same requests.  The one handler that reads a
    secret is the mapping suggestion, which sends the organization's own key to
    the organization's own provider ([SuggestRules]). *)
From S2P Require Import Prelude RustStr Json Error License LicenseFile LicenseIO Db World Sources JobSource Jobs RuleTypes Templates Secrets Schedules Batches Sampling SampleCsv SampleXml Net Files Specs MasterKey Suggest DryRun LicenseRoutes Sessions Router Tenancy TenancyRules Api ApiRules Interference ApiWitness.
From Stdlib Require Import Ascii Sorting.Sorted.

(** ** Databases alike *)

(** A row without what is encrypted. *)
Definition hide (s : SecretRow) : SecretRow :=
  mkSecret (se_id s) (se_org_id s) (se_name s) EmptyString EmptyString (se_kind s) (se_revoked_at s)
    (se_created_at s) (se_updated_at s).

(** The databases differ at most in what is encrypted. *)
Definition alike (d d' : Db) : Prop := ∃ t, d' = set_secrets t d ∧ hide <$> t = hide <$> secrets d.

Lemma alike_intro t d : hide <$> t = hide <$> secrets d → alike d (set_secrets t d).
Proof. intros Ht. by exists t. Qed.

#[global] Instance alike_equivalence : Equivalence alike.
Proof.
  split.
  - intros d. exists (secrets d). by destruct d.
  - intros d d' (t & -> & Ht). exists (secrets d). split; [by destruct d|done].
  - intros d1 d2 d3 (t & -> & Ht) (t' & -> & Ht'). exists t'. split; [by destruct d1|]. by rewrite Ht'.
Qed.

(** A step of another transaction that does not look into secrets. *)
Definition blind_turn (t : Turn) : Prop := ∀ d d', alike d d' → alike (t_env t d) (t_env t d').

(** States of which only the databases differ, and only so; the record of
    earlier states is not compared. *)
Class Coupling (S : Type) : Type := coupling : S → S → Prop.
#[export] Instance coupling_World : Coupling World := λ w w',
  alike (w_db w) (w_db w') ∧ Forall blind_turn (w_turns w) ∧ w_turns w' = w_turns w ∧
  w_bridge w' = w_bridge w ∧ w_calls w' = w_calls w.
#[export] Instance coupling_Net : Coupling Net := λ n n',
  coupling (net_world n) (net_world n') ∧ net_replies n' = net_replies n ∧ net_sent n' = net_sent n.
#[export] Instance coupling_Node : Coupling Node := λ n n',
  coupling (n_world n) (n_world n') ∧ n_proc n' = n_proc n.
#[export] Instance coupling_System : Coupling System := λ s s',
  coupling (sy_net s) (sy_net s') ∧ sy_proc s' = sy_proc s.

(** ** The logic *)

(** The same outcome up to a relation of the results. *)
Definition same_outcome {E A A'} (V : A → A' → Prop) (r : result E A) (r' : result E A') : Prop :=
  match r, r' with Ok a, Ok a' => V a a' | Err e, Err e' => e = e' | _, _ => False end.
Definition coupled_by {S E A A'} `{Coupling S} (V : A → A' → Prop) (m : stM S E A) (m' : stM S E A') : Prop :=
  ∀ s s', coupling s s' → same_outcome V (m s).1 (m' s').1 ∧ coupling (m s).2 (m' s').2.

(** Two programs with the same result from coupled states, which stay coupled. *)
Definition coupled {S E A} `{Coupling S} (m m' : stM S E A) : Prop :=
  ∀ s s', coupling s s' → (m s).1 = (m' s').1 ∧ coupling (m s).2 (m' s').2.

Create HintDb coupled.

Section Rules.
Context {S E : Type} `{Coupling S}.

Lemma coupled_bind {A B} (m m' : stM S E A) (f f' : A → stM S E B) :
  coupled m m' → (∀ a, coupled (f a) (f' a)) → coupled (m ≫= f) (m' ≫= f').
Proof.
  intros Hm Hf s s' Hs. destruct (Hm s s' Hs) as [Hr Hc]. unfold mbind, stM_bind.
  destruct (m s) as [[a|e] x], (m' s') as [[a'|e'] x']; cbn in *; simplify_eq; [by apply Hf|done].
Qed.
Lemma coupled_ret {A} (a : A) : coupled (mret a : stM S E A) (mret a).
Proof. by intros s s'. Qed.
Lemma coupled_throw {A} e : coupled (throw e : stM S E A) (throw e).
Proof. by intros s s'. Qed.
Lemma coupled_lift {A} (r : result E A) : coupled (lift r : stM S E A) (lift r).
Proof. by intros s s'. Qed.
Lemma coupled_guard b e : coupled (guard_err b e : stM S E unit) (guard_err b e).
Proof. by destruct b. Qed.
Lemma coupled_attempt {A F} (m m' : stM S E A) : coupled m m' → coupled (attempt m : stM S F _) (attempt m').
Proof.
  intros Hm s s' Hs. destruct (Hm s s' Hs) as [Hr Hc]. unfold attempt.
  destruct (m s) as [r x], (m' s') as [r' x']; cbn in *. by subst.
Qed.
Lemma coupled_with_err {A F} (f : E → F) (m m' : stM S E A) : coupled m m' → coupled (with_err f m) (with_err f m').
Proof.
  intros Hm s s' Hs. destruct (Hm s s' Hs) as [Hr Hc]. unfold with_err.
  destruct (m s) as [r x], (m' s') as [r' x']; cbn in *. by subst.
Qed.
(** What both sides computed, differently. *)
Lemma coupled_lift_bind {A A' B} (r : result E A) (r' : result E A') a a' (f : A → stM S E B) (f' : A' → stM S E B) :
  r = Ok a → r' = Ok a' → coupled (f a) (f' a') → coupled (lift r ≫= f) (lift r' ≫= f').
Proof. by intros -> ->. Qed.
Lemma coupled_by_bind {A A' B} V (m : stM S E A) (m' : stM S E A') (f : A → stM S E B) (f' : A' → stM S E B) :
  coupled_by V m m' → (∀ a a', V a a' → coupled (f a) (f' a')) → coupled (m ≫= f) (m' ≫= f').
Proof.
  intros Hm Hf s s' Hs. destruct (Hm s s' Hs) as [Hr Hc]. unfold mbind, stM_bind.
  destruct (m s) as [[a|e] x], (m' s') as [[a'|e'] x']; cbn in *; try done; [by apply Hf|by subst].
Qed.
Lemma coupled_by_eq {A} (m m' : stM S E A) : coupled_by eq m m' → coupled m m'.
Proof. intros Hm s s' Hs. destruct (Hm s s' Hs) as [Hr Hc]. split; [|done]. by destruct (m s).1, (m' s').1; try done; cbn in Hr; subst. Qed.
End Rules.

(** ** Statements *)

(** The outcome of a statement, and databases alike. *)
Definition effects {A A'} (V : A → A' → Prop) (p : A * Db) (p' : A' * Db) : Prop := V p.1 p'.1 ∧ alike p.2 p'.2.

Lemma by_transaction {A A'} V (f : Db → ApiResult (A * Db)) (f' : Db → ApiResult (A' * Db)) :
  (∀ d d', alike d d' → same_outcome (effects V) (f d) (f' d')) → coupled_by V (transaction f) (transaction f').
Proof.
  intros Hf w w' (Hd & Ht & Hts & Hb & Hc). unfold transaction, next_turn. rewrite Hts.
  assert (∃ t ts, (match w_turns w with [] => (quiet_turn, []) | t :: ts => (t, ts) end) = (t, ts) ∧
            blind_turn t ∧ Forall blind_turn ts) as (t & ts & -> & Ht0 & Hts').
  { destruct (w_turns w) as [|t ts].
    - exists quiet_turn, []. split_and!; [done| |constructor]. by intros d d'.
    - exists t, ts. by apply Forall_cons_iff in Ht as [? ?]. }
  specialize (Ht0 _ _ Hd). specialize (Hf _ _ Ht0).
  destruct (f _) as [[a x]|e], (f' _) as [[a' x']|e']; try done;
    [destruct Hf as [Hv Hx]|]; destruct (t_fault t) as [[[] e0]|]; cbn; (split; [done|]); by split_and!.
Qed.

Lemma by_sql {A A'} V (f : Db → result string (A * Db)) (f' : Db → result string (A' * Db)) :
  (∀ d d', alike d d' → same_outcome (effects V) (f d) (f' d')) → coupled_by V (sql f) (sql f').
Proof.
  intros Hf w w' Hw. rewrite !sql_transaction. eapply by_transaction; [|done].
  intros d d' Hd. specialize (Hf d d' Hd). destruct (f d), (f' d'); try done. cbn in *. by subst.
Qed.

Lemma coupled_sql {A} (f f' : Db → result string (A * Db)) :
  (∀ d d', alike d d' → same_outcome (effects eq) (f d) (f' d')) → coupled (sql f) (sql f').
Proof. intros Hf. by apply coupled_by_eq, by_sql. Qed.
Lemma coupled_transaction {A} (f f' : Db → ApiResult (A * Db)) :
  (∀ d d', alike d d' → same_outcome (effects eq) (f d) (f' d')) → coupled (transaction f) (transaction f').
Proof. intros Hf. by apply coupled_by_eq, by_transaction. Qed.

(** A statement to which secrets are nothing. *)
Definition untouched {E A} (f : Db → result E (A * Db)) : Prop :=
  ∀ t d, f (set_secrets t d) = (λ p : A * Db, (p.1, set_secrets t p.2)) <$> f d.

Lemma untouched_same {E A} (f : Db → result E (A * Db)) d d' :
  untouched f → alike d d' → same_outcome (effects eq) (f d) (f d').
Proof.
  intros Hf (t & -> & Ht). pose proof (Hf (secrets d) d) as Hd. rewrite Hf.
  replace (set_secrets (secrets d) d) with d in Hd by (by destruct d).
  destruct (f d) as [[a x]|e]; cbn in *; [|done]. split; [done|]. injection Hd as Hx. apply alike_intro.
  rewrite Hx. by destruct x.
Qed.

Lemma coupled_untouched {A} (f : Db → result string (A * Db)) : untouched f → coupled (sql f) (sql f).
Proof. intros Hf. apply coupled_sql. intros d d'. by apply untouched_same. Qed.

Lemma coupled_update {A} (f : Db → A * Db) :
  (∀ t d, f (set_secrets t d) = ((f d).1, set_secrets t (f d).2)) → coupled (update f) (update f).
Proof. intros Hf. apply coupled_untouched. intros t d. by rewrite Hf. Qed.

Lemma coupled_read {A} (f : Db → A) : (∀ d d', alike d d' → f d = f d') → coupled (query f) (query f).
Proof. intros Hf. apply coupled_sql. intros d d' Hd. cbn. split; [by apply Hf|done]. Qed.

Lemma coupled_query {A} (f : Db → A) : (∀ t d, f (set_secrets t d) = f d) → coupled (query f) (query f).
Proof. intros Hf. apply coupled_read. intros d d' (t & -> & _). by rewrite Hf. Qed.

Lemma coupled_query_err {A} (f : Db → result string A) :
  (∀ t d, f (set_secrets t d) = f d) → coupled (query_err f) (query_err f).
Proof. intros Hf. apply coupled_untouched. intros t d. rewrite Hf. by destruct (f d). Qed.

Lemma coupled_audit c e i a b af : coupled (record_audit c e i a b af) (record_audit c e i a b af).
Proof. unfold record_audit. by apply coupled_update. Qed.

Lemma coupled_post configured sd path body : coupled (post configured sd path body) (post configured sd path body).
Proof.
  intros w w' (Hd & Ht & Hts & Hb & Hc). unfold post.
  destruct configured; cbn; [|by split_and!]. rewrite Hb, Hc. destruct (w_bridge w); cbn; (split; [done|]); by split_and!.
Qed.
Lemma coupled_post_unit configured sd path body :
  coupled (post_unit configured sd path body) (post_unit configured sd path body).
Proof. apply coupled_bind; [apply coupled_post|]. intros. apply coupled_ret. Qed.
Lemma coupled_start configured sd wid ty input :
  coupled (start_workflow configured sd wid ty input) (start_workflow configured sd wid ty input).
Proof. apply coupled_bind; [apply coupled_post|]. intros. apply coupled_ret. Qed.

#[export] Hint Resolve coupled_ret coupled_throw coupled_lift coupled_guard coupled_attempt coupled_with_err
  coupled_audit coupled_post coupled_post_unit coupled_start : coupled.
#[export] Hint Extern 2 (coupled (query _) _) => apply coupled_query; intros; reflexivity : coupled.
#[export] Hint Extern 2 (coupled (query_err _) _) => apply coupled_query_err; intros; reflexivity : coupled.

Ltac coupled_step :=
  match goal with
  | |- coupled (let _ := _ in _) _ => cbv zeta
  | |- coupled (_ ≫= _) _ => apply coupled_bind; [|intros ?]
  | |- coupled (match ?x with _ => _ end) _ => destruct x
  | |- coupled (if ?b then _ else _) _ => destruct b
  | |- coupled _ _ => solve [eauto 4 with coupled]
  end.
Ltac coupled := repeat coupled_step.

(** Cases on what the statement looks at, which is the same for both. *)
Ltac untouched :=
  let t := fresh "t" in let d := fresh "d" in intros t d; repeat first
    [ reflexivity
    | match goal with
      | |- context [match ?x with _ => _ end] =>
          lazymatch x with
          | context [set_secrets t d] =>
              lazymatch eval pattern (set_secrets t d) in x with
              | ?g _ => let y := eval cbv beta in (g d) in change x with y
              end
          | _ => destruct x
          end
      end ].

(** ** Handlers *)
Lemma coupled_connector o id : coupled (require_connector o id) (require_connector o id).
Proof. unfold require_connector. coupled. Qed.
#[export] Hint Resolve coupled_connector : coupled.
Lemma coupled_resolve o req : coupled (Sources.resolve o req) (Sources.resolve o req).
Proof. unfold Sources.resolve, lookup_object. coupled. Qed.
#[export] Hint Resolve coupled_resolve : coupled.
Lemma coupled_resolve_object o req : coupled (resolve_object o req) (resolve_object o req).
Proof. unfold resolve_object. coupled. Qed.
#[export] Hint Resolve coupled_resolve_object : coupled.

Section JobHandlers.
Context `{Rfc3339} (configured : bool) (status_display : Z → string) (licensed : ApiResult unit) (c : Claims).

Lemma coupled_update_job id cond f :
  (∀ t d, f (set_secrets t d) = f d) →
  coupled (update (update_job id cond f)) (update (update_job id cond f)).
Proof.
  intros Hf. apply coupled_update. intros t d. unfold update_job. rewrite Hf.
  change (jobs (set_secrets t d)) with (jobs d). destruct (jobs d !! id) as [j|]; [destruct (cond j)|]; reflexivity.
Qed.
#[local] Hint Extern 1 (coupled (update (update_job _ _ _)) _) => apply coupled_update_job; intros; reflexivity : coupled.

Lemma coupled_action_target id action from :
  coupled (action_target (org c) id action from) (action_target (org c) id action from).
Proof. unfold action_target. coupled. Qed.
Lemma coupled_lost {A} id action : coupled (transition_lost (org c) id action : Api A) (transition_lost (org c) id action).
Proof. unfold transition_lost. coupled. Qed.
Lemma coupled_retry_target id : coupled (retry_target (org c) id) (retry_target (org c) id).
Proof. unfold retry_target. coupled. Qed.
#[local] Hint Resolve coupled_action_target coupled_lost coupled_retry_target : coupled.

Lemma coupled_signal id signal new action from :
  coupled (signal_and_record configured status_display c id signal new action from)
          (signal_and_record configured status_display c id signal new action from).
Proof. unfold signal_and_record, signal_workflow. coupled. Qed.
Lemma coupled_pause id : coupled (pause_job configured status_display c id) (pause_job configured status_display c id).
Proof. unfold pause_job. coupled. apply coupled_signal. Qed.
Lemma coupled_resume id :
  coupled (resume_job configured status_display licensed c id) (resume_job configured status_display licensed c id).
Proof. unfold resume_job. coupled. apply coupled_signal. Qed.
Lemma coupled_cancel id : coupled (cancel_job configured status_display c id) (cancel_job configured status_display c id).
Proof. unfold cancel_job, cancel_workflow. coupled. Qed.
Lemma coupled_retry_export id :
  coupled (retry_export configured status_display c id) (retry_export configured status_display c id).
Proof. unfold retry_export. coupled. Qed.
Lemma coupled_retry_row id i body :
  coupled (retry_row configured status_display licensed c id i body)
          (retry_row configured status_display licensed c id i body).
Proof. unfold retry_row. coupled. Qed.
Lemma coupled_retry_all id body :
  coupled (retry_all_failed configured status_display licensed c id body)
          (retry_all_failed configured status_display licensed c id body).
Proof. unfold retry_all_failed. coupled. Qed.
Lemma coupled_list_jobs q : coupled (list_jobs c q) (list_jobs c q).
Proof. unfold list_jobs. coupled. Qed.
Lemma coupled_get_job id : coupled (get_job c id) (get_job c id).
Proof. unfold get_job. coupled. Qed.
Lemma coupled_owned id : coupled (require_owned c id) (require_owned c id).
Proof. unfold require_owned. coupled. Qed.
#[local] Hint Resolve coupled_owned : coupled.
Lemma coupled_list_rows id q : coupled (list_rows c id q) (list_rows c id q).
Proof. unfold list_rows. coupled. Qed.
Lemma coupled_list_steps id i : coupled (list_row_steps c id i) (list_row_steps c id i).
Proof. unfold list_row_steps. coupled. Qed.
Lemma coupled_download s3_get csv_record bucket id failed :
  coupled (download_results s3_get csv_record bucket c id failed) (download_results s3_get csv_record bucket c id failed).
Proof. unfold download_results, stream_results_from_db. coupled. Qed.

Lemma coupled_insert_job o t v src wid by_ :
  coupled (sql (insert_job o t v src wid by_)) (sql (insert_job o t v src wid by_)).
Proof. apply coupled_untouched. unfold insert_job. untouched. Qed.
#[local] Hint Resolve coupled_insert_job : coupled.
Lemma coupled_create_job uuid req :
  coupled (create_job configured status_display licensed uuid c req) (create_job configured status_display licensed uuid c req).
Proof. unfold create_job, start_job, start_migration_workflow. coupled. Qed.
End JobHandlers.

(** ** Templates *)
Section TemplateHandlers.
Context `{Rfc3339} (schema_check : value → result string unit) (shape_error : value → string).
Context (collate : string → string → bool) (c : Claims).

Lemma coupled_insert_template (version : Db → Z) key name schema by_ :
  (∀ t d, version (set_secrets t d) = version d) →
  coupled (sql (λ d, insert_template (org c) key (version d) name schema by_ d))
          (sql (λ d, insert_template (org c) key (version d) name schema by_ d)).
Proof.
  intros Hv. apply coupled_untouched. intros t d. rewrite Hv. unfold insert_template. destruct (_ <? _); [done|].
  change (all_templates (set_secrets t d)) with (all_templates d). by destruct (existsb _ _).
Qed.

Lemma coupled_create_template uuid req :
  coupled (create_template schema_check shape_error uuid c req) (create_template schema_check shape_error uuid c req).
Proof. unfold create_template. coupled. by apply coupled_with_err, (coupled_insert_template (λ _, 1)). Qed.
Lemma coupled_create_version id req :
  coupled (create_version schema_check shape_error c id req) (create_version schema_check shape_error c id req).
Proof. unfold create_version. coupled. by apply (coupled_insert_template (λ d, max_version _ _ d + 1)). Qed.
Lemma coupled_publish id : coupled (publish_template c id) (publish_template c id).
Proof. unfold publish_template. coupled. apply coupled_update. unfold publish_effect. untouched. Qed.
Lemma coupled_delete_template id : coupled (delete_template c id) (delete_template c id).
Proof. unfold delete_template. coupled. apply coupled_untouched. unfold delete_effect. untouched. Qed.
Lemma coupled_get_template id : coupled (get_template c id) (get_template c id).
Proof. unfold get_template. coupled. Qed.
Lemma coupled_list_templates q : coupled (list_templates collate c q) (list_templates collate c q).
Proof. unfold list_templates. coupled. Qed.
Lemma coupled_list_versions id : coupled (list_versions c id) (list_versions c id).
Proof. unfold list_versions. coupled. Qed.
End TemplateHandlers.

(** ** Schedules and batches *)
Section ScheduleHandlers.
Context `{Rfc3339} (configured : bool) (status_display : Z → string) (licensed : ApiResult unit).
Context (cron_ok interval_ok : string → bool) (collate : string → string → bool) (c : Claims).

Lemma coupled_insert_schedule row_of : coupled (sql (insert_schedule row_of)) (sql (insert_schedule row_of)).
Proof. apply coupled_untouched. unfold insert_schedule. untouched. Qed.
Lemma coupled_remove_schedule (f : Db → Z * Db) id o :
  f = (λ d, (0, remove_schedule id d)) ∨ f = remove_owned o id → coupled (update f) (update f).
Proof. intros [->| ->]; apply coupled_update; [done|]. unfold remove_owned. untouched. Qed.
Lemma coupled_update_row id f :
  (∀ t d, f (set_secrets t d) = f d) →
  coupled (update (update_schedule_row (org c) id f)) (update (update_schedule_row (org c) id f)).
Proof.
  intros Hf. apply coupled_update. intros t d. unfold update_schedule_row. rewrite Hf.
  change (schedule_of (org c) id (set_secrets t d)) with (schedule_of (org c) id d).
  destruct (schedule_of _ _ d); reflexivity.
Qed.
#[local] Hint Resolve coupled_insert_schedule : coupled.
#[local] Hint Extern 1 (coupled (update (update_schedule_row _ _ _)) _) => apply coupled_update_row; intros; reflexivity : coupled.

Lemma coupled_tell s err m : (∀ sid, coupled (m sid) (m sid)) → coupled (tell s err m) (tell s err m).
Proof. intros Hm. unfold tell. coupled. Qed.

Ltac schedules := unfold temporal_id, World.create_schedule, World.update_schedule, World.pause_schedule, World.unpause_schedule,
  World.delete_schedule, World.trigger_schedule, schedule_call; coupled.

Lemma coupled_create_schedule uuid req :
  coupled (create_schedule configured status_display licensed cron_ok interval_ok uuid c req)
          (create_schedule configured status_display licensed cron_ok interval_ok uuid c req).
Proof. unfold create_schedule. schedules. by apply coupled_attempt, coupled_update. Qed.
Lemma coupled_get_schedule id : coupled (get_schedule c id) (get_schedule c id).
Proof. unfold get_schedule. coupled. Qed.
Lemma coupled_list_schedules : coupled (list_schedules collate c) (list_schedules collate c).
Proof. unfold list_schedules. coupled. Qed.
Lemma coupled_update_schedule id req :
  coupled (update_schedule configured status_display licensed cron_ok interval_ok c id req)
          (update_schedule configured status_display licensed cron_ok interval_ok c id req).
Proof. unfold update_schedule. coupled; apply coupled_tell; intros ?; schedules. Qed.
Lemma coupled_delete_schedule id :
  coupled (delete_schedule configured status_display c id) (delete_schedule configured status_display c id).
Proof. unfold delete_schedule. schedules. apply (coupled_remove_schedule _ id (org c)). by right. Qed.
Lemma coupled_pause_schedule id :
  coupled (pause_schedule configured status_display c id) (pause_schedule configured status_display c id).
Proof. unfold pause_schedule. schedules. Qed.
Lemma coupled_resume_schedule id :
  coupled (resume_schedule configured status_display licensed c id) (resume_schedule configured status_display licensed c id).
Proof. unfold resume_schedule. schedules. Qed.
Lemma coupled_trigger_schedule id :
  coupled (trigger_schedule configured status_display licensed c id) (trigger_schedule configured status_display licensed c id).
Proof. unfold trigger_schedule. schedules. Qed.
Lemma coupled_list_runs id : coupled (list_runs c id) (list_runs c id).
Proof. unfold list_runs. coupled. Qed.

Lemma coupled_update_batch id f :
  (∀ t d, f (set_secrets t d) = f d) → coupled (update (update_batch id f)) (update (update_batch id f)).
Proof.
  intros Hf. apply coupled_update. intros t d. unfold update_batch. rewrite Hf.
  change (batches (set_secrets t d)) with (batches d). destruct (batches d !! id); reflexivity.
Qed.
#[local] Hint Extern 1 (coupled (update (update_batch _ _)) _) => apply coupled_update_batch; intros; reflexivity : coupled.
Lemma coupled_insert_batch o id src wid : coupled (sql (insert_batch o id src wid)) (sql (insert_batch o id src wid)).
Proof. apply coupled_untouched. unfold insert_batch. untouched. Qed.
#[local] Hint Resolve coupled_insert_batch : coupled.

Lemma coupled_list_batches q : coupled (list_batches c q) (list_batches c q).
Proof. unfold list_batches. coupled. Qed.
Lemma coupled_get_batch id : coupled (get_batch c id) (get_batch c id).
Proof. unfold get_batch. coupled. Qed.
Lemma coupled_create_batch uuid req :
  coupled (create_batch configured status_display licensed uuid c req) (create_batch configured status_display licensed uuid c req).
Proof. unfold create_batch. coupled. Qed.
End ScheduleHandlers.

(** ** Handlers that call other services *)
Lemma coupled_api {A} (m m' : Api A) : coupled m m' → coupled (api m) (api m').
Proof.
  intros Hm n n' (Hw & Hr & Hs). destruct (Hm _ _ Hw) as [Heq Hc]. unfold api.
  destruct (m (net_world n)) as [r w], (m' (net_world n')) as [r' w']. cbn in *. by split_and!.
Qed.
Lemma coupled_ask q : coupled (ask q) (ask q).
Proof. intros n n' (Hw & Hr & Hs). unfold ask, next_answer. rewrite Hr, Hs. cbn. by split_and!. Qed.
#[export] Hint Resolve coupled_api coupled_ask : coupled.

Section ServiceHandlers.
Context `{JsonText} `{Rfc3339} (c : Claims).

Lemma coupled_upload minio_bucket sha parts :
  coupled (upload_file minio_bucket sha c parts) (upload_file minio_bucket sha c parts).
Proof. unfold upload_file, put_object, register_upload. coupled. by apply coupled_api, coupled_update. Qed.
Lemma coupled_sample minio_bucket json_error read_csv read_xml rfc3339_ok date_ok req :
  coupled (sample_file minio_bucket json_error read_csv read_xml rfc3339_ok date_ok c req)
          (sample_file minio_bucket json_error read_csv read_xml rfc3339_ok date_ok c req).
Proof. unfold sample_file, get_range. coupled. Qed.

Context (parse_url : string → result string Url) (json_error : string → string).
Context (status_display : Z → string) (collate : string → string → bool) (allow_private : bool).

Lemma coupled_http_get hops url : coupled (http_get hops url) (http_get hops url).
Proof. revert url. induction hops as [|hops IH]; intros url; cbn [http_get]; coupled; apply IH. Qed.
#[local] Hint Resolve coupled_http_get : coupled.
Lemma coupled_fetch url : coupled (fetch_spec parse_url json_error status_display allow_private url)
                                  (fetch_spec parse_url json_error status_display allow_private url).
Proof. unfold fetch_spec, check_destination, lookup_host. coupled. Qed.
#[local] Hint Resolve coupled_fetch : coupled.
Lemma coupled_upsert_spec o name url spec by_ :
  coupled (update (upsert_spec o name url spec by_)) (update (upsert_spec o name url spec by_)).
Proof. apply coupled_update. unfold upsert_spec. untouched. Qed.
#[local] Hint Resolve coupled_upsert_spec : coupled.
Lemma coupled_create_spec req :
  coupled (create_spec parse_url json_error status_display allow_private c req)
          (create_spec parse_url json_error status_display allow_private c req).
Proof. unfold create_spec, spec_input. coupled. Qed.
Lemma coupled_list_specs : coupled (list_specs collate c) (list_specs collate c).
Proof. unfold list_specs. coupled. Qed.
Lemma coupled_get_spec id : coupled (get_spec c id) (get_spec c id).
Proof. unfold get_spec. coupled. Qed.
Lemma coupled_delete_spec id : coupled (delete_spec c id) (delete_spec c id).
Proof. unfold delete_spec. coupled. apply coupled_update. unfold delete_spec_effect. untouched. Qed.
Lemma coupled_operations id : coupled (list_operations parse_url c id) (list_operations parse_url c id).
Proof. unfold list_operations. coupled. Qed.
Lemma coupled_preview spec : coupled (parse_preview parse_url spec) (parse_preview parse_url spec).
Proof. unfold parse_preview. coupled. Qed.
End ServiceHandlers.

(** ** License routes *)
Lemma coupled_on_proc {A} (m : io A) : coupled (on_proc m) (on_proc m).
Proof. intros n n' [Hw Hp]. unfold on_proc. rewrite Hp. destruct (m (n_proc n)). cbn. by split_and!. Qed.
Lemma coupled_on_proc_ok {A} (m : io A) : coupled (on_proc_ok m) (on_proc_ok m).
Proof. apply coupled_bind; [apply coupled_on_proc|]. intros. apply coupled_lift. Qed.
Lemma coupled_on_world {A} (m m' : Api A) : coupled m m' → coupled (on_world m) (on_world m').
Proof.
  intros Hm n n' [Hw Hp]. destruct (Hm _ _ Hw) as [Heq Hc]. unfold on_world.
  destruct (m (n_world n)) as [r w], (m' (n_world n')) as [r' w']. cbn in *. by split_and!.
Qed.
#[export] Hint Resolve coupled_on_proc coupled_on_proc_ok coupled_on_world : coupled.

Section LicenseHandlers.
Context `{JsonText} `{Rfc3339} `{Crypto} (c : Claims).
Context (env : string → option string) (embedded_pem : string) (clock : nat → Z).
Context (client_builds : bool) (writable : string → bool) (product_version pid : string) (status_display : Z → string).
Lemma coupled_start_trial email :
  coupled (LicenseRoutes.start_trial env embedded_pem clock client_builds writable product_version pid status_display c email)
          (LicenseRoutes.start_trial env embedded_pem clock client_builds writable product_version pid status_display c email).
Proof. unfold LicenseRoutes.start_trial. coupled. Qed.
End LicenseHandlers.

(** ** The handlers of secrets *)

Lemma by_id_hide (m : gmap Z SecretRow) : by_id (hide <$> m) = (λ kv, (kv.1, hide kv.2)) <$> by_id m.
Proof.
  apply (StronglySorted_unique_strong key_le).
  - intros [k a] [k' a'] Hin Hin' Hle Hle'. unfold key_le in *. cbn in *. assert (k' = k) as -> by lia.
    apply by_id_elem in Hin. apply list_elem_of_fmap in Hin' as ([k1 a1] & [= -> ->] & Hin'%by_id_elem).
    cbn in *. rewrite lookup_fmap, Hin' in Hin. by injection Hin as <-.
  - apply by_id_ordered.
  - pose proof (by_id_ordered m) as Hs. induction Hs as [|kv l _ IH Hl]; cbn; constructor; [done|].
    apply Forall_fmap. eapply list.Forall_impl; [exact Hl|]. by intros x.
  - unfold by_id. rewrite !merge_sort_Permutation, map_to_list_fmap. done.
Qed.

Lemma find_fmap {A B} (f : A → B) (p : B → bool) (q : A → bool) l :
  (∀ a, p (f a) = q a) → List.find p (f <$> l) = f <$> List.find q l.
Proof. intros Hp. induction l as [|a l IH]; cbn; [done|]. rewrite Hp. by destruct (q a). Qed.

Lemma filter_fmap {A B} (f : A → B) (p : B → bool) (q : A → bool) l :
  (∀ a, p (f a) = q a) → List.filter p (f <$> l) = f <$> List.filter q l.
Proof. intros Hp. induction l as [|a l IH]; cbn; [done|]. rewrite Hp, IH. by destruct (q a). Qed.

(** A row found, without what is encrypted. *)
Definition found (o : option (Z * SecretRow)) : option (Z * SecretRow) := (λ kv, (kv.1, hide kv.2)) <$> o.

Lemma find_alike o n d d' : alike d d' → found (find_secret o n d) = found (find_secret o n d').
Proof.
  intros (t & -> & Ht). unfold find_secret, found.
  rewrite <- !(find_fmap (λ kv : Z * SecretRow, (kv.1, hide kv.2)) (λ kv, is_secret o n kv.2)) by done.
  rewrite <- !by_id_hide. cbn. by rewrite Ht.
Qed.

Lemma found_cases o n d d' : alike d d' →
  (find_secret o n d = None ∧ find_secret o n d' = None) ∨
  ∃ id s s', find_secret o n d = Some (id, s) ∧ find_secret o n d' = Some (id, s') ∧ hide s = hide s'.
Proof.
  intros Hd. pose proof (find_alike o n d d' Hd) as Hf. unfold found in Hf.
  destruct (find_secret o n d) as [[id s]|], (find_secret o n d') as [[id' s']|]; try done; [right|by left].
  assert ((id, hide s) = (id', hide s')) as [<- Hs]%pair_eq by (by apply (inj Some)). by exists id, s, s'.
Qed.

Lemma insert_alike id s s' d d' : alike d d' → hide s = hide s' →
  alike (set_secrets (<[id := s]> (secrets d)) d) (set_secrets (<[id := s']> (secrets d')) d').
Proof.
  intros (t & -> & Ht) Hs. exists (<[id := s']> t). split; [by destruct d|].
  cbn. by rewrite !fmap_insert, Ht, Hs.
Qed.

Lemma alike_now d d' : alike d d' → db_now d' = db_now d ∧ db_seq d' = db_seq d.
Proof. by intros (t & -> & _). Qed.

Lemma set_alike (f : Db → Db) d d' :
  (∀ t d, f (set_secrets t d) = set_secrets t (f d)) → alike d d' → alike (f d) (f d').
Proof.
  intros Hf Hd. destruct (untouched_same (E:=string) (λ d, Ok (tt, f d)) d d') as [_ ?]; [|done..].
  intros t x. cbn. by rewrite Hf.
Qed.

Definition same_hidden (s s' : SecretRow) : Prop := hide s = hide s'.

Lemma add_alike o n ct ct' nn nn' kind d d' :
  alike d d' → effects same_hidden (add_secret o n ct nn kind d) (add_secret o n ct' nn' kind d').
Proof.
  intros Hd. destruct (alike_now _ _ Hd) as [Hn Hs]. unfold add_secret. rewrite Hn, Hs. split; [done|]. cbn [snd].
  apply (set_alike (set_seq (db_seq d + 1))); [done|]. by apply insert_alike.
Qed.

Lemma upsert_alike o n ct ct' nn nn' kind f f' d d' :
  alike d d' → (∀ s s', hide s = hide s' → hide (f d s) = hide (f' d' s')) →
  effects same_hidden (upsert_secret o n ct nn kind f d) (upsert_secret o n ct' nn' kind f' d').
Proof.
  intros Hd Hf. unfold upsert_secret.
  destruct (found_cases o n d d' Hd) as [[-> ->]|(id & s & s' & -> & -> & Hs)]; [by apply add_alike|].
  split; [by apply Hf|]. cbn. by apply insert_alike, Hf.
Qed.

Lemma rotate_alike ct ct' nn nn' d d' s s' : alike d d' → hide s = hide s' →
  hide (rotate ct nn d s) = hide (rotate ct' nn' d' s').
Proof. intros [Hn _]%alike_now Hs. unfold rotate, hide in *. cbn. rewrite Hn. congruence. Qed.
Lemma replace_alike ct ct' nn nn' d d' s s' : alike d d' → hide s = hide s' →
  hide (replace_value ct nn d s) = hide (replace_value ct' nn' d' s').
Proof. intros [Hn _]%alike_now Hs. unfold replace_value, hide in *. cbn. rewrite Hn. congruence. Qed.

Section SecretHandlers.
Context `{Rfc3339} (configured : bool) (status_display : Z → string) (c : Claims).
(** The encryption under two nonces. *)
Context (seal seal' : string → result string (string * string)).
Context (minio_bucket : string) (watch_allowed_buckets : list string) (collate : string → string → bool).

Lemma coupled_list_secrets : coupled (list_secrets collate c) (list_secrets collate c).
Proof.
  unfold list_secrets. coupled. apply coupled_read. intros d d' (t & -> & Ht). f_equal.
  assert (∀ l : list (Z * SecretRow),
    meta_of <$> List.filter (λ s, (se_org_id s =? org c) && is_destination s) (snd <$> l) =
    meta_of <$> List.filter (λ s, (se_org_id s =? org c) && is_destination s) (snd <$> ((λ kv, (kv.1, hide kv.2)) <$> l))) as Hm.
  { intros l. induction l as [|[k s] l IH]; cbn; [done|]. change (is_destination (hide s)) with (is_destination s).
    destruct (_ && _); cbn; by rewrite IH. }
  rewrite Hm, (Hm (by_id (secrets (set_secrets t d)))), <- !by_id_hide. cbn. by rewrite Ht.
Qed.

Lemma coupled_find {A} (f : option (Z * SecretRow) → A) o n :
  (∀ x y, found x = found y → f x = f y) →
  coupled (query (λ d, f (find_secret o n d))) (query (λ d, f (find_secret o n d))).
Proof. intros Hf. apply coupled_read. intros d d' Hd. by apply Hf, find_alike. Qed.

Ltac by_found := intros [[? []]|] [[? []]|]; unfold found, hide, is_destination; cbn; intros; simplify_eq; try done;
  repeat match goal with H : mkSecret _ _ _ _ _ _ _ _ _ = _ |- _ => injection H as -> -> -> -> -> -> -> end; try done.

Lemma coupled_get_secret name : coupled (get_secret c name) (get_secret c name).
Proof.
  unfold get_secret. coupled.
  apply (coupled_find (λ o, meta_of <$> opt_filter is_destination (snd <$> o))). by_found. by destruct (_ =? _)%string.
Qed.

Lemma coupled_revoke name : coupled (revoke_secret c name) (revoke_secret c name).
Proof.
  unfold revoke_secret. coupled. apply coupled_sql. intros d d' Hd. unfold revoke_effect.
  destruct (found_cases (org c) name d d' Hd) as [[-> ->]|(id & s & s' & -> & -> & Hs)]; [done|].
  destruct (alike_now _ _ Hd) as [Hn _].
  assert (hide (erase d s) = hide (erase d' s')) as He by (unfold erase, hide in *; cbn; rewrite Hn; congruence).
  assert (is_destination s' = is_destination s ∧ se_revoked_at s' = se_revoked_at s) as [-> ->]
    by (unfold hide, is_destination in *; injection Hs; intros; split; congruence).
  destruct (_ && _); cbn; (split; [|first [done|by apply insert_alike]]); [|done].
  cbn. f_equal. unfold meta_of, erase, hide in *. cbn. rewrite Hn. congruence.
Qed.

(** An accepted value. *)
Definition value_fits (v : string) : bool := negb (is_empty v || (MAX_SECRET_BYTES <? str_len v)).

(** Two values whose encryptions both succeed, or fail alike. *)
Definition seals_alike (v v' : string) : Prop := same_outcome (λ _ _, True) (seal v) (seal' v').

Definition optional_alike (o o' : option string) : Prop :=
  match o, o' with Some v, Some v' => seals_alike v v' | None, None => True | _, _ => False end.

Lemma coupled_sealed {A} v v' (f f' : string * string → Api A) :
  seals_alike v v' → (∀ box box', coupled (f box) (f' box')) →
  coupled (lift (sealed seal v) ≫= f) (lift (sealed seal' v') ≫= f').
Proof.
  unfold seals_alike, sealed. intros Hs Hf. destruct (seal v), (seal' v'); try done.
  - by eapply coupled_lift_bind.
  - cbn in Hs. subst. by intros w w' Hw.
Qed.

Lemma coupled_put_secret name v v' :
  value_fits v = value_fits v' → seals_alike v v' → coupled (put_secret seal c name v) (put_secret seal' c name v').
Proof.
  unfold value_fits. intros Hv%negb_sym Hs. rewrite negb_involutive in Hv. unfold put_secret. rewrite <- Hv.
  do 3 (apply coupled_bind; [coupled|intros ?]). apply coupled_sealed; [done|]. intros box box'.
  apply coupled_bind; [|intros previous].
  { apply (coupled_find (λ o : option (Z * SecretRow), (λ kv, (se_kind kv.2, se_revoked_at kv.2)) <$> o)). by_found. }
  apply coupled_bind; [coupled|intros _]. apply (coupled_by_bind same_hidden).
  - apply by_sql. intros d d' Hd. apply upsert_alike; [done|]. intros s s'. by apply rotate_alike.
  - intros s s' Hr. coupled. replace (meta_of s') with (meta_of s); [coupled|].
    unfold same_hidden, hide, meta_of in *. congruence.
Qed.

Lemma coupled_get_config : coupled (get_config c) (get_config c).
Proof. unfold get_config. coupled. Qed.

(** Configurations that may differ in the key. *)
Definition config_alike (r r' : PutConfig) : Prop :=
  r' = mkPutConfig (pc_provider r) (pc_base_url r) (pc_model r) (pc_api_key r') (pc_redact_pii r) (pc_enabled r) ∧
  optional_alike (pc_api_key r) (pc_api_key r').

Lemma upsert_config_alike o provider r r' sid by_ d d' :
  config_alike r r' → alike d d' →
  alike (upsert_config o provider r sid by_ d) (upsert_config o provider r' sid by_ d').
Proof.
  intros [-> _] Hd. destruct (alike_now _ _ Hd) as [Hn _]. destruct Hd as (t & -> & Ht).
  exists t. split; [done|]. exact Ht.
Qed.

Lemma coupled_put_config r r' : config_alike r r' → coupled (put_config seal c r) (put_config seal' c r').
Proof.
  intros Hr. pose proof Hr as [Heq Hk]. unfold put_config.
  replace (pc_provider r') with (pc_provider r) by (by rewrite Heq).
  do 3 (cbv zeta; apply coupled_bind; [coupled|intros ?]).
  apply coupled_bind; [|intros ?; coupled].
  destruct (pc_api_key r) as [k|], (pc_api_key r') as [k'|]; try done; cbn in Hk.
  - apply coupled_sealed; [done|]. intros box box'. apply coupled_transaction. intros d d' Hd.
    assert (effects same_hidden
      (upsert_secret (org c) LLM_SECRET box.1 box.2 "internal" (replace_value box.1 box.2) d)
      (upsert_secret (org c) LLM_SECRET box'.1 box'.2 "internal" (replace_value box'.1 box'.2) d')) as [Hs Ha]
      by (apply upsert_alike; [done|]; intros s s'; by apply replace_alike).
    destruct (upsert_secret _ _ _ _ _ _ d) as [s x], (upsert_secret _ _ _ _ _ _ d') as [s' x']. cbn in Hs, Ha.
    split; [done|]. cbn. replace (se_id s') with (se_id s) by (unfold same_hidden, hide in Hs; congruence).
    by apply upsert_config_alike.
  - apply coupled_bind; [coupled|intros sid]. apply coupled_sql. intros d d' Hd. unfold config_effect.
    assert (Prelude.is_some (secrets d' !! default 0 sid) = Prelude.is_some (secrets d !! default 0 sid)) as Hi.
    { destruct Hd as (t & -> & Ht). cbn. assert (hide <$> t !! default 0 sid = hide <$> secrets d !! default 0 sid) as Hl
        by (by rewrite <- !lookup_fmap, Ht). by destruct (t !! _), (secrets d !! _). }
    destruct sid as [id|]; cbn in *; [rewrite Hi; destruct (Prelude.is_some (secrets d !! id)); cbn; [|done]|];
      (split; [done|]; by apply upsert_config_alike).
Qed.

(** Connectors that may differ in the credential. *)
Definition connector_alike (r r' : CreateConnector) : Prop :=
  r' = mkCreateConnector (cc_name r) (cc_connector_kind r) (cc_config_json r) (cc_secret r') ∧
  optional_alike (cc_secret r) (cc_secret r').

Lemma credential_alike o n box box' d d' : Prelude.is_some box = Prelude.is_some box' → alike d d' →
  same_outcome (effects eq) (insert_credential o n box d) (insert_credential o n box' d').
Proof.
  intros Hb Hd. destruct box as [[ct nn]|], box' as [[ct' nn']|]; try done. unfold insert_credential.
  destruct (found_cases o (n +:+ "-secret") d d' Hd) as [[-> ->]|(id & s & s' & -> & -> & Hs)]; [|done]. cbn [Prelude.is_some].
  pose proof (add_alike o (n +:+ "-secret") ct ct' nn nn' "internal" d d' Hd) as [Hr Ha].
  destruct (add_secret _ _ _ _ _ d) as [s x], (add_secret _ _ _ _ _ d') as [s' x']. cbn in *.
  split; [|done]. cbn. unfold same_hidden, hide in Hr. congruence.
Qed.

Lemma coupled_create_connector r r' : connector_alike r r' →
  coupled (create_connector seal minio_bucket watch_allowed_buckets c r)
          (create_connector seal' minio_bucket watch_allowed_buckets c r').
Proof.
  intros [Heq Hk]. rewrite Heq in *. clear Heq. unfold create_connector. cbn [cc_name cc_connector_kind cc_config_json cc_secret].
  cbn [cc_secret] in Hk. do 2 (cbv zeta; apply coupled_bind; [coupled|intros ?]).
  assert (∀ box box', Prelude.is_some box = Prelude.is_some box' →
    coupled (row ← transaction (connector_tx c (cc_name r) (canonical_kind (cc_connector_kind r)) (cc_config_json r) box);
             _ ← record_audit c "connector" (Some (show_Z (cn_id row))) "create" None (Some (connector_to_value row)); mret row)
            (row ← transaction (connector_tx c (cc_name r) (canonical_kind (cc_connector_kind r)) (cc_config_json r) box');
             _ ← record_audit c "connector" (Some (show_Z (cn_id row))) "create" None (Some (connector_to_value row)); mret row))
    as Hrest.
  { intros box box' Hb. apply coupled_bind; [|intros ?; coupled]. apply coupled_transaction. intros d d' Hd.
    unfold connector_tx. pose proof (credential_alike (org c) (cc_name r) box box' d d' Hb Hd) as Hc.
    destruct (insert_credential _ _ box d) as [[sid x]|e], (insert_credential _ _ box' d') as [[sid' x']|e']; try done.
    destruct Hc as [Hsid Hx]. cbn in Hsid, Hx. subst sid'.
    cbn [mbind result_bind fst snd]. destruct (ok_or _ _) as [by_|e]; cbn; [|done].
    apply untouched_same; [|done]. unfold insert_connector. untouched. }
  destruct (cc_secret r) as [v|], (cc_secret r') as [v'|]; try done; cbn in Hk |- *.
  - unfold seals_alike in Hk. unfold sealed. destruct (seal v) as [box|e], (seal' v') as [box'|e']; try done.
    + by apply (coupled_lift_bind _ _ (Some box) (Some box')), Hrest.
    + cbn in *. subst. by intros w w' Hw.
  - by apply (coupled_lift_bind _ _ None None), Hrest.
Qed.

Lemma coupled_list_connectors : coupled (list_connectors collate c) (list_connectors collate c).
Proof. unfold list_connectors. coupled. Qed.
Lemma coupled_get_connector id : coupled (get_connector c id) (get_connector c id).
Proof. unfold get_connector. coupled. Qed.
Lemma coupled_delete_connector id : coupled (delete_connector c id) (delete_connector c id).
Proof. unfold delete_connector. coupled. apply coupled_untouched. unfold delete_connector_effect. untouched. Qed.
Lemma coupled_test_connector id :
  coupled (test_connector configured status_display c id) (test_connector configured status_display c id).
Proof. unfold test_connector, test_sftp_connector. coupled. Qed.
End SecretHandlers.

(** ** The API *)

Lemma coupled_in_stop {A} (m m' : StopM A) : coupled m m' → coupled (in_stop m) (in_stop m').
Proof.
  intros Hm s s' [Hn Hp]. destruct (Hm _ _ Hn) as [Heq Hc]. unfold in_stop.
  destruct (m (sy_net s)) as [r n], (m' (sy_net s')) as [r' n']. cbn in *. by split_and!.
Qed.
Lemma coupled_in_net {A} (m m' : NetM A) : coupled m m' → coupled (in_net m) (in_net m').
Proof. intros Hm. by apply coupled_in_stop, coupled_with_err. Qed.
Lemma coupled_in_api {A} (m m' : Api A) : coupled m m' → coupled (in_api m) (in_api m').
Proof. intros Hm. by apply coupled_in_net, coupled_api. Qed.
Lemma coupled_in_node {A} (m m' : NodeM A) : coupled m m' → coupled (in_node m) (in_node m').
Proof.
  intros Hm s s' [(Hw & Hr & Hs) Hp]. unfold in_node. rewrite Hp, Hr, Hs.
  destruct (Hm (mkNode (sy_proc s) (net_world (sy_net s))) (mkNode (sy_proc s) (net_world (sy_net s')))) as [Heq [Hc Hp']];
    [by split|]. destruct (m _) as [r n], (m' _) as [r' n']. cbn in *. subst. by split_and!.
Qed.
Lemma coupled_in_io {A} (m : io A) : coupled (in_io m) (in_io m).
Proof. apply coupled_in_node, coupled_on_proc_ok. Qed.
Lemma coupled_json {A} (f : A → value) (m m' : SysM A) : coupled m m' → coupled (json_of f m) (json_of f m').
Proof. intros Hm. apply coupled_bind; [exact Hm|]. intros a. apply coupled_ret. Qed.
#[export] Hint Resolve coupled_in_stop coupled_in_net coupled_in_api coupled_in_node coupled_in_io coupled_json : coupled.

Create HintDb alike_handlers.
#[export] Hint Resolve coupled_signal coupled_pause coupled_resume coupled_cancel coupled_retry_export coupled_retry_row
  coupled_retry_all coupled_list_jobs coupled_get_job coupled_owned coupled_list_rows coupled_list_steps coupled_download
  coupled_create_job coupled_create_template coupled_create_version coupled_publish coupled_delete_template
  coupled_get_template coupled_list_templates coupled_list_versions : alike_handlers.
#[export] Hint Resolve coupled_create_schedule coupled_get_schedule coupled_list_schedules coupled_update_schedule
  coupled_delete_schedule coupled_pause_schedule coupled_resume_schedule coupled_trigger_schedule coupled_list_runs
  coupled_list_batches coupled_get_batch coupled_create_batch coupled_upload coupled_sample coupled_create_spec
  coupled_list_specs coupled_get_spec coupled_delete_spec coupled_operations coupled_preview coupled_start_trial
  : alike_handlers.
#[export] Hint Resolve coupled_list_secrets coupled_get_secret coupled_revoke coupled_put_secret coupled_get_config
  coupled_put_config coupled_create_connector coupled_list_connectors coupled_get_connector coupled_delete_connector
  coupled_test_connector : alike_handlers.

Section Secrecy.
Context `{JsonText} `{Rfc3339} `{Crypto} `{Aead} `{Setup} `{!Argon2}.

(** Two requests that differ at most in the secret they carry. *)
Definition similar_calls (n n' : string) (call call' : Call) : Prop :=
  match call with
  | DoPutSecret name v => ∃ v', call' = DoPutSecret name v' ∧ value_fits v = value_fits v' ∧
      seals_alike (encrypt master_key n) (encrypt master_key n') v v'
  | DoPutConfig r => ∃ r', call' = DoPutConfig r' ∧ config_alike (encrypt master_key n) (encrypt master_key n') r r'
  | DoCreateConnector r =>
      ∃ r', call' = DoCreateConnector r' ∧ connector_alike (encrypt master_key n) (encrypt master_key n') r r'
  | DoSuggestMapping _ => False
  | _ => call' = call
  end.

Lemma coupled_gate : coupled gate gate.
Proof. unfold gate. coupled. Qed.

Lemma coupled_handle u n n' c call call' :
  similar_calls n n' call call' → coupled (handle (mkFresh u n) c call) (handle (mkFresh u n') c call').
Proof.
  intros Hs. unfold handle. cbv zeta. cbn [fr_uuid fr_nonce]. apply coupled_bind; [apply coupled_gate|intros licensed].
  destruct call; try done; cbn in Hs; first [subst call' | destruct Hs as (v' & -> & Hs)]; unfold as_json, stream_updates.
  all: try match type of Hs with value_fits _ = _ ∧ _ => destruct Hs as [Hf Hv] end.
  all: coupled; eauto 6 with alike_handlers coupled.
Qed.
(** A request that is the same but for its secret and the nonce drawn for it. *)
Definition similar (r r' : Fresh * option string * Call) : Prop :=
  fr_uuid r.1.1 = fr_uuid r'.1.1 ∧ r.1.2 = r'.1.2 ∧ similar_calls (fr_nonce r.1.1) (fr_nonce r'.1.1) r.2 r'.2.

Lemma similar_public n n' header call call' : similar_calls n n' call call' →
  handle_public header call = handle_public header call'.
Proof. destruct call; cbn; intros Hs; first [done | by subst call' | by destruct Hs as (? & -> & _)]. Qed.

Lemma coupled_ready : coupled ready ready.
Proof. unfold ready. coupled. Qed.
#[local] Hint Resolve coupled_ready : coupled.

Lemma coupled_public header call m : handle_public header call = Some m → coupled m m.
Proof. destruct call; try done; intros [= <-]; coupled. Qed.

Lemma serve_coupled r r' s s' : similar r r' → coupling s s' →
  (serve r.1.1 r.1.2 r.2 s).1 = (serve r'.1.1 r'.1.2 r'.2 s').1 ∧
  coupling (serve r.1.1 r.1.2 r.2 s).2 (serve r'.1.1 r'.1.2 r'.2 s').2.
Proof.
  destruct r as [[[u n] header] call], r' as [[[u' n'] header'] call']. intros (Hu & Hh & Hc) Hs. cbn in Hu, Hh, Hc.
  subst u' header'. cbn [fst snd]. unfold serve. rewrite (similar_public n n' header call call') by done.
  assert (∀ m m' : SysM Response, coupled m m' → (run m s).1 = (run m' s').1 ∧ coupling (run m s).2 (run m' s').2) as Hrun.
  { intros m m' Hm. destruct (Hm s s' Hs) as [Heq Hco]. unfold run. destruct (m s), (m' s'). cbn in *. by subst. }
  apply Hrun. destruct (handle_public header call') as [m|] eqn:Hp; [by eapply coupled_public|].
  apply coupled_bind; [coupled|intros t]. destruct (authenticate _ _ _) as [c|e]; [|coupled]. by apply coupled_handle.
Qed.

(** What the clients receive, request after request. *)
Fixpoint answers (requests : list (Fresh * option string * Call)) (s : System) : list Response :=
  match requests with
  | [] => []
  | r :: rest => let '(a, s') := serve r.1.1 r.1.2 r.2 s in a :: answers rest s'
  end.

(** C3: secrets stay inside: take two histories of requests that differ only in
    the destination secrets, connector credentials and provider keys they
    hand over, on two databases that differ only in what is encrypted; all
    requests of the first get, one by one, exactly the answers of the
    second, and at the end everything but the ciphertexts is the same: the
    database, the requests the orchestration bridge, the object store, other
    servers and the license server have seen, and the process itself; whatever
    the transactions of others do in between, as long as they do not look
    into ciphertexts either.  Only mapping suggestions, which use the
    provider's key, are excepted. *)
Theorem secrets_stay_inside requests requests' s s' :
  Forall2 similar requests requests' → coupling s s' →
  answers requests s = answers requests' s' ∧ coupling (serve_all requests s) (serve_all requests' s').
Proof.
  intros Hr. revert s s'. induction Hr as [|r r' rs rs' Hr Hrs IH]; intros s s' Hs; [done|].
  destruct (serve_coupled r r' s s' Hr Hs) as [Ha Hc]. cbn [answers serve_all fold_left].
  destruct (serve r.1.1 r.1.2 r.2 s) as [a x], (serve r'.1.1 r'.1.2 r'.2 s') as [a' x']. cbn in Ha, Hc. subst a'.
  destruct (IH x x' Hc) as [-> Hc']. split; [done|exact Hc'].
Qed.
End Secrecy.

(** ** Witness *)

(** A secret of organization 1 and the same with another content. *)
Definition with_secret (ciphertext : string) : Db :=
  set_secrets {[7 := mkSecret 7 1 "db" ciphertext "nonce-12byte" "destination" None 0 0]} two_orgs.
Definition secret_day (value : string) : list (Fresh * option string * Call) :=
  [(sample_fresh, bearer admin_one, DoPutSecret "api" value);
   (sample_fresh, bearer admin_one, DoListSecrets);
   (sample_fresh, bearer admin_one, DoListConnectors)].
Definition after_secret_day (value ciphertext : string) : System :=
  serve_all (H := bits_json) (H0 := decimal_time) (H1 := shared_key) (H2 := clear_aead) (H4 := sample_setup)
    (H5 := clear_argon) (secret_day value) (sample_system (with_secret ciphertext)).
Definition secret_answers (value ciphertext : string) : list Response :=
  answers (H := bits_json) (H0 := decimal_time) (H1 := shared_key) (H2 := clear_aead) (H4 := sample_setup)
    (H5 := clear_argon) (secret_day value) (sample_system (with_secret ciphertext)).

Lemma secrets_stay_inside_witness :
  (se_ciphertext <$> secrets (w_db (world (after_secret_day "hunter2" "x"))) !! 20) ≠
  (se_ciphertext <$> secrets (w_db (world (after_secret_day "letmein" "y"))) !! 20) ∧
  length (secret_answers "hunter2" "x") = 3%nat ∧ secret_answers "hunter2" "x" = secret_answers "letmein" "y".
Proof.
  split; [vm_compute; discriminate|]. split; [vm_compute; reflexivity|].
  apply (secrets_stay_inside (H := bits_json) (H0 := decimal_time) (H1 := shared_key) (H2 := clear_aead) (H4 := sample_setup)
    (H5 := clear_argon) (secret_day "hunter2") (secret_day "letmein")).
  - constructor; [|by repeat constructor]. split_and!; [reflexivity|reflexivity|]. exists "letmein". repeat split.
  - split; [|reflexivity]. split; [|by split]. split_and!; try reflexivity; [|by constructor].
    apply (alike_intro {[7 := mkSecret 7 1 "db" "y" "nonce-12byte" "destination" None 0 0]} (with_secret "x")).
    vm_compute. reflexivity.
Defined.
