(* ===== verification/SerdeText.v ===== *)
(** * A JSON text form that computes

    An instance of [JsonText] with real JSON: serde_json's compact printer and
    a parser of JSON texts with whitespace, escapes and integers.  Floating
    point numbers, surrogate pairs and the line breaks of the pretty printer
    are left out; the theorems about the program hold for every instance, this
    one is for running it on the texts of the repository's tests. *)
From S2P Require Import Prelude RustStr Json.
From Stdlib Require Import Ascii Decimal DecimalString.

Definition backslash : ascii := ascii_of_N 92.

(** ** Printing *)
Definition json_escape (a : ascii) : string :=
  let n := byte_val a in
  if n =? 34 then String backslash quote
  else if n =? 92 then "\\"
  else if n =? 8 then "\b" else if n =? 9 then "\t" else if n =? 10 then "\n"
  else if n =? 12 then "\f" else if n =? 13 then "\r"
  else if n <? 16 then "\u000" +:+ hex_digit n
  else if n <? 32 then "\u001" +:+ hex_digit (n - 16)
  else String a EmptyString.

Definition print_string (s : string) : string := quote +:+ str_concat (map json_escape (bytes s)) +:+ quote.

Definition print_number (n : number) : string :=
  match n with PosInt z | NegInt z => show_Z z | Float _ => "0.0" end.

Fixpoint print_value (v : value) : string :=
  match v with
  | VNull => "null"
  | VBool b => if b then "true" else "false"
  | VNumber n => print_number n
  | VString s => print_string s
  | VArray l => "[" +:+ join "," (map print_value l) +:+ "]"
  | VObject m => "{" +:+ join "," (map (λ kv, match kv with (k, w) => print_string k +:+ ":" +:+ print_value w end) m) +:+ "}"
  end.

(** ** Parsing *)
Definition json_ws (a : ascii) : bool := let n := byte_val a in (n =? 32) || (n =? 9) || (n =? 10) || (n =? 13).
Fixpoint skip_ws (s : string) : string :=
  match s with String a r => if json_ws a then skip_ws r else s | EmptyString => s end.

Definition hex_val (a : ascii) : option Z :=
  let n := byte_val a in
  if is_digit a then Some (n - 48)
  else if byte_in 97 102 a then Some (n - 87) else if byte_in 65 70 a then Some (n - 55) else None.

Definition unescape (c : ascii) : option ascii :=
  let n := byte_val c in
  if (n =? 34) || (n =? 92) || (n =? 47) then Some c
  else if n =? 98 then Some (ascii_of_N 8) else if n =? 116 then Some (ascii_of_N 9)
  else if n =? 110 then Some (ascii_of_N 10) else if n =? 102 then Some (ascii_of_N 12)
  else if n =? 114 then Some (ascii_of_N 13) else None.

(** The UTF-8 form of a code point below 2^16 that is no surrogate. *)
Definition utf8_of (n : Z) : option string :=
  let b z := ascii_of_N (Z.to_N z) in
  if n <? 128 then Some (of_bytes [b n])
  else if n <? 2048 then Some (of_bytes [b (192 + n / 64); b (128 + n mod 64)])
  else if (55296 <=? n) && (n <? 57344) then None
  else Some (of_bytes [b (224 + n / 4096); b (128 + n / 64 mod 64); b (128 + n mod 64)]).

(** The rest of a string literal after its opening quote. *)
Fixpoint read_string (s : string) : option (string * string) :=
  match s with
  | EmptyString => None
  | String a r =>
      if Ascii.eqb a dquote then Some (EmptyString, r)
      else if Ascii.eqb a backslash then
        match r with
        | String "u" (String h1 (String h2 (String h3 (String h4 r')))) =>
            a1 ← hex_val h1; a2 ← hex_val h2; a3 ← hex_val h3; a4 ← hex_val h4;
            u ← utf8_of (a1 * 4096 + a2 * 256 + a3 * 16 + a4);
            '(t, rest) ← read_string r'; Some (u +:+ t, rest)
        | String c r' => e ← unescape c; '(t, rest) ← read_string r'; Some (String e t, rest)
        | EmptyString => None
        end
      else if byte_val a <? 32 then None
      else '(t, rest) ← read_string r; Some (String a t, rest)
  end.

(** A number ends where no digit, point or exponent follows. *)
Definition number_ends (s : string) : bool :=
  match s with
  | String a _ => negb (is_digit a || Ascii.eqb a "." || Ascii.eqb a "e" || Ascii.eqb a "E")
  | EmptyString => true
  end.

Definition read_number (s : string) : option (value * string) :=
  match s with
  | String "-" r =>
      let '(d, rest) := span_digits r in
      n ← parse_digits d;
      if number_ends rest && (0 <? n) && (i64_min <=? - n) then Some (VNumber (NegInt (- n)), rest) else None
  | _ =>
      let '(d, rest) := span_digits s in
      n ← parse_digits d;
      if number_ends rest && (n <=? u64_max) then Some (VNumber (PosInt n), rest) else None
  end.

Definition read_word (w : string) (v : value) (s : string) : option (value * string) :=
  rest ← strip_prefix w s; Some (v, rest).

Section Nested.
Context (rv : string → option (value * string)).

(** The elements after an opening bracket, the members after a brace. *)
Fixpoint read_items (fuel : nat) (s : string) : option (list value * string) :=
  match fuel with
  | O => None
  | S fuel =>
      '(v, r) ← rv s;
      match skip_ws r with
      | String "," r' => '(l, rest) ← read_items fuel r'; Some (v :: l, rest)
      | String "]" rest => Some ([v], rest)
      | _ => None
      end
  end.

Definition read_member (s : string) : option (string * value * string) :=
  match skip_ws s with
  | String a r =>
      if negb (Ascii.eqb a dquote) then None
      else '(k, r) ← read_string r;
           match skip_ws r with
           | String ":" r => '(v, r) ← rv r; Some (k, v, r)
           | _ => None
           end
  | EmptyString => None
  end.

Fixpoint read_members (fuel : nat) (s : string) : option (list (string * value) * string) :=
  match fuel with
  | O => None
  | S fuel =>
      '(kv, r) ← read_member s;
      match skip_ws r with
      | String "," r' => '(l, rest) ← read_members fuel r'; Some (kv :: l, rest)
      | String "}" rest => Some ([kv], rest)
      | _ => None
      end
  end.

Definition read_array (fuel : nat) (s : string) : option (value * string) :=
  match skip_ws s with
  | String "]" rest => Some (VArray [], rest)
  | _ => '(l, rest) ← read_items fuel s; Some (VArray l, rest)
  end.
Definition read_object (fuel : nat) (s : string) : option (value * string) :=
  match skip_ws s with
  | String "}" rest => Some (VObject [], rest)
  | _ => '(m, rest) ← read_members fuel s; Some (json_obj m, rest)
  end.
End Nested.

Fixpoint read_value (fuel : nat) (s : string) : option (value * string) :=
  match fuel with
  | O => None
  | S fuel =>
      match skip_ws s with
      | EmptyString => None
      | String a r as t =>
          if Ascii.eqb a dquote then '(x, rest) ← read_string r; Some (VString x, rest)
          else if Ascii.eqb a "[" then read_array (read_value fuel) fuel r
          else if Ascii.eqb a "{" then read_object (read_value fuel) fuel r
          else if Ascii.eqb a "n" then read_word "null" VNull t
          else if Ascii.eqb a "t" then read_word "true" (VBool true) t
          else if Ascii.eqb a "f" then read_word "false" (VBool false) t
          else read_number t
      end
  end.

Definition parse_value (s : string) : option value :=
  '(v, rest) ← read_value (S (String.length s)) s;
  if is_empty (skip_ws rest) then Some v else None.

(** ** The round trip *)

Lemma read_plain a s t rest :
  Ascii.eqb a dquote || Ascii.eqb a backslash || (byte_val a <? 32) = false →
  read_string s = Some (t, rest) → read_string (String a s) = Some (String a t, rest).
Proof.
  intros [[Hq Hb]%orb_false_iff Hc]%orb_false_iff Hs. cbn [read_string]. rewrite Hq, Hb, Hc, Hs. reflexivity.
Qed.

Lemma read_short c e s t rest :
  Ascii.eqb c "u" = false → unescape c = Some e → read_string s = Some (t, rest) →
  read_string (String backslash (String c s)) = Some (String e t, rest).
Proof.
  intros Hu He Hs. cbn [read_string]. change (Ascii.eqb backslash dquote) with false.
  change (Ascii.eqb backslash backslash) with true. cbv iota.
  destruct c as [[] [] [] [] [] [] [] []]; try discriminate Hu; try discriminate He; cbv iota; rewrite He, Hs; reflexivity.
Qed.

Lemma read_code h3 h4 e s t rest :
  (a3 ← hex_val h3; a4 ← hex_val h4; utf8_of (a3 * 16 + a4)) = Some (String e EmptyString) → read_string s = Some (t, rest) →
  read_string (String backslash (String "u" (String "0" (String "0" (String h3 (String h4 s)))))) = Some (String e t, rest).
Proof.
  intros He Hs. cbn [read_string]. change (Ascii.eqb backslash dquote) with false.
  change (Ascii.eqb backslash backslash) with true. cbv iota. change (hex_val "0") with (Some 0). cbn [mbind option_bind].
  destruct (hex_val h3) as [a3|]; [|done]. destruct (hex_val h4) as [a4|]; [|done]. cbn [mbind option_bind] in *.
  replace (0 * 4096 + 0 * 256 + a3 * 16 + a4) with (a3 * 16 + a4) by lia. rewrite He. cbn [mbind option_bind]. by rewrite Hs.
Qed.

Lemma json_escape_read a s t rest :
  read_string s = Some (t, rest) → read_string (json_escape a +:+ s) = Some (String a t, rest).
Proof.
  intros Hs.
  destruct a as [[] [] [] [] [] [] [] []];
    match goal with |- read_string (json_escape ?a +:+ _) = _ =>
      let e := eval vm_compute in (json_escape a) in change (json_escape a) with e
    end; cbn [String.append];
    first [apply read_plain; [reflexivity|exact Hs]|apply read_short; [reflexivity|reflexivity|exact Hs]
          |apply read_code; [reflexivity|exact Hs]].
Qed.

Lemma read_string_print s rest :
  read_string (str_concat (map json_escape (bytes s)) +:+ quote +:+ rest) = Some (s, rest).
Proof.
  induction s as [|a s IH]; [reflexivity|]. cbn [bytes String.list_ascii_of_string map str_concat foldr].
  fold (str_concat (map json_escape (bytes s))). rewrite append_assoc. by apply json_escape_read.
Qed.

Lemma digits_of_uint d : forallb is_digit (bytes (NilEmpty.string_of_uint d)) = true.
Proof. by induction d. Qed.

Definition no_digit (s : string) : bool := match s with String a _ => negb (is_digit a) | EmptyString => true end.

Lemma span_digits_app d rest : forallb is_digit (bytes d) = true → no_digit rest = true → span_digits (d +:+ rest) = (d, rest).
Proof.
  intros Hd Hr. induction d as [|a d IH]; cbn.
  - destruct rest as [|b rest]; [done|]. cbn in Hr |- *. by apply negb_true_iff in Hr as ->.
  - cbn in Hd. apply andb_true_iff in Hd as [-> Hd]. by rewrite IH.
Qed.

Lemma number_ends_no_digit s : number_ends s = true → no_digit s = true.
Proof. destruct s as [|a s]; [done|]. cbn. by destruct (is_digit a). Qed.

(** The digits of a number. *)
Lemma show_digits z : 0 ≤ z → forallb is_digit (bytes (show_Z z)) = true ∧ parse_digits (show_Z z) = Some z ∧
  ∃ a r, show_Z z = String a r ∧ is_digit a = true.
Proof.
  intros Hz. unfold show_Z. destruct z as [|p|p]; [by split_and!; [..|eexists _, _]| |lia].
  cbn [Z.to_int NilZero.string_of_int]. pose proof (DecimalPos.Unsigned.to_uint_nonnil p) as Hn.
  assert (NilZero.string_of_uint (Pos.to_uint p) = NilEmpty.string_of_uint (Pos.to_uint p)) as He by (by destruct (Pos.to_uint p)).
  split_and!.
  - rewrite He. apply digits_of_uint.
  - rewrite parse_digits_of_uint by done. f_equal. exact (DecimalZ.of_to (Z.pos p)).
  - rewrite He. pose proof (digits_of_uint (Pos.to_uint p)) as Hd.
    destruct (NilEmpty.string_of_uint (Pos.to_uint p)) as [|a r] eqn:Hs; [by destruct (Pos.to_uint p)|].
    exists a, r. split; [done|]. cbn in Hd. by apply andb_true_iff in Hd as [? _].
Qed.

Lemma read_number_nonneg s : (∃ a r, s = String a r ∧ is_digit a = true) →
  read_number s = (let '(d, rest) := span_digits s in
    n ← parse_digits d; if number_ends rest && (n <=? u64_max) then Some (VNumber (PosInt n), rest) else None).
Proof. intros (a & r & -> & Ha). by destruct a as [[] [] [] [] [] [] [] []]; try discriminate Ha. Qed.

Lemma read_number_print n rest :
  number_ok n = true → number_ends rest = true →
  read_number (print_number n +:+ rest) = Some (VNumber n, rest).
Proof.
  intros Hn Hr. pose proof (number_ends_no_digit _ Hr) as Hd. unfold number_ok in Hn. destruct n as [z|z|?]; [| |done].
  - apply andb_true_iff in Hn as [Hz Hu]. destruct (show_digits z) as (Hs & Hp & a & r & Ha & Had); [lia|].
    cbn [print_number]. rewrite read_number_nonneg by (exists a, (r +:+ rest); by rewrite Ha).
    rewrite span_digits_app by done. cbv iota beta. rewrite Hp. cbn [mbind option_bind]. by rewrite Hr, Hu.
  - apply andb_true_iff in Hn as [Hz Hu]. assert (∃ p, z = Z.neg p) as [p ->] by (destruct z; [discriminate Hu|discriminate Hu|by eexists]).
    destruct (show_digits (Z.pos p)) as (Hs & Hp & _); [lia|]. cbn [print_number].
    change (show_Z (Z.neg p)) with (String "-" (show_Z (Z.pos p))). cbn [String.append read_number].
    rewrite span_digits_app by done. cbv iota beta. rewrite Hp. cbn [mbind option_bind]. rewrite Hr.
    cbn [andb]. change (- Z.pos p) with (Z.neg p). by rewrite Hz.
Qed.

(** How a printed value begins. *)
Lemma print_head v : value_ok v = true →
  ∃ a r, print_value v = String a r ∧ json_ws a = false ∧ Ascii.eqb a "]" = false ∧ Ascii.eqb a "}" = false.
Proof.
  intros Hv. destruct v as [|[]|n|s|l|m]; try by eexists _, _.
  cbn [value_ok] in Hv. unfold number_ok in Hv. destruct n as [z|z|?]; [| |done]; apply andb_true_iff in Hv as [Hz Hz']; cbn [print_value print_number].
  - destruct (show_digits z) as (_ & _ & a & r & -> & Ha); [lia|]. exists a, r.
    destruct a as [[] [] [] [] [] [] [] []]; try discriminate Ha; done.
  - destruct z as [|p|p]; [discriminate Hz'|discriminate Hz'|]. change (show_Z (Z.neg p)) with (String "-" (show_Z (Z.pos p))). by eexists _, _.
Qed.

Lemma skip_ws_head a r : json_ws a = false → skip_ws (String a r) = String a r.
Proof. intros Ha. cbn. by rewrite Ha. Qed.

Lemma skip_ws_print v rest : value_ok v = true → skip_ws (print_value v +:+ rest) = print_value v +:+ rest.
Proof. intros Hv. destruct (print_head v Hv) as (a & r & -> & Ha & _). by apply skip_ws_head. Qed.

(** A value that [rv] reads back. *)
Definition reads_back (rv : string → option (value * string)) (v : value) : Prop :=
  ∀ rest, number_ends rest = true → rv (print_value v +:+ rest) = Some (v, rest).

Lemma read_items_print rv l fuel rest :
  l ≠ [] → Forall (reads_back rv) l → (length l ≤ fuel)%nat →
  read_items rv fuel (join "," (map print_value l) +:+ String "]" rest) = Some (l, rest).
Proof.
  revert fuel. induction l as [|v l IH]; intros [|fuel] Hne Hl Hf; try done; [cbn in Hf; lia|].
  apply Forall_cons_iff in Hl as [Hv Hl]. cbn [read_items map]. destruct l as [|w l].
  - cbn [join map]. by rewrite Hv.
  - change (join "," (print_value v :: map print_value (w :: l)))
      with (print_value v +:+ "," +:+ join "," (map print_value (w :: l))).
    rewrite !append_assoc. rewrite Hv by done. cbn [mbind option_bind String.append]. rewrite skip_ws_head by done.
    rewrite IH; [done|done|done|]. cbn in Hf |- *. lia.
Qed.

Definition print_member (kv : string * value) : string := print_string kv.1 +:+ ":" +:+ print_value kv.2.

Lemma read_member_print rv kv rest :
  reads_back rv kv.2 → number_ends rest = true → read_member rv (print_member kv +:+ rest) = Some (kv, rest).
Proof.
  intros Hv Hr. unfold read_member, print_member, print_string. rewrite !append_assoc.
  change (quote +:+ ?s) with (String dquote s). rewrite skip_ws_head by done. cbn [negb Ascii.eqb].
  change (Ascii.eqb dquote dquote) with true. cbn [negb]. rewrite read_string_print. cbn [mbind option_bind String.append].
  rewrite skip_ws_head by done. rewrite Hv by done. by destruct kv.
Qed.

Lemma read_members_print rv m fuel rest :
  m ≠ [] → Forall (λ kv, reads_back rv kv.2) m → (length m ≤ fuel)%nat →
  read_members rv fuel (join "," (map print_member m) +:+ String "}" rest) = Some (m, rest).
Proof.
  revert fuel. induction m as [|kv m IH]; intros [|fuel] Hne Hm Hf; try done; [cbn in Hf; lia|].
  apply Forall_cons_iff in Hm as [Hv Hm]. cbn [read_members map]. destruct m as [|kw m].
  - cbn [join map]. by rewrite read_member_print.
  - change (join "," (print_member kv :: map print_member (kw :: m)))
      with (print_member kv +:+ "," +:+ join "," (map print_member (kw :: m))).
    rewrite !append_assoc. rewrite read_member_print by done. cbn [mbind option_bind String.append].
    rewrite skip_ws_head by done. rewrite IH; [done|done|done|]. cbn in Hf |- *. lia.
Qed.

(** A join is at least as long as its parts and as their number. *)
Lemma length_join l :
  Forall (λ s, 1 ≤ String.length s)%nat l →
  (length l ≤ String.length (join "," l))%nat ∧ Forall (λ s, String.length s ≤ String.length (join "," l))%nat l.
Proof.
  induction 1 as [|s l Hs Hl [IH1 IH2]]; [split; [done|constructor]|]. destruct l as [|t l].
  - cbn in *. split; [lia|]. repeat constructor.
  - change (join "," (s :: t :: l)) with (s +:+ "," +:+ join "," (t :: l)). rewrite !length_append.
    split; [cbn [length String.length] in *; lia|]. constructor; [lia|].
    eapply list.Forall_impl; [exact IH2|]. cbn beta. intros x Hx. lia.
Qed.

Lemma print_nonempty v : value_ok v = true → (1 ≤ String.length (print_value v))%nat.
Proof. intros Hv. destruct (print_head v Hv) as (a & r & -> & _). cbn. lia. Qed.

Lemma object_print m : print_value (VObject m) = "{" +:+ join "," (map print_member m) +:+ "}".
Proof.
  cbn [print_value]. do 3 f_equal. apply map_ext. by intros [k v].
Qed.

Lemma read_array_print rv n l rest :
  forallb value_ok l = true → Forall (reads_back rv) l → (length l ≤ n)%nat →
  read_array rv n (join "," (map print_value l) +:+ String "]" rest) = Some (VArray l, rest).
Proof.
  intros Hok Hl Hn. unfold read_array. destruct l as [|v l].
  - cbn [map join String.append]. by rewrite skip_ws_head.
  - rewrite read_items_print by done. cbn in Hok. apply andb_true_iff in Hok as [Hv _].
    destruct (print_head v Hv) as (a & r & Ha & Hws & Hb & _).
    assert (∃ r', join "," (map print_value (v :: l)) +:+ String "]" rest = String a r') as [r' ->].
    { cbn [map join]. destruct l; cbn [map]; rewrite Ha; by eexists. }
    rewrite skip_ws_head by done.
    destruct a as [[] [] [] [] [] [] [] []]; try discriminate Hb; reflexivity.
Qed.

Lemma read_object_print rv n m rest :
  keys_sorted m = true → Forall (λ kv, reads_back rv kv.2) m → (length m ≤ n)%nat →
  read_object rv n (join "," (map print_member m) +:+ String "}" rest) = Some (VObject m, rest).
Proof.
  intros Hs Hm Hn. unfold read_object. destruct m as [|kv m].
  - cbn [map join String.append]. by rewrite skip_ws_head.
  - rewrite read_members_print by done.
    assert (∃ r', join "," (map print_member (kv :: m)) +:+ String "}" rest = String dquote r') as [r' ->].
    { cbn [map join]. destruct m; by eexists. }
    rewrite skip_ws_head by done. cbn [dquote mbind option_bind]. unfold json_obj. by rewrite obj_entries_sorted.
Qed.

Lemma nested_lengths {A} (f : A → string) l c d n :
  Forall (λ a, 1 ≤ String.length (f a))%nat l →
  (String.length (String c (join "," (map f l) +:+ String d EmptyString)) ≤ n)%nat →
  ∃ n', n = S n' ∧ (length l ≤ n)%nat ∧ Forall (λ a, String.length (f a) ≤ n')%nat l.
Proof.
  intros Hf Hn. cbn in Hn. rewrite length_append in Hn. cbn in Hn. destruct n as [|n']; [lia|]. exists n'.
  destruct (length_join (map f l)) as [Hl Hj].
  { apply List.Forall_map. exact Hf. }
  rewrite length_map in Hl. split_and!; [done|lia|]. apply List.Forall_map in Hj.
  eapply list.Forall_impl; [exact Hj|]. cbn beta. intros a Ha. lia.
Qed.

Lemma read_value_print v : value_ok v = true →
  ∀ n, (String.length (print_value v) ≤ n)%nat → reads_back (read_value (S n)) v.
Proof.
  induction v as [|b|k|s|l IH|m IH] using value_ind'; intros Hv n Hn rest Hr.
  - reflexivity.
  - by destruct b.
  - cbn [value_ok] in Hv. pose proof (skip_ws_print (VNumber k) rest Hv) as Hs.
    pose proof (read_number_print k rest Hv Hr) as Hk. cbn [print_value] in *. cbn [read_value]. rewrite Hs.
    assert (∃ a r, print_number k = String a r ∧ (is_digit a || Ascii.eqb a "-") = true) as (a & r & Ha & Hd).
    { unfold number_ok in Hv. destruct k as [z|z|?]; [| |done]; cbn [print_number]; apply andb_true_iff in Hv as [Hz Hz'].
      - destruct (show_digits z) as (_ & _ & a & r & -> & Ha); [lia|]. exists a, r. by rewrite Ha.
      - destruct z as [|p|p]; [discriminate Hz'|discriminate Hz'|]. by exists "-"%char, (show_Z (Z.pos p)). }
    rewrite Ha in Hk |- *. cbn [String.append] in *.
    destruct a as [[] [] [] [] [] [] [] []]; try discriminate Hd; exact Hk.
  - cbn [print_value]. unfold print_string. rewrite !append_assoc. change (quote +:+ ?x) with (String dquote x).
    cbn [read_value]. rewrite skip_ws_head by done. change (Ascii.eqb dquote dquote) with true. cbv iota.
    by rewrite read_string_print.
  - cbn [value_ok] in Hv. pose proof Hv as Hf. rewrite forallb_forall in Hf.
    destruct (nested_lengths print_value l "[" "]" n) as (n' & -> & Hl & Hj); [|exact Hn|].
    { apply List.Forall_forall. intros v Hin. by apply print_nonempty, Hf. }
    cbn [print_value]. rewrite !append_assoc. cbn [String.append]. change (read_value (S (S n')) (String "[" ?x))
      with (read_array (read_value (S n')) (S n') x). apply read_array_print; [done| |done].
    apply List.Forall_forall. intros v Hin. rewrite List.Forall_forall in IH, Hj. by apply IH; [|apply Hf|apply Hj].
  - apply value_ok_object in Hv as [Hs Hv]. rewrite object_print in *.
    destruct (nested_lengths print_member m "{" "}" n) as (n' & -> & Hl & Hj); [|exact Hn|].
    { apply List.Forall_forall. intros kv Hin. unfold print_member, print_string. cbn. lia. }
    rewrite !append_assoc. cbn [String.append]. change (read_value (S (S n')) (String "{" ?x))
      with (read_object (read_value (S n')) (S n') x). apply read_object_print; [done| |done].
    apply List.Forall_forall. intros kv Hin. rewrite List.Forall_forall in IH, Hj, Hv.
    apply IH; [done|by apply Hv|]. specialize (Hj kv Hin). unfold print_member in Hj. rewrite !length_append in Hj. lia.
Qed.

(** serde_json's documented round trip, for this text form. *)
Lemma json_text_roundtrip v : value_ok v = true → parse_value (print_value v) = Some v.
Proof.
  intros Hv. unfold parse_value. pose proof (read_value_print v Hv _ (le_n _) EmptyString eq_refl) as Hr.
  rewrite append_nil_r in Hr. by rewrite Hr.
Qed.

Definition serde_text : JsonText := {|
    to_json_string := print_value; to_json_pretty := print_value; from_json_str := parse_value;
    json_string_roundtrip := json_text_roundtrip; json_pretty_roundtrip := json_text_roundtrip;
  |}.

(** JSON written with single quotes. *)
Definition lit : string → string := map_bytes (λ a, if Ascii.eqb a "'" then dquote else a).
Definition js (s : string) : value := default VNull (parse_value (lit s)).

Example spaced_text_parses :
  parse_value (lit " { 'b' : [1, -2 ,true], 'a':'x\ty\u00e9' }") =
  Some (json_obj [("a", VString (of_bytes (bytes "x" ++ [ascii_of_N 9] ++ bytes "y" ++ [ascii_of_N 195; ascii_of_N 169])));
                  ("b", VArray [json_int 1; json_int (-2); VBool true])]).
Proof. vm_compute. reflexivity. Qed.
