(* ===== verification/VendorHttp.v ===== *)
(** * The license service over HTTP: [build_router] of [license_server.rs]

    A request as the service receives it: routing, the body limit, axum's
    [Json] extractor, the handler and its response.  What axum answers by
    itself is a status with a text of its own. *)
From S2P Require Import Prelude RustStr Json License LicenseFile LicenseServer Router.
From Stdlib Require Import Ascii.

Record HttpRequest : Type := mkHttp {
  q_method : Method; q_path : string;
  q_auth : option string;      (** the Authorization header, when printable *)
  q_json : bool;               (** the Content-Type is JSON *)
  q_body : string;
}.

Inductive HttpAnswer : Type :=
  | AnswerJson (status : Z) (body : value)
  | AnswerText (status : Z) (text : string).
Definition answer_status (a : HttpAnswer) : Z :=
  match a with AnswerJson s _ | AnswerText s _ => s end.

Inductive VendorHandler : Type := V_health | V_ready | V_trial_start | V_heartbeat.

Definition vendor_routes : list (string * (Method * VendorHandler)) :=
  [("/healthz", (GET, V_health)); ("/readyz", (GET, V_ready));
   ("/v1/trial/start", (POST, V_trial_start)); ("/v1/heartbeat", (POST, V_heartbeat))].

Definition BODY_LIMIT : Z := 32 * 1024.

(** A handler for the path and the method, or axum's 404 and 405. *)
Definition vendor_dispatch (m : Method) (path : string) : result Z VendorHandler :=
  match List.find (λ r, (r.1 =? path)%string) vendor_routes with
  | None => Err 404
  | Some (_, (m', h)) => if bool_decide (m = m') then Ok h else Err 405
  end.

Section Service.
Context `{JsonText} `{Rfc3339} `{Crypto}.
(** axum's texts for the answers it gives itself. *)
Context (axum_text : Z → string) (naive_parse : string → option Z) (star_first : bool) (cfg : ServerConfig).

(** [Json<T>] under [DefaultBodyLimit]: the content type, the size, the syntax,
    the shape. *)
Definition extract {A} (decode : value → option A) (q : HttpRequest) : result Z A :=
  if negb (q_json q) then Err 415
  else if BODY_LIMIT <? str_len (q_body q) then Err 413
  else match from_json_str (q_body q) with
       | None => Err 400
       | Some v => ok_or (decode v) 422
       end.

(** [IntoResponse] of the handlers' results. *)
Definition answer {A} (f : A → value) (r : result ServerError A) : HttpAnswer :=
  match r with
  | Ok a => AnswerJson 200 (f a)
  | Err e => let '(status, body) := server_error_response e in AnswerJson status body
  end.

Definition with_body {A B} (decode : value → option A) (f : B → value) (q : HttpRequest)
    (handler : A → stM Srv ServerError B) (s : Srv) : HttpAnswer * Srv :=
  match extract decode q with
  | Err status => (AnswerText status (axum_text status), s)
  | Ok req => let '(r, s') := handler req s in (answer f r, s')
  end.

(** [inst] is the monotonic clock, [t_verify] and [now] the wall clock. *)
Definition serve_http (inst t_verify now : Z) (q : HttpRequest) (s : Srv) : HttpAnswer * Srv :=
  match vendor_dispatch (q_method q) (q_path q) with
  | Err status => (AnswerText status EmptyString, s)
  | Ok V_health | Ok V_ready => (AnswerText 200 "ok", s)
  | Ok V_trial_start =>
      with_body trial_start_of_value trial_response_to_value q (trial_start naive_parse cfg inst now (q_auth q)) s
  | Ok V_heartbeat =>
      with_body heartbeat_request_of_value heartbeat_response_to_value q
        (heartbeat naive_parse star_first cfg inst t_verify now (q_auth q)) s
  end.

(** ** Properties *)

Lemma trial_unauthorized inst now header req s e :
  authorize cfg header = Err e → trial_start naive_parse cfg inst now header req s = (Err e, s).
Proof. intros He. unfold trial_start, trial_request. by rewrite He. Qed.
Lemma heartbeat_unauthorized inst tv now header req s e :
  authorize cfg header = Err e → heartbeat naive_parse star_first cfg inst tv now header req s = (Err e, s).
Proof. intros He. unfold heartbeat. by rewrite He. Qed.

(** The probes are the only routes with no handler of their own. *)
Lemma vendor_dispatch_spec m path :
  match vendor_dispatch m path with
  | Ok V_health => m = GET ∧ path = "/healthz"
  | Ok V_ready => m = GET ∧ path = "/readyz"
  | Ok V_trial_start => m = POST ∧ path = "/v1/trial/start"
  | Ok V_heartbeat => m = POST ∧ path = "/v1/heartbeat"
  | Err status => status = 404 ∨ status = 405
  end.
Proof.
  unfold vendor_dispatch, vendor_routes. cbn [List.find fst].
  repeat match goal with
    | |- context [String.eqb ?s path] => destruct (String.eqb_spec s path) as [<-|_]; [by destruct m; vm_compute; auto|]
    end.
  by left.
Qed.

Lemma extract_refusal {A} (decode : value → option A) q status :
  extract decode q = Err status → 400 ≤ status < 500.
Proof.
  unfold extract. destruct (negb _); [intros [= <-]; lia|]. destruct (_ <? _); [intros [= <-]; lia|].
  destruct (from_json_str _) as [v|]; [|intros [= <-]; lia].
  destruct (decode v); cbn; [done|]. intros [= <-]. lia.
Qed.

(** A handler that refuses every request with the same client error. *)
Lemma refused {A B} (decode : value → option A) (f : B → value) q h s e P :
  (∀ req, h req s = (Err e, s)) → 400 ≤ answer_status (answer f (Err e)) < 500 →
  let '(a, s') := with_body decode f q h s in s' = s ∧ (P a ∨ 400 ≤ answer_status a < 500).
Proof.
  intros Hh He. unfold with_body. destruct (extract decode q) as [req|status] eqn:Hx.
  - rewrite Hh. auto.
  - split; [done|]. right. by eapply extract_refusal.
Qed.

Lemma authorize_refusal header :
  default EmptyString (header ≫= strip_prefix "Bearer ") ≠ activation_token cfg →
  authorize cfg header = Err (mkServerError 401 "unauthorized" "unauthorized").
Proof.
  intros Ha. destruct (authorize cfg header) as [[]|e] eqn:Hok; [by apply authorize_spec in Hok|].
  revert Hok. unfold authorize. destruct (constant_time_eq _ _); [done|]. by intros [= <-].
Qed.

(** C26: the vendor's service is shut to strangers: a request without the
    activation token, whatever its method, path and body, leaves trials,
    revocations and rate limits exactly as they are, and except for the two
    probes it is answered with a client error. *)
Theorem vendor_is_shut inst t_verify now q s :
  default EmptyString (q_auth q ≫= strip_prefix "Bearer ") ≠ activation_token cfg →
  let '(a, s') := serve_http inst t_verify now q s in
  s' = s ∧ (answer_status a = 200 ∧ q_method q = GET ∧ In (q_path q) ["/healthz"; "/readyz"] ∨
            400 ≤ answer_status a < 500).
Proof.
  intros Ha%authorize_refusal. unfold serve_http.
  pose proof (vendor_dispatch_spec (q_method q) (q_path q)) as Hr.
  destruct (vendor_dispatch _ _) as [[]|status].
  - destruct Hr as [Hm Hp]. split; [done|left]. rewrite Hp. cbn. auto.
  - destruct Hr as [Hm Hp]. split; [done|left]. rewrite Hp. cbn. auto.
  - eapply refused; [intros req; by apply trial_unauthorized|cbn; lia].
  - eapply refused; [intros req; by apply heartbeat_unauthorized|cbn; lia].
  - split; [done|right]. cbn. lia.
Qed.
End Service.

(** ** Witness *)
Definition curl (m : Method) (path : string) (auth : option string) (body : string) : HttpRequest :=
  mkHttp m path auth true body.

Lemma vendor_is_shut_witness :
  let q := curl POST "/v1/trial/start" (Some "Bearer guess") "" in
  let '(a, s') := serve_http (H := bits_json) (H0 := decimal_time) (H1 := shared_key)
    (λ _, EmptyString) (λ _, None) true demo_cfg 0 (hours 1) (hours 1) q empty_srv in
  s' = empty_srv ∧ 400 ≤ answer_status a < 500.
Proof.
  pose proof (vendor_is_shut (H := bits_json) (H0 := decimal_time) (H1 := shared_key)
    (λ _, EmptyString) (λ _, None) true demo_cfg 0 (hours 1) (hours 1)
    (curl POST "/v1/trial/start" (Some "Bearer guess") "") empty_srv) as Hv.
  cbv zeta. destruct (serve_http _ _ _ _ _ _ _ _ _) as [a s'].
  destruct Hv as [Hs [(_ & Hm & _)|Hr]]; [vm_compute; discriminate|discriminate Hm|by split].
Defined.
