(* ===== verification/TestKit.v ===== *)
(** * Running the repository's own tests

    What the translated [#[test]] functions share: assertions as booleans,
    [unwrap], and the concrete instances the model runs on — serde_json's
    compact text ([SerdeText.serde_text]), instants in decimal, and a signature
    scheme in which a key pair is its PEM text and a signature, the key
    followed by the message, travels in hexadecimal. *)
From S2P Require Import Prelude RustStr Json SerdeText License LicenseFile.
From Stdlib Require Import Ascii.

Declare Scope test_scope.
Delimit Scope test_scope with test.

(** ** Assertions *)
Definition assert_eq `{EqDecision A} (a b : A) : bool := bool_decide (a = b).
Definition assert_err {E A} (r : result E A) : bool := negb (is_ok r).

(** [unwrap] panics where there is no value: the test fails. *)
Class Unwrap (M : Type → Type) := unwrap : ∀ {A}, M A → (A → bool) → bool.
#[global] Instance unwrap_result E : Unwrap (result E) := λ A r k, match r with Ok a => k a | Err _ => false end.
#[global] Instance unwrap_option : Unwrap option := λ A o k, match o with Some a => k a | None => false end.
Notation "'let!' x ':=' r 'in' k" := (unwrap r (λ x, k))
  (at level 10, x binder, r at level 100, k at level 200) : test_scope.
Notation "'let!' ' p ':=' r 'in' k" := (unwrap r (λ x, match x with p => k end))
  (at level 10, p strict pattern, r at level 100, k at level 200) : test_scope.
#[global] Open Scope test_scope.

(** [str::repeat] *)
Definition repeat (n : nat) (s : string) : string := str_concat (List.repeat s n).

(** [str::replace] with a non-empty pattern. *)
Fixpoint replace_fuel (fuel : nat) (p r s : string) : string :=
  match fuel, s with
  | S fuel, String a s' =>
      match strip_prefix p s with
      | Some rest => r +:+ replace_fuel fuel p r rest
      | None => String a (replace_fuel fuel p r s')
      end
  | _, _ => s
  end.
Definition replace (p r s : string) : string := replace_fuel (String.length s) p r s.

(** [serde_json::Value] indexing: [Null] where there is nothing. *)
Definition at_key (k : string) (v : value) : value := default VNull (vget k v).

(** ** Hexadecimal *)
Definition hex_byte (a : ascii) : string := hex_digit (byte_val a / 16) +:+ hex_digit (byte_val a mod 16).
Definition hex (s : string) : string := str_concat (map hex_byte (bytes s)).
Fixpoint unhex (s : string) : option string :=
  match s with
  | EmptyString => Some EmptyString
  | String h (String l s') =>
      a ← hex_val h; b ← hex_val l; t ← unhex s'; Some (String (ascii_of_N (Z.to_N (a * 16 + b))) t)
  | _ => None
  end.

Lemma unhex_hex s : unhex (hex s) = Some s.
Proof.
  induction s as [|a s IH]; [done|].
  destruct a as [[] [] [] [] [] [] [] []];
    match goal with |- unhex (hex (String ?a ?s)) = _ =>
      let e := eval vm_compute in (hex_byte a) in change (hex (String a s)) with (e +:+ hex s)
    end; cbn [String.append unhex]; rewrite IH; reflexivity.
Qed.

#[global] Instance hex_key : Crypto := {|
    pubkey := string;
    private_pem_ok := starts_with "PEM";
    public_of_private := id;
    public_from_pem := λ pem, if starts_with "PEM" pem then Some pem else None;
    rsa_sign := λ pem m, pem +:+ m;
    signature_ok := λ s, true;
    rsa_verify := λ k m s, (s =? k +:+ m)%string;
    b64_encode := hex;
    b64_decode := unhex;
    b64_roundtrip := unhex_hex;
    rsa_sign_ok := λ pem m _, eq_refl;
    rsa_sign_verify := λ pem m _, String.eqb_refl _;
  |}.
#[global] Existing Instances serde_text decimal_time.

(** [keypair()]: a private key in PEM and its public key. *)
Definition keypair (name : string) : string * pubkey := let pem := "PEM " +:+ name in (pem, public_of_private pem).

(** The names of the tests that fail. *)
Definition failures (suite : list (string * bool)) : list string :=
  map fst (List.filter (λ t, negb t.2) suite).
