(* ===== verification/ConfLicense.v ===== *)
(** * The unit tests of [security/license.rs], run on the model

    One [test_] definition per [#[test]] function of the module: the same
    inputs, calls and assertions, [Utc::now()] being the instant [t0].
    [embedded_key_parses] is left out: it is about a PEM parser. *)
From S2P Require Import Prelude RustStr Json SerdeText License LicenseFile LicenseIO TestKit.

Definition t0 : Z := hours 480000.
Definition days (n : Z) : Z := hours (24 * n).

(** [doc(expires_in)] *)
Definition doc_for (expires_in : Z) : LicenseDoc :=
  mkLicenseDoc "Acme Corp" (t0 + expires_in) ["llm"] (Some 25) (Some t0) Commercial None false.

(** The updates the tests make to a document. *)
Definition with_kind (k : LicenseKind) (d : LicenseDoc) : LicenseDoc :=
  mkLicenseDoc (licensee d) (expires_at d) (features d) (max_seats d) (issued_at d) k (fingerprint d) (requires_heartbeat d).
Definition with_licensee (l : string) (d : LicenseDoc) : LicenseDoc :=
  mkLicenseDoc l (expires_at d) (features d) (max_seats d) (issued_at d) (kind d) (fingerprint d) (requires_heartbeat d).
Definition with_fingerprint (f : string) (d : LicenseDoc) : LicenseDoc :=
  mkLicenseDoc (licensee d) (expires_at d) (features d) (max_seats d) (issued_at d) (kind d) (Some f) (requires_heartbeat d).
Definition with_heartbeat (d : LicenseDoc) : LicenseDoc :=
  mkLicenseDoc (licensee d) (expires_at d) (features d) (max_seats d) (issued_at d) (kind d) (fingerprint d) true.
Definition with_issued (t : option Z) (d : LicenseDoc) : LicenseDoc :=
  mkLicenseDoc (licensee d) (expires_at d) (features d) (max_seats d) t (kind d) (fingerprint d) (requires_heartbeat d).
Definition with_expiry (t : Z) (d : LicenseDoc) : LicenseDoc :=
  mkLicenseDoc (licensee d) t (features d) (max_seats d) (issued_at d) (kind d) (fingerprint d) (requires_heartbeat d).
Definition state_of (d : LicenseDoc) : LicenseState := mkLicenseState (Some d) None None None None None.

(** ** Signing and verification *)
Definition test_sign_verify_roundtrip : bool :=
  let '(priv_pem, pub_key) := keypair "a" in
  let! raw := sign_license (doc_for (days 365)) priv_pem in
  let! verified := verify_license t0 raw pub_key in
  assert_eq (licensee verified) "Acme Corp"
  && assert_eq (max_seats verified) (Some 25)
  && assert_eq (kind verified) Commercial
  && negb (requires_heartbeat verified).

Definition test_trial_with_fingerprint_roundtrip : bool :=
  let '(priv_pem, pub_key) := keypair "a" in
  let d := with_heartbeat (with_licensee "trial" (with_fingerprint "abc123" (with_kind Trial (doc_for (days 10))))) in
  let! raw := sign_license d priv_pem in
  contains_str "requires_heartbeat" raw
  && let! verified := verify_license t0 raw pub_key in
     assert_eq (kind verified) Trial
     && assert_eq (fingerprint verified) (Some "abc123")
     && requires_heartbeat verified.

Definition test_heartbeat_flag_omitted_when_false : bool :=
  let '(priv_pem, _) := keypair "a" in
  let! raw := sign_license (doc_for (days 1)) priv_pem in
  negb (contains_str "requires_heartbeat" raw).

Definition test_legacy_license_defaults_commercial : bool :=
  let '(priv_pem, pub_key) := keypair "a" in
  let license := json_obj [("licensee", VString "Legacy"); ("expires_at", VString (dt_rfc3339 (t0 + days 30)))] in
  let signature := rsa_sign priv_pem (to_json_string license) in
  let file := mkLicenseFile license (b64_encode signature) in
  let raw := to_json_string (license_file_to_value file) in
  let! verified := verify_license t0 raw pub_key in
  assert_eq (kind verified) Commercial
  && negb (requires_heartbeat verified)
  && assert_eq (validity verified "anything" t0) (Ok tt).

Definition test_rejects_tampered_payload : bool :=
  let '(priv_pem, pub_key) := keypair "a" in
  let! raw := sign_license (doc_for (days 365)) priv_pem in
  let tampered := replace "Acme Corp" "Evil Corp" raw in
  assert_err (verify_license t0 tampered pub_key).

Definition test_rejects_expired_license : bool :=
  let '(priv_pem, pub_key) := keypair "a" in
  let! raw := sign_license (doc_for (days (-1))) priv_pem in
  match verify_license t0 raw pub_key with
  | Err err => contains_str "expired" err
  | Ok _ => false
  end.

Definition test_rejects_wrong_key : bool :=
  let '(priv_pem, _) := keypair "a" in
  let '(_, other_pub) := keypair "b" in
  let! raw := sign_license (doc_for (days 30)) priv_pem in
  assert_err (verify_license t0 raw other_pub).

(** ** The rules of a document *)
Definition test_days_remaining_positive : bool := 1 <=? days_remaining (doc_for (hours 36)) t0.

Definition test_validity_fingerprint_binding : bool :=
  let d := with_fingerprint (repeat 32 "aa") (doc_for (days 30)) in
  assert_eq (validity d (repeat 32 "aa") t0) (Ok tt)
  && assert_eq (validity d (repeat 32 "bb") t0) (Err FingerprintMismatch)
  && assert_eq (validity d "" t0) (Ok tt).

Definition test_validity_heartbeat_grace : bool :=
  let d := with_heartbeat (doc_for (days 30)) in
  let d71 := with_issued (Some (t0 - hours 71)) d in
  let d73 := with_issued (Some (t0 - hours 73)) d in
  let none := with_issued None d in
  assert_eq (validity d71 "" t0) (Ok tt)
  && assert_eq (validity d73 "" t0) (Err HeartbeatGraceExpired)
  && assert_eq (grace_until d73) (Some (t0 - hours 73 + HEARTBEAT_GRACE))
  && assert_eq (validity none "" t0) (Err MissingIssuedAt)
  && assert_eq (validity (with_expiry (t0 - seconds 1) none) "" t0) (Err Expired).

Definition test_heartbeat_not_required_for_plain_licenses : bool :=
  let d := with_issued (Some (t0 - days 400)) (doc_for (days 30)) in
  assert_eq (validity d "" t0) (Ok tt)
  && assert_eq (grace_until d) None
  && negb (heartbeat_due HEARTBEAT_INTERVAL (state_of d) t0).

Definition test_heartbeat_due_schedule_and_retry_backoff : bool :=
  let due s := heartbeat_due HEARTBEAT_INTERVAL s t0 in
  let d := with_heartbeat (doc_for (days 30)) in
  let old := with_issued (Some (t0 - hours 25)) d in
  let state attempt error revoked := mkLicenseState (Some old) None revoked attempt error None in
  let unavailable := Some "license server unavailable" in
  negb (due (state_of (with_issued (Some (t0 - hours 1)) d)))
  && due (state_of old)
  && due (state (Some (t0 - seconds 600)) None None)
  && negb (due (state (Some (t0 - seconds 600)) unavailable None))
  && due (state (Some (t0 - hours 2)) unavailable None)
  && negb (due (state (Some (t0 - seconds 600)) unavailable (Some "revoked")))
  && due (state (Some (t0 - hours 2)) unavailable (Some "revoked")).

Definition test_revocation_overrides_valid_doc : bool :=
  assert_eq (problem_for (mkLicenseState (Some (doc_for (days 30))) None (Some "403: revoked") None None None) "" t0)
            (Some Revoked).

Definition test_store_adoption_never_downgrades : bool :=
  let commercial := doc_for (days 365) in
  let trial := with_licensee "trial@example.com" (with_kind Trial (doc_for (days 9))) in
  let moved d := with_issued (Some (default 0 (issued_at trial) + d)) trial in
  let adopts s d := should_adopt s d "" t0 in
  adopts default_state trial
  && negb (adopts (state_of commercial) trial)
  && negb (adopts (state_of commercial) commercial)
  && adopts (state_of trial) commercial
  && adopts (state_of trial) (moved (hours 1))
  && negb (adopts (state_of trial) (moved (- hours 1)))
  && negb (adopts (state_of trial) (with_expiry (t0 - seconds 1) commercial))
  && adopts (mkLicenseState (Some commercial) None (Some "403: revoked") None None None) trial.

Definition test_email_validation : bool :=
  assert_eq (validate_trial_email "  Ops@Example.COM ") (Ok "ops@example.com")
  && is_ok (validate_trial_email "ops@example.com")
  && is_ok (validate_trial_email "first.last+tag@sub.example.co")
  && forallb (λ bad, assert_err (validate_trial_email bad))
       [EmptyString; "a@b"; "no-at-sign.example.com"; "@example.com"; "ops@"; "ops@example"; "ops @example.com";
        "ops@exa mple.com"; "ops@example..com"; "a@@example.com"].

(** ** Talking to the license service *)
Definition test_unwrap_license_response_shapes : bool :=
  let inner := js "{'license': {'a': 1}, 'signature': 'xx'}" in
  let bare := to_json_string inner in
  let wrapped := to_json_string (json_obj [("license_file", inner); ("expires_at", VString "x")]) in
  assert_eq (unwrap_license_response bare) bare
  && contains_str (lit "'signature'") (unwrap_license_response wrapped).

Definition test_extract_error_message_shapes : bool :=
  assert_eq (extract_error_message (lit "{'error':{'code':'revoked','message':'license revoked'}}")) "license revoked"
  && assert_eq (extract_error_message (lit "{'error':'revoked'}")) "revoked"
  && assert_eq (extract_error_message "plain text") "plain text".

(** [heartbeat_once] against a mock server that gives [reply]. *)
Definition heartbeat_to (reply : http_reply) (server : LicenseServer) (fp raw : string) (key : pubkey)
    : option HeartbeatOutcome * list (string * value) :=
  let '(r, w) := heartbeat_once (λ _, t0) true "0.1" show_Z (λ _, "error") server fp raw key
                   (mkProc default_state None None ∅ 0 [reply] []) in
  (match r with Ok o => Some o | Err _ => None end, p_sent w).

Definition test_heartbeat_once_refreshes_on_200 : bool :=
  let '(priv_pem, pub_key) := keypair "a" in
  let fp := repeat 32 "ab" in
  let d := with_issued (Some (t0 - hours 30))
             (with_heartbeat (with_fingerprint fp (with_kind Trial (doc_for (days 10))))) in
  let! stale_raw := sign_license d priv_pem in
  let fresh := with_issued (Some t0) d in
  let! fresh_raw := sign_license fresh priv_pem in
  let! fresh_val := from_json_str fresh_raw in
  let reply := Reply 200 (to_json_string (json_obj [("license_file", fresh_val);
                                                    ("expires_at", VString (dt_serde (expires_at fresh)))])) in
  match heartbeat_to reply (mkServer "http://mock" "tok") fp stale_raw pub_key with
  | (Some (Refreshed loaded), [(url, _)]) =>
      assert_eq url "http://mock/v1/heartbeat"
      && (let! t := issued_at (l_doc loaded) in let! t' := issued_at d in t' <? t)
      && assert_eq (licensee (l_doc loaded)) (licensee d)
  | _ => false
  end.

Definition is_unavailable (o : option HeartbeatOutcome) : bool :=
  match o with Some (Unavailable _) => true | _ => false end.

Definition test_heartbeat_once_denied_and_unavailable : bool :=
  let '(priv_pem, pub_key) := keypair "a" in
  let '(_, other_pub) := keypair "b" in
  let fp := repeat 32 "cd" in
  let d := with_heartbeat (with_fingerprint fp (doc_for (days 10))) in
  let! raw := sign_license d priv_pem in
  let! val := from_json_str raw in
  let ls := mkServer "http://mock" "tok" in
  match (heartbeat_to (Reply 403 (lit "{'error':{'code':'revoked','message':'license revoked by vendor'}}")) ls fp raw pub_key).1 with
  | Some (Denied status reason) => assert_eq status 403 && assert_eq reason "license revoked by vendor"
  | _ => false
  end
  && is_unavailable (heartbeat_to (Reply 401 "unauthorized") ls fp raw pub_key).1
  && is_unavailable (heartbeat_to (Reply 200 (to_json_string (json_obj [("license_file", val)]))) ls fp raw other_pub).1
  && is_unavailable (heartbeat_to (NoReply "connection refused") (mkServer "http://127.0.0.1:9" "tok") fp raw pub_key).1.

Definition license_tests : list (string * bool) :=
  [("sign_verify_roundtrip", test_sign_verify_roundtrip);
   ("trial_with_fingerprint_roundtrip", test_trial_with_fingerprint_roundtrip);
   ("heartbeat_flag_omitted_when_false", test_heartbeat_flag_omitted_when_false);
   ("legacy_license_defaults_commercial", test_legacy_license_defaults_commercial);
   ("rejects_tampered_payload", test_rejects_tampered_payload);
   ("rejects_expired_license", test_rejects_expired_license);
   ("rejects_wrong_key", test_rejects_wrong_key);
   ("days_remaining_positive", test_days_remaining_positive);
   ("validity_fingerprint_binding", test_validity_fingerprint_binding);
   ("validity_heartbeat_grace", test_validity_heartbeat_grace);
   ("heartbeat_not_required_for_plain_licenses", test_heartbeat_not_required_for_plain_licenses);
   ("heartbeat_due_schedule_and_retry_backoff", test_heartbeat_due_schedule_and_retry_backoff);
   ("revocation_overrides_valid_doc", test_revocation_overrides_valid_doc);
   ("store_adoption_never_downgrades", test_store_adoption_never_downgrades);
   ("email_validation", test_email_validation);
   ("unwrap_license_response_shapes", test_unwrap_license_response_shapes);
   ("extract_error_message_shapes", test_extract_error_message_shapes);
   ("heartbeat_once_refreshes_on_200", test_heartbeat_once_refreshes_on_200);
   ("heartbeat_once_denied_and_unavailable", test_heartbeat_once_denied_and_unavailable)].

Example license_tests_pass : failures license_tests = [].
Proof. vm_compute. reflexivity. Qed.
