(* ===== verification/ConfService.v ===== *)
(** * The unit tests of [license_server.rs], run on the model

    The harness posts to the service's router ([VendorHttp.serve_http]); the
    steps of a test are a sequence of requests and of the test's own reads and
    writes of the service's state.  The wall clock stands at [t0] and the
    monotonic one at zero unless a test waits. *)
From S2P Require Import Prelude RustStr Json SerdeText License LicenseFile LicenseServer LicenseStore VendorHttp Router TestKit.

Definition t0 : Z := hours 480000.
Definition TOKEN : string := "0123456789abcdef0123456789abcdef".

(** [signing_pem] *)
Definition signing_pem : string → string * pubkey := keypair.

(** [harness()]: the state is that of a fresh store. *)
Definition harness : ServerConfig := mkConfig (signing_pem "vendor").1 TOKEN 10.
Definition pub_key : pubkey := (signing_pem "vendor").2.
Definition fresh : Srv := mkSrv ∅ ∅ ∅ (0, 0) [].

Definition fp (seed : string) : string := repeat 32 seed.
(** [fresh_fp()]: 64 hexadecimal digits, a different text per call. *)
Definition fresh_fp (seed : string) : string := repeat 64 seed.

(** [post(app, path, token, body)] at a wall clock instant. *)
Definition post_at (now : Z) (path : string) (token : option string) (body : value) (s : Srv) : Z * value * Srv :=
  let q := mkHttp POST path ((λ t, "Bearer " +:+ t) <$> token) true (to_json_string body) in
  let '(a, s') := serve_http (λ _, EmptyString) (λ _, None) true harness 0 now now q s in
  match a with AnswerJson status v => (status, v, s') | AnswerText status _ => (status, VNull, s') end.
Definition post : string → option string → value → Srv → Z * value * Srv := post_at t0.

Definition error_code (body : value) : value := at_key "code" (at_key "error" body).
(** The status and the error code of an answer. *)
Definition answers (r : Z * value * Srv) (status : Z) (code : string) : bool :=
  assert_eq r.1.1 status && assert_eq (error_code r.1.2) (VString code).

(** [h.state.per_fingerprint.lock().unwrap().clear()] *)
Definition clear_limits (s : Srv) : Srv := mkSrv (trials s) (revocations s) ∅ (global_window s) (s_faults s).

Definition obj_of (l : list (string * string)) : list (string * value) := map (λ kv, (kv.1, VString kv.2)) l.
Definition json (l : list (string * string)) : value := json_obj (obj_of l).
Definition with_file (file : value) (l : list (string * string)) : value :=
  json_obj (("license_file", file) :: obj_of l).

Definition commercial (fingerprint : string) (expires_at : Z) (licensee : string) : LicenseDoc :=
  mkLicenseDoc licensee expires_at [] None (Some t0) Commercial (Some fingerprint) true.
(** A signed license file, parsed. *)
Definition signed (d : LicenseDoc) (pem : string) : option value :=
  match sign_license d pem with Ok raw => from_json_str raw | Err _ => None end.

Definition test_open_db_is_idempotent_and_migrates_columns : bool :=
  let old := mkSqlite {["trials" := ["fingerprint"; "email"; "started_at"; "expires_at"; "product"; "version"; "created_at"]]} [] in
  let open s := open_db (λ _, Ok tt) (λ _, Ok tt) "/tmp/trials.db" s in
  let '(first, conn) := open old in
  is_ok first
  && (let! cols := tables conn !! "trials" in
      forallb (λ c, existsb (String.eqb c) cols)
        ["last_heartbeat_at"; "heartbeat_count"; "revoked_at"; "revoked_reason"])
  && is_ok (open conn).1.

Definition test_config_validation : bool :=
  let '(pem, _) := signing_pem "a" in
  assert_err (config_validate (mkConfig pem "short" 10))
  && assert_err (config_validate (mkConfig pem TOKEN 0))
  && assert_err (config_validate (mkConfig "not a key" TOKEN 10))
  && is_ok (config_validate (mkConfig pem TOKEN 10)).

Definition test_trial_requires_auth_and_email : bool :=
  let start := post "/v1/trial/start" in
  let r1 := start None (json [("fingerprint", fp "a"); ("email", "ops@example.com")]) fresh in
  let r2 := start (Some TOKEN) (json [("fingerprint", fp "b")]) r1.2 in
  let r3 := start (Some TOKEN) (json [("fingerprint", fp "c"); ("email", "not-an-email")]) r2.2 in
  let r4 := start (Some TOKEN) (json [("fingerprint", "zz"); ("email", "ops@example.com")]) r3.2 in
  answers r1 401 "unauthorized" && answers r2 400 "email_required" && answers r3 400 "invalid_email"
  && answers r4 400 "bad_request".

Definition test_trial_issues_heartbeat_bound_license_and_reuses_expiry : bool :=
  let fp := fresh_fp "a" in
  let '(status, body, s) := post "/v1/trial/start" (Some TOKEN)
      (json [("fingerprint", fp); ("email", "Ops@Example.com"); ("product", "mp"); ("version", "1.0")]) fresh in
  let! doc := verify_license t0 (to_json_string (at_key "license_file" body)) pub_key in
  let '(status', body', _) := post "/v1/trial/start" (Some TOKEN)
      (json [("fingerprint", fp); ("email", "someone-else@example.com")]) (clear_limits s) in
  let! doc2 := verify_license t0 (to_json_string (at_key "license_file" body')) pub_key in
  assert_eq status 200 && assert_eq (at_key "reused" body) (VBool false)
  && assert_eq (kind doc) Trial && assert_eq (licensee doc) "ops@example.com"
  && assert_eq (fingerprint doc) (Some fp) && requires_heartbeat doc
  && assert_eq status' 200 && assert_eq (at_key "reused" body') (VBool true)
  && assert_eq (expires_at doc2) (expires_at doc) && assert_eq (licensee doc2) "ops@example.com".

Definition test_trial_rate_limited_per_fingerprint : bool :=
  let body := json [("fingerprint", fresh_fp "a"); ("email", "ops@example.com")] in
  let '(status, _, s) := post "/v1/trial/start" (Some TOKEN) body fresh in
  assert_eq status 200 && answers (post "/v1/trial/start" (Some TOKEN) body s) 429 "rate_limited".

Definition test_expired_trial_is_refused : bool :=
  let fp := fresh_fp "a" in
  let past := dt_rfc3339 (t0 - hours 24) in
  let row := mkTrial (Some "x@example.com") past past None None None 0 None None in
  let s := set_trials {[fp := row]} fresh in
  answers (post "/v1/trial/start" (Some TOKEN) (json [("fingerprint", fp); ("email", "x@example.com")]) s)
          402 "trial_expired".

Definition test_heartbeat_refreshes_issued_at_and_tracks_trial : bool :=
  let fp := fresh_fp "a" in
  let later := t0 + 20 * 10 ^ 6 in
  let '(status, body, s) := post "/v1/trial/start" (Some TOKEN)
      (json [("fingerprint", fp); ("email", "ops@example.com")]) fresh in
  let issued_file := at_key "license_file" body in
  let! issued := verify_license t0 (to_json_string issued_file) pub_key in
  let '(status', body', s') := post_at later "/v1/heartbeat" (Some TOKEN)
      (with_file issued_file [("fingerprint", fp); ("version", "1.1")]) (clear_limits s) in
  let! refreshed := verify_license later (to_json_string (at_key "license_file" body')) pub_key in
  let! row := trials s' !! fp in
  assert_eq status 200 && assert_eq status' 200
  && (let! t := issued_at refreshed in let! t' := issued_at issued in t' <? t)
  && assert_eq (expires_at refreshed) (expires_at issued) && assert_eq (licensee refreshed) (licensee issued)
  && requires_heartbeat refreshed
  && assert_eq (t_heartbeat_count row) 1 && assert_eq (t_version row) (Some "1.1").

Definition test_heartbeat_rejects_forged_and_mismatched_licenses : bool :=
  let fp := fresh_fp "a" in
  let beat file := post "/v1/heartbeat" (Some TOKEN) (with_file file [("fingerprint", fp)]) in
  let doc := commercial fp (t0 + hours 720) "Evil" in
  let '(other_pem, _) := signing_pem "other" in
  let! forged := signed doc other_pem in
  let r1 := beat forged fresh in
  let! genuine := signed (commercial (fresh_fp "b") (t0 + hours 720) "Evil") (signing_key_pem harness) in
  let r2 := beat genuine (clear_limits r1.2) in
  let! expired_file := signed (commercial fp (t0 - seconds 5) "Evil") (signing_key_pem harness) in
  let r3 := beat expired_file (clear_limits r2.2) in
  answers r1 400 "invalid_license" && answers r2 400 "fingerprint_mismatch" && answers r3 402 "expired".

Definition test_heartbeat_honours_revocation_for_commercial_and_trial : bool :=
  let fp := fresh_fp "a" in
  let doc := mkLicenseDoc "Acme" (t0 + hours 8760) ["core"] (Some 10) (Some t0) Commercial (Some fp) true in
  let! file := signed doc (signing_key_pem harness) in
  let beat := post "/v1/heartbeat" (Some TOKEN) (with_file file [("fingerprint", fp)]) in
  let r1 := beat fresh in
  let '(revoked, s2) := revoke t0 fp "Acme" "chargeback" r1.2 in
  let r2 := beat (clear_limits s2) in
  let '(restored, s3) := unrevoke fp None r2.2 in
  let r3 := beat (clear_limits s3) in
  let trial_fp := fresh_fp "b" in
  let start := post "/v1/trial/start" (Some TOKEN) (json [("fingerprint", trial_fp); ("email", "t@example.com")]) in
  let r4 := start r3.2 in
  let '(revoked', s5) := revoke t0 trial_fp "*" "abuse" r4.2 in
  let r5 := start (clear_limits s5) in
  assert_eq r1.1.1 200 && is_ok revoked && answers r2 403 "revoked"
  && (let! m := as_str (at_key "message" (at_key "error" r2.1.2)) in contains_str "chargeback" m)
  && is_ok restored && assert_eq r3.1.1 200 && assert_eq r4.1.1 200 && is_ok revoked' && answers r5 403 "revoked".

Definition service_tests : list (string * bool) :=
  [("open_db_is_idempotent_and_migrates_columns", test_open_db_is_idempotent_and_migrates_columns);
   ("config_validation", test_config_validation);
   ("trial_requires_auth_and_email", test_trial_requires_auth_and_email);
   ("trial_issues_heartbeat_bound_license_and_reuses_expiry", test_trial_issues_heartbeat_bound_license_and_reuses_expiry);
   ("trial_rate_limited_per_fingerprint", test_trial_rate_limited_per_fingerprint);
   ("expired_trial_is_refused", test_expired_trial_is_refused);
   ("heartbeat_refreshes_issued_at_and_tracks_trial", test_heartbeat_refreshes_issued_at_and_tracks_trial);
   ("heartbeat_rejects_forged_and_mismatched_licenses", test_heartbeat_rejects_forged_and_mismatched_licenses);
   ("heartbeat_honours_revocation_for_commercial_and_trial", test_heartbeat_honours_revocation_for_commercial_and_trial)].

Example service_tests_pass : failures service_tests = [].
Proof. vm_compute. reflexivity. Qed.
