(* ===== verification/ConfRules.v ===== *)
(** * The unit tests of the rule, source and spec modules, run on the model

    [rule_template_types.rs], [routes/templates.rs], [job_source.rs],
    [sources.rs], [routes/specs.rs], [routes/llm.rs] and [temporal.rs]: one
    [test_] definition per [#[test]] function.  JSON is written with single
    quotes, the fixtures of [packages/rule-schema] with backquotes. *)
From S2P Require Import Prelude RustStr Json SerdeText Error World Net RuleTypes Templates JobSource Sources Specs MasterKey Secrets Suggest TestKit.
From Stdlib Require Import Ascii.

Definition at_index (i : nat) (v : value) : value := default VNull (as_array v ≫= λ l, l !! i).
Definition fixture (s : string) : value :=
  default VNull (parse_value (map_bytes (λ a, if Ascii.eqb a "`" then dquote else a) s)).

(** ** [rule_template_types.rs] *)
Definition GOLDEN : value := fixture
"{
  `id`: `rt_golden`,
  `version`: 1,
  `name`: `Golden fixture`,
  `source`: {
    `type`: `csv`,
    `schema`: [
      {`name`: `email`, `type`: `string`},
      {`name`: `country`, `type`: `string`},
      {`name`: `external_id`, `type`: `string`}
    ],
    `options`: {`delimiter`: `,`, `header`: true}
  },
  `preprocess`: [
    {`id`: `p1`, `field`: `email`, `fn`: `builtin.lowercase`},
    {`id`: `p2`, `field`: `country`, `fn`: `python`, `code`: `return value.upper()`}
  ],
  `mapping`: {
    `payload`: {
      `firstName`: {`$from`: `first_name`},
      `email`: {`$from`: `email`},
      `address`: {
        `country`: {`$py`: `row['country'][:2]`}
      }
    }
  },
  `destination`: {
    `type`: `http`,
    `method`: `POST`,
    `url`: `https://api.example.com/v1/customers`,
    `auth`: {`type`: `bearer`, `secretRef`: `customer_api_token`},
    `idempotencyKey`: {`$py`: `row['external_id']`},
    `idempotencyHeader`: `Idempotency-Key`
  },
  `retry`: {`maxAttempts`: 5, `backoff`: `exponential`, `initialIntervalMs`: 100},
  `concurrency`: 16
}".

Definition GOLDEN_STEPS : value := fixture
"{
  `id`: `rt_golden_steps`,
  `version`: 1,
  `name`: `Golden multi-step fixture`,
  `source`: {
    `type`: `csv`,
    `schema`: [
      {`name`: `email`, `type`: `string`},
      {`name`: `first_name`, `type`: `string`},
      {`name`: `street`, `type`: `string`},
      {`name`: `city`, `type`: `string`}
    ],
    `options`: {`delimiter`: `,`, `header`: true}
  },
  `preprocess`: [
    {`id`: `p1`, `field`: `email`, `fn`: `builtin.lowercase`}
  ],
  `steps`: [
    {
      `name`: `createContact`,
      `description`: `Create the contact and capture its id`,
      `mapping`: {
        `payload`: {
          `email`: {`$from`: `email`},
          `firstName`: {`$from`: `first_name`}
        }
      },
      `destination`: {
        `type`: `http`,
        `method`: `POST`,
        `url`: `https://api.example.com/v1/contacts`,
        `auth`: {`type`: `bearer`, `secretRef`: `crm_token`},
        `idempotencyHeader`: `Idempotency-Key`
      }
    },
    {
      `name`: `attachAddress`,
      `description`: `Attach the address to the contact created in step 1`,
      `mapping`: {
        `payload`: {
          `street`: {`$from`: `street`},
          `city`: {`$from`: `city`},
          `contactRef`: {`$fromResponse`: `createContact`, `path`: `$.data.id`}
        }
      },
      `destination`: {
        `type`: `http`,
        `method`: `POST`,
        `url`: `https://api.example.com/v1/contacts/{contactId}/addresses`,
        `pathParams`: {
          `contactId`: {`$fromResponse`: `createContact`, `path`: `$.data.id`}
        },
        `auth`: {`type`: `bearer`, `secretRef`: `crm_token`}
      }
    }
  ],
  `retry`: {`maxAttempts`: 5, `backoff`: `exponential`, `initialIntervalMs`: 100},
  `concurrency`: 16
}".

Definition GOLDEN_URL_TPL : value := fixture
"{
  `id`: `rt_url_templating`,
  `version`: 1,
  `name`: `URL templating fixture`,
  `source`: {
    `type`: `csv`,
    `schema`: [
      {`name`: `id`, `type`: `string`},
      {`name`: `country`, `type`: `string`},
      {`name`: `tenant`, `type`: `string`},
      {`name`: `tag1`, `type`: `string`},
      {`name`: `tag2`, `type`: `string`}
    ],
    `options`: {`header`: true, `delimiter`: `,`}
  },
  `preprocess`: [],
  `mapping`: {
    `payload`: {
      `echo`: {`$from`: `id`}
    }
  },
  `destination`: {
    `type`: `http`,
    `method`: `GET`,
    `url`: `https://api.example.com/v1/users/{userId}/orders`,
    `pathParams`: {
      `userId`: {`$from`: `id`}
    },
    `queryParams`: {
      `region`: {`$from`: `country`},
      `since`:  {`$literal`: `2024-01-01`},
      `tags`:   [{`$from`: `tag1`}, {`$from`: `tag2`}, `static`]
    },
    `headers`: {
      `X-Tenant-Id`: {`$from`: `tenant`},
      `X-Trace`:     `static-value`
    }
  }
}".

Definition test_golden_parses : bool :=
  let! tpl := template_of_value GOLDEN in
  assert_eq (tp_id tpl) "rt_golden"
  && match so_source_type (tp_source tpl) with SrcCsv => true | _ => false end
  && (length (tp_preprocess tpl) =? 2)%nat
  && match execution_steps tpl with [step] => assert_eq (st_name step) "main" | _ => false end.

(** Parsed, the document prints as it was. *)
Definition roundtrips (original : value) : bool :=
  let! typed := template_of_value original in assert_eq (template_value typed) original.

Definition has_path_param (k : string) (d : Destination) : bool :=
  let! m := de_path_params d in map_contains k m.

Definition test_golden_steps_parses_and_roundtrips : bool :=
  let! typed := template_of_value GOLDEN_STEPS in
  match execution_steps typed with
  | [first; second] => assert_eq (st_name first) "createContact" && has_path_param "contactId" (st_destination second)
  | _ => false
  end
  && roundtrips GOLDEN_STEPS.

Definition test_golden_roundtrips : bool := roundtrips GOLDEN.

Definition test_golden_url_templating_roundtrips : bool :=
  let! typed := template_of_value GOLDEN_URL_TPL in
  let! destination := tp_destination typed in
  has_path_param "userId" destination && roundtrips GOLDEN_URL_TPL.

(** ** [routes/templates.rs] *)
Definition template (destination : value) : value := json_obj
  [("id", VString "rt_delivery"); ("version", json_int 1); ("name", VString "delivery");
   ("source", js "{'type': 'csv', 'schema': [{'name': 'id', 'type': 'string'}]}"); ("preprocess", VArray []);
   ("mapping", js "{'payload': {'id': {'$from': 'id'}}}"); ("destination", destination)].

(** The JSON Schema validator, on the two rules of the schema these tests meet:
    the enumeration of delivery modes and the pattern of a secret's name. *)
Definition schema_stub (body : value) : result string unit :=
  let destination := at_key "destination" body in
  _ ← match vget "mode" (at_key "delivery" destination) with
      | Some m =>
          if mem_str (default EmptyString (as_str m)) (map delivery_mode_text delivery_modes) then Ok tt
          else Err "/destination/delivery/mode: not one of the permitted values"
      | None => Ok tt
      end;
  match vget "secretRef" (at_key "auth" destination) with
  | Some n =>
      map_err (λ _, "/destination/auth/secretRef: does not match the pattern")
        (validate_name (default EmptyString (as_str n)))
  | None => Ok tt
  end.
Definition check_template (destination : value) : ApiResult RuleTemplate :=
  validate_template schema_stub (λ _, EmptyString) (template destination).

Definition rejected (destination : value) (needle : string) : bool :=
  match check_template destination with Err err => contains_str needle (error_display err) | Ok _ => false end.

Definition test_accepts_complete_delivery_policies : bool :=
  forallb (λ destination,
      let! tpl := check_template destination in
      let! d := tp_destination tpl in
      assert_eq (destination_to_value d) destination)
    [js "{'type': 'http', 'method': 'POST', 'url': 'https://x/c', 'idempotencyHeader': 'Idempotency-Key',
          'delivery': {'mode': 'idempotent', 'idempotencyRetentionHours': 48}}";
     js "{'type': 'http', 'method': 'POST', 'url': 'https://x/c',
          'delivery': {'mode': 'lookup', 'lookup': {'url': 'https://x/c', 'queryParams': {'id': {'$from': 'id'}},
                                                    'foundPath': '$.items[0].id'}}}";
     js "{'type': 'http', 'method': 'POST', 'url': 'https://x/c',
          'auth': {'type': 'api_key', 'secretRef': 'crm.key', 'headerName': 'X-Key'},
          'delivery': {'mode': 'manual'}}"].

Definition test_rejects_incomplete_delivery_policies : bool :=
  rejected (js "{'type': 'http', 'method': 'POST', 'url': 'https://x/c', 'delivery': {'mode': 'idempotent'}}")
    "requires idempotencyHeader"
  && rejected (js "{'type': 'http', 'method': 'POST', 'url': 'https://x/c', 'delivery': {'mode': 'lookup'}}")
       "requires delivery.lookup"
  && rejected (js "{'type': 'http', 'method': 'POST', 'url': 'https://x/c', 'delivery': {'mode': 'manual',
                    'lookup': {'url': 'https://x/c', 'foundPath': '$.id'}}}")
       "only used with mode lookup"
  && rejected (js "{'type': 'http', 'method': 'POST', 'url': 'https://x/c', 'delivery': {'mode': 'maybe'}}")
       "delivery".

Definition test_rejects_auth_the_runtime_cannot_resolve : bool :=
  rejected (js "{'type': 'http', 'method': 'POST', 'url': 'https://x/c', 'auth': {'type': 'bearer'}}") "requires secretRef"
  && rejected (js "{'type': 'http', 'method': 'POST', 'url': 'https://x/c',
                    'auth': {'type': 'oauth2_client', 'secretRef': 'x'}}") "oauth2_client is not supported"
  && rejected (js "{'type': 'http', 'method': 'POST', 'url': 'https://x/c',
                    'auth': {'type': 'bearer', 'secretRef': '../etc'}}") "secretRef".

(** ** [job_source.rs] *)
Definition test_upload_object_uses_filename_and_size : bool :=
  let src := js "{'type': 'minio', 'bucket': 'migration', 'key': 'uploads/1/ab/abc/orders.csv',
                  'filename': 'orders.csv', 'size': 128, 'sha256': 'abc'}" in
  let out := summarize_source src None None None None in
  assert_eq (ss_kind out) "minio" && assert_eq (ss_filename out) (Some "orders.csv")
  && assert_eq (ss_size out) (Some 128) && assert_eq (ss_batch_id out) None.

Definition test_batch_stage_distinguishes_package_and_stage_file : bool :=
  let stage := js "{'type': 'minio', 'bucket': 'migration', 'key': 'batches/8/stages/contacts.csv',
                    'filename': 'contacts.csv', 'size': 40}" in
  let package := js "{'type': 'minio', 'bucket': 'migration', 'key': 'incoming/demo_batch.tar.gz'}" in
  let out := summarize_source stage (Some 8) (Some package) (Some "contacts") (Some "contacts.csv") in
  assert_eq (ss_batch_id out) (Some 8) && assert_eq (ss_package_filename out) (Some "demo_batch.tar.gz")
  && assert_eq (ss_batch_stage_file out) (Some "contacts.csv") && assert_eq (ss_batch_stage_key out) (Some "contacts")
  && assert_eq (ss_filename out) (Some "contacts.csv").

Definition test_watched_object_keeps_etag : bool :=
  let src := js "{'type': 'minio', 'key': 'incoming/vip/file.json', 'etag': '\'abc\'', 'size': 9}" in
  let out := summarize_source src None None None None in
  assert_eq (ss_filename out) (Some "file.json") && assert_eq (ss_etag out) (Some (lit "'abc'")).

(** ** [sources.rs] *)

#[local] Instance SourceRequest_eq_dec : EqDecision SourceRequest.
Proof. solve_decision. Defined.

(** [bad(v)]: the request is refused with a text that has [needle]. *)
Definition bad (v : value) (needle : string) : bool :=
  match parse_source_request v with Err (BadRequest m) => contains_str needle m | _ => false end.

Definition test_accepts_source_id : bool := assert_eq (parse_source_request (js "{'source_id': 7}")) (Ok (ById 7)).

Definition test_accepts_upload_shape : bool :=
  assert_eq (parse_source_request (js "{'type':'minio','bucket':'migration','key':'uploads/1/ab/x','filename':'a.csv','size':3}"))
            (Ok (Object "migration" "uploads/1/ab/x")).

Definition test_accepts_connector_shapes : bool :=
  let! a := parse_source_request (js "{'type':'connector','connector_id':3,'extra':{'soql':'SELECT Id FROM Account'}}") in
  let! b := parse_source_request (js "{'type':'salesforce','connectorId':3,'extra':{'soql':'SELECT Id FROM Account'}}") in
  assert_eq a b.

Definition test_rejects_non_object_and_json_string : bool :=
  bad (VString (lit "{'type':'minio'}")) "must be a JSON object" && bad VNull "must be a JSON object".

Definition test_rejects_local_paths_urls_and_inline_secrets : bool :=
  bad (js "{'type':'csv','path':'/etc/passwd'}") "path"
  && bad (js "{'type':'csv','url':'http://169.254.169.254/'}") "url"
  && bad (js "{'type':'salesforce','secret':'tok','extra':{'soql':'x'}}") "secret".

Definition test_rejects_unknown_types_and_missing_fields : bool :=
  bad (js "{'type':'watched_prefix'}") "unsupported" && bad (js "{'type':'minio','bucket':'b'}") "key"
  && bad (js "{'type':'connector'}") "connector_id" && bad (js "{'source_id': -1}") "positive".

Definition test_connector_extra_cannot_override_endpoints_or_credentials : bool :=
  bad (js "{'type':'connector','connector_id':1,'extra':{'instanceUrl':'http://evil'}}") "not allowed"
  && bad (js "{'type':'connector','connector_id':1,'extra':{'tokenUrl':'x'}}") "not allowed"
  && bad (js "{'type':'connector','connector_id':1,'extra':{'soql':1}}") "string".

Definition test_connector_locations_are_confined_to_the_org_namespace : bool :=
  let check kind cfg := check_connector_locations kind (js cfg) 7 ["migration"; "inbound"] in
  is_ok (check "watched_prefix" "{'bucket':'migration','prefix':'orgs/7/incoming/'}")
  && is_ok (check "watched_prefix" "{'bucket':'inbound','prefix':'/orgs/7/'}")
  && is_ok (check "watched_sftp" "{'staging_prefix':'sftp-landing/'}")
  && is_ok (check "watched_sftp" "{'staging_bucket':'migration','staging_prefix':'orgs/7/landing/'}")
  && is_ok (check "salesforce" "{'instance_url':'https://x'}")
  && forallb (λ bad, assert_err (check "watched_prefix" bad))
       ["{'bucket':'migration','prefix':'uploads/1/'}"; "{'bucket':'migration','prefix':''}";
        "{'bucket':'migration','prefix':'orgs/70/'}"; "{'bucket':'migration','prefix':'orgs/7/../1/'}";
        "{'bucket':'backups','prefix':'orgs/7/'}"]
  && assert_err (check "watched_sftp" "{'staging_prefix':'uploads/1/'}")
  && assert_err (check "watched_sftp" "{'staging_bucket':'backups'}").

Definition test_format_detection_matches_orchestrator : bool :=
  assert_eq (format_from_filename "a.CSV") "csv" && assert_eq (format_from_filename "a.ndjson") "json"
  && assert_eq (format_from_filename "a.xml") "xml" && assert_eq (format_from_filename "pkg.tar.gz") "archive"
  && assert_eq (format_from_filename "noext") "csv".

(** ** [routes/specs.rs] *)
Definition petstore : value := js "{
  'openapi': '3.0.0',
  'info': {'title': 't', 'version': '1'},
  'servers': [{'url': 'https://api.pets.example/v1'}],
  'paths': {
    '/pets': {
      'post': {
        'operationId': 'createPet',
        'summary': 'Create a pet',
        'requestBody': {'content': {'application/json': {'schema': {'$ref': '#/components/schemas/Pet'}}}},
        'responses': {'201': {'content': {'application/json': {'schema': {'$ref': '#/components/schemas/PetOut'}}}}}
      }
    },
    '/pets/{petId}/toys': {
      'parameters': [{'name': 'petId', 'in': 'path', 'required': true, 'schema': {'type': 'string'}}],
      'post': {'operationId': 'addToy', 'requestBody': {'content': {'application/json': {'schema': {'type': 'object'}}}}, 'responses': {}}
    }
  },
  'components': {'schemas': {
    'Pet': {'type': 'object', 'required': ['name'], 'properties': {'name': {'type': 'string'}, 'tag': {'$ref': '#/components/schemas/Tag'}}},
    'PetOut': {'type': 'object', 'properties': {'id': {'type': 'string'}}},
    'Tag': {'type': 'string'}
  }}
}".

(** The [url] crate on the one URL of these tests. *)
Definition import_source : string := "https://petstore3.swagger.io/api/v3/openapi.json".
Definition import_url (s : string) : result string Url :=
  if (s =? import_source)%string then Ok (mkUrl "https" (Some "petstore3.swagger.io") None (Some 443) s) else Err "relative URL without a base".

Definition test_resolves_relative_server_url_from_import_source : bool :=
  let spec := js "{'openapi': '3.0.0', 'servers': [{'url': '/api/v3'}],
                   'paths': {'/pet': {'post': {'operationId': 'addPet', 'responses': {}}}}}" in
  let! op := head (parse_operations import_url spec (Some import_source)) in
  assert_eq (at_key "url" op) (VString "https://petstore3.swagger.io/api/v3/pet").

Definition find_operation (id : string) (ops : list value) : option value :=
  List.find (λ o, bool_decide (at_key "operation_id" o = VString id)) ops.
Definition property_type (schema name : string) (op : value) : value :=
  at_key "type" (at_key name (at_key "properties" (at_key schema op))).

Definition test_parses_operations_with_refs : bool :=
  let ops := parse_operations import_url petstore None in
  let! create := find_operation "createPet" ops in
  let! toy := find_operation "addToy" ops in
  (length ops =? 2)%nat
  && assert_eq (at_key "method" create) (VString "POST")
  && assert_eq (at_key "url" create) (VString "https://api.pets.example/v1/pets")
  && assert_eq (property_type "request_schema" "name" create) (VString "string")
  && assert_eq (property_type "request_schema" "tag" create) (VString "string")
  && assert_eq (property_type "response_schema" "id" create) (VString "string")
  && assert_eq (at_key "name" (at_index 0 (at_key "parameters" toy))) (VString "petId")
  && assert_eq (at_key "in" (at_index 0 (at_key "parameters" toy))) (VString "path").

Definition test_rejects_v2_specs : bool := assert_err (validate_openapi (js "{'swagger': '2.0', 'paths': {}}")).

Definition test_private_ip_detection : bool :=
  forallb ip_is_private
    [V4 127 0 0 1; V4 10 0 0 1; V4 192 168 1 1; V4 172 16 9 9; V4 169 254 169 254; V4 100 64 1 1;
     V6 0 0 0 0 0 0 0 1; V6 64512 0 0 0 0 0 0 1]
  && forallb (λ ip, negb (ip_is_private ip)) [V4 8 8 8 8; V4 93 184 216 34].

(** ** [routes/llm.rs] *)

(** Stand-ins for the three regular expressions, on texts of one word: an
    address with an [@], and a run of nine digits and more; the telephone
    numbers with separators. *)
Definition email_stub (rep s : string) : string := if contains_str "@" s then rep else s.
Definition digits_stub (rep s : string) : string :=
  if all_bytes is_digit s && (9 <=? str_len s) then rep else s.
Definition phone_stub (rep s : string) : string :=
  if all_bytes (λ a, is_digit a || Ascii.eqb a "+" || Ascii.eqb a " ") s && (9 <=? str_len s) then rep else s.

Definition test_redacts_emails_phones_and_card_numbers : bool :=
  let v := redact_value email_stub digits_stub phone_stub
    (js "{'email': 'jane.doe@corp.io', 'phone': '+91 98765 43210', 'card': '4111111111111111', 'name': 'Jane',
          'nested': [{'contact': 'bob@x.co'}]}") in
  let! phone := as_str (at_key "phone" v) in
  let! card := as_str (at_key "card" v) in
  assert_eq (at_key "email" v) (VString "user@example.com") && assert_eq (at_key "name" v) (VString "Jane")
  && assert_eq (at_key "contact" (at_index 0 (at_key "nested" v))) (VString "user@example.com")
  && negb (contains_str "98765" phone) && negb (contains_str "4111111111111111" card).

(** The JSON a model's answer holds; [false] on a panic. *)
Definition extracted (content : string) (check : option value → bool) : bool :=
  match extract_json content with Returned v => check v | Panicked => false end.

Definition test_extract_json_tolerates_fences : bool :=
  extracted ("```json" +:+ nl +:+ lit "{'a': 1}" +:+ nl +:+ "```") (λ v, assert_eq (at_key "a" <$> v) (Some (json_int 1)))
  && extracted (lit "{'b':2}") (λ v, assert_eq (at_key "b" <$> v) (Some (json_int 2)))
  && extracted "no json here" (λ v, assert_eq v None).

(** ** [temporal.rs] *)

(** The [cron] crate, on the expressions of these tests: six fields of digits
    and stars. *)
Definition cron_stub (s : string) : bool :=
  forallb (all_bytes (λ a, is_digit a || Ascii.eqb a "*")) (split_char " " s).
Definition normalised (cron : string) : result string value :=
  normalise_spec cron_stub (λ _, false) (json_obj [("cron", VString cron)]).

Definition test_accepts_five_field_posix_cron : bool :=
  assert_eq (normalised "0 2 * * *") (Ok (js "{'cron': '0 2 * * *'}")).
Definition test_accepts_six_field_cron_with_seconds : bool :=
  assert_eq (normalised "0 0 2 * * *") (Ok (js "{'cron': '0 0 2 * * *'}")).
Definition test_rejects_malformed_cron : bool :=
  assert_err (normalised "not-a-cron") && assert_err (normalised "* * *").

Definition rule_tests : list (string * bool) :=
  [("golden_parses", test_golden_parses);
   ("golden_steps_parses_and_roundtrips", test_golden_steps_parses_and_roundtrips);
   ("golden_roundtrips", test_golden_roundtrips);
   ("golden_url_templating_roundtrips", test_golden_url_templating_roundtrips);
   ("accepts_complete_delivery_policies", test_accepts_complete_delivery_policies);
   ("rejects_incomplete_delivery_policies", test_rejects_incomplete_delivery_policies);
   ("rejects_auth_the_runtime_cannot_resolve", test_rejects_auth_the_runtime_cannot_resolve);
   ("upload_object_uses_filename_and_size", test_upload_object_uses_filename_and_size);
   ("batch_stage_distinguishes_package_and_stage_file", test_batch_stage_distinguishes_package_and_stage_file);
   ("watched_object_keeps_etag", test_watched_object_keeps_etag);
   ("accepts_source_id", test_accepts_source_id);
   ("accepts_upload_shape", test_accepts_upload_shape);
   ("accepts_connector_shapes", test_accepts_connector_shapes);
   ("rejects_non_object_and_json_string", test_rejects_non_object_and_json_string);
   ("rejects_local_paths_urls_and_inline_secrets", test_rejects_local_paths_urls_and_inline_secrets);
   ("rejects_unknown_types_and_missing_fields", test_rejects_unknown_types_and_missing_fields);
   ("connector_extra_cannot_override_endpoints_or_credentials", test_connector_extra_cannot_override_endpoints_or_credentials);
   ("connector_locations_are_confined_to_the_org_namespace", test_connector_locations_are_confined_to_the_org_namespace);
   ("format_detection_matches_orchestrator", test_format_detection_matches_orchestrator);
   ("resolves_relative_server_url_from_import_source", test_resolves_relative_server_url_from_import_source);
   ("parses_operations_with_refs", test_parses_operations_with_refs);
   ("rejects_v2_specs", test_rejects_v2_specs);
   ("private_ip_detection", test_private_ip_detection);
   ("redacts_emails_phones_and_card_numbers", test_redacts_emails_phones_and_card_numbers);
   ("extract_json_tolerates_fences", test_extract_json_tolerates_fences);
   ("accepts_five_field_posix_cron", test_accepts_five_field_posix_cron);
   ("accepts_six_field_cron_with_seconds", test_accepts_six_field_cron_with_seconds);
   ("rejects_malformed_cron", test_rejects_malformed_cron)].

Example rule_tests_pass : failures rule_tests = [].
Proof. vm_compute. reflexivity. Qed.
