(* ===== verification/ConfSamples.v ===== *)
(** * The unit tests of the samplers and of the security modules, run on the model

    [sampling/csv.rs], [json.rs], [xml.rs] and [type_infer.rs], the two
    middlewares, and [security/secrets.rs], [passwords.rs], [jwt.rs] and
    [fingerprint.rs].  The crates' readers are stand-ins that read the plain
    texts of these tests: no quotes in CSV, no entities or comments in XML.
    [fingerprint_is_stable_hex] is left out: it is about files and SHA-256. *)
From S2P Require Import Prelude RustStr Json SerdeText LicenseIO Sampling SampleCsv SampleJson SampleXml Settings MasterKey Secrets Sessions TestKit.
From Stdlib Require Import Ascii.

Definition nl : string := String "010" EmptyString.
Definition lines (l : list string) : string := str_concat (map (λ s, s +:+ nl) l).

(** ** The readers *)

(** Lines of fields, empty lines skipped; the first is the header. *)
Definition plain_csv (delimiter : ascii) (input : string) : CsvReader :=
  match List.filter (λ l, negb (is_empty l)) (split_char "010" input) with
  | [] => mkCsv (Ok []) []
  | h :: rows => mkCsv (Ok (split_char delimiter h)) (map (λ l, Ok (split_char delimiter l)) rows)
  end.

Definition plain_attr (s : string) : option (string * option string) :=
  match split_char "=" s with
  | [name; v] => Some (name, Some (trim_char dquote v))
  | _ => None
  end.
(** What stands between an opening angle bracket and the next one. *)
Definition plain_tag (piece : string) : list Event :=
  match split_char ">" piece with
  | [tag; text] =>
      let ev := if starts_with "/" tag then EvEnd
                else match split_char " " tag with
                     | name :: attrs => EvStart name (omap plain_attr attrs)
                     | [] => EvOther
                     end in
      ev :: (if is_empty (trim text) then [] else [EvText (Ok (trim text))])
  | _ => []
  end.
Definition plain_xml (input : string) : Events :=
  match split_char "<" input with _ :: pieces => map Ok (flat_map plain_tag pieces) | [] => [] end.

(** [YYYY-MM-DD], and a date with a time and [Z]. *)
Definition date_shape (s : string) : bool :=
  (str_len s =? 10) && all_bytes (λ a, is_digit a || Ascii.eqb a "-") s.
Definition rfc3339_shape (s : string) : bool :=
  (str_len s =? 20) && date_shape (String.substring 0 10 s) && starts_with "T" (String.substring 10 10 s) && ends_with "Z" s.

Definition csv (input : string) (row_cap : nat) : Sampled SampleResult :=
  SampleCsv.sample plain_csv rfc3339_shape date_shape input row_cap false.
Definition json (input : string) (row_cap : nat) : Sampled SampleResult :=
  SampleJson.sample (λ _, EmptyString) rfc3339_shape date_shape input row_cap false.
Definition xml (input : string) (row_cap : nat) (tag : string) : Sampled SampleResult :=
  SampleXml.sample plain_xml rfc3339_shape date_shape input row_cap tag false.

Definition column (name : string) (r : SampleResult) : option SampleColumn :=
  List.find (λ c, (col_name c =? name)%string) (sp_columns r).
Definition has_type (r : SampleResult) (name type : string) : bool := let! c := column name r in assert_eq (col_type c) type.
Definition is_empty_error (r : Sampled SampleResult) : bool := match r with Err SEmpty => true | _ => false end.
(** As many rows as the cap, of more. *)
Definition capped (r : Sampled SampleResult) (rows : Z) : bool :=
  let! r := r in assert_eq (sp_row_count r) rows && sp_truncated r.
Definition first_naturals (n : nat) : list string := map (λ i, show_Z (Z.of_nat i)) (seq 0 n).

(** ** [sampling/csv.rs] *)
Definition test_samples_basic_csv_with_inferred_types : bool :=
  let! r := csv (lines ["id,name,age,active,joined"; "1,Ada,37,true,2024-01-01"; "2,Bob,42,false,2024-02-15"]) 25 in
  assert_eq (sp_row_count r) 2 && negb (sp_truncated r)
  && has_type r "id" "integer" && has_type r "name" "string" && has_type r "age" "integer"
  && has_type r "active" "boolean" && has_type r "joined" "datetime".

Definition test_detects_semicolon_delimiter : bool :=
  let! r := csv (lines ["id;name"; "1;Ada"]) 25 in
  (length (sp_columns r) =? 2)%nat && assert_eq (col_name <$> head (sp_columns r)) (Some "id").

Definition test_marks_nullable_columns : bool :=
  let! r := csv (lines ["id,email"; "1,ada@example.com"; "2,"]) 25 in
  let! email := column "email" r in col_nullable email.

Definition test_csv_caps_rows_and_marks_truncated : bool := capped (csv (lines ("id" :: first_naturals 50)) 10) 10.
Definition test_csv_empty_input_errors : bool := is_empty_error (csv EmptyString 25).

(** ** [sampling/json.rs] *)
Definition test_samples_top_level_array : bool :=
  let! r := json (lit "[{'id':1,'name':'Ada'},{'id':2,'name':'Bob'}]") 25 in
  assert_eq (sp_row_count r) 2 && (length (sp_columns r) =? 2)%nat.
Definition test_samples_ndjson : bool :=
  let! r := json (lines [lit "{'id':1}"; lit "{'id':2}"; lit "{'id':3}"]) 25 in assert_eq (sp_row_count r) 3.
Definition test_unions_keys_across_rows : bool :=
  let! r := json (lit "[{'a':1},{'b':2}]") 25 in
  mem_str "a" (map col_name (sp_columns r)) && mem_str "b" (map col_name (sp_columns r)).
Definition test_nested_values_become_string : bool :=
  let! r := json (lit "[{'meta':{'x':1}}]") 25 in assert_eq (col_type <$> head (sp_columns r)) (Some "string").
Definition test_json_caps_rows_and_marks_truncated : bool :=
  capped (json (lit "[{'id':1},{'id':2},{'id':3},{'id':4}]") 2) 2.
Definition test_json_empty_input_errors : bool := is_empty_error (json EmptyString 25).

(** ** [sampling/xml.rs] *)
Definition test_samples_basic_records : bool :=
  let! r := xml (lines ["<root>"; "  <record><id>1</id><name>Ada</name><active>true</active></record>";
                        "  <record><id>2</id><name>Bob</name><active>false</active></record>"; "</root>"]) 25 "record" in
  assert_eq (sp_row_count r) 2
  && has_type r "id" "integer" && has_type r "name" "string" && has_type r "active" "boolean".
Definition test_surfaces_attributes_with_at_prefix : bool :=
  let! r := xml (lit "<root><record id='1'><name>Ada</name></record></root>") 25 "record" in
  mem_str "@id" (map col_name (sp_columns r)) && mem_str "name" (map col_name (sp_columns r)).
Definition test_xml_caps_rows_and_marks_truncated : bool :=
  let body := str_concat (map (λ i, "<record><id>" +:+ i +:+ "</id></record>") (first_naturals 50)) in
  capped (xml ("<root>" +:+ body +:+ "</root>") 5 "record") 5.
Definition test_missing_record_tag_errors : bool :=
  match xml "<root><thing>x</thing></root>" 25 "record" with Err (SInvalid format _) => assert_eq format "xml" | _ => false end.
Definition test_custom_record_tag_works : bool :=
  let! r := xml "<root><user><id>1</id></user></root>" 25 "user" in assert_eq (sp_row_count r) 1.

(** ** [sampling/type_infer.rs] *)
Definition t (values : list string) : string := infer_column_type rfc3339_shape date_shape values.

Definition test_empty_sample_is_string : bool :=
  assert_eq (t []) "string" && assert_eq (t [EmptyString; "  "; EmptyString]) "string".
Definition test_pure_integers : bool := assert_eq (t ["1"; "2"; "-3"; "0"]) "integer".
Definition test_floats_become_number_not_int : bool := assert_eq (t ["1"; "2.5"]) "number".
Definition test_booleans_strict_allowlist : bool :=
  assert_eq (t ["true"; "false"; "0"; "1"]) "boolean" && negb (assert_eq (t ["yes"; "no"]) "boolean").
Definition test_iso_dates_and_rfc3339 : bool :=
  assert_eq (t ["2024-01-01"; "2024-12-31"]) "datetime" && assert_eq (t ["2024-01-01T00:00:00Z"]) "datetime"
  && assert_eq (t ["2024-01-01"; "Jan 5 2024"]) "string".
Definition test_one_bad_value_collapses_to_string : bool := assert_eq (t ["1"; "2"; "N/A"]) "string".
Definition test_empty_values_are_ignored_for_inference : bool := assert_eq (t ["1"; EmptyString; "2"]) "integer".

(** ** The middlewares: the handler answers without headers *)
Definition handler (_ : headers) : headers := ∅.
Definition fresh_uuid : string := "1b4e28ba-2fa1-4d2b-883f-0016d3cca427".

Definition test_generates_request_id_when_missing : bool :=
  let! id := request_id_layer fresh_uuid handler ∅ !! HEADER in negb (is_empty id) && (16 <=? str_len id).
Definition test_echoes_incoming_request_id : bool :=
  assert_eq (request_id_layer fresh_uuid handler {[HEADER := "my-test-id-123"]} !! HEADER) (Some "my-test-id-123").
Definition test_attaches_security_headers : bool :=
  let h := security_headers handler ∅ in
  Prelude.is_some (h !! "strict-transport-security") && Prelude.is_some (h !! "content-security-policy")
  && assert_eq (h !! "x-content-type-options") (Some "nosniff") && Prelude.is_some (h !! "referrer-policy").

(** ** Secrets, passwords, tokens, fingerprints *)
Definition test_secret_names_are_restricted : bool :=
  forallb (λ ok, is_ok (validate_name ok)) ["crm_token"; "crm.token-2"; "A"]
  && forallb (λ bad, assert_err (validate_name bad)) [EmptyString; "../etc"; "a b"; "tok/en"; "名前"; repeat 129 "x"].

Definition test_encrypt_decrypt_roundtrip : bool :=
  let! key := from_env_value (H := clear_aead) "dev-master-key-change-me-000000000000000000000000" in
  let! enc := encrypt (H := clear_aead) key "twelve bytes" "hello world" in
  negb (assert_eq enc.1 "hello world")
  && match decrypt (H := clear_aead) key enc.1 enc.2 with
     | Returned plain => assert_eq plain (Ok "hello world")
     | Panicked => false
     end.
Definition test_rejects_short_master_key : bool := assert_err (from_env_value (H := clear_aead) "short").

Definition test_password_roundtrip : bool :=
  let! h := hash_password (H0 := clear_argon) "salt" "correct horse battery" in
  (let! b := verify_password (H0 := clear_argon) "correct horse battery" h in b)
  && (let! b := verify_password (H0 := clear_argon) "wrong" h in negb b).

Definition make_keys (issuer audience : string) : JwtKeys (H := bits_jwt) := mkKeys bits_jwt "k" "k" issuer audience.

Definition test_issue_and_verify_roundtrip : bool :=
  let keys := make_keys "mp-test" "mp-audience" in
  let! token := issue keys 0 42 7 "admin" in
  let! claims := verify keys 0 token in
  assert_eq (jc_sub claims) "42" && assert_eq (jc_org claims) 7 && assert_eq (jc_role claims) "admin".
Definition test_rejects_wrong_audience : bool :=
  let! token := issue (make_keys "mp-test" "aud-a") 0 1 1 "viewer" in
  assert_err (verify (make_keys "mp-test" "aud-b") 0 token).

Definition test_short_is_prefix : bool :=
  let full := repeat 64 "a" in assert_eq (short_fingerprint full) (String.substring 0 12 full).

Definition sample_tests : list (string * bool) :=
  [("samples_basic_csv_with_inferred_types", test_samples_basic_csv_with_inferred_types);
   ("detects_semicolon_delimiter", test_detects_semicolon_delimiter);
   ("marks_nullable_columns", test_marks_nullable_columns);
   ("csv_caps_rows_and_marks_truncated", test_csv_caps_rows_and_marks_truncated);
   ("csv_empty_input_errors", test_csv_empty_input_errors);
   ("samples_top_level_array", test_samples_top_level_array);
   ("samples_ndjson", test_samples_ndjson);
   ("unions_keys_across_rows", test_unions_keys_across_rows);
   ("nested_values_become_string", test_nested_values_become_string);
   ("json_caps_rows_and_marks_truncated", test_json_caps_rows_and_marks_truncated);
   ("json_empty_input_errors", test_json_empty_input_errors);
   ("samples_basic_records", test_samples_basic_records);
   ("surfaces_attributes_with_at_prefix", test_surfaces_attributes_with_at_prefix);
   ("xml_caps_rows_and_marks_truncated", test_xml_caps_rows_and_marks_truncated);
   ("missing_record_tag_errors", test_missing_record_tag_errors);
   ("custom_record_tag_works", test_custom_record_tag_works);
   ("empty_sample_is_string", test_empty_sample_is_string);
   ("pure_integers", test_pure_integers);
   ("floats_become_number_not_int", test_floats_become_number_not_int);
   ("booleans_strict_allowlist", test_booleans_strict_allowlist);
   ("iso_dates_and_rfc3339", test_iso_dates_and_rfc3339);
   ("one_bad_value_collapses_to_string", test_one_bad_value_collapses_to_string);
   ("empty_values_are_ignored_for_inference", test_empty_values_are_ignored_for_inference);
   ("generates_request_id_when_missing", test_generates_request_id_when_missing);
   ("echoes_incoming_request_id", test_echoes_incoming_request_id);
   ("attaches_security_headers", test_attaches_security_headers);
   ("secret_names_are_restricted", test_secret_names_are_restricted);
   ("encrypt_decrypt_roundtrip", test_encrypt_decrypt_roundtrip);
   ("rejects_short_master_key", test_rejects_short_master_key);
   ("password_roundtrip", test_password_roundtrip);
   ("issue_and_verify_roundtrip", test_issue_and_verify_roundtrip);
   ("rejects_wrong_audience", test_rejects_wrong_audience);
   ("short_is_prefix", test_short_is_prefix)].

Example sample_tests_pass : failures sample_tests = [].
Proof. vm_compute. reflexivity. Qed.
